(* ===== verification/_CoqProject ===== *)
-Q . S2P
Prelude.v
Effects.v
LimitedBody.v
Http.v
Net.v
NetParse.v
Rules.v
RuleCommon.v
Paths.v
Process.v
ShellRules.v
ProcRules.v
ProcLock.v
V8.v
JsRules.v
Engines.v
Proxy.v
ProxyTls.v
TlsHosts.v
Mediation.v
Concurrent.v
Tls.v
Server.v
Os.v
Nftables.v
Firewall.v
LinuxResources.v
Jail.v
Footprint.v
LinuxJail.v
ManagedJail.v
OrphanScan.v
Docker.v
WeakJail.v
Keychain.v
Dns.v
Bind.v
Main.v
Program.v
WeakRun.v
Trust.v
