(* ===== verification/Prelude.v ===== *)
(** * httpjail: a verification development

    httpjail runs a command in a jail whose only way out is a proxy, which asks
    a rule engine about every request.  This development models the program's
    own code under [src/src/] and proves what makes each part correct.

    ** How the program is modelled

    A part of the code that only computes is a function.  Code that talks to
    its environment is a program tree ([Effects.prog]) over a signature of
    operations, one branch per answer: [wp p Q] says that [Q] holds of the
    trace and the result whatever the environment answers, [possible] is the
    inductive semantics [wp] is complete for, and [run] executes.  The trees
    are finite, so an operation of the model ends in every environment; the
    code's unbounded loops take a fuel or a script (below).  Where threads share
    state their trees are interleaved operation by operation
    ([Effects.pool_step], [ManagedJail.exec]; [Effects.task_step] where a future
    may also be dropped).  [?] is [try], a loop with early
    return is [for_each] or [fold_each], a method on [&mut self] is [method].
    Integers are in [Z] with their wrap-around ([wrap_u64]) or saturation
    written out; strings are byte strings, with UTF-8 decoding where the code
    decodes.  A panic is a [None] or an [Err], as the definition says.
    A trait is a class: [Body], [RuleEngineTrait], [SystemResource], [Jail].

    ** Files, and the code they model

    - [Prelude]: results and errors, machine integers, Rust's string functions.
      [Effects]: the program trees and their laws, the shared tactic [wp_step].
    - [LimitedBody] ([limited_body.rs]): the request body that hands out at most
      a number of bytes.  [Http], [Net], [NetParse], [Paths], [Process]: what
      the code uses of [hyper], [std::net], [std::path], [std::process].
    - [Rules] ([rules.rs]), [RuleCommon] ([rules/common.rs]): the interface of a
      rule engine, the request log, the text protocol of the engines.
      [ShellRules] ([rules/shell.rs]), [ProcRules] ([rules/proc.rs]), [V8]
      ([rules/console_log.rs]) and [JsRules] ([rules/v8_js.rs]): the engines.
      [ProcLock] ([rules/proc.rs]): the line processor with its mutex, shared.
      [Engines] ([main.rs], [rules.rs]): the choice among them that the command
      line makes, their sum, and the dry run of one request.
    - [Proxy] ([proxy.rs]) and [ProxyTls] ([proxy_tls.rs]): the HTTP handler and
      the HTTPS port; they use an engine through [RuleEngineTrait] and limit
      bodies with [LimitedBody].  [Tls] ([tls.rs]): the CA and the certificates;
      [TlsHosts]: which certificate a connection asks for.  [Server]
      ([proxy.rs], [dangerous_verifier.rs]): the server made of them, its shared
      upstream client, its sockets and accept loops.  [Mediation]: what the
      proxy promises about every engine ([Promise]), kept by the configured one.
      [Concurrent]: any number of connections at once, over one line processor.
    - [Os] ([sys_resource.rs]): the operating system's operations, and resources
      released on drop; [Nftables] and [LinuxResources]
      ([jail/linux/nftables.rs], [jail/linux/resources.rs]): those of a jail.
      Two specifications that model no code: [Firewall], what a ruleset of the
      jail's kind does to a new connection; [Footprint], what a trace creates,
      tells the system to remove, and leaves standing.
    - [Jail] ([jail/mod.rs]): the interface of a jail; [LinuxJail]
      ([jail/linux/mod.rs]), [Docker] ([jail/linux/docker.rs]), [WeakJail]
      ([jail/weak.rs]) implement it, and [ManagedJail] ([jail/managed.rs]) wraps
      any jail that keeps [JailLaws]: its canary, its heartbeat thread, the
      sweep of other jails' remains.  [Dns] ([jail/linux/dns.rs]): the server a
      jail's names are resolved by.
    - [Keychain] ([macos_keychain.rs]): trusting the CA on macOS; [Trust]
      ([main.rs]): the command that does so.
    - [Bind], [OrphanScan], [Main], [Program] ([main.rs]): where the proxy
      listens, the orphan cleanup command, the life of a jail around a command,
      and the whole program: engine, proxy, jail, command, in the code's order.
      [WeakRun]: the whole program in weak mode.

    ** What the theorems show

    - Mediation: [ProxyTls.connections_mediated] (over whole connections of both
      ports), [Proxy.http_request_mediated] and [http_request_answers],
      [ProxyTls.connect_tunnel_outcome], [detect_protocol_correct],
      [connect_headers_terminate]: nothing goes upstream that the engine did not
      permit, and every branch's answer.  [Mediation.configured_rules_mediate]
      says what a permission is for each engine the command line can choose: the
      exit of the script, the line of the processor, the value of the
      JavaScript; [no_rules_nothing_sent]: without a rule nothing is permitted.
    - TLS: [TlsHosts.tls_session_bound_to_host], the certificate and the requests
      of a connection are those of one host, and
      [Server.upstream_certificates_verified], unless the variable that turns
      verification off is set.
    - The whole program: [Program.command_runs_behind_proxy], no command before
      the sockets serve and the filter that leads to the very ports they got and
      nowhere else is loaded; [main_fails_closed], none at all when the rules
      cannot be loaded or in a dry run; [Main.linux_run_leaves_nothing];
      [WeakRun.weak_command_reaches_proxy].
    - Limits: [LimitedBody.limited_body_takes_limit] and
      [limited_body_transparent_then_closed], [Proxy.byte_limit_enforced], which
      counts the text of the message before the body, not what the code adds up.
    - Loops: [Proxy.forwarded_request_not_forwarded_again] over HTTP, and
      [ProxyTls.https_loop_not_detected], which shows that TLS has no such guard.
    - Rules: [RuleCommon.interpret_permits_iff], the text protocol against an
      independent table ([says]), and, for each engine, exactly when it permits,
      for JavaScript by the steps of a script ([js_runs]) and the documented
      conversion of its value ([js_text]); the child of the line processor over any sequence of
      requests ([ProcRules.proc_requests_matched]) and under any number of
      interleaved connections ([Concurrent.connections_share_processor]);
      concurrent and dropped reloads of the JavaScript rule
      ([JsRules.js_concurrent_reloads]) and, in a quiet environment, exactly when
      there is a reload ([js_evaluate_reloads]); the agreement of the two text
      engines ([js_proc_parity]).
    - A dropped request: [ProcLock.dropped_request_shifts_answers] shows what
      [connections_share_processor] excludes, an evaluation dropped while its
      child is about to answer.
    - Certificates: [Tls.certificates_match_hosts] over concurrent connections,
      [ca_key_survives_restart], [validity_dates].
    - Jails: addresses and names ([LinuxJail.jail_subnet_is_a_block],
      [fresh_names_fit]); all that a setup creates, what a cleanup tells the
      system to remove, and what is left when the system does as told
      ([linux_jail_leaks_nothing], [Docker.docker_jail_reclaims]: the placeholder
      of [systemd-resolved]'s name is); what the filter lets out
      ([linux_setup_success]); what is run in a jail
      ([Docker.docker_runs_in_its_network], [WeakJail.weak_child_uses_proxy]);
      the DNS server's answers ([Dns.dns_answers_are_dummy]).
    - Lifecycle: the orphan sweep, the heartbeat next to its owner and the end of
      a jail in every interleaving ([ManagedJail]) and the cleanup
      command ([OrphanScan]).
    - Configuration: [Bind.bind_value_roundtrip], [proxy_listens_where_expected];
      [Keychain.keychain_changes], [Trust.install_keeps_existing_ca].

    ** Fuel and bounds

    [Dns.run_dns_server] and [ProxyTls.read_connect_headers] run for as many
    turns as their fuel says.  The server's theorem holds for every fuel, as the
    loop has no end of its own; [connect_headers_terminate] gives the fuel that
    is enough for the lines sent.  The accept loops and the connections are
    driven by the list of what arrives.  [polls] drives a body for a number of
    polls, over all numbers.  The heartbeat's loop is a transition relation, and
    [heartbeat_stops] is its termination.  The fuel of [hex_go] is 16, the
    digits of 64 bits.

    ** Not modelled

    - Libraries are class parameters with the laws relied on: [hyper] header
      maps and URIs, the TLS handshake, [serde_json] and [url] ([RuleCommon]),
      V8 ([V8]), [rcgen] and [lru] ([Tls]), [simple_dns] ([Dns]), the hash
      function ([LinuxJail.DefaultHasher]).  Instances show that the laws can
      hold.
    - What [ip], [nft], [docker], [security] and the kernel do when told: traces
      say what they were told.  Two readings of that are specified, and the
      theorems that use them say so.  [Firewall] gives the rulesets' grammar a
      meaning (first verdict of a chain, then its policy; the address rewritten
      before the filter), for new IPv4 packets, as the tables are [table ip].
      [Footprint.obeys] says that what stands goes when the system is told to
      remove it, which no environment need do; the theorems under it take ids of
      the program's alphabet ([valid_id]), as all fresh ones are.
    - Whether a JavaScript rule ends.  A command that outlives its timeout: it was
      started, but what it does, and its exit, are not in the trace.  The scope of
      an IPv6 address.  The chunk framing that hyper adds to a body without a
      declared length.
    - [Os.StartDns] and [StopDns] stand, in the jail's traces, for the server
      [Dns] models.
    - A connection's own theorems start from any state of the engine that earlier
      requests can reach.  For the script and the JavaScript engine this covers
      connections at once, as an evaluation keeps nothing but the code's cell,
      whose content is the environment's answer; for the line processor
      [Concurrent] interleaves them.  When hyper drops a request's future (it
      does when the client closes its connection) is hyper's matter.
    - Argument parsing (generated by [clap], its refused combinations included),
      the setup of logging, log lines below the request log, the choice of the
      macOS jail, the tests and their support. *)

From stdpp Require Export base tactics option numbers list strings pretty relations.
From Stdlib Require Export ZArith Lia.
From Stdlib Require Import Ascii.

(** ** Scope and notation *)

Declare Scope rust_scope.
Delimit Scope rust_scope with rust.
Open Scope Z_scope.
Open Scope stdpp_scope.

(** ** Fallible code: [Result] and [anyhow::Error] *)

Inductive Result (A E : Type) : Type :=
| Ok (a : A)
| Err (e : E).
Arguments Ok {A E} a.
Arguments Err {A E} e.

(** [anyhow::Error]: a message, under the contexts that were wrapped around it. *)
Inductive Error : Type :=
| Msg (m : string)
| WithContext (c : string) (cause : Error).

(** [Display] of an error: the outermost message. *)
Definition error_to_string (e : Error) : string :=
  match e with Msg m => m | WithContext c _ => c end.

Module Result.

Definition is_ok {A E} (r : Result A E) : bool :=
  match r with Ok _ => true | Err _ => false end.

Definition is_err {A E} (r : Result A E) : bool := negb (is_ok r).

Definition ok {A E} (r : Result A E) : option A :=
  match r with Ok a => Some a | Err _ => None end.

Definition map {A B E} (f : A -> B) (r : Result A E) : Result B E :=
  match r with Ok a => Ok (f a) | Err e => Err e end.

Definition map_err {A E F} (f : E -> F) (r : Result A E) : Result A F :=
  match r with Ok a => Ok a | Err e => Err (f e) end.

Definition and_then {A B E} (r : Result A E) (f : A -> Result B E) : Result B E :=
  match r with Ok a => f a | Err e => Err e end.

Definition unwrap_or {A E} (r : Result A E) (d : A) : A :=
  match r with Ok a => a | Err _ => d end.

(** [Context::context] on a result and on an option. *)
Definition context {A} (c : string) (r : Result A Error) : Result A Error :=
  map_err (WithContext c) r.

Definition ok_or {A E} (o : option A) (e : E) : Result A E :=
  match o with Some a => Ok a | None => Err e end.

End Result.

Notation "'let?' x ':=' r 'in' k" :=
  (Result.and_then r (fun x => k))
  (at level 10, x pattern, r at level 100, k at level 200) : rust_scope.

(** ** Machine integers

    A [w]-bit unsigned integer is the [Z] it denotes; arithmetic that can wrap
    is written with the wrap. *)

Definition u8_max : Z := 2 ^ 8 - 1.
Definition u16_max : Z := 2 ^ 16 - 1.
Definition u32_max : Z := 2 ^ 32 - 1.
Definition u64_max : Z := 2 ^ 64 - 1.

Definition is_u8 (n : Z) : Prop := 0 <= n <= u8_max.
Definition is_u16 (n : Z) : Prop := 0 <= n <= u16_max.
Definition is_u64 (n : Z) : Prop := 0 <= n <= u64_max.

Definition wrap_u8 (n : Z) : Z := n mod 2 ^ 8.
Definition wrap_u32 (n : Z) : Z := n mod 2 ^ 32.
Definition wrap_u64 (n : Z) : Z := n mod 2 ^ 64.

Definition saturating_sub (a b : Z) : Z := Z.max 0 (a - b).
Definition saturating_add_u8 (a b : Z) : Z := Z.min u8_max (a + b).

(** ** Strings

    A Rust [str] is its UTF-8 bytes, one [ascii] each, so [String.length] is
    [str::len]. *)

Definition byte (n : nat) : string := String (ascii_of_nat n) "".
Definition LF : string := byte 10.
Definition CR : string := byte 13.
Definition CRLF : string := CR +:+ LF.
Definition dquote : string := byte 34.

Definition len (s : string) : Z := Z.of_nat (String.length s).

Definition is_empty (s : string) : bool :=
  match s with EmptyString => true | _ => false end.

Definition starts_with (s p : string) : bool := String.prefix p s.

Fixpoint strip_prefix (p s : string) : option string :=
  match p, s with
  | EmptyString, _ => Some s
  | String a p', String b s' => if Ascii.eqb a b then strip_prefix p' s' else None
  | String _ _, EmptyString => None
  end.

Fixpoint contains (s p : string) : bool :=
  String.prefix p s ||
  match s with EmptyString => false | String _ s' => contains s' p end.

Fixpoint contains_char (c : ascii) (s : string) : bool :=
  match s with
  | EmptyString => false
  | String a s' => Ascii.eqb a c || contains_char c s'
  end.

(** [str::split(c)] for a char pattern: one more piece than there are [c]s. *)
Fixpoint split_on (c : ascii) (s : string) : list string :=
  match s with
  | EmptyString => [EmptyString]
  | String a s' =>
      if Ascii.eqb a c then EmptyString :: split_on c s'
      else match split_on c s' with
           | [] => [String a EmptyString]
           | w :: ws => String a w :: ws
           end
  end.

(** [[String]::join]. *)
Fixpoint join (sep : string) (l : list string) : string :=
  match l with
  | [] => ""
  | [x] => x
  | x :: l' => x +:+ sep +:+ join sep l'
  end.

(** [String::from_iter] over string pieces. *)
Definition concat_strings (l : list string) : string := join "" l.

Definition byte_in (lo hi : nat) (a : ascii) : bool :=
  (Nat.leb lo (nat_of_ascii a) && Nat.leb (nat_of_ascii a) hi)%bool.

Definition byte_eq (n : nat) (a : ascii) : bool := Nat.eqb (nat_of_ascii a) n.

(** [char::is_whitespace] (Unicode White_Space), by the length of the UTF-8
    encoding: one byte, two bytes (U+0085, U+00A0), three bytes (U+1680,
    U+2000..U+200A, U+2028, U+2029, U+202F, U+205F, U+3000). *)
Definition ws1 (a : ascii) : bool := byte_in 9 13 a || byte_eq 32 a.
Definition ws2 (a b : ascii) : bool :=
  byte_eq 194 a && (byte_eq 133 b || byte_eq 160 b).
Definition ws3 (a b c : ascii) : bool :=
  (byte_eq 225 a && byte_eq 154 b && byte_eq 128 c) ||
  (byte_eq 226 a && byte_eq 128 b &&
     (byte_in 128 138 c || byte_eq 168 c || byte_eq 169 c || byte_eq 175 c)) ||
  (byte_eq 226 a && byte_eq 129 b && byte_eq 159 c) ||
  (byte_eq 227 a && byte_eq 128 b && byte_eq 128 c).

Section Whitespace.
Variable w2 : ascii -> ascii -> bool.
Variable w3 : ascii -> ascii -> ascii -> bool.

Fixpoint trim_with (s : string) : string :=
  match s with
  | EmptyString => EmptyString
  | String a r =>
      if ws1 a then trim_with r
      else match r with
           | String b r2 =>
               if w2 a b then trim_with r2
               else match r2 with
                    | String c r3 => if w3 a b c then trim_with r3 else s
                    | EmptyString => s
                    end
           | EmptyString => s
           end
  end.

End Whitespace.

Definition trim_start (s : string) : string := trim_with ws2 ws3 s.
Definition trim_end (s : string) : string :=
  String.rev (trim_with (fun a b => ws2 b a) (fun a b c => ws3 c b a) (String.rev s)).

(** [str::trim]. *)
Definition trim (s : string) : string := trim_end (trim_start s).

Definition flush_word (w : string) (ws : list string) : list string :=
  if is_empty w then ws else w :: ws.

Fixpoint split_ws_from (w s : string) : list string :=
  match s with
  | EmptyString => flush_word w []
  | String a r =>
      if ws1 a then flush_word w (split_ws_from "" r)
      else match r with
           | String b r2 =>
               if ws2 a b then flush_word w (split_ws_from "" r2)
               else match r2 with
                    | String c r3 =>
                        if ws3 a b c then flush_word w (split_ws_from "" r3)
                        else split_ws_from (w +:+ String a "") r
                    | EmptyString => split_ws_from (w +:+ String a "") r
                    end
           | EmptyString => split_ws_from (w +:+ String a "") r
           end
  end.

(** [str::split_whitespace]. *)
Definition split_whitespace (s : string) : list string := split_ws_from "" s.

Fixpoint map_string (f : ascii -> ascii) (s : string) : string :=
  match s with
  | EmptyString => EmptyString
  | String a r => String (f a) (map_string f r)
  end.

Definition ascii_upper (a : ascii) : ascii :=
  if byte_in 97 122 a then ascii_of_nat (nat_of_ascii a - 32) else a.
Definition ascii_lower (a : ascii) : ascii :=
  if byte_in 65 90 a then ascii_of_nat (nat_of_ascii a + 32) else a.

Definition to_ascii_uppercase : string -> string := map_string ascii_upper.
Definition to_ascii_lowercase : string -> string := map_string ascii_lower.

Definition strip_cr (l : string) : string :=
  match String.rev l with
  | String a r => if byte_eq 13 a then String.rev r else l
  | EmptyString => l
  end.

Fixpoint drop_last_empty (l : list string) : list string :=
  match l with
  | [] => []
  | [x] => if is_empty x then [] else [x]
  | x :: l' => x :: drop_last_empty l'
  end.

(** [str::lines]: split at LF, a CR before it dropped, no empty last line. *)
Definition lines (s : string) : list string :=
  strip_cr <$> drop_last_empty (split_on (ascii_of_nat 10) s).

Fixpoint string_take (n : nat) (s : string) : string :=
  match n, s with
  | S n', String a r => String a (string_take n' r)
  | _, _ => EmptyString
  end.

(** ** UTF-8

    The scan of a byte string into characters, [None] for each maximal invalid
    piece, as [String::from_utf8_lossy] replaces them. *)

Definition utf8_cont (a : ascii) : bool := byte_in 128 191 a.

(** The bytes that may follow the first byte [a] of a longer encoding. *)
Definition utf8_second (a b : ascii) : bool :=
  if byte_in 194 223 a then utf8_cont b
  else if byte_eq 224 a then byte_in 160 191 b
  else if byte_eq 237 a then byte_in 128 159 b
  else if byte_in 225 239 a then utf8_cont b
  else if byte_eq 240 a then byte_in 144 191 b
  else if byte_in 241 243 a then utf8_cont b
  else if byte_eq 244 a then byte_in 128 143 b
  else false.

Fixpoint utf8_scan (s : string) : list (option string) :=
  match s with
  | EmptyString => []
  | String a r =>
      if byte_in 0 127 a then Some (String a "") :: utf8_scan r
      else match r with
      | EmptyString => [None]
      | String b r2 =>
          if negb (utf8_second a b) then None :: utf8_scan r
          else if byte_in 194 223 a then Some (String a (String b "")) :: utf8_scan r2
          else match r2 with
          | EmptyString => [None]
          | String c r3 =>
              if negb (utf8_cont c) then None :: utf8_scan r2
              else if byte_in 224 239 a
              then Some (String a (String b (String c ""))) :: utf8_scan r3
              else match r3 with
              | EmptyString => [None]
              | String d r4 =>
                  if negb (utf8_cont d) then None :: utf8_scan r3
                  else Some (String a (String b (String c (String d "")))) :: utf8_scan r4
              end
          end
      end
  end.

(** [str::from_utf8]: the bytes, when they are UTF-8. *)
Definition from_utf8 (s : string) : option string :=
  if forallb (fun c => match c with Some _ => true | None => false end) (utf8_scan s)
  then Some s else None.

(** U+FFFD. *)
Definition replacement : string := byte 239 +:+ byte 191 +:+ byte 189.

Definition from_utf8_lossy (s : string) : string :=
  concat_strings (default replacement <$> utf8_scan s).

(** [s.chars().take(n).collect()] of a [str]. *)
Definition chars_take (n : nat) (s : string) : string :=
  concat_strings (take n (default replacement <$> utf8_scan s)).

(** ** Numbers in text *)

(** [{}] of an unsigned integer. *)
Definition dec (n : Z) : string := pretty n.

Definition digit (a : ascii) : option Z :=
  if byte_in 48 57 a then Some (Z.of_nat (nat_of_ascii a) - 48) else None.

Fixpoint parse_digits (max acc : Z) (s : string) : option Z :=
  match s with
  | EmptyString => Some acc
  | String a r =>
      d ← digit a;
      let acc' := acc * 10 + d in
      if max <? acc' then None else parse_digits max acc' r
  end.

(** [str::parse] to an unsigned integer type with largest value [max]: an
    optional plus sign, then one digit or more, failing on overflow. *)
Definition parse_uint (max : Z) (s : string) : option Z :=
  match s with
  | EmptyString => None
  | String a r =>
      if byte_eq 43 a
      then (if is_empty r then None else parse_digits max 0 r)
      else parse_digits max 0 s
  end.

Definition parse_u64 : string -> option Z := parse_uint u64_max.
Definition parse_u16 : string -> option Z := parse_uint u16_max.

Definition hex_digit (d : Z) : ascii :=
  if d <? 10 then ascii_of_nat (48 + Z.to_nat d) else ascii_of_nat (87 + Z.to_nat d).

Fixpoint hex_go (fuel : nat) (n : Z) (acc : string) : string :=
  match fuel with
  | O => acc
  | S f =>
      let acc' := String (hex_digit (n mod 16)) acc in
      if n <? 16 then acc' else hex_go f (n / 16) acc'
  end.

(** [{:x}] of a [u64]: at most sixteen digits. *)
Definition hex_u64 (n : Z) : string := hex_go 16 n "".

(** ** Tactics *)

(** Splits every boolean test and option match of the goal and hypotheses. *)
Ltac split_match :=
  match goal with
  | |- context [match ?x with _ => _ end] => destruct x eqn:?
  | H : context [match ?x with _ => _ end] |- _ => destruct x eqn:?
  end.

(** Turns boolean comparisons into propositions on [Z]. *)
Ltac bools :=
  repeat match goal with
  | H : (_ && _)%bool = true |- _ => apply andb_prop in H as [? ?]
  | H : (_ || _)%bool = false |- _ => apply orb_false_elim in H as [? ?]
  | H : (_ <? _) = true |- _ => apply Z.ltb_lt in H
  | H : (_ <? _) = false |- _ => apply Z.ltb_ge in H
  | H : (_ <=? _) = true |- _ => apply Z.leb_le in H
  | H : (_ <=? _) = false |- _ => apply Z.leb_gt in H
  | H : (_ =? _) = true |- _ => apply Z.eqb_eq in H
  | H : (_ =? _) = false |- _ => apply Z.eqb_neq in H
  | H : String.eqb _ _ = true |- _ => apply String.eqb_eq in H
  | H : String.eqb _ _ = false |- _ => apply String.eqb_neq in H
  | H : Ascii.eqb _ _ = true |- _ => apply Ascii.eqb_eq in H
  | H : Ascii.eqb _ _ = false |- _ => apply Ascii.eqb_neq in H
  | H : negb _ = true |- _ => apply negb_true_iff in H
  | H : negb _ = false |- _ => apply negb_false_iff in H
  end.

(** Unfolds the integer bounds before [lia]. *)
Ltac ulia :=
  unfold is_u8, is_u16, is_u64, u8_max, u16_max, u32_max, u64_max,
    saturating_sub, saturating_add_u8 in *; lia.

(** ** Lemmas on strings *)

Lemma append_nil_r (s : string) : s +:+ "" = s.
Proof. induction s as [|a s IH]; [done|]. change (String a (s +:+ "") = String a s). by rewrite IH. Qed.

Lemma append_cons (a : ascii) (s t : string) : String a s +:+ t = String a (s +:+ t).
Proof. done. Qed.

Lemma append_assoc (s t u : string) : (s +:+ t) +:+ u = s +:+ t +:+ u.
Proof. induction s as [|a s IH]; [done|]. by rewrite !append_cons, IH. Qed.

Lemma length_append (s t : string) :
  String.length (s +:+ t) = (String.length s + String.length t)%nat.
Proof. induction s as [|a s IH]; [done|]. rewrite append_cons. simpl. by rewrite IH. Qed.

Lemma len_append (s t : string) : len (s +:+ t) = len s + len t.
Proof. unfold len. rewrite length_append. lia. Qed.

Lemma len_nonneg (s : string) : 0 <= len s.
Proof. unfold len. lia. Qed.

Lemma append_inj_r (s t u : string) : s +:+ u = t +:+ u -> s = t.
Proof.
  revert t. induction s as [|a s IH]; intros [|b t] H; [done| | |].
  - apply (f_equal String.length) in H. rewrite !length_append in H. simpl in H. lia.
  - apply (f_equal String.length) in H. rewrite !length_append in H. simpl in H. lia.
  - rewrite !append_cons in H. injection H as -> H. f_equal. by apply IH.
Qed.

Lemma prefix_append (p s : string) : String.prefix p (p +:+ s) = true.
Proof.
  induction p as [|a p IH]; [by destruct s|].
  rewrite append_cons. simpl. destruct (ascii_dec a a); [done|congruence].
Qed.

Lemma prefix_spec (p s : string) : String.prefix p s = true <-> exists t, s = p +:+ t.
Proof.
  split; [|intros [t ->]; apply prefix_append].
  revert s. induction p as [|a p IH]; intros s H; [by exists s|].
  destruct s as [|b s]; [done|]. simpl in H. destruct (ascii_dec a b) as [->|]; [|done].
  apply IH in H as [t ->]. by exists t.
Qed.

Lemma strip_prefix_spec (p s t : string) : strip_prefix p s = Some t <-> s = p +:+ t.
Proof.
  revert s. induction p as [|a p IH]; intros s; simpl; [split; [by intros [= ->]|by intros ->]|].
  destruct s as [|b s]; [split; [done|discriminate]|].
  destruct (Ascii.eqb a b) eqn:E; bools; subst.
  - rewrite IH, append_cons. split; [by intros ->|by intros [= ->]].
  - rewrite append_cons. split; [done|intros [= -> _]; congruence].
Qed.

Lemma append_nil_l (s : string) : "" +:+ s = s.
Proof. done. Qed.

Lemma contains_append_r (s p t : string) : contains (s +:+ p +:+ t) p = true.
Proof.
  induction s as [|a s IH].
  - rewrite append_nil_l. pose proof (prefix_append p t) as H.
    destruct (p +:+ t) as [|b u]; simpl in *; by rewrite H.
  - rewrite append_cons. simpl. rewrite IH. by rewrite orb_true_r.
Qed.

Lemma rev_app_append (s t u : string) : String.rev_app (s +:+ t) u = String.rev_app t (String.rev_app s u).
Proof. revert u. induction s as [|a s IH]; intros u; [done|]. rewrite append_cons. simpl. apply IH. Qed.

Lemma rev_app_acc (s u : string) : String.rev_app s u = String.rev s +:+ u.
Proof.
  revert u. induction s as [|a s IH]; intros u; [done|].
  unfold String.rev. simpl. rewrite IH, (IH (String a "")), append_assoc. done.
Qed.

Lemma rev_append (s t : string) : String.rev (s +:+ t) = String.rev t +:+ String.rev s.
Proof. unfold String.rev at 1. by rewrite rev_app_append, rev_app_acc. Qed.

Lemma rev_rev (s : string) : String.rev (String.rev s) = s.
Proof.
  induction s as [|a s IH]; [done|].
  change (String a s) with (String a "" +:+ s). by rewrite !rev_append, IH.
Qed.

(** ** Trimming *)

Section Trimming.
Context (w2 : ascii -> ascii -> bool) (w3 : ascii -> ascii -> ascii -> bool).

(** Strong induction along the three ways [trim_with] recurses. *)
Lemma trim_ind (P : string -> Prop) :
  (forall s, (forall t, (String.length t < String.length s)%nat -> P t) -> P s) -> forall s, P s.
Proof.
  intros H s. remember (String.length s) as n eqn:E. revert s E.
  induction (lt_wf n) as [n _ IH]. intros s ->. apply H. intros t Ht. by eapply IH.
Qed.

Lemma trim_with_suffix s : exists p, s = p +:+ trim_with w2 w3 s.
Proof.
  induction s as [s IH] using trim_ind.
  destruct s as [|a [|b [|c r]]]; simpl in *.
  - by exists "".
  - destruct (ws1 a); [by exists (String a "")|by exists ""].
  - destruct (ws1 a).
    { destruct (IH (String b "")) as [p Hp]; [simpl; lia|]. exists (String a p).
      rewrite append_cons. f_equal. exact Hp. }
    destruct (w2 a b); [by exists (String a (String b ""))|by exists ""].
  - destruct (ws1 a).
    { destruct (IH (String b (String c r))) as [p Hp]; [simpl; lia|]. exists (String a p).
      rewrite append_cons. f_equal. exact Hp. }
    destruct (w2 a b).
    { destruct (IH (String c r)) as [p Hp]; [simpl; lia|]. exists (String a (String b p)).
      rewrite !append_cons. do 2 f_equal. exact Hp. }
    destruct (w3 a b c); [|by exists ""].
    destruct (IH r) as [p Hp]; [simpl; lia|]. exists (String a (String b (String c p))).
    rewrite !append_cons. do 3 f_equal. exact Hp.
Qed.

Lemma trim_with_idemp s : trim_with w2 w3 (trim_with w2 w3 s) = trim_with w2 w3 s.
Proof.
  induction s as [s IH] using trim_ind.
  destruct s as [|a r]; [done|]. cbn [trim_with].
  destruct (ws1 a) eqn:E1; [apply IH; simpl; lia|].
  destruct r as [|b r2]; [cbn [trim_with]; by rewrite E1|].
  destruct (w2 a b) eqn:E2; [apply IH; simpl; lia|].
  destruct r2 as [|c r3]; [cbn [trim_with]; by rewrite E1, E2|].
  destruct (w3 a b c) eqn:E3; [apply IH; simpl; lia|].
  cbn [trim_with]. by rewrite E1, E2, E3.
Qed.

(** A prefix of a string that starts with no whitespace starts with none. *)
Lemma trim_with_prefix p q : trim_with w2 w3 (p +:+ q) = p +:+ q -> trim_with w2 w3 p = p.
Proof.
  assert (Hlen : forall s a t, trim_with w2 w3 s = String a t +:+ s -> False).
  { intros s a t H. destruct (trim_with_suffix s) as [u Hu]. rewrite H in Hu.
    apply (f_equal String.length) in Hu. rewrite !length_append in Hu. simpl in Hu. lia. }
  destruct p as [|a r]; [done|]. rewrite append_cons. cbn [trim_with].
  destruct (ws1 a) eqn:E1.
  { intros H. exfalso. exact (Hlen _ a "" H). }
  destruct r as [|b r2]; [done|]. rewrite append_cons. cbn [trim_with].
  destruct (w2 a b) eqn:E2.
  { intros H. exfalso. exact (Hlen _ a (String b "") H). }
  destruct r2 as [|c r3]; [done|]. rewrite append_cons. cbn [trim_with].
  destruct (w3 a b c) eqn:E3; [|done].
  intros H. exfalso. exact (Hlen _ a (String b (String c "")) H).
Qed.

End Trimming.

Lemma trim_end_prefix s : exists q, s = trim_end s +:+ q.
Proof.
  unfold trim_end. set (w := trim_with _ _ _).
  destruct (trim_with_suffix (fun a b => ws2 b a) (fun a b c => ws3 c b a) (String.rev s)) as [p Hp].
  fold w in Hp. exists (String.rev p).
  rewrite <- (rev_rev s) at 1. rewrite Hp, rev_append. done.
Qed.

(** [s.trim().trim() == s.trim()]. *)
Lemma trim_idemp s : trim (trim s) = trim s.
Proof.
  unfold trim. set (y := trim_start s).
  assert (Hy : trim_start y = y) by apply trim_with_idemp.
  assert (He : trim_start (trim_end y) = trim_end y).
  { destruct (trim_end_prefix y) as [q Hq]. apply (trim_with_prefix _ _ _ q).
    rewrite <- Hq. exact Hy. }
  rewrite He. unfold trim_end. by rewrite rev_rev, trim_with_idemp.
Qed.

(** ** Numbers: parsing what was printed *)

Lemma digit_pretty_char (x : N) : (x < 10)%N -> digit (pretty_N_char x) = Some (Z.of_N x).
Proof.
  intros H. assert (x = 0 \/ x = 1 \/ x = 2 \/ x = 3 \/ x = 4 \/ x = 5 \/ x = 6 \/ x = 7
                    \/ x = 8 \/ x = 9)%N as Hx by lia.
  by repeat destruct Hx as [->|Hx]; subst.
Qed.

Lemma parse_pretty_N_go (max : Z) (x : N) (s : string) :
  Z.of_N x <= max ->
  parse_digits max 0 (pretty_N_go x s) = parse_digits max (Z.of_N x) s.
Proof.
  revert s. induction (N.lt_wf_0 x) as [x _ IH]. intros s H.
  destruct (decide (x = 0)%N) as [->|]; [by rewrite pretty_N_go_0|].
  rewrite pretty_N_go_step by lia. rewrite IH; [| apply N.div_lt; lia | pose proof (N.div_lt x 10); lia].
  cbn [parse_digits]. rewrite digit_pretty_char by (apply N.mod_lt; lia).
  cbn [mbind option_bind].
  pose proof (N.div_mod x 10 ltac:(done)) as Hx.
  replace (Z.of_N (x `div` 10) * 10 + Z.of_N (x `mod` 10)) with (Z.of_N x) by lia.
  by destruct (max <? Z.of_N x) eqn:E; bools; [lia|].
Qed.

Lemma pretty_char_not_plus (x : N) : byte_eq 43 (pretty_N_char x) = false.
Proof. unfold pretty_N_char. by repeat case_match. Qed.

Lemma pretty_N_go_cons (x : N) (a : ascii) (s : string) :
  byte_eq 43 a = false ->
  forall c r, pretty_N_go x (String a s) = String c r -> byte_eq 43 c = false.
Proof.
  revert a s. induction (N.lt_wf_0 x) as [x _ IH]. intros a s H c r.
  destruct (decide (x = 0)%N) as [->|]; [rewrite pretty_N_go_0; by intros [= <- _]|].
  rewrite pretty_N_go_step by lia. intros E.
  refine (IH _ _ _ _ _ c r E); [apply N.div_lt; lia|apply pretty_char_not_plus].
Qed.

Lemma dec_nonneg (n : Z) : 0 <= n -> dec n = pretty (Z.to_N n).
Proof. unfold dec. intros H. destruct n; [done|done|lia]. Qed.

Lemma parse_digits_dec (max n : Z) : 0 <= n <= max -> parse_digits max 0 (dec n) = Some n.
Proof.
  intros H. rewrite dec_nonneg by lia. unfold pretty, pretty_N.
  destruct (decide (Z.to_N n = 0)%N) as [E|E].
  - assert (n = 0) as -> by lia. cbn [parse_digits]. change (digit "0"%char) with (Some 0).
    cbn [mbind option_bind]. destruct (max <? 0 * 10 + 0) eqn:F; [bools; lia|done].
  - rewrite parse_pretty_N_go by lia. simpl. f_equal. lia.
Qed.

Lemma dec_cons (n : Z) : 0 <= n -> exists c r, dec n = String c r /\ byte_eq 43 c = false.
Proof.
  intros H. rewrite dec_nonneg by lia. unfold pretty, pretty_N.
  destruct (decide (Z.to_N n = 0)%N) as [E|E]; [by eexists _, _|].
  destruct (pretty_N_go (Z.to_N n) "") as [|c r] eqn:F.
  - pose proof (parse_pretty_N_go n (Z.to_N n) "" ltac:(lia)) as Hp. rewrite F in Hp.
    simpl in Hp. injection Hp as Hp. lia.
  - exists c, r. split; [done|]. rewrite pretty_N_go_step in F by lia.
    exact (pretty_N_go_cons _ _ _ (pretty_char_not_plus _) c r F).
Qed.

(** [n.to_string().parse() == Ok(n)]. *)
Lemma parse_uint_dec (max n : Z) : 0 <= n <= max -> parse_uint max (dec n) = Some n.
Proof.
  intros H. pose proof (parse_digits_dec max n H) as Hp.
  destruct (dec_cons n ltac:(lia)) as (c & r & E & Hc). rewrite E in *. unfold parse_uint. by rewrite Hc.
Qed.

Lemma parse_digits_bounds (max : Z) (s : string) : forall acc n,
  0 <= acc <= max -> parse_digits max acc s = Some n -> 0 <= n <= max.
Proof.
  induction s as [|a s IH]; simpl; intros acc n Hacc H; [by simplify_eq|].
  destruct (digit a) as [d|] eqn:Ed; [|done]. simpl in H.
  destruct (max <? acc * 10 + d) eqn:E; [done|]. bools.
  apply IH in H; [done|]. unfold digit, byte_in in Ed.
  destruct (_ && _)%bool eqn:Eb; [|done]. bools.
  apply Nat.leb_le in H0. simplify_eq. lia.
Qed.

(** A parsed unsigned integer fits its type. *)
Lemma parse_uint_bounds (max n : Z) (s : string) :
  0 <= max -> parse_uint max s = Some n -> 0 <= n <= max.
Proof.
  unfold parse_uint. intros Hm H. destruct s as [|a r]; [done|].
  destruct (byte_eq 43 a); [destruct (is_empty r); [done|]|];
    (eapply parse_digits_bounds; [|exact H]; lia).
Qed.

Lemma join_nil_cons x l : concat_strings (x :: l) = x +:+ concat_strings l.
Proof. unfold concat_strings. destruct l; simpl; [by rewrite append_nil_r|done]. Qed.

(** *** Splitting at a character *)

Lemma split_on_first c s : exists p ps, split_on c s = p :: ps /\ contains_char c p = false.
Proof.
  induction s as [|a s (p & ps & E & Hp)]; simpl; [by eexists _, _|].
  destruct (Ascii.eqb a c) eqn:Ea; [by eexists _, _|]. rewrite E. eexists _, _. split; [done|].
  simpl. by rewrite Ea.
Qed.

Lemma split_on_prefix c h p :
  contains_char c h = false -> head (split_on c (h +:+ String c p)) = Some h.
Proof.
  induction h as [|a h IH]; intros Hh.
  - simpl. by rewrite Ascii.eqb_refl.
  - rewrite append_cons. simpl in *. apply orb_false_elim in Hh as [Ha Hh]. rewrite Ha.
    specialize (IH Hh). destruct (split_on c (h +:+ String c p)); [done|].
    simpl in *. by simplify_eq.
Qed.

Lemma contains_char_append c h p : contains_char c (h +:+ String c p) = true.
Proof.
  induction h as [|a h IH]; [simpl; by rewrite Ascii.eqb_refl|].
  rewrite append_cons. simpl. by rewrite IH, orb_true_r.
Qed.

(** ** What comes before what

    [precedes f Q t]: whatever element of [t] stands for some [b], what precedes
    it satisfies [Q] for [b]. *)

Definition precedes {A B} (f : A -> option B) (Q : list A -> B -> Prop) (t : list A) : Prop :=
  forall pre e post b, t = pre ++ e :: post -> f e = Some b -> Q pre b.

Section Precedes.
Context {A B : Type} (f : A -> option B) (Q : list A -> B -> Prop).

Lemma precedes_none t : omap f t = [] -> precedes f Q t.
Proof.
  intros Ht pre e post b -> He. rewrite omap_app in Ht. csimpl in Ht. rewrite He in Ht.
  by apply app_nil in Ht as [_ ?].
Qed.

Lemma precedes_app t t' :
  precedes f Q t -> precedes f (fun pre => Q (t ++ pre)) t' -> precedes f Q (t ++ t').
Proof.
  intros Ht Ht' pre e post b Heq He. apply app_eq_app in Heq as (l & [[-> Hl]|[-> Hl]]).
  - destruct l as [|e' l]; [|injection Hl as <- ->; by eapply Ht].
    pose proof (Ht' [] e post b (eq_sym Hl) He) as HQ. by rewrite !app_nil_r in *.
  - by apply (Ht' l e post b).
Qed.

Lemma precedes_single e b : f e = Some b -> Q [] b -> precedes f Q [e].
Proof.
  intros He HQ pre e' post b' Heq He'. destruct pre as [|? []]; simplify_eq/=. done.
Qed.

Lemma precedes_in t : (forall pre b, b ∈ omap f t -> Q pre b) -> precedes f Q t.
Proof.
  intros HQ pre e post b -> He. apply HQ, list_elem_of_omap. exists e. split; [set_solver|done].
Qed.

End Precedes.

Lemma precedes_mono {A B} (f : A -> option B) (Q R : list A -> B -> Prop) t :
  (forall pre b, Q pre b -> R pre b) -> precedes f Q t -> precedes f R t.
Proof. intros HQR Ht pre e post b Heq He. by eapply HQR, Ht. Qed.

(** A stretch of a list. *)
Definition occurs {A} (l t : list A) : Prop := exists t1 t2, t = t1 ++ l ++ t2.

Lemma occurs_l {A} (l t t' : list A) : occurs l t -> occurs l (t ++ t').
Proof. intros (t1 & t2 & ->). exists t1, (t2 ++ t'). by rewrite <- !app_assoc. Qed.

Lemma occurs_r {A} (l t t' : list A) : occurs l t' -> occurs l (t ++ t').
Proof. intros (t1 & t2 & ->). exists (t ++ t1), t2. by rewrite <- !app_assoc. Qed.

Lemma occurs_refl {A} (l : list A) : occurs l l.
Proof. exists [], []. by rewrite app_nil_r. Qed.

Lemma occurs_fmap {A B} (g : A -> B) (l t : list A) : occurs l t -> occurs (g <$> l) (g <$> t).
Proof. intros (t1 & t2 & ->). exists (g <$> t1), (g <$> t2). by rewrite !fmap_app. Qed.

(** ** Hints *)

Create HintDb rust discriminated.
#[export] Hint Resolve len_nonneg prefix_append : rust.
Create Rewrite HintDb rust_str.
#[export] Hint Rewrite append_nil_l append_nil_r append_assoc len_append rev_append rev_rev trim_idemp : rust_str.
