(* ===== verification/Effects.v ===== *)
(** * Effects

    Code that talks to its environment (processes, files, sockets, the clock)
    is a program tree over a signature of operations: a node is one operation
    the code performs, with one branch per answer the environment may give.
    The trees are finite, so every modelled operation terminates whatever the
    environment answers.  [wp] quantifies over every environment, [run]
    executes against one, and [possible] is the inductive trace semantics that
    [wp] is sound and complete for. *)

From S2P Require Import Prelude.

(** ** Signatures and programs *)

Record Sig : Type := { op : Type; ans : op -> Type }.

Inductive prog (Σ : Sig) (A : Type) : Type :=
| Ret (a : A)
| Do (o : op Σ) (k : ans Σ o -> prog Σ A).
Arguments Ret {Σ A} a.
Arguments Do {Σ A} o k.

Fixpoint bind {Σ A B} (p : prog Σ A) (f : A -> prog Σ B) : prog Σ B :=
  match p with
  | Ret a => f a
  | Do o k => Do o (fun r => bind (k r) f)
  end.

(** One operation, returning its answer. *)
Definition perform {Σ} (o : op Σ) : prog Σ (ans Σ o) := Do o Ret.

Notation "x ⇐ p ; q" := (bind p (fun x => q))
  (at level 20, p at level 100, q at level 200, only parsing) : rust_scope.
Notation "' x ⇐ p ; q" := (bind p (fun x => q))
  (at level 20, x pattern, p at level 100, q at level 200, only parsing) : rust_scope.
Notation "p ;; q" := (bind p (fun _ => q))
  (at level 100, q at level 200, right associativity, only parsing) : rust_scope.

Open Scope rust_scope.

(** The question mark operator: an [Err] returns early. *)
Definition try {Σ A B E} (p : prog Σ (Result A E)) (f : A -> prog Σ (Result B E))
    : prog Σ (Result B E) :=
  bind p (fun r => match r with Ok a => f a | Err e => Ret (Err e) end).

Notation "x ⇐? p ; q" := (try p (fun x => q))
  (at level 20, p at level 100, q at level 200, only parsing) : rust_scope.
Notation "p ;;? q" := (try p (fun _ => q))
  (at level 100, q at level 200, right associativity, only parsing) : rust_scope.

(** A loop over a list whose body may return early. *)
Fixpoint for_each {Σ A E} (l : list A) (body : A -> prog Σ (Result unit E))
    : prog Σ (Result unit E) :=
  match l with
  | [] => Ret (Ok tt)
  | x :: l' => body x ;;? for_each l' body
  end.

(** A loop over a list with a state, whose body may return early. *)
Fixpoint fold_each {Σ A S E} (l : list A) (s : S) (body : S -> A -> prog Σ (Result S E))
    : prog Σ (Result S E) :=
  match l with
  | [] => Ret (Ok s)
  | x :: l' => s' ⇐? body s x; fold_each l' s' body
  end.

(** ** Methods on [&mut self]: state passing with early return

    A failing method leaves the state it had reached. *)

Definition method (Σ : Sig) (S A : Type) : Type := S -> prog Σ (S * Result A Error).

Definition mpure {Σ S A} (a : A) : method Σ S A := fun s => Ret (s, Ok a).
Definition mfail {Σ S A} (e : Error) : method Σ S A := fun s => Ret (s, Err e).
Definition mget {Σ S} : method Σ S S := fun s => Ret (s, Ok s).
Definition mmodify {Σ S} (f : S -> S) : method Σ S unit := fun s => Ret (f s, Ok tt).
Definition mlift {Σ S A} (p : prog Σ (Result A Error)) : method Σ S A :=
  fun s => bind p (fun r => Ret (s, r)).
Definition mbind' {Σ S A B} (m : method Σ S A) (f : A -> method Σ S B) : method Σ S B :=
  fun s => bind (m s) (fun '(s', r) => match r with
                                       | Ok a => f a s'
                                       | Err e => Ret (s', Err e)
                                       end).

Notation "x ⟵ m ; k" := (mbind' m (fun x => k))
  (at level 20, m at level 100, k at level 200, only parsing) : rust_scope.
Notation "m ⨾ k" := (mbind' m (fun _ => k))
  (at level 100, k at level 200, right associativity, only parsing) : rust_scope.

(** ** Sums of signatures *)

Definition sig_sum (Σ1 Σ2 : Sig) : Sig :=
  {| op := op Σ1 + op Σ2;
     ans o := match o with inl o1 => ans Σ1 o1 | inr o2 => ans Σ2 o2 end |}.

Fixpoint lift_l {Σ1 Σ2 A} (p : prog Σ1 A) : prog (sig_sum Σ1 Σ2) A :=
  match p with
  | Ret a => Ret a
  | Do o k => @Do (sig_sum Σ1 Σ2) A (inl o) (fun r => lift_l (k r))
  end.

Fixpoint lift_r {Σ1 Σ2 A} (p : prog Σ2 A) : prog (sig_sum Σ1 Σ2) A :=
  match p with
  | Ret a => Ret a
  | Do o k => @Do (sig_sum Σ1 Σ2) A (inr o) (fun r => lift_r (k r))
  end.

(** ** Semantics *)

Record event (Σ : Sig) : Type := Ev { ev_op : op Σ; ev_ans : ans Σ ev_op }.
Arguments Ev {Σ} ev_op ev_ans.
Arguments ev_op {Σ} e.
Arguments ev_ans {Σ} e.

(** [possible p t a]: some environment makes [p] perform [t] and return [a]. *)
Inductive possible {Σ A} : prog Σ A -> list (event Σ) -> A -> Prop :=
| possible_ret a : possible (Ret a) [] a
| possible_do o k r t a : possible (k r) t a -> possible (Do o k) (Ev o r :: t) a.

(** [wp p Q]: in every environment, [Q] holds of what [p] did and returned. *)
Fixpoint wp {Σ A} (p : prog Σ A) (Q : list (event Σ) -> A -> Prop) : Prop :=
  match p with
  | Ret a => Q [] a
  | Do o k => forall r, wp (k r) (fun t a => Q (Ev o r :: t) a)
  end.

(** A handler answers operations and keeps a world of its own. *)
Definition handler (Σ : Sig) (W : Type) : Type := forall o : op Σ, W -> ans Σ o * W.

Fixpoint run {Σ W A} (h : handler Σ W) (w : W) (p : prog Σ A) : list (event Σ) * W * A :=
  match p with
  | Ret a => ([], w, a)
  | Do o k =>
      let '(r, w') := h o w in
      let '(t, w'', a) := run h w' (k r) in
      (Ev o r :: t, w'', a)
  end.

Definition run_events {Σ W A} (h : handler Σ W) (w : W) (p : prog Σ A) : list (event Σ) :=
  (run h w p).1.1.
Definition run_world {Σ W A} (h : handler Σ W) (w : W) (p : prog Σ A) : W := (run h w p).1.2.
Definition run_result {Σ W A} (h : handler Σ W) (w : W) (p : prog Σ A) : A := (run h w p).2.

(** ** Interleaving

    Threads over one world: [R i o w r w'] says that thread [i] may do [o] in
    [w], being answered [r], and leave [w'].  A blocking operation is one that
    [R] does not let happen yet. *)

Inductive pool_step {Σ W A} (R : nat -> forall o : op Σ, W -> ans Σ o -> W -> Prop)
    : W * list (prog Σ A) -> W * list (prog Σ A) -> Prop :=
| pool_do i o k r w w' ps :
    ps !! i = Some (Do o k) -> R i o w r w' ->
    pool_step R (w, ps) (w', <[i := k r]> ps).

(** *** Tasks that may be dropped *)

Section Tasks.
Context {Σ : Sig} {W A : Type}.

(** What a task did, and what is left of it: nothing once it was dropped. *)
Record task : Type := Task { past : list (event Σ); rest : option (prog Σ A) }.

Definition fresh_task (p : prog Σ A) : task := {| past := []; rest := Some p |}.

(** Tasks over one world: [R] as in [pool_step], and [D i w w'] when task [i]
    may be dropped in [w], leaving [w']. *)
Inductive task_step (R : nat -> forall o : op Σ, W -> ans Σ o -> W -> Prop) (D : nat -> W -> W -> Prop)
    : W * list task -> W * list task -> Prop :=
| task_do i t o k r w w' ts :
    ts !! i = Some (Task t (Some (Do o k))) -> R i o w r w' ->
    task_step R D (w, ts) (w', <[i := Task (t ++ [Ev o r]) (Some (k r))]> ts)
| task_drop i t p w w' ts :
    ts !! i = Some (Task t (Some p)) -> D i w w' ->
    task_step R D (w, ts) (w', <[i := Task t None]> ts).

End Tasks.
Arguments task : clear implicits.

(** No task is dropped. *)
Definition never_dropped {W} (i : nat) (w w' : W) : Prop := False.

(** Every operation has an answer. *)
Definition answers (Σ : Sig) : Prop := forall o : op Σ, exists r : ans Σ o, True.

(** A thread that keeps an invariant of the world at every operation, however
    the world changed meanwhile within the invariant. *)
Fixpoint keeps {Σ W A} (R : forall o : op Σ, W -> ans Σ o -> W -> Prop) (I : W -> Prop)
    (p : prog Σ A) (Q : A -> Prop) : Prop :=
  match p with
  | Ret a => Q a
  | Do o k => forall w r w', I w -> R o w r w' -> I w' /\ keeps R I (k r) Q
  end.

(** Sequential executions of a program in a world that answers by a relation. *)
Fixpoint wpr {Σ W A} (R : forall o : op Σ, W -> ans Σ o -> W -> Prop) (p : prog Σ A) (w : W)
    (Q : A -> W -> Prop) : Prop :=
  match p with
  | Ret a => Q a w
  | Do o k => forall r w', R o w r w' -> wpr R (k r) w' Q
  end.

(** ** Lemmas *)

Section Laws.
Context {Σ : Sig}.

Lemma wp_mono {A} (p : prog Σ A) (Q R : list (event Σ) -> A -> Prop) :
  (forall t a, Q t a -> R t a) -> wp p Q -> wp p R.
Proof.
  revert Q R. induction p as [a|o k IH]; intros Q R HQR H; simpl in *; [by apply HQR|].
  intros r. eapply IH; [|apply H]. intros t a. apply HQR.
Qed.

Lemma wp_bind {A B} (p : prog Σ A) (f : A -> prog Σ B) (Q : list (event Σ) -> B -> Prop) :
  wp (bind p f) Q <-> wp p (fun t a => wp (f a) (fun t' b => Q (t ++ t') b)).
Proof.
  revert Q. induction p as [a|o k IH]; intros Q; simpl; [done|].
  split; intros H r; apply (IH r (fun t a => Q (Ev o r :: t) a)), H.
Qed.

Lemma wp_bind_2 {A B} (p : prog Σ A) (f : A -> prog Σ B) (Q : list (event Σ) -> B -> Prop) :
  wp p (fun t a => wp (f a) (fun t' b => Q (t ++ t') b)) -> wp (bind p f) Q.
Proof. apply wp_bind. Qed.

Lemma wp_ret {A} (a : A) (Q : list (event Σ) -> A -> Prop) : Q [] a -> wp (Ret a) Q.
Proof. done. Qed.

Lemma wp_conj {A} (p : prog Σ A) (Q R : list (event Σ) -> A -> Prop) :
  wp p Q -> wp p R -> wp p (fun t a => Q t a /\ R t a).
Proof.
  revert Q R. induction p as [a|o k IH]; intros Q R HQ HR; simpl in *; [done|].
  intros r. by apply IH.
Qed.

Lemma wp_true {A} (p : prog Σ A) (Q : list (event Σ) -> A -> Prop) :
  (forall t a, Q t a) -> wp p Q.
Proof. revert Q. induction p as [a|o k IH]; intros Q H; simpl; auto. Qed.

(** [wp] is sound and complete for the traces. *)
Lemma wp_possible {A} (p : prog Σ A) (Q : list (event Σ) -> A -> Prop) :
  wp p Q <-> forall t a, possible p t a -> Q t a.
Proof.
  split.
  - intros H t a Hp. revert Q H. induction Hp as [a|o k r t a _ IH]; intros Q H; [done|].
    exact (IH _ (H r)).
  - revert Q. induction p as [a|o k IH]; intros Q H; simpl; [apply H; constructor|].
    intros r. apply IH. intros t a Hp. apply H. by constructor.
Qed.

Lemma run_possible {W A} (h : handler Σ W) (w : W) (p : prog Σ A) :
  possible p (run_events h w p) (run_result h w p).
Proof.
  unfold run_events, run_result. revert w.
  induction p as [a|o k IH]; intros w; simpl; [constructor|].
  destruct (h o w) as [r w'] eqn:E. specialize (IH r w').
  destruct (run h w' (k r)) as [[t w''] a]. by constructor.
Qed.

Lemma wp_run {W A} (h : handler Σ W) (w : W) (p : prog Σ A) (Q : list (event Σ) -> A -> Prop) :
  wp p Q -> Q (run_events h w p) (run_result h w p).
Proof. intros H. eapply (proj1 (wp_possible p Q) H). apply run_possible. Qed.

Lemma wp_try {A B E} (p : prog Σ (Result A E)) (f : A -> prog Σ (Result B E))
    (Q : list (event Σ) -> Result B E -> Prop) :
  wp p (fun t r => match r with
                   | Ok a => wp (f a) (fun t' b => Q (t ++ t') b)
                   | Err e => Q t (Err e)
                   end) -> wp (try p f) Q.
Proof.
  intros H. apply wp_bind. eapply wp_mono; [|exact H].
  intros t [a|e]; simpl; [done|]. by rewrite app_nil_r.
Qed.

(** The rule for loops: an invariant on what was done so far. *)
Lemma wp_for_each {A E} (l : list A) (body : A -> prog Σ (Result unit E))
    (P : list A -> list (event Σ) -> Result unit E -> Prop) :
  P [] [] (Ok tt) ->
  (forall x l', x :: l' `suffix_of` l ->
     wp (body x) (fun t r => match r with
                             | Ok _ => forall t' r', P l' t' r' -> P (x :: l') (t ++ t') r'
                             | Err e => P (x :: l') t (Err e)
                             end)) ->
  wp (for_each l body) (P l).
Proof.
  intros Hnil. induction l as [|x l IH]; intros Hstep; simpl; [done|].
  apply wp_try. eapply wp_mono; [|apply Hstep; done].
  intros t [[]|e] H; simpl in *; [|done].
  eapply wp_mono; [|apply IH].
  - intros t' r' HP. by apply H.
  - intros y l' Hsuf. apply Hstep. by apply suffix_cons_r.
Qed.

Lemma wp_lift_l {Σ2 A} (p : prog Σ A) (Q : list (event (sig_sum Σ Σ2)) -> A -> Prop) :
  wp p (fun t a => Q ((fun e => @Ev (sig_sum Σ Σ2) (inl (ev_op e)) (ev_ans e)) <$> t) a) ->
  wp (lift_l p) Q.
Proof. revert Q. induction p as [a|o k IH]; intros Q H; simpl in *; auto. Qed.

Lemma wp_lift_r {Σ1 A} (p : prog Σ A) (Q : list (event (sig_sum Σ1 Σ)) -> A -> Prop) :
  wp p (fun t a => Q ((fun e => @Ev (sig_sum Σ1 Σ) (inr (ev_op e)) (ev_ans e)) <$> t) a) ->
  wp (lift_r p) Q.
Proof. revert Q. induction p as [a|o k IH]; intros Q H; simpl in *; auto. Qed.

Lemma possible_bind {A B} (p : prog Σ A) (f : A -> prog Σ B) t a t' b :
  possible p t a -> possible (f a) t' b -> possible (bind p f) (t ++ t') b.
Proof. intros Hp Hf. induction Hp; simpl; [done|]. constructor. auto. Qed.

Lemma possible_lift_l {Σ2 A} (p : prog Σ A) t a :
  possible p t a ->
  possible (lift_l (Σ2 := Σ2) p)
    ((fun e => @Ev (sig_sum Σ Σ2) (inl (ev_op e)) (ev_ans e)) <$> t) a.
Proof.
  induction 1 as [|o k r t a Hp IH]; csimpl; [constructor|].
  by apply (@possible_do (sig_sum Σ Σ2) _ (inl o) (fun r => lift_l (k r)) r).
Qed.

Lemma possible_lift_r {Σ1 A} (p : prog Σ A) t a :
  possible p t a ->
  possible (lift_r (Σ1 := Σ1) p)
    ((fun e => @Ev (sig_sum Σ1 Σ) (inr (ev_op e)) (ev_ans e)) <$> t) a.
Proof.
  induction 1 as [|o k r t a Hp IH]; csimpl; [constructor|].
  by apply (@possible_do (sig_sum Σ1 Σ) _ (inr o) (fun r => lift_r (k r)) r).
Qed.

Lemma possible_ret_inv {A} (a : A) t b : possible (Ret a : prog Σ A) t b -> t = [] /\ b = a.
Proof. revert t b. by apply wp_possible. Qed.

Lemma possible_bind_inv {A B} (p : prog Σ A) (f : A -> prog Σ B) t b :
  possible (bind p f) t b -> exists t1 a t2, t = t1 ++ t2 /\ possible p t1 a /\ possible (f a) t2 b.
Proof.
  revert t b. apply wp_possible, wp_bind. eapply wp_mono; [|apply wp_possible; by intros t1 a Hp; exact Hp].
  intros t1 a Hp. apply wp_possible. intros t2 b Hf. by exists t1, a, t2.
Qed.

Lemma run_bind {W A B} (h : handler Σ W) (w : W) (p : prog Σ A) (f : A -> prog Σ B) :
  run h w (bind p f) =
  let '(t, w', a) := run h w p in
  let '(t', w'', b) := run h w' (f a) in (t ++ t', w'', b).
Proof.
  revert w. induction p as [a|o k IH]; intros w; simpl.
  - by destruct (run h w (f a)) as [[??]?].
  - destruct (h o w) as [r w']. rewrite IH.
    destruct (run h w' (k r)) as [[t w''] a].
    by destruct (run h w'' (f a)) as [[??]?].
Qed.

(** *** Methods *)

Lemma wp_mbind {S A B} (m : method Σ S A) (f : A -> method Σ S B) (s : S)
    (Q : list (event Σ) -> S * Result B Error -> Prop) :
  wp (m s) (fun t x => match x.2 with
                       | Ok a => wp (f a x.1) (fun t' y => Q (t ++ t') y)
                       | Err e => Q t (x.1, Err e)
                       end) -> wp (mbind' m f s) Q.
Proof.
  intros H. apply wp_bind. eapply wp_mono; [|exact H].
  intros t [s' [a|e]]; simpl; [done|]. by rewrite app_nil_r.
Qed.

Lemma wp_mlift {S A} (p : prog Σ (Result A Error)) (s : S)
    (Q : list (event Σ) -> S * Result A Error -> Prop) :
  wp p (fun t r => Q t (s, r)) -> wp (mlift p s) Q.
Proof.
  intros H. apply wp_bind. eapply wp_mono; [|exact H]. intros t r Hq. simpl. by rewrite app_nil_r.
Qed.

(** [upholds P I m]: from a state where [I] holds, everything [m] does satisfies
    [P], and [I] holds afterwards, whether [m] succeeds or fails. *)
Definition upholds {S A} (P : event Σ -> Prop) (I : S -> Prop) (m : method Σ S A) : Prop :=
  forall s, I s -> wp (m s) (fun t x => Forall P t /\ I x.1).

Lemma upholds_bind {S A B} P (I : S -> Prop) (m : method Σ S A) (f : A -> method Σ S B) :
  upholds P I m -> (forall a, upholds P I (f a)) -> upholds P I (mbind' m f).
Proof.
  intros Hm Hf s Hs. apply wp_mbind. eapply wp_mono; [|by apply Hm].
  intros t [s' [a|e]] [Ht Hs']; simpl in *; [|done].
  eapply wp_mono; [|by apply Hf]. intros t' y [Ht' Hy]. split; [by apply Forall_app|done].
Qed.

Lemma upholds_get {S B} P (I : S -> Prop) (f : S -> method Σ S B) :
  (forall s, I s -> upholds P I (f s)) -> upholds P I (mbind' mget f).
Proof. intros Hf s Hs. by apply Hf. Qed.

Lemma upholds_lift {S A} P (I : S -> Prop) (p : prog Σ (Result A Error)) :
  wp p (fun t _ => Forall P t) -> upholds P I (mlift p).
Proof. intros Hp s Hs. apply wp_mlift. eapply wp_mono; [|exact Hp]. by intros t r Ht. Qed.

Lemma upholds_modify {S} P (I : S -> Prop) f :
  (forall s, I s -> I (f s)) -> upholds P I (mmodify f).
Proof. intros Hf s Hs. simpl. auto. Qed.

Lemma upholds_pure {S A} P (I : S -> Prop) (a : A) : upholds P I (mpure a).
Proof. intros s Hs. by split. Qed.

(** [establishes I m K]: from a state where [I] holds, [K] holds of the state and
    the result when [m] succeeds. *)
Definition establishes {S A} (I : S -> Prop) (m : method Σ S A) (K : A -> S -> Prop) : Prop :=
  forall s, I s -> wp (m s) (fun _ x => forall a, x.2 = Ok a -> K a x.1).

Lemma establishes_bind {S A B} (I : S -> Prop) (m : method Σ S A) (f : A -> method Σ S B) K L :
  establishes I m K -> (forall a, establishes (K a) (f a) L) -> establishes I (mbind' m f) L.
Proof.
  intros Hm Hf s Hs. apply wp_mbind. eapply wp_mono; [|by apply Hm].
  intros t [s' [a|e]] Hk; simpl in *; [|done].
  eapply wp_mono; [|apply Hf, Hk; reflexivity]. done.
Qed.

Lemma establishes_get {S B} (I : S -> Prop) (f : S -> method Σ S B) L :
  (forall s, I s -> establishes (fun s' => s' = s) (f s) L) -> establishes I (mbind' mget f) L.
Proof. intros Hf s Hs. by apply Hf. Qed.

Lemma establishes_lift {S A} (I : S -> Prop) (p : prog Σ (Result A Error)) (V : A -> Prop) :
  wp p (fun _ r => forall a, r = Ok a -> V a) ->
  establishes I (mlift p) (fun a s => I s /\ V a).
Proof.
  intros Hp s Hs. apply wp_mlift. eapply wp_mono; [|exact Hp].
  intros t r Hr a Ha. simpl in *. auto.
Qed.

Lemma establishes_modify {S} (I : S -> Prop) f (K : S -> Prop) :
  (forall s, I s -> K (f s)) -> establishes I (mmodify f) (fun _ => K).
Proof. intros Hf s Hs. simpl. auto. Qed.

Lemma establishes_wp {S A} (I : S -> Prop) (m : method Σ S A) K s :
  establishes I m K -> I s -> wp (m s) (fun _ x => forall a, x.2 = Ok a -> K a x.1).
Proof. auto. Qed.

Lemma wp_fold_each {A S E} (body : S -> A -> prog Σ (Result S E))
    (P : S -> list A -> list (event Σ) -> Result S E -> Prop) :
  (forall s, P s [] [] (Ok s)) ->
  (forall s x l, wp (body s x) (fun t r => match r with
     | Ok s' => forall t' r', P s' l t' r' -> P s (x :: l) (t ++ t') r'
     | Err e => P s (x :: l) t (Err e)
     end)) ->
  forall l s, wp (fold_each l s body) (P s l).
Proof.
  intros Hn Hc. induction l as [|x l IH]; intros s; [apply Hn|]. cbn [fold_each]. apply wp_try.
  eapply wp_mono; [|apply (Hc s x l)]. intros t [s'|e] Ht; [|done].
  eapply wp_mono; [|apply IH]. intros t' r' H'. by apply Ht.
Qed.

Lemma wp_Forall_for_each {A E} P (l : list A) (body : A -> prog Σ (Result unit E)) :
  (forall x, x ∈ l -> wp (body x) (fun t _ => Forall P t)) ->
  wp (for_each l body) (fun t _ => Forall P t).
Proof.
  induction l as [|x l IH]; intros Hb; [constructor|]. cbn [for_each]. apply wp_try.
  eapply wp_mono; [|apply Hb; by left]. intros t [[]|e] Ht; [|done].
  eapply wp_mono; [|apply IH; intros y Hy; apply Hb; by right].
  intros t' r Ht'. by apply Forall_app.
Qed.

Lemma wp_Forall_try {A B E} P (p : prog Σ (Result A E)) (f : A -> prog Σ (Result B E)) :
  wp p (fun t _ => Forall P t) -> (forall a, wp (f a) (fun t _ => Forall P t)) ->
  wp (try p f) (fun t _ => Forall P t).
Proof.
  intros Hp Hf. apply wp_try. eapply wp_mono; [|exact Hp]. intros t [a|e] Ht; [|done].
  eapply wp_mono; [|apply Hf]. intros t' r Ht'. by apply Forall_app.
Qed.

Lemma wp_Forall_seq {A B} P (p : prog Σ A) (q : prog Σ B) :
  wp p (fun t _ => Forall P t) -> wp q (fun t _ => Forall P t) ->
  wp (bind p (fun _ => q)) (fun t _ => Forall P t).
Proof.
  intros Hp Hq. apply wp_bind. eapply wp_mono; [|exact Hp]. intros t a Ht.
  eapply wp_mono; [|exact Hq]. intros t' b Ht'. by apply Forall_app.
Qed.

Lemma keeps_bind {W A B} (R : forall o : op Σ, W -> ans Σ o -> W -> Prop) I
    (p : prog Σ A) (f : A -> prog Σ B) Q :
  keeps R I p (fun a => keeps R I (f a) Q) -> keeps R I (bind p f) Q.
Proof.
  induction p as [a|o k IH]; simpl; [done|]. intros Hp w r w' Hw Hr.
  destruct (Hp w r w' Hw Hr) as [Hw' Hk]. auto.
Qed.

Lemma keeps_mono {W A} (R : forall o : op Σ, W -> ans Σ o -> W -> Prop) I
    (p : prog Σ A) (Q Q' : A -> Prop) :
  (forall a, Q a -> Q' a) -> keeps R I p Q -> keeps R I p Q'.
Proof.
  intros HQ. induction p as [a|o k IH]; simpl; [auto|]. intros Hp w r w' Hw Hr.
  destruct (Hp w r w' Hw Hr) as [Hw' Hk]. auto.
Qed.

Lemma wpr_bind {W A B} (R : forall o : op Σ, W -> ans Σ o -> W -> Prop)
    (p : prog Σ A) (f : A -> prog Σ B) w Q :
  wpr R p w (fun a w' => wpr R (f a) w' Q) -> wpr R (bind p f) w Q.
Proof. revert w. induction p as [a|o k IH]; simpl; eauto. Qed.

Lemma wpr_mono {W A} (R : forall o : op Σ, W -> ans Σ o -> W -> Prop) (p : prog Σ A) w
    (Q Q' : A -> W -> Prop) :
  (forall a w', Q a w' -> Q' a w') -> wpr R p w Q -> wpr R p w Q'.
Proof. intros HQ. revert w. induction p as [a|o k IH]; simpl; eauto. Qed.

Lemma wpr_try {W A B E} (R : forall o : op Σ, W -> ans Σ o -> W -> Prop)
    (p : prog Σ (Result A E)) (f : A -> prog Σ (Result B E)) w (Q : Result B E -> W -> Prop) :
  wpr R p w (fun r w' => match r with Ok a => wpr R (f a) w' Q | Err e => Q (Err e) w' end) ->
  wpr R (try p f) w Q.
Proof. intros Hp. apply wpr_bind. eapply wpr_mono; [|exact Hp]. by intros [a|e] w'. Qed.

(** Threads that keep an invariant keep it interleaved. *)
Lemma pool_keeps {W A} (R : forall o : op Σ, W -> ans Σ o -> W -> Prop) (I : W -> Prop)
    (Q : nat -> A -> Prop) (s s' : W * list (prog Σ A)) :
  rtc (pool_step (fun _ => R)) s s' ->
  I s.1 -> (forall i p, s.2 !! i = Some p -> keeps R I p (Q i)) ->
  I s'.1 /\ forall i p, s'.2 !! i = Some p -> keeps R I p (Q i).
Proof.
  induction 1 as [s|s s1 s' Hstep _ IH]; [done|]. intros Hw Hps. destruct Hstep as [i o k r w w' ps Hi HR].
  simpl in *. destruct (Hps i _ Hi w r w' Hw HR) as [Hw' Hk]. apply IH; [done|].
  intros j q Hq. destruct (decide (j = i)) as [->|Hji].
  - rewrite list_lookup_insert_eq in Hq by (by eapply lookup_lt_Some). by simplify_eq.
  - rewrite list_lookup_insert_ne in Hq by done. by apply Hps.
Qed.

(** The strongest property a program has. *)
Lemma wp_self {A} (p : prog Σ A) : wp p (possible p).
Proof. by apply wp_possible. Qed.

Lemma answers_possible {A} (p : prog Σ A) : answers Σ -> exists t a, possible p t a.
Proof.
  intros Ha. induction p as [a|o k IH]; [by exists [], a; constructor|].
  destruct (Ha o) as [r _], (IH r) as (t & a & Hp). exists (Ev o r :: t), a. by constructor.
Qed.

Lemma wp_some {A} (p : prog Σ A) (Q : list (event Σ) -> A -> Prop) : answers Σ -> wp p Q -> exists t a, Q t a.
Proof.
  intros Ha Hp. destruct (answers_possible p Ha) as (t & a & Ht). exists t, a.
  rewrite wp_possible in Hp. by apply Hp.
Qed.

End Laws.

Lemma answers_sum Σ1 Σ2 : answers Σ1 -> answers Σ2 -> answers (sig_sum Σ1 Σ2).
Proof. intros H1 H2 [o|o]; [apply H1|apply H2]. Qed.

(** Steps a [wp] goal over binds and early returns. *)
Ltac wp_step :=
  match goal with
  | |- wp (bind _ _) _ => apply wp_bind_2
  | |- wp (try _ _) _ => apply wp_try
  | |- wp (Ret _) _ => apply wp_ret
  | |- wp (perform _) _ => intros ?; simpl
  | |- wp (Do _ _) _ => intros ?; simpl
  end.

#[export] Hint Resolve wp_ret : rust.
