(* ===== verification/LimitedBody.v ===== *)
(** * The limited request body ([src/limited_body.rs])

    [Body] is the interface of a hyper body: a state that is polled for frames.
    [LimitedBody] wraps any body and is a body again.  [polls] drives a body
    for a number of polls; [data_of] is what those polls handed out. *)

From S2P Require Import Prelude.
From Stdlib Require Import Ascii.

(** ** The vocabulary of hyper and [std::task] *)

Abbreviation Bytes := (list ascii).

Inductive Poll (A : Type) : Type :=
| Ready (a : A)
| Pending.
Arguments Ready {A} a.
Arguments Pending {A}.

(** A frame is a chunk of data or, as hyper's other kind, trailers. *)
Inductive Frame (Trailers : Type) : Type :=
| FData (data : Bytes)
| FTrailers (t : Trailers).
Arguments FData {Trailers} data.
Arguments FTrailers {Trailers} t.

Definition data_ref {T} (f : Frame T) : option Bytes :=
  match f with FData d => Some d | FTrailers _ => None end.

Record SizeHint : Type := { lower : Z; upper : option Z }.

Definition blen (b : Bytes) : Z := Z.of_nat (length b).

Class Body (T E B : Type) := {
  poll_frame : B -> Poll (option (Result (Frame T) E)) * B;
  is_end_stream : B -> bool;
  size_hint : B -> SizeHint;
}.

(** ** [LimitedBody] *)

Section LimitedBody.
Context {T E B : Type} `{Body T E B}.

Record LimitedBody : Type := {
  inner : B;
  bytes_transmitted : Z;
  max_bytes : Z;
}.

Definition limited_new (body : B) (max : Z) : LimitedBody :=
  {| inner := body; bytes_transmitted := 0; max_bytes := max |}.

Definition set_inner (b : B) (s : LimitedBody) : LimitedBody :=
  {| inner := b; bytes_transmitted := bytes_transmitted s; max_bytes := max_bytes s |}.

Definition set_transmitted (n : Z) (s : LimitedBody) : LimitedBody :=
  {| inner := inner s; bytes_transmitted := n; max_bytes := max_bytes s |}.

Definition limited_poll_frame (s : LimitedBody)
    : Poll (option (Result (Frame T) E)) * LimitedBody :=
  if max_bytes s <=? bytes_transmitted s then (Ready None, s)
  else
    let '(p, b) := poll_frame (inner s) in
    let s' := set_inner b s in
    match p with
    | Ready (Some (Ok frame)) =>
        match data_ref frame with
        | Some data =>
            let frame_size := blen data in
            let new_total := wrap_u64 (bytes_transmitted s + frame_size) in
            if max_bytes s <? new_total then
              let bytes_remaining := wrap_u64 (max_bytes s - bytes_transmitted s) in
              if 0 <? bytes_remaining then
                (Ready (Some (Ok (FData (take (Z.to_nat bytes_remaining) data)))),
                 set_transmitted (max_bytes s) s')
              else (Ready None, s')
            else (Ready (Some (Ok frame)), set_transmitted new_total s')
        | None => (Ready (Some (Ok frame)), s')
        end
    | Ready (Some (Err e)) => (Ready (Some (Err e)), s')
    | Ready None => (Ready None, s')
    | Pending => (Pending, s')
    end.

Definition limited_is_end_stream (s : LimitedBody) : bool :=
  (max_bytes s <=? bytes_transmitted s) || is_end_stream (inner s).

Definition limited_size_hint (s : LimitedBody) : SizeHint :=
  let bytes_remaining := saturating_sub (max_bytes s) (bytes_transmitted s) in
  match upper (size_hint (inner s)) with
  | Some inner_upper => {| lower := 0; upper := Some (Z.min inner_upper bytes_remaining) |}
  | None => {| lower := 0; upper := Some bytes_remaining |}
  end.

#[export] Instance limited_body : Body T E LimitedBody := {|
  poll_frame := limited_poll_frame;
  is_end_stream := limited_is_end_stream;
  size_hint := limited_size_hint;
|}.

End LimitedBody.
Arguments LimitedBody : clear implicits.

(** ** Driving a body *)

Section Driving.
Context {T E B : Type} `{Body T E B}.

Fixpoint polls (n : nat) (b : B) : list (Poll (option (Result (Frame T) E))) * B :=
  match n with
  | O => ([], b)
  | S n' =>
      let '(p, b') := poll_frame b in
      let '(ps, b'') := polls n' b' in (p :: ps, b'')
  end.

(** The data a poll handed out. *)
Definition poll_data (p : Poll (option (Result (Frame T) E))) : Bytes :=
  match p with Ready (Some (Ok (FData d))) => d | _ => [] end.

Definition data_of (n : nat) (b : B) : Bytes := concat (poll_data <$> (polls n b).1).

(** No frame of the body, added to [max], leaves [u64]. *)
Definition frames_fit (max : Z) (b : B) : Prop :=
  forall n, Forall (fun p => max + blen (poll_data p) <= u64_max) (polls n b).1.

(** The body never hands out more than its hint's upper bound. *)
Definition hint_sound (b : B) : Prop :=
  forall n u, upper (size_hint b) = Some u -> blen (data_of n b) <= u.

(** A body at its end hands out nothing. *)
Definition end_sound (b : B) : Prop :=
  is_end_stream b = true -> forall n, data_of n b = [].

End Driving.

(** A body given by the list of what its polls return, ended by [Ready None]. *)
Definition script (T E : Type) : Type := list (Poll (option (Result (Frame T) E))).

#[export] Instance script_body {T E} : Body T E (script T E) := {|
  poll_frame b := match b with [] => (Ready None, []) | p :: b' => (p, b') end;
  is_end_stream b := match b with [] => true | _ => false end;
  size_hint b := {| lower := 0; upper := None |};
|}.

(** ** Lemmas *)

Section DrivingLemmas.
Context {T E B : Type} `{Body T E B}.

Lemma polls_S n (b : B) :
  polls (S n) b = ((poll_frame b).1 :: (polls n (poll_frame b).2).1, (polls n (poll_frame b).2).2).
Proof.
  cbn [polls]. destruct (poll_frame b) as [p b']. simpl. by destruct (polls n b').
Qed.

Lemma data_of_S n (b : B) :
  data_of (S n) b = poll_data (poll_frame b).1 ++ data_of n (poll_frame b).2.
Proof. unfold data_of. by rewrite polls_S. Qed.

Lemma frames_fit_step max (b : B) :
  frames_fit max b ->
  max + blen (poll_data (poll_frame b).1) <= u64_max /\ frames_fit max (poll_frame b).2.
Proof.
  intros Hf. split.
  - specialize (Hf 1%nat). rewrite polls_S in Hf. by apply Forall_cons in Hf as [? _].
  - intros n. specialize (Hf (S n)). rewrite polls_S in Hf. by apply Forall_cons in Hf as [_ ?].
Qed.

End DrivingLemmas.

Section Limit.
Context {T E B : Type} `{Body T E B}.

Lemma limited_done (s : LimitedBody B) :
  max_bytes s <= bytes_transmitted s -> forall n, polls n s = (replicate n (Ready None), s).
Proof.
  intros Hd. induction n as [|n IH]; [done|].
  rewrite polls_S. cbn [poll_frame limited_body]. unfold limited_poll_frame.
  destruct (max_bytes s <=? bytes_transmitted s) eqn:F; bools; [|lia]. simpl. by rewrite IH.
Qed.

Lemma data_of_done (s : LimitedBody B) n :
  max_bytes s <= bytes_transmitted s -> data_of n s = [].
Proof.
  intros Hd. unfold data_of. rewrite limited_done by done. simpl.
  induction n; simpl; auto.
Qed.

(** What one poll does while the limit is not reached. *)
Lemma limited_poll_step (s : LimitedBody B) :
  0 <= bytes_transmitted s < max_bytes s -> is_u64 (max_bytes s) ->
  max_bytes s + blen (poll_data (poll_frame (inner s)).1) <= u64_max ->
  let p := (poll_frame (inner s)).1 in
  let rest := max_bytes s - bytes_transmitted s in
  let '(q, s') := poll_frame s in
  inner s' = (poll_frame (inner s)).2 /\ max_bytes s' = max_bytes s /\
  poll_data q = take (Z.to_nat rest) (poll_data p) /\
  bytes_transmitted s' = bytes_transmitted s + blen (poll_data q) /\
  bytes_transmitted s' <= max_bytes s /\
  (blen (poll_data p) <= rest -> q = p).
Proof.
  intros Hbt Hmax Hfit. cbn [poll_frame limited_body]. unfold limited_poll_frame.
  destruct (max_bytes s <=? bytes_transmitted s) eqn:F; bools; [lia|].
  destruct (poll_frame (inner s)) as [p b] eqn:Ep. simpl in *.
  destruct p as [[[[d|t]|e]|]|]; simpl in *;
    try by rewrite take_nil; unfold blen; simpl; repeat split; lia.
  pose proof (Nat2Z.is_nonneg (length d)).
  unfold wrap_u64. rewrite !Z.mod_small by (unfold blen in *; ulia).
  destruct (max_bytes s <? bytes_transmitted s + blen d) eqn:F1; bools.
  - destruct (0 <? max_bytes s - bytes_transmitted s) eqn:F2; bools; [|lia]. simpl.
    unfold blen in *. rewrite length_take. repeat split; lia.
  - simpl. unfold blen in *. rewrite take_ge by lia. repeat split; lia.
Qed.

Lemma limited_polls (s : LimitedBody B) n :
  0 <= bytes_transmitted s <= max_bytes s -> is_u64 (max_bytes s) ->
  frames_fit (max_bytes s) (inner s) ->
  data_of n s = take (Z.to_nat (max_bytes s - bytes_transmitted s)) (data_of n (inner s)) /\
  bytes_transmitted (polls n s).2 = bytes_transmitted s + blen (data_of n s) /\
  max_bytes (polls n s).2 = max_bytes s.
Proof.
  revert s. induction n as [|n IH]; intros s Hbt Hmax Hfit.
  { unfold data_of, blen. simpl. rewrite take_nil. simpl. repeat split; lia. }
  destruct (decide (max_bytes s <= bytes_transmitted s)) as [Hd|Hd].
  { rewrite data_of_done by done. rewrite limited_done by done.
    replace (max_bytes s - bytes_transmitted s) with 0 by lia. unfold blen. simpl.
    repeat split; lia. }
  destruct (frames_fit_step _ _ Hfit) as [Hf1 Hf2].
  pose proof (limited_poll_step s ltac:(lia) Hmax Hf1) as Hstep.
  rewrite (data_of_S n s), (data_of_S n (inner s)), polls_S. simpl.
  change (limited_poll_frame s) with (poll_frame s).
  destruct (poll_frame s) as [q s'] eqn:Eq. simpl in *.
  destruct Hstep as (Hin & Hm & Hq & Hb & Hle & _).
  destruct (IH s') as (Hd1 & Hd2 & Hd3);
    [unfold blen in *; lia | by rewrite Hm | by rewrite Hm, Hin|].
  rewrite Hd1, Hm, Hin in *. rewrite Hq. rewrite Hd2, Hb.
  unfold blen in *. rewrite Hq in *. rewrite length_app. repeat split; [|lia|lia].
  rewrite length_take in *. rewrite take_app. do 2 f_equal. lia.
Qed.

End Limit.

Lemma script_fits {T E} max (l : script T E) :
  max <= u64_max -> Forall (fun p => max + blen (poll_data p) <= u64_max) l -> frames_fit max l.
Proof.
  intros Hm Hl n. revert l Hl. induction n as [|n IH]; intros l Hl; [constructor|].
  rewrite polls_S. destruct Hl as [|p l Hp Hl]; simpl; constructor; [unfold blen; simpl; lia| |done|by apply IH].
  apply IH. constructor.
Qed.

(** ** Properties *)

(** C12: a limited body hands out exactly the first [max] bytes of the body it
    wraps, however long it is polled: it never exceeds the limit, and it cuts
    no byte below it. *)
Theorem limited_body_takes_limit {T E B} `{Body T E B} (b : B) (max : Z) (n : nat) :
  is_u64 max -> frames_fit max b ->
  data_of n (limited_new b max) = take (Z.to_nat max) (data_of n b) /\
  blen (data_of n (limited_new b max)) <= max.
Proof.
  intros Hm Hf. destruct (limited_polls (limited_new b max) n) as (Hd & _ & _);
    [simpl; ulia|done|done|]. simpl in Hd. rewrite Z.sub_0_r in Hd.
  split; [done|]. rewrite Hd. unfold blen. rewrite length_take. ulia.
Qed.

Definition hello : Bytes := String.list_ascii_of_string "Hello, World!".
Definition hello_script : script unit unit :=
  [Ready (Some (Ok (FData hello))); Pending; Ready (Some (Ok (FData hello)))].

Lemma hello_fits : frames_fit 20 hello_script.
Proof. apply script_fits; [done|]. by repeat constructor. Qed.

Lemma limited_body_takes_limit_witness :
  data_of 5 (limited_new hello_script 20) = take (Z.to_nat 20) (data_of 5 hello_script) /\
  blen (data_of 5 (limited_new hello_script 20)) <= 20.
Proof.
  apply (limited_body_takes_limit hello_script 20 5); [done|exact hello_fits].
Defined.

(** C27: below the limit the wrapper is invisible: as long as the body it wraps
    has handed out less than [max] bytes, every poll (data, trailers, errors,
    pending) returns what the wrapped body returned; from the limit on, every
    poll is the end of the stream, and the stream says it is at its end. *)
Theorem limited_body_transparent_then_closed {T E B} `{Body T E B} (b : B) (max : Z) (n : nat) :
  is_u64 max -> frames_fit max b ->
  (blen (data_of n b) < max -> (polls n (limited_new b max)).1 = (polls n b).1) /\
  (max <= blen (data_of n b) ->
     let s := (polls n (limited_new b max)).2 in
     is_end_stream s = true /\ forall m, polls m s = (replicate m (Ready None), s)).
Proof.
  intros Hm Hf. split.
  - enough (Hgen : forall s : LimitedBody B, 0 <= bytes_transmitted s -> is_u64 (max_bytes s) ->
      frames_fit (max_bytes s) (inner s) ->
      bytes_transmitted s + blen (data_of n (inner s)) < max_bytes s ->
      (polls n s).1 = (polls n (inner s)).1).
    { intros Hlt. by apply (Hgen (limited_new b max)). }
    clear. induction n as [|n IH]; intros s Hbt Hmax Hfit Hlt; [done|].
    rewrite data_of_S in Hlt. unfold blen in Hlt. rewrite length_app in Hlt.
    destruct (frames_fit_step _ _ Hfit) as [Hf1 Hf2].
    pose proof (limited_poll_step s ltac:(lia) Hmax Hf1) as Hstep.
    rewrite !polls_S. destruct (poll_frame s) as [q s'] eqn:Eq. simpl in *.
    destruct Hstep as (Hin & Hmx & Hq & Hb & Hle & Hsame).
    rewrite Hsame in * by (unfold blen; lia). unfold blen in *. f_equal.
    rewrite IH, Hin; rewrite ?Hmx, ?Hin; [done|lia|done|done|unfold blen; lia].
  - intros Hge s.
    destruct (limited_polls (limited_new b max) n) as (Hd & Hb & Hx);
      [simpl; ulia|done|done|]. fold s in Hb, Hx. simpl in Hd, Hb, Hx. rewrite Z.sub_0_r in Hd.
    assert (max_bytes s <= bytes_transmitted s).
    { rewrite Hb, Hx, Hd. unfold blen in *. rewrite length_take. ulia. }
    split; [|intros m; by apply limited_done].
    simpl. unfold limited_is_end_stream. apply orb_true_intro. left. by apply Z.leb_le.
Qed.

Lemma limited_body_transparent_then_closed_witness :
  (polls 2 (limited_new hello_script 20)).1 = (polls 2 hello_script).1 /\
  is_end_stream (polls 3 (limited_new hello_script 20)).2 = true.
Proof.
  split.
  - apply (limited_body_transparent_then_closed hello_script 20 2); [done|exact hello_fits|done].
  - apply (limited_body_transparent_then_closed hello_script 20 3); [done|exact hello_fits|done].
Defined.

(** The wrapper's size hint and end-of-stream flag are honest in every
    state it can be in, when those of the wrapped body are: it never hands out
    more than its upper bound, which is at most what the limit leaves, and at
    its end it hands out nothing. *)
Theorem limited_body_hints_sound {T E B} `{Body T E B} (s : LimitedBody B) :
  0 <= bytes_transmitted s <= max_bytes s -> is_u64 (max_bytes s) ->
  frames_fit (max_bytes s) (inner s) ->
  hint_sound (inner s) -> end_sound (inner s) ->
  hint_sound s /\ end_sound s /\
  exists u, upper (size_hint s) = Some u /\ u <= max_bytes s - bytes_transmitted s.
Proof.
  intros Hbt Hmax Hfit Hh He.
  assert (Hd : forall n, data_of n s =
    take (Z.to_nat (max_bytes s - bytes_transmitted s)) (data_of n (inner s))).
  { intros n. by apply limited_polls. }
  split; [|split].
  - intros n u Hu. rewrite Hd. specialize (Hh n). unfold blen in *. rewrite length_take.
    simpl in Hu. unfold limited_size_hint, saturating_sub in Hu.
    destruct (upper (size_hint (inner s))) as [iu|]; simpl in Hu; injection Hu as <-.
    + specialize (Hh iu eq_refl). lia.
    + lia.
  - intros Hend n. simpl in Hend. unfold limited_is_end_stream in Hend.
    apply orb_prop in Hend as [Hl|Hi].
    + apply data_of_done. by apply Z.leb_le in Hl.
    + rewrite Hd, (He Hi). apply take_nil.
  - simpl. unfold limited_size_hint, saturating_sub.
    destruct (upper (size_hint (inner s))); simpl; eexists; (split; [done|lia]).
Qed.

Lemma hello_end_sound (l : script unit unit) : end_sound l.
Proof.
  destruct l; [|done]. intros _ n. unfold data_of. induction n as [|n IH]; [done|].
  rewrite polls_S. simpl. exact IH.
Qed.

Lemma limited_body_hints_sound_witness :
  hint_sound (limited_new hello_script 20) /\ end_sound (limited_new hello_script 20) /\
  exists u, upper (size_hint (limited_new hello_script 20)) = Some u /\ u <= 20 - 0.
Proof.
  apply (limited_body_hints_sound (limited_new hello_script 20));
    [done|done|exact hello_fits|done|apply hello_end_sound].
Defined.
