(* ===== verification/Http.v ===== *)
(** * The HTTP vocabulary the program takes from its libraries

    The program handles requests through the [http] and [hyper] crates, which
    are not part of the repository.  This file states what it relies on: the
    operations of a header map as a class with their documented laws, a URI
    through its accessors, and the records of a request and a response.  The
    instance [assoc_headers], a list of pairs, shows the laws are satisfiable
    and is what the concrete examples compute with. *)

From S2P Require Import Prelude.
From Stdlib Require Import Ascii.

(** [hyper::Method] through [as_str]. *)
Abbreviation Method := string (only parsing).
Definition GET : Method := "GET".

(** Header names compare without case. *)
Definition same_name (n m : string) : bool :=
  String.eqb (to_ascii_lowercase n) (to_ascii_lowercase m).

(** ** [http::HeaderMap], a multimap from names to values *)

Class HeaderMap (H : Type) := {
  hm_empty : H;
  hm_get_all : H -> string -> list string;
  hm_append : H -> string -> string -> H;
  hm_insert : H -> string -> string -> H;
  hm_remove : H -> string -> H;
  hm_iter : H -> list (string * string);
}.

(** [HeaderMap::get]: the first value. *)
Definition hm_get {H} `{HeaderMap H} (h : H) (n : string) : option string := head (hm_get_all h n).

Class HeaderMapLaws (H : Type) `{HeaderMap H} : Prop := {
  get_all_empty n : hm_get_all hm_empty n = [];
  get_all_append h n v m :
    hm_get_all (hm_append h n v) m =
    if same_name n m then hm_get_all h m ++ [v] else hm_get_all h m;
  get_all_insert h n v m :
    hm_get_all (hm_insert h n v) m = if same_name n m then [v] else hm_get_all h m;
  get_all_remove h n m :
    hm_get_all (hm_remove h n) m = if same_name n m then [] else hm_get_all h m;
}.

(** [HeaderValue::from_str] and [HeaderValue::to_str]: text and raw value bytes. *)
Class HeaderValues := {
  hv_from_str : string -> option string;
  hv_to_str : string -> option string;
}.

Definition visible (a : ascii) : bool := byte_in 32 126 a.

Fixpoint all_chars (f : ascii -> bool) (s : string) : bool :=
  match s with
  | EmptyString => true
  | String a r => f a && all_chars f r
  end.

(** Text of visible ASCII characters is a header value, and reads back. *)
Class HeaderValuesLaws `{HeaderValues} : Prop := {
  from_str_visible s : all_chars visible s = true -> hv_from_str s = Some s;
  to_str_visible s : all_chars visible s = true -> hv_to_str s = Some s;
}.

(** ** [http::Uri] through its accessors *)

Class UriOps (U : Type) := {
  uri_scheme : U -> option string;
  uri_authority : U -> option string;
  uri_path_and_query : U -> option string;
  uri_to_string : U -> string;
  uri_parse : string -> Result U Error;
}.

(** ** Requests and responses *)

Record Request (U H B : Type) : Type := mkRequest {
  req_method : Method;
  req_uri : U;
  req_headers : H;
  req_body : B;
}.
Arguments mkRequest {U H B} _ _ _ _.
Arguments req_method {U H B} _.
Arguments req_uri {U H B} _.
Arguments req_headers {U H B} _.
Arguments req_body {U H B} _.

Record Response (H B : Type) : Type := mkResponse {
  resp_status : Z;
  resp_headers : H;
  resp_body : B;
}.
Arguments mkResponse {H B} _ _ _.
Arguments resp_status {H B} _.
Arguments resp_headers {H B} _.
Arguments resp_body {H B} _.

Definition FORBIDDEN : Z := 403.
Definition PAYLOAD_TOO_LARGE : Z := 413.
Definition BAD_GATEWAY : Z := 502.

(** ** A concrete header map: an association list in insertion order *)

Abbreviation assoc := (list (string * string)).

Definition value_of (m : string) (p : string * string) : option string :=
  if same_name p.1 m then Some p.2 else None.

Definition drop_name (n : string) (h : assoc) : assoc :=
  List.filter (fun p => negb (same_name p.1 n)) h.

#[export] Instance assoc_headers : HeaderMap assoc := {|
  hm_empty := [];
  hm_get_all h n := omap (value_of n) h;
  hm_append h n v := h ++ [(to_ascii_lowercase n, v)];
  hm_insert h n v := drop_name n h ++ [(to_ascii_lowercase n, v)];
  hm_remove h n := drop_name n h;
  hm_iter h := h;
|}.

#[export] Instance plain_values : HeaderValues := {|
  hv_from_str s := if all_chars visible s then Some s else None;
  hv_to_str s := if all_chars visible s then Some s else None;
|}.

(** ** Lemmas *)

Lemma ascii_lower_idemp a : ascii_lower (ascii_lower a) = ascii_lower a.
Proof. destruct a as [[] [] [] [] [] [] [] []]; reflexivity. Qed.

Lemma to_lower_idemp s : to_ascii_lowercase (to_ascii_lowercase s) = to_ascii_lowercase s.
Proof. induction s as [|a s IH]; [done|]. simpl. unfold to_ascii_lowercase in *. simpl. by rewrite ascii_lower_idemp, IH. Qed.

Lemma same_name_lower_l n m : same_name (to_ascii_lowercase n) m = same_name n m.
Proof. unfold same_name. by rewrite to_lower_idemp. Qed.

Lemma same_name_eq n m : same_name n m = true <-> to_ascii_lowercase n = to_ascii_lowercase m.
Proof. apply String.eqb_eq. Qed.

Lemma same_name_refl n : same_name n n = true.
Proof. by apply same_name_eq. Qed.

Lemma same_name_trans_false k n m :
  same_name n m = true -> same_name k n = false -> same_name k m = false.
Proof.
  rewrite same_name_eq. unfold same_name. intros <-. done.
Qed.

Lemma drop_name_get_all (h : assoc) n m :
  omap (value_of m) (drop_name n h) = if same_name n m then [] else omap (value_of m) h.
Proof.
  induction h as [|[k v] h IH]; [by destruct (same_name n m)|].
  unfold drop_name. csimpl. fold (drop_name n h). destruct (same_name k n) eqn:Ek; csimpl.
  - rewrite IH. destruct (same_name n m) eqn:En; [done|].
    assert (value_of m (k, v) = None) as ->; [|done].
    unfold value_of. simpl. destruct (same_name k m) eqn:Ekm; [|done].
    apply same_name_eq in Ek, Ekm. apply String.eqb_neq in En. congruence.
  - rewrite IH. destruct (same_name n m) eqn:En; [|done].
    assert (value_of m (k, v) = None) as ->; [|done].
    unfold value_of. simpl. by rewrite (same_name_trans_false _ _ _ En Ek).
Qed.

#[export] Instance assoc_headers_laws : HeaderMapLaws assoc.
Proof.
  split; intros; csimpl; rewrite ?omap_app, ?drop_name_get_all; csimpl;
    unfold value_of; simpl; rewrite ?same_name_lower_l;
    try destruct (same_name n m); rewrite ?app_nil_r; done.
Qed.

#[export] Instance plain_values_laws : HeaderValuesLaws.
Proof. split; intros s Hs; simpl; by rewrite Hs. Qed.

Lemma hm_get_insert {H} `{HeaderMapLaws H} (h : H) n v m :
  hm_get (hm_insert h n v) m = if same_name n m then Some v else hm_get h m.
Proof. unfold hm_get. rewrite get_all_insert. by destruct (same_name n m). Qed.

(** ** A concrete URI: origin form, absolute form or authority form *)

Record PlainUri : Type := {
  pu_scheme : option string;
  pu_authority : option string;
  pu_path_and_query : option string;
}.

(** The text before the first slash, and the rest from it on. *)
Fixpoint split_slash (s : string) : string * string :=
  match s with
  | EmptyString => (EmptyString, EmptyString)
  | String a r =>
      if Ascii.eqb a "/"%char then (EmptyString, s)
      else let '(u, v) := split_slash r in (String a u, v)
  end.

Definition absolute_uri (scheme rest : string) : PlainUri :=
  let '(a, p) := split_slash rest in
  {| pu_scheme := Some scheme; pu_authority := Some a;
     pu_path_and_query := Some (if is_empty p then "/" else p) |}.

#[export] Instance plain_uri : UriOps PlainUri := {|
  uri_scheme := pu_scheme;
  uri_authority := pu_authority;
  uri_path_and_query := pu_path_and_query;
  uri_to_string u :=
    match pu_scheme u with Some s => s +:+ "://" | None => "" end +:+
    default "" (pu_authority u) +:+ default "" (pu_path_and_query u);
  uri_parse s :=
    match strip_prefix "http://" s, strip_prefix "https://" s with
    | Some r, _ => Ok (absolute_uri "http" r)
    | None, Some r => Ok (absolute_uri "https" r)
    | None, None =>
        if starts_with s "/"
        then Ok {| pu_scheme := None; pu_authority := None; pu_path_and_query := Some s |}
        else if is_empty s || contains_char " "%char s then Err (Msg "invalid uri character")
        else Ok {| pu_scheme := None; pu_authority := Some s; pu_path_and_query := None |}
    end;
|}.
