(* ===== verification/Net.v ===== *)
(** * Addresses ([std::net])

    An address is its octets or its 16-bit segments; ports are 16-bit.
    Printing and parsing follow the standard library. *)

From S2P Require Import Prelude.
From Stdlib Require Import Ascii.

Record Ipv4Addr : Type := mkIpv4 { oct1 : Z; oct2 : Z; oct3 : Z; oct4 : Z }.

#[export] Instance ipv4_eq_dec : EqDecision Ipv4Addr.
Proof. solve_decision. Defined.

Inductive IpAddr : Type :=
| V4 (a : Ipv4Addr)
| V6 (segments : list Z).

#[export] Instance ip_eq_dec : EqDecision IpAddr.
Proof. solve_decision. Defined.

Record SocketAddr : Type := mkSocketAddr { addr_ip : IpAddr; addr_port : Z }.

#[export] Instance socket_addr_eq_dec : EqDecision SocketAddr.
Proof. solve_decision. Defined.

Definition valid_ipv4 (a : Ipv4Addr) : Prop :=
  is_u8 (oct1 a) /\ is_u8 (oct2 a) /\ is_u8 (oct3 a) /\ is_u8 (oct4 a).

Definition LOCALHOST4 : Ipv4Addr := mkIpv4 127 0 0 1.
Definition UNSPECIFIED4 : Ipv4Addr := mkIpv4 0 0 0 0.
Definition LOCALHOST6 : list Z := [0; 0; 0; 0; 0; 0; 0; 1].
Definition UNSPECIFIED6 : list Z := [0; 0; 0; 0; 0; 0; 0; 0].

(** ** Display *)

Definition show_ipv4 (a : Ipv4Addr) : string :=
  dec (oct1 a) +:+ "." +:+ dec (oct2 a) +:+ "." +:+ dec (oct3 a) +:+ "." +:+ dec (oct4 a).

(** The longest run of zero segments, the first of equals: where and how long. *)
Fixpoint zero_span (i start cur best_start best : nat) (segs : list Z) : nat * nat :=
  match segs with
  | [] => (best_start, best)
  | s :: segs' =>
      if s =? 0 then
        let start := if Nat.eqb cur 0 then i else start in
        let cur := S cur in
        if Nat.ltb best cur then zero_span (S i) start cur start cur segs'
        else zero_span (S i) start cur best_start best segs'
      else zero_span (S i) 0 0 best_start best segs'
  end.

Definition show_segments (segs : list Z) : string := join ":" (hex_u64 <$> segs).

Definition show_ipv6 (segs : list Z) : string :=
  match segs with
  | [0; 0; 0; 0; 0; 65535; hi; lo] =>
      "::ffff:" +:+ show_ipv4 (mkIpv4 (hi / 256) (hi mod 256) (lo / 256) (lo mod 256))
  | _ =>
      let '(start, n) := zero_span 0 0 0 0 0 segs in
      if Nat.ltb 1 n
      then show_segments (take start segs) +:+ "::" +:+ show_segments (drop (start + n) segs)
      else show_segments segs
  end.

Definition show_ip (a : IpAddr) : string :=
  match a with V4 a => show_ipv4 a | V6 s => show_ipv6 s end.

Example show_ip_examples :
  show_ip (V4 LOCALHOST4) = "127.0.0.1" /\ show_ip (V6 LOCALHOST6) = "::1" /\
  show_ip (V6 [8193; 3512; 0; 0; 1; 0; 0; 1]) = "2001:db8::1:0:0:1".
Proof. by vm_compute. Qed.
