(* ===== verification/NetParse.v ===== *)
(** * Parsing addresses ([std::net])

    The standard library's address parser, which the bind configuration is
    read with.  A reader takes a prefix of its input; one that fails gives the
    input back.  The scope id of an IPv6 socket address is read and dropped, as
    [SocketAddr] here has none. *)

From S2P Require Import Prelude Net.
From Stdlib Require Import Ascii.

Definition reader (A : Type) : Type := string -> option (A * string).

(** [char::to_digit]. *)
Definition to_digit (radix : Z) (a : ascii) : option Z :=
  let n := Z.of_nat (nat_of_ascii a) in
  let d := if byte_in 48 57 a then n - 48
           else if byte_in 97 102 a then n - 87
           else if byte_in 65 70 a then n - 55 else 36 in
  if d <? radix then Some d else None.

(** The value of the leading digits, how many there are, and the rest. *)
Fixpoint read_digits (radix acc : Z) (count : nat) (s : string) : Z * nat * string :=
  match s with
  | String a r =>
      match to_digit radix a with
      | Some d => read_digits radix (acc * radix + d) (S count) r
      | None => (acc, count, s)
      end
  | EmptyString => (acc, count, s)
  end.

(** [Parser::read_number]: at most [max_digits] digits when there is a bound, a
    value of at most [max]. *)
Definition read_number (radix : Z) (max_digits : option nat) (allow_zero_prefix : bool) (max : Z)
    : reader Z := fun s =>
  let '(n, count, rest) := read_digits radix 0 0 s in
  let has_leading_zero := starts_with s "0" in
  if match max_digits with Some m => Nat.ltb m count | None => false end then None
  else if Nat.eqb count 0 then None
  else if negb allow_zero_prefix && has_leading_zero && Nat.ltb 1 count then None
  else if n <=? max then Some (n, rest) else None.

Definition read_given_char (c : string) : reader unit := fun s =>
  match strip_prefix c s with Some rest => Some (tt, rest) | None => None end.

Definition read_separator {A} (sep : string) (index : nat) (inner : reader A) : reader A := fun s =>
  if Nat.ltb 0 index then '(_, s) ← read_given_char sep s; inner s else inner s.

Definition read_octet (i : nat) : reader Z :=
  read_separator "." i (read_number 10 (Some 3%nat) false u8_max).

Definition read_ipv4_addr : reader Ipv4Addr := fun s =>
  '(a, s) ← read_octet 0 s; '(b, s) ← read_octet 1 s;
  '(c, s) ← read_octet 2 s; '(d, s) ← read_octet 3 s;
  Some (mkIpv4 a b c d, s).

(** Up to [limit] groups from the [i]th on, in reverse: the groups, whether the
    last two are an IPv4 address, and the rest. *)
Fixpoint read_groups (limit i : nat) (acc : list Z) (s : string) : list Z * bool * string :=
  match limit with
  | O => (acc, false, s)
  | S limit' =>
      let group (s : string) :=
        match read_separator ":" i (read_number 16 (Some 4%nat) true u16_max) s with
        | Some (g, s) => read_groups limit' (S i) (g :: acc) s
        | None => (acc, false, s)
        end in
      if Nat.ltb 0 limit' then
        match read_separator ":" i read_ipv4_addr s with
        | Some (v4, s) => (oct3 v4 * 256 + oct4 v4 :: oct1 v4 * 256 + oct2 v4 :: acc, true, s)
        | None => group s
        end
      else group s
  end.

Definition read_ipv6_addr : reader (list Z) := fun s =>
  let '(head, head_ipv4, s) := read_groups 8 0 [] s in
  let head := rev head in
  let head_size := length head in
  if Nat.eqb head_size 8 then Some (head, s)
  else if head_ipv4 then None
  else
    '(_, s) ← read_given_char ":" s;
    '(_, s) ← read_given_char ":" s;
    let '(tail, _, s) := read_groups (8 - (head_size + 1)) 0 [] s in
    let tail := rev tail in
    Some (head ++ replicate (8 - head_size - length tail) 0 ++ tail, s).

Definition or_else {A} (p q : reader A) : reader A := fun s =>
  match p s with Some x => Some x | None => q s end.

Definition reader_map {A B} (f : A -> B) (p : reader A) : reader B := fun s =>
  '(a, s) ← p s; Some (f a, s).

Definition read_ip_addr : reader IpAddr :=
  or_else (reader_map V4 read_ipv4_addr) (reader_map V6 read_ipv6_addr).

Definition read_port : reader Z := fun s =>
  '(_, s) ← read_given_char ":" s; read_number 10 None true u16_max s.

Definition read_scope_id : reader Z := fun s =>
  '(_, s) ← read_given_char "%" s; read_number 10 None true u32_max s.

Definition read_socket_addr_v4 : reader SocketAddr := fun s =>
  '(ip, s) ← read_ipv4_addr s; '(port, s) ← read_port s; Some (mkSocketAddr (V4 ip) port, s).

Definition read_socket_addr_v6 : reader SocketAddr := fun s =>
  '(_, s) ← read_given_char "[" s; '(ip, s) ← read_ipv6_addr s;
  let s := match read_scope_id s with Some (_, s) => s | None => s end in
  '(_, s) ← read_given_char "]" s; '(port, s) ← read_port s; Some (mkSocketAddr (V6 ip) port, s).

Definition read_socket_addr : reader SocketAddr := or_else read_socket_addr_v4 read_socket_addr_v6.

(** [parse]: the whole input. *)
Definition parse_with {A} (p : reader A) (s : string) : option A :=
  match p s with Some (a, rest) => if is_empty rest then Some a else None | None => None end.

Definition parse_ip : string -> option IpAddr := parse_with read_ip_addr.
Definition parse_socket_addr : string -> option SocketAddr := parse_with read_socket_addr.

Example parse_examples :
  parse_ip "127.0.0.1" = Some (V4 LOCALHOST4) /\ parse_ip "::1" = Some (V6 LOCALHOST6) /\
  parse_ip "2001:db8::1:0:0:1" = Some (V6 [8193; 3512; 0; 0; 1; 0; 0; 1]) /\
  parse_ip "::ffff:1.2.3.4" = Some (V6 [0; 0; 0; 0; 0; 65535; 258; 772]) /\
  parse_ip "01.2.3.4" = None /\ parse_ip "1.2.3.256" = None /\ parse_ip "1.2.3" = None /\
  parse_ip "1:2:3:4:5:6:7:8" = Some (V6 [1; 2; 3; 4; 5; 6; 7; 8]) /\ parse_ip "1::2::3" = None /\
  parse_socket_addr "10.0.0.1:80" = Some (mkSocketAddr (V4 (mkIpv4 10 0 0 1)) 80) /\
  parse_socket_addr "[::1%3]:0" = Some (mkSocketAddr (V6 LOCALHOST6) 0) /\
  parse_socket_addr "10.0.0.1:65536" = None /\ parse_socket_addr ":80" = None.
Proof. by vm_compute. Qed.

(** ** Printed addresses are read back *)

(** The next character, if any, is no decimal digit. *)
Definition no_digit (s : string) : Prop :=
  match s with String a _ => to_digit 10 a = None | EmptyString => True end.

Lemma read_digits_app t : forall s radix acc count v c,
  read_digits radix acc count s = (v, c, "") ->
  match t with String a _ => to_digit radix a = None | EmptyString => True end ->
  read_digits radix acc count (s +:+ t) = (v, c, t).
Proof.
  induction s as [|a s IH]; intros radix acc count v c Hs Ht.
  - rewrite append_nil_l. simpl in Hs. injection Hs as <- <-. destruct t as [|b t]; [done|].
    simpl. by rewrite Ht.
  - rewrite append_cons. simpl in *. destruct (to_digit radix a); [|done]. by apply IH.
Qed.

Lemma octet_digits n : is_u8 n -> exists c, read_digits 10 0 0 (dec n) = (n, c, "") /\
  (1 <= c <= 3)%nat /\ negb false && starts_with (dec n) "0" && Nat.ltb 1 c = false.
Proof.
  unfold is_u8, u8_max. intros Hn.
  assert (Hall : forallb (fun k => let n := Z.of_nat k in
    match read_digits 10 0 0 (dec n) with
    | (m, c, "") => (m =? n) && Nat.leb 1 c && Nat.leb c 3 &&
                    negb (starts_with (dec n) "0" && Nat.ltb 1 c)
    | _ => false
    end) (seq 0 256) = true) by (by vm_compute).
  rewrite forallb_forall in Hall. specialize (Hall (Z.to_nat n)). cbv zeta in Hall.
  rewrite Z2Nat.id in Hall by lia. specialize (Hall ltac:(apply in_seq; lia)).
  destruct (read_digits 10 0 0 (dec n)) as [[m c] [|? ?]]; [|done].
  repeat (apply andb_prop in Hall as [Hall ?]). exists c.
  apply Z.eqb_eq in Hall. subst m. split; [done|]. split; [split; by apply Nat.leb_le|].
  simpl. by apply negb_true_iff.
Qed.

Lemma read_number_dec n t : is_u8 n -> no_digit t ->
  read_number 10 (Some 3%nat) false u8_max (dec n +:+ t) = Some (n, t).
Proof.
  intros Hn Ht. destruct (octet_digits n Hn) as (c & Hd & Hc & Hz).
  destruct (dec_cons n ltac:(unfold is_u8 in Hn; lia)) as (a & s & Ea & _).
  assert (Hsw : starts_with (dec n +:+ t) "0" = starts_with (dec n) "0").
  { rewrite Ea, append_cons. unfold starts_with. cbn [String.prefix].
    case_match; [|done]. destruct s; [by destruct t|done]. }
  unfold read_number. rewrite (read_digits_app t _ _ _ _ _ _ Hd Ht), Hsw, Hz.
  destruct (Nat.ltb_spec 3 c); [lia|]. destruct (Nat.eqb_spec c 0); [lia|].
  destruct (Z.leb_spec n u8_max); [done|]. unfold is_u8 in Hn. lia.
Qed.

Lemma read_given_char_app c t : read_given_char c (c +:+ t) = Some (tt, t).
Proof. unfold read_given_char. by rewrite (proj2 (strip_prefix_spec c _ _) eq_refl). Qed.

Lemma read_ipv4_show a t : valid_ipv4 a -> no_digit t ->
  read_ipv4_addr (show_ipv4 a +:+ t) = Some (a, t).
Proof.
  intros (H1 & H2 & H3 & H4) Ht. unfold show_ipv4. rewrite !append_assoc.
  unfold read_ipv4_addr, read_octet, read_separator. cbn [Nat.ltb Nat.leb].
  rewrite read_number_dec by done. cbn [mbind option_bind].
  rewrite (read_given_char_app "."). cbn [mbind option_bind].
  rewrite read_number_dec by done. cbn [mbind option_bind].
  rewrite (read_given_char_app "."). cbn [mbind option_bind].
  rewrite read_number_dec by done. cbn [mbind option_bind].
  rewrite (read_given_char_app "."). cbn [mbind option_bind].
  rewrite read_number_dec by done. cbn [mbind option_bind]. by destruct a.
Qed.

Definition show_socket_addr_v4 (a : Ipv4Addr) (port : Z) : string := show_ipv4 a +:+ ":" +:+ dec port.

Lemma to_digit_10 a : to_digit 10 a = digit a.
Proof. by destruct a as [[] [] [] [] [] [] [] []]. Qed.

Lemma read_digits_parse max s : forall acc c n,
  parse_digits max acc s = Some n -> read_digits 10 acc c s = (n, (c + String.length s)%nat, "").
Proof.
  induction s as [|a s IH]; intros acc c n; simpl.
  - intros [= <-]. f_equal. f_equal. lia.
  - rewrite to_digit_10. destruct (digit a) as [d|]; [|done]. simpl.
    destruct (_ <? _); [done|]. intros Hs. rewrite (IH _ (S c) _ Hs). do 2 f_equal. lia.
Qed.

Lemma dec_digits n : 0 <= n -> exists c, read_digits 10 0 0 (dec n) = (n, c, "") /\ (1 <= c)%nat.
Proof.
  intros Hn. rewrite (read_digits_parse n (dec n) 0 0 n) by (apply parse_digits_dec; lia).
  eexists. split; [done|]. destruct (dec_cons n Hn) as (c & r & -> & _). simpl. lia.
Qed.

Lemma read_port_dec n : is_u16 n -> read_port (":" +:+ dec n) = Some (n, "").
Proof.
  intros Hn. unfold read_port. rewrite (read_given_char_app ":"). cbn [mbind option_bind].
  destruct (dec_digits n ltac:(unfold is_u16 in Hn; lia)) as (c & Hd & Hc). unfold read_number. rewrite Hd.
  destruct (Nat.eqb_spec c 0); [lia|]. cbn [negb andb].
  destruct (Z.leb_spec n u16_max); [done|]. unfold is_u16 in Hn. lia.
Qed.

(** Printing an IPv4 address, alone or with a port, and parsing it back. *)
Lemma parse_show_ipv4 a : valid_ipv4 a -> parse_ip (show_ip (V4 a)) = Some (V4 a).
Proof.
  intros Ha. unfold parse_ip, parse_with, read_ip_addr, or_else, reader_map. cbn [show_ip].
  rewrite <- (append_nil_r (show_ipv4 a)). by rewrite read_ipv4_show.
Qed.

Lemma parse_show_socket_addr a port : valid_ipv4 a -> is_u16 port ->
  parse_socket_addr (show_socket_addr_v4 a port) = Some (mkSocketAddr (V4 a) port).
Proof.
  intros Ha Hp. unfold parse_socket_addr, parse_with, read_socket_addr, or_else, read_socket_addr_v4,
    show_socket_addr_v4.
  rewrite read_ipv4_show by done. cbn [mbind option_bind]. rewrite read_port_dec by done. done.
Qed.
(** ** Printed IPv6 addresses are read back *)

Definition hex_char (a : ascii) : bool := byte_in 48 57 a || byte_in 97 102 a.

Fixpoint all_hex (s : string) : bool :=
  match s with EmptyString => true | String a r => hex_char a && all_hex r end.

Lemma hex_digit_ok d : 0 <= d < 16 -> to_digit 16 (hex_digit d) = Some d /\ hex_char (hex_digit d) = true.
Proof.
  intros Hd. assert (Hall : forallb (fun k => let d := Z.of_nat k in
    match to_digit 16 (hex_digit d) with Some e => (e =? d) && hex_char (hex_digit d) | None => false end)
    (seq 0 16) = true) by reflexivity.
  rewrite forallb_forall in Hall. specialize (Hall (Z.to_nat d)). cbv zeta in Hall.
  rewrite Z2Nat.id in Hall by lia. specialize (Hall ltac:(apply in_seq; lia)).
  destruct (to_digit 16 (hex_digit d)) as [e|]; [|done].
  apply andb_prop in Hall as [He Hh]. apply Z.eqb_eq in He. by subst e.
Qed.

(** The digits of [n < 16^k] read as [n], at most [k] of them. *)
Lemma hex_go_digits k : forall fuel n acc, (1 <= k <= fuel)%nat -> 0 <= n < 16 ^ Z.of_nat k ->
  exists c, (1 <= c <= k)%nat /\
    forall a i, read_digits 16 a i (hex_go fuel n acc) = read_digits 16 (a * 16 ^ Z.of_nat c + n) (i + c) acc.
Proof.
  induction k as [|k IH]; intros [|fuel] n acc Hk Hn; [lia..|]. cbn [hex_go].
  destruct (hex_digit_ok (n mod 16) (Z.mod_pos_bound n 16 ltac:(lia))) as [Hd _].
  assert (Hstep : forall a i, read_digits 16 a i (String (hex_digit (n mod 16)) acc) =
    read_digits 16 (a * 16 + n mod 16) (S i) acc) by (intros a i; cbn [read_digits]; by rewrite Hd).
  destruct (Z.ltb_spec n 16) as [Hlt|Hge].
  - exists 1%nat. split; [lia|]. intros a i. rewrite Hstep, Z.mod_small by lia.
    f_equal; lia.
  - assert (Hk0 : (1 <= k)%nat) by (destruct k; [simpl in Hn; lia|lia]).
    rewrite Nat2Z.inj_succ, Z.pow_succ_r in Hn by lia.
    destruct (IH fuel (n / 16) (String (hex_digit (n mod 16)) acc)) as (c & Hc & Hr); [lia| |].
    { split; [apply Z.div_pos; lia|apply Z.div_lt_upper_bound; lia]. }
    exists (S c). split; [lia|]. intros a i. rewrite Hr, Hstep.
    rewrite Nat2Z.inj_succ, Z.pow_succ_r by lia. pose proof (Z.div_mod n 16 ltac:(lia)).
    f_equal; lia.
Qed.

Lemma hex_go_all_hex fuel : forall n acc, 0 <= n -> all_hex acc = true -> all_hex (hex_go fuel n acc) = true.
Proof.
  induction fuel as [|fuel IH]; intros n acc Hn Ha; [done|]. cbn [hex_go].
  destruct (hex_digit_ok (n mod 16) (Z.mod_pos_bound n 16 ltac:(lia))) as [_ Hd].
  destruct (n <? 16); [|apply IH; [apply Z.div_pos; lia|]]; cbn [all_hex]; by rewrite Hd.
Qed.

Lemma hex_all_hex n : 0 <= n -> all_hex (hex_u64 n) = true.
Proof. intros Hn. by apply hex_go_all_hex. Qed.

Lemma hex_digits n : is_u16 n -> exists c, (1 <= c <= 4)%nat /\ read_digits 16 0 0 (hex_u64 n) = (n, c, "").
Proof.
  intros [Hn0 Hn]. destruct (hex_go_digits 4 16 n "" ltac:(lia)) as (c & Hc & Hr).
  { unfold u16_max in Hn. simpl. lia. }
  exists c. split; [done|]. unfold hex_u64. by rewrite Hr.
Qed.

(** A group ends at a colon, at a bracket, or with the input. *)
Definition ends_group (t : string) : Prop :=
  match t with String a _ => a = ":"%char \/ a = "]"%char | EmptyString => True end.

Lemma read_hex n t : is_u16 n -> ends_group t ->
  read_number 16 (Some 4%nat) true u16_max (hex_u64 n +:+ t) = Some (n, t).
Proof.
  intros Hn Ht. destruct (hex_digits n Hn) as (c & Hc & Hd). unfold read_number.
  rewrite (read_digits_app t _ _ _ _ _ _ Hd) by (destruct t; [done|by destruct Ht as [-> | ->]]).
  destruct (Nat.ltb_spec 4 c); [lia|]. destruct (Nat.eqb_spec c 0); [lia|]. cbn [negb andb].
  destruct (Z.leb_spec n u16_max); [done|]. destruct Hn. lia.
Qed.

(** What is left after the decimal digits of a group does not start with a dot. *)
Lemma group_no_dot s t : all_hex s = true -> ends_group t -> forall a c,
  strip_prefix "." (read_digits 10 a c (s +:+ t)).2 = None.
Proof.
  intros Hs Ht. induction s as [|b s IH]; intros a c.
  - rewrite append_nil_l. destruct t as [|b t]; [done|]. by destruct Ht as [-> | ->].
  - rewrite append_cons. cbn [all_hex] in Hs. apply andb_prop in Hs as [Hb Hs]. cbn [read_digits].
    destruct (to_digit 10 b); [by apply IH|]. cbn [snd strip_prefix].
    destruct (Ascii.eqb_spec "." b) as [<-|]; [done|done].
Qed.

Lemma group_no_ipv4 s t : all_hex s = true -> ends_group t -> read_ipv4_addr (s +:+ t) = None.
Proof.
  intros Hs Ht. unfold read_ipv4_addr, read_octet, read_separator. cbn [Nat.ltb Nat.leb].
  destruct (read_number 10 (Some 3%nat) false u8_max (s +:+ t)) as [[v r]|] eqn:En; [|done].
  cbn [mbind option_bind]. unfold read_given_char.
  assert (Hr : strip_prefix "." r = None); [|by rewrite Hr].
  pose proof (group_no_dot s t Hs Ht 0 0%nat) as Hd. unfold read_number in En.
  destruct (read_digits 10 0 0 (s +:+ t)) as [[n c] rest]. cbn [snd] in Hd.
  repeat case_match; simplify_eq. done.
Qed.

(** Groups as they are printed, after [i] others. *)
Fixpoint groups_text (i : nat) (segs : list Z) : string :=
  match segs with
  | [] => ""
  | s :: segs => (if Nat.ltb 0 i then ":" else "") +:+ hex_u64 s +:+ groups_text (S i) segs
  end.

Lemma groups_text_ends i segs t : ends_group t -> (0 < i)%nat -> ends_group (groups_text i segs +:+ t).
Proof.
  intros Ht Hi. destruct segs as [|s segs]; [done|]. cbn [groups_text].
  rewrite (proj2 (Nat.ltb_lt 0 i) Hi). by left.
Qed.

(** No group can be read where the groups end. *)
Definition no_group (i : nat) (t : string) : Prop :=
  read_separator ":" i read_ipv4_addr t = None /\
  read_separator ":" i (read_number 16 (Some 4%nat) true u16_max) t = None.

Lemma read_separator_text {A} i (p : reader A) s :
  read_separator ":" i p ((if Nat.ltb 0 i then ":" else "") +:+ s) = p s.
Proof.
  unfold read_separator. destruct (Nat.ltb 0 i); [|done]. by rewrite (read_given_char_app ":").
Qed.

Lemma read_groups_text segs t : Forall is_u16 segs -> ends_group t -> forall limit i acc,
  length segs = limit \/ (length segs < limit)%nat /\ no_group (i + length segs) t ->
  read_groups limit i acc (groups_text i segs +:+ t) = (rev segs ++ acc, false, t).
Proof.
  intros Hs Ht. induction Hs as [|n segs Hn Hs IH]; intros limit i acc Hl.
  - cbn [groups_text]. rewrite append_nil_l. destruct limit as [|limit]; [done|].
    destruct Hl as [?|[_ [H4 H16]]]; [done|]. cbn [length] in H4, H16. rewrite Nat.add_0_r in H4, H16.
    cbn [read_groups]. rewrite H4, H16. by destruct (Nat.ltb 0 limit).
  - cbn [length] in Hl. destruct limit as [|limit]; [lia|]. cbn [groups_text read_groups].
    rewrite !append_assoc, !read_separator_text.
    assert (He : ends_group (groups_text (S i) segs +:+ t)) by (apply groups_text_ends; [done|lia]).
    rewrite group_no_ipv4, read_hex; [|done|done|apply hex_all_hex; destruct Hn; lia|done].
    assert (IH' := IH limit (S i) (n :: acc)). rewrite IH'.
    + cbn [rev]. rewrite <- app_assoc. by destruct (Nat.ltb 0 limit).
    + destruct Hl as [Hl|[Hl Hg]]; [left; lia|right]. split; [lia|].
      by replace (S i + length segs)%nat with (i + S (length segs))%nat by lia.
Qed.

Lemma show_segments_text segs : show_segments segs = groups_text 0 segs.
Proof.
  assert (Hn : forall segs i, groups_text (S i) segs =
    match segs with [] => "" | _ => ":" +:+ join ":" (hex_u64 <$> segs) end).
  { clear segs. intros segs. induction segs as [|s segs IH]; intros i; [done|].
    cbn [groups_text]. rewrite IH. destruct segs as [|s' segs]; cbn; [by rewrite append_nil_r|done]. }
  destruct segs as [|s segs]; [done|]. unfold show_segments. cbn [groups_text]. rewrite Hn, append_nil_l.
  destruct segs as [|s' segs]; [by rewrite append_nil_r|done].
Qed.

(** The span found is one of zeros. *)
Definition zeros (l : list Z) (start n : nat) : Prop :=
  exists a b, l = a ++ replicate n 0 ++ b /\ length a = start.

Lemma zero_span_zeros segs : forall pre a start cur bs b,
  pre = a ++ replicate cur 0 -> cur = 0%nat \/ length a = start -> zeros pre bs b ->
  let '(s, n) := zero_span (length pre) start cur bs b segs in zeros (pre ++ segs) s n.
Proof.
  induction segs as [|s segs IH]; intros pre a start cur bs b Hpre Hstart Hb.
  { cbn [zero_span]. by rewrite app_nil_r. }
  assert (Hb' : zeros (pre ++ [s]) bs b).
  { destruct Hb as (x & y & -> & Hx). exists x, (y ++ [s]). by rewrite <- !app_assoc. }
  assert (El : S (length pre) = length (pre ++ [s])) by (rewrite length_app; simpl; lia).
  replace (pre ++ s :: segs) with ((pre ++ [s]) ++ segs) by (by rewrite <- app_assoc).
  cbn [zero_span]. destruct (Z.eqb_spec s 0) as [->|Hs].
  - set (start' := if Nat.eqb cur 0 then length pre else start).
    assert (Ha : length a = start').
    { unfold start'. destruct (Nat.eqb_spec cur 0) as [->|]; [|lia]. subst pre. by rewrite app_nil_r. }
    assert (Hpre' : pre ++ [0] = a ++ replicate (S cur) 0).
    { subst pre. rewrite <- app_assoc. f_equal. symmetry. apply (replicate_cons_app cur 0). }
    rewrite El. destruct (Nat.ltb b (S cur)); apply (IH _ a); try done; [by right| |by right].
    exists a, []. by rewrite app_nil_r.
  - rewrite El. apply (IH _ (pre ++ [s])); [by rewrite app_nil_r|by left|done].
Qed.

Definition valid_ipv6 (segs : list Z) : Prop := length segs = 8%nat /\ Forall is_u16 segs.

(** How an address is printed: mapped from an IPv4 one, with a span of zeros left
    out, or in full. *)
Inductive printed_ipv6 : list Z -> string -> Prop :=
| PrintedMapped hi lo : printed_ipv6 [0; 0; 0; 0; 0; 65535; hi; lo]
    ("::ffff:" +:+ show_ipv4 (mkIpv4 (hi / 256) (hi mod 256) (lo / 256) (lo mod 256)))
| PrintedShort a n b : (2 <= n)%nat ->
    printed_ipv6 (a ++ replicate n 0 ++ b) (groups_text 0 a +:+ "::" +:+ groups_text 0 b)
| PrintedFull segs : printed_ipv6 segs (groups_text 0 segs).

Lemma show_ipv6_printed segs : printed_ipv6 segs (show_ipv6 segs).
Proof.
  assert (Helse : printed_ipv6 segs (let '(start, n) := zero_span 0 0 0 0 0 segs in
    if Nat.ltb 1 n then show_segments (take start segs) +:+ "::" +:+ show_segments (drop (start + n) segs)
    else show_segments segs)).
  { pose proof (zero_span_zeros segs [] [] 0 0 0 0 eq_refl (or_introl eq_refl)
      (ex_intro _ [] (ex_intro _ [] (conj eq_refl eq_refl)))) as Hz. cbn [length app] in Hz.
    destruct (zero_span 0 0 0 0 0 segs) as [start n]. rewrite !show_segments_text.
    destruct (Nat.ltb_spec 1 n) as [Hn|_]; [|apply PrintedFull].
    destruct Hz as (a & b & -> & <-).
    assert (E : drop (length a + n) (a ++ replicate n 0 ++ b) = b).
    { rewrite app_assoc. rewrite drop_app_length'; [done|]. by rewrite length_app, length_replicate. }
    rewrite E, take_app_length. by apply PrintedShort. }
  unfold show_ipv6. repeat (case_match; try exact Helse).
  all: subst; apply PrintedMapped.
Qed.

(** What may follow an address. *)
Definition ends_address (t : string) : Prop :=
  match t with String a _ => a = "]"%char | EmptyString => True end.

Lemma ends_address_group t : ends_address t -> ends_group t /\ forall i, no_group i t.
Proof.
  destruct t as [|a t]; intros Ha; [split; [done|]; by intros [|i]|].
  simpl in Ha. subst a. split; [by right|]. by intros [|i].
Qed.

Lemma double_colon_no_group i s : no_group i ("::" +:+ s).
Proof. by destruct i. Qed.

(** A double colon stands for the groups missing. *)
Lemma read_ipv6_short a x tail v4 t : Forall is_u16 a -> (length a < 8)%nat ->
  read_groups (8 - (length a + 1)) 0 [] x = (rev tail, v4, t) ->
  read_ipv6_addr (groups_text 0 a +:+ "::" +:+ x) =
  Some (a ++ replicate (8 - length a - length tail) 0 ++ tail, t).
Proof.
  intros Ha Hl Hx. unfold read_ipv6_addr.
  rewrite read_groups_text; [|done|by left|by right; split; [|apply double_colon_no_group]].
  rewrite app_nil_r, rev_involutive. destruct (Nat.eqb_spec (length a) 8); [lia|].
  change ("::" +:+ x) with (":" +:+ ":" +:+ x).
  rewrite (read_given_char_app ":"). cbn [mbind option_bind].
  rewrite (read_given_char_app ":"). cbn [mbind option_bind]. by rewrite Hx, rev_involutive.
Qed.

Lemma read_ipv6_mapped hi lo t : is_u16 hi -> is_u16 lo -> ends_address t ->
  read_ipv6_addr (("::ffff:" +:+ show_ipv4 (mkIpv4 (hi / 256) (hi mod 256) (lo / 256) (lo mod 256))) +:+ t) =
  Some ([0; 0; 0; 0; 0; 65535; hi; lo], t).
Proof.
  intros Hhi Hlo Ht. unfold is_u16, u16_max in *.
  set (v4 := mkIpv4 _ _ _ _).
  assert (Hv : valid_ipv4 v4).
  { unfold valid_ipv4, v4, is_u8, u8_max. cbn [oct1 oct2 oct3 oct4].
    pose proof (Z.mod_pos_bound hi 256 ltac:(lia)). pose proof (Z.mod_pos_bound lo 256 ltac:(lia)).
    pose proof (Z.div_mod hi 256 ltac:(lia)). pose proof (Z.div_mod lo 256 ltac:(lia)). lia. }
  assert (Htail : read_groups 7 0 [] ("ffff" +:+ ":" +:+ show_ipv4 v4 +:+ t) = ([lo; hi; 65535], true, t)).
  { cbn [read_groups]. change (Nat.ltb 0 6) with true. unfold read_separator at 1 2. cbn [Nat.ltb Nat.leb].
    rewrite group_no_ipv4 by (first [done|by left]).
    change "ffff" with (hex_u64 65535). rewrite read_hex by (first [done|by left]).
    change (Nat.ltb 0 5) with true. cbn iota. unfold read_separator at 1. cbn [Nat.ltb Nat.leb].
    rewrite (read_given_char_app ":"). cbn [mbind option_bind].
    rewrite read_ipv4_show; [|done|by destruct t; [|cbn in Ht; subst]].
    subst v4. cbn [oct1 oct2 oct3 oct4].
    assert (lo / 256 * 256 + lo mod 256 = lo) as -> by (pose proof (Z.div_mod lo 256 ltac:(lia)); lia).
    by assert (hi / 256 * 256 + hi mod 256 = hi) as -> by (pose proof (Z.div_mod hi 256 ltac:(lia)); lia). }
  exact (read_ipv6_short [] _ [65535; hi; lo] true t (Forall_nil_2 _) ltac:(simpl; lia) Htail).
Qed.

Lemma read_ipv6_show segs t : valid_ipv6 segs -> ends_address t ->
  read_ipv6_addr (show_ipv6 segs +:+ t) = Some (segs, t).
Proof.
  intros [Hl Hs] Ht. destruct (ends_address_group t Ht) as [Hg Hno].
  destruct (show_ipv6_printed segs) as [hi lo|a n b Hn|segs].
  - repeat (apply Forall_cons in Hs as [? Hs]). by apply read_ipv6_mapped.
  - apply Forall_app in Hs as [Ha [_ Hb]%Forall_app]. rewrite !length_app, length_replicate in Hl.
    rewrite !append_assoc. rewrite (read_ipv6_short a _ b false t); [|done|lia|].
    + by assert (8 - length a - length b = n)%nat as -> by lia.
    + rewrite read_groups_text; [by rewrite app_nil_r|done|done|right; split; [lia|apply Hno]].
  - unfold read_ipv6_addr. rewrite read_groups_text; [|done|done|by left].
    by rewrite app_nil_r, rev_involutive, Hl.
Qed.

(** An IPv6 address starts with two colons or with a group and a colon. *)
Lemma show_ipv6_shape segs : valid_ipv6 segs ->
  (exists x, show_ipv6 segs = "::" +:+ x) \/
  exists a s x, all_hex (String a s) = true /\ show_ipv6 segs = String a s +:+ ":" +:+ x.
Proof.
  intros [Hl Hs].
  assert (Hhex : forall n, is_u16 n -> exists a s, all_hex (String a s) = true /\ hex_u64 n = String a s).
  { intros n Hn. pose proof (hex_all_hex n ltac:(destruct Hn; lia)) as Hx.
    destruct (hex_digits n Hn) as (c & Hc & Hd). destruct (hex_u64 n) as [|a s]; [|by exists a, s].
    simpl in Hd. injection Hd as <- <-. lia. }
  destruct (show_ipv6_printed segs) as [hi lo|a n b Hn|segs].
  - left. by eexists.
  - destruct a as [|g a]; [left; by eexists|right]. apply Forall_app in Hs as [Ha _].
    apply Forall_cons in Ha as [Hg _]. destruct (Hhex g Hg) as (h & s & Hh & E).
    cbn [groups_text Nat.ltb Nat.leb]. rewrite append_nil_l, E.
    exists h, s. destruct a as [|g' a].
    + exists (":" +:+ groups_text 0 b). split; [done|]. cbn [groups_text]. by rewrite append_nil_r.
    + exists (hex_u64 g' +:+ groups_text 2 a +:+ "::" +:+ groups_text 0 b). split; [done|].
      cbn [groups_text Nat.ltb Nat.leb]. by rewrite !append_assoc.
  - right. destruct segs as [|g [|g' segs]]; [done|done|]. apply Forall_cons in Hs as [Hg _].
    destruct (Hhex g Hg) as (h & s & Hh & E). exists h, s, (hex_u64 g' +:+ groups_text 2 segs).
    split; [done|]. cbn [groups_text Nat.ltb Nat.leb]. by rewrite append_nil_l, E.
Qed.

Lemma show_ipv6_no_ipv4 segs t : valid_ipv6 segs -> read_ipv4_addr (show_ipv6 segs +:+ t) = None.
Proof.
  intros Hv. destruct (show_ipv6_shape segs Hv) as [(x & ->)|(a & s & x & Hs & ->)]; [done|].
  rewrite append_assoc. apply group_no_ipv4; [done|by left].
Qed.

(** ** Addresses of both kinds *)

Definition valid_ip (a : IpAddr) : Prop :=
  match a with V4 a => valid_ipv4 a | V6 segs => valid_ipv6 segs end.

(** [SocketAddr]'s [Display]. *)
Definition show_socket_addr (a : SocketAddr) : string :=
  match addr_ip a with
  | V4 ip => show_socket_addr_v4 ip (addr_port a)
  | V6 segs => "[" +:+ show_ipv6 segs +:+ "]" +:+ ":" +:+ dec (addr_port a)
  end.

Lemma parse_show_ip a : valid_ip a -> parse_ip (show_ip a) = Some a.
Proof.
  destruct a as [a|segs]; intros Ha; [by apply parse_show_ipv4|].
  unfold parse_ip, parse_with, read_ip_addr, or_else, reader_map. cbn [show_ip].
  rewrite <- (append_nil_r (show_ipv6 segs)). rewrite show_ipv6_no_ipv4 by done.
  cbn [mbind option_bind]. by rewrite read_ipv6_show.
Qed.

Lemma parse_show_socket a port : valid_ip a -> is_u16 port ->
  parse_socket_addr (show_socket_addr (mkSocketAddr a port)) = Some (mkSocketAddr a port).
Proof.
  destruct a as [a|segs]; intros Ha Hp; [by apply parse_show_socket_addr|].
  unfold parse_socket_addr, parse_with, read_socket_addr, or_else, show_socket_addr. cbn [addr_ip addr_port].
  assert (read_socket_addr_v4 ("[" +:+ show_ipv6 segs +:+ "]" +:+ ":" +:+ dec port) = None) as -> by done.
  unfold read_socket_addr_v6. rewrite (read_given_char_app "["). cbn [mbind option_bind].
  rewrite read_ipv6_show by done. cbn [mbind option_bind].
  assert (read_scope_id ("]" +:+ ":" +:+ dec port) = None) as -> by done.
  rewrite (read_given_char_app "]"). cbn [mbind option_bind]. by rewrite read_port_dec.
Qed.
