(* ===== verification/Rules.v ===== *)
(** * Rule engines ([src/rules.rs])

    [RuleEngineTrait] is the interface a rule engine gives the proxy: a
    program over the engine's own effects that threads the engine's interior
    state.  [LoggingRuleEngine] wraps any engine; [RuleEngine] is what the rest
    of the program holds. *)

From S2P Require Import Prelude Effects Http.

(** ** Results *)

Inductive Action : Type := Allow | Deny.

#[export] Instance action_eq_dec : EqDecision Action.
Proof. solve_decision. Defined.

Record EvaluationResult : Type := mkEvaluation {
  action : Action;
  context : option string;
  max_tx_bytes : option Z;
}.

#[export] Instance evaluation_eq_dec : EqDecision EvaluationResult.
Proof. solve_decision. Defined.

Module EvaluationResult.

Definition allow : EvaluationResult :=
  {| action := Allow; context := None; max_tx_bytes := None |}.

Definition deny : EvaluationResult :=
  {| action := Deny; context := None; max_tx_bytes := None |}.

Definition with_context (r : EvaluationResult) (c : string) : EvaluationResult :=
  {| action := action r; context := Some c; max_tx_bytes := max_tx_bytes r |}.

Definition with_max_tx_bytes (r : EvaluationResult) (n : Z) : EvaluationResult :=
  {| action := action r; context := context r; max_tx_bytes := Some n |}.

End EvaluationResult.

(** ** The trait *)

Class RuleEngineTrait (Σ : Sig) (E : Type) := {
  evaluate : E -> Method -> string -> string -> prog Σ (EvaluationResult * E);
  engine_name : E -> string;
}.

(** ** The request log *)

(** The operations of the logging wrapper: [Mutex::lock] (which fails when the
    mutex is poisoned), the UTC timestamp in RFC 3339 form, and [writeln!]. *)
Inductive log_op : Type :=
| LogLock
| UtcNow
| LogWriteln (line : string).

Definition LogSig : Sig :=
  {| op := log_op;
     ans o := match o with
              | LogLock => bool
              | UtcNow => string
              | LogWriteln _ => Result unit Error
              end |}.

Record LoggingRuleEngine (E : Type) : Type := {
  logged_engine : E;
  request_log : bool;
}.
Arguments logged_engine {E} _.
Arguments request_log {E} _.

Section Logging.
Context {Σ : Sig} {E : Type} `{RuleEngineTrait Σ E}.

Definition status_char (a : Action) : string :=
  match a with Allow => "+" | Deny => "-" end.

Definition log_line (timestamp : string) (a : Action) (method : Method) (url : string) : string :=
  timestamp +:+ " " +:+ status_char a +:+ " " +:+ method +:+ " " +:+ url +:+ LF.

Definition write_log (a : Action) (method : Method) (url : string) : prog LogSig unit :=
  locked ⇐ @perform LogSig LogLock;
  if locked then
    timestamp ⇐ @perform LogSig UtcNow;
    _ ⇐ @perform LogSig (LogWriteln (log_line timestamp a method url));
    Ret tt
  else Ret tt.

Definition logging_evaluate (l : LoggingRuleEngine E) (method : Method) (url requester_ip : string)
    : prog (sig_sum Σ LogSig) (EvaluationResult * LoggingRuleEngine E) :=
  '(result, e) ⇐ lift_l (evaluate (logged_engine l) method url requester_ip);
  let l' := {| logged_engine := e; request_log := request_log l |} in
  if request_log l then
    _ ⇐ lift_r (write_log (action result) method url);
    Ret (result, l')
  else Ret (result, l').

#[export] Instance logging_engine : RuleEngineTrait (sig_sum Σ LogSig) (LoggingRuleEngine E) := {|
  evaluate := logging_evaluate;
  engine_name l := engine_name (logged_engine l);
|}.

(** ** [RuleEngine]: the engine itself, or the engine under the logger *)

Inductive RuleEngine : Type :=
| Plain (e : E)
| Logged (l : LoggingRuleEngine E).

Definition from_trait (engine : E) (log : bool) : RuleEngine :=
  if log then Logged {| logged_engine := engine; request_log := true |} else Plain engine.

Definition inner_evaluate (r : RuleEngine) (method : Method) (url requester_ip : string)
    : prog (sig_sum Σ LogSig) (EvaluationResult * RuleEngine) :=
  match r with
  | Plain e =>
      '(x, e') ⇐ lift_l (evaluate e method url requester_ip); Ret (x, Plain e')
  | Logged l =>
      '(x, l') ⇐ evaluate l method url requester_ip; Ret (x, Logged l')
  end.

Definition evaluate_with_context_and_ip (r : RuleEngine) (method : Method) (url requester_ip : string)
    : prog (sig_sum Σ LogSig) (EvaluationResult * RuleEngine) :=
  inner_evaluate r method url requester_ip.

Definition evaluate_with_context (r : RuleEngine) (method : Method) (url : string)
    : prog (sig_sum Σ LogSig) (EvaluationResult * RuleEngine) :=
  inner_evaluate r method url "127.0.0.1".

Definition evaluate_with_ip (r : RuleEngine) (method : Method) (url requester_ip : string)
    : prog (sig_sum Σ LogSig) (Action * RuleEngine) :=
  '(x, r') ⇐ inner_evaluate r method url requester_ip; Ret (action x, r').

Definition evaluate_action (r : RuleEngine) (method : Method) (url : string)
    : prog (sig_sum Σ LogSig) (Action * RuleEngine) :=
  '(x, r') ⇐ inner_evaluate r method url "127.0.0.1"; Ret (action x, r').

(** An engine has an interior state: [asked e e'] when one request took it from
    [e] to [e']. *)
Definition asked (e e' : RuleEngine) : Prop := exists method url requester_ip t x,
  possible (evaluate_with_context_and_ip e method url requester_ip) t (x, e').

End Logging.
Arguments RuleEngine : clear implicits.

(** ** Properties *)

(** The events of an inner run, seen among those of the sum. *)
Definition inner_event {Σ} (e : event Σ) : event (sig_sum Σ LogSig) :=
  @Ev (sig_sum Σ LogSig) (inl (ev_op e)) (ev_ans e).
Definition log_event {Σ} (o : log_op) (r : ans LogSig o) : event (sig_sum Σ LogSig) :=
  @Ev (sig_sum Σ LogSig) (inr o) r.

(** The engine the program holds decides exactly as the engine it was
    built from, in every environment; with a request log it writes, after the
    decision, at most one line, which carries the sign of the decision, the
    method and the URL, and without one it writes nothing. *)
Theorem rule_engine_logs_and_agrees {Σ E} `{RuleEngineTrait Σ E}
    (e : E) (log : bool) (method : Method) (url ip : string) :
  wp (evaluate_with_context_and_ip (from_trait e log) method url ip)
    (fun t '(x, r') => exists t1 e', possible (evaluate e method url ip) t1 (x, e') /\
       ((log = false /\ t = inner_event <$> t1 /\ r' = Plain e') \/
        (log = true /\ r' = Logged {| logged_engine := e'; request_log := true |} /\
           (t = (inner_event <$> t1) ++ [log_event LogLock false] \/
            exists ts w, t = (inner_event <$> t1) ++
              [log_event LogLock true; log_event UtcNow ts;
               log_event (LogWriteln (log_line ts (action x) method url)) w])))).
Proof.
  assert (Hin : wp (evaluate e method url ip)
                  (fun t1 p => possible (evaluate e method url ip) t1 p)) by (by apply wp_possible).
  destruct log; simpl.
  - unfold logging_evaluate. simpl. repeat apply wp_bind_2. apply wp_lift_l.
    eapply wp_mono; [|exact Hin]. intros t1 [x e'] Hp. simpl.
    intros locked. destruct locked; simpl.
    + intros ts w. exists t1, e'. split; [done|]. right. repeat split. right. exists ts, w.
      by rewrite app_nil_r.
    + exists t1, e'. split; [done|]. right. repeat split. left. by rewrite app_nil_r.
  - apply wp_bind_2, wp_lift_l. eapply wp_mono; [|exact Hin].
    intros t1 [x e'] Hp. simpl. exists t1, e'. split; [done|]. left. by rewrite app_nil_r.
Qed.
