(* ===== verification/RuleCommon.v ===== *)
(** * What the rule engines share ([src/rules/common.rs])

    The description of a request handed to an engine, and the response format
    of the JavaScript and line-processor engines.  URL parsing ([url] crate)
    and JSON ([serde_json]) are not part of the repository: the functions take
    them as the classes [UrlLib] and [SerdeJson]. *)

From S2P Require Import Prelude Effects Http Rules.

(** ** The libraries *)

(** [url::Url::parse], through [scheme], [host_str] and [path]. *)
Record ParsedUrl : Type := { url_scheme : string; url_host : option string; url_path : string }.

Class UrlLib := { url_parse : string -> Result ParsedUrl string }.

(** ** [RequestInfo] *)

Record RequestInfo : Type := {
  info_url : string;
  info_method : string;
  info_scheme : string;
  info_host : string;
  info_path : string;
  info_requester_ip : string;
}.

Definition from_request `{UrlLib} (method : Method) (url requester_ip : string)
    : Result RequestInfo string :=
  let? parsed_url := Result.map_err (fun e => "Failed to parse URL: " +:+ e) (url_parse url) in
  Ok {| info_url := url;
        info_method := method;
        info_scheme := url_scheme parsed_url;
        info_host := default "" (url_host parsed_url);
        info_path := url_path parsed_url;
        info_requester_ip := requester_ip |}.

(** ** [AllowPolicy] and its hand-written deserializer *)

Inductive AllowPolicy : Type :=
| PBool (b : bool)
| PLimited (max_tx_bytes : Z).

#[export] Instance allow_policy_eq_dec : EqDecision AllowPolicy.
Proof. solve_decision. Defined.

(** [serde_json::Value]; an object is its list of members. A number is what
    [Number::as_u64] says of it. *)
Inductive Value : Type :=
| VNull
| VBool (b : bool)
| VNumber (as_u64 : option Z)
| VString (s : string)
| VArray (l : list Value)
| VObject (members : list (string * Value)).

Definition value_as_u64 (v : Value) : option Z :=
  match v with VNumber n => n | _ => None end.

(** [Map::remove], as far as the value it returns. *)
Fixpoint obj_remove (members : list (string * Value)) (k : string) : option Value :=
  match members with
  | [] => None
  | (k', v) :: rest => if String.eqb k' k then Some v else obj_remove rest k
  end.

Definition deserialize_allow_policy (value : Value) : Result AllowPolicy string :=
  match value with
  | VBool b => Ok (PBool b)
  | VObject obj =>
      match obj_remove obj "max_tx_bytes" with
      | Some max_tx_bytes =>
          let? bytes := Result.ok_or (value_as_u64 max_tx_bytes) "max_tx_bytes must be a number" in
          Ok (PLimited bytes)
      | None => Err "allow object must contain max_tx_bytes field"
      end
  | _ => Err "allow must be a boolean or object"
  end.

(** ** [RuleResponse] *)

Record RuleResponse : Type := {
  allow : option AllowPolicy;
  deny_message : option string;
}.

(** [serde_json]: [from_str] of the derived [RuleResponse] deserializer, which
    is given the deserializer of the [allow] field, and [to_string] of a
    [RequestInfo] through its derived serializer. *)
Class SerdeJson := {
  from_str : (Value -> Result AllowPolicy string) -> string -> option RuleResponse;
  to_json : RequestInfo -> Result string Error;
}.

Definition from_string `{SerdeJson} (s : string) : RuleResponse :=
  let trimmed := trim s in
  if String.eqb trimmed "true" then {| allow := Some (PBool true); deny_message := None |}
  else if String.eqb trimmed "false" then {| allow := Some (PBool false); deny_message := None |}
  else
    match from_str deserialize_allow_policy trimmed with
    | Some response => response
    | None => {| allow := Some (PBool false); deny_message := Some trimmed |}
    end.

Definition to_evaluation_result (r : RuleResponse) : bool * option string * option Z :=
  match allow r with
  | Some (PBool true) => (true, None, None)
  | Some (PBool false) => (false, deny_message r, None)
  | Some (PLimited max_tx_bytes) => (true, None, Some max_tx_bytes)
  | None =>
      let allowed := bool_decide (deny_message r = None) in
      if allowed then (true, None, None) else (false, deny_message r, None)
  end.

(** What an engine concludes from a line of text. *)
Definition interpret `{SerdeJson} (s : string) : bool * option string * option Z :=
  to_evaluation_result (from_string s).

(** A rule engine's triple as an [EvaluationResult]. *)
Definition evaluation_of (x : bool * option string * option Z) : EvaluationResult :=
  let '(allowed, message, max) := x in
  {| action := if allowed then Allow else Deny; context := message; max_tx_bytes := max |}.

(** ** A concrete JSON reader for the examples

    It knows the responses of the documentation's table. *)

Definition table_response (s : string) : option RuleResponse :=
  let q := dquote in
  if String.eqb s ("{" +:+ q +:+ "allow" +:+ q +:+ ": {" +:+ q +:+ "max_tx_bytes" +:+ q +:+ ": 1024}}")
  then Some {| allow := Some (PLimited 1024); deny_message := None |}
  else if String.eqb s ("{" +:+ q +:+ "deny_message" +:+ q +:+ ": " +:+ q +:+ "Blocked" +:+ q +:+ "}")
  then Some {| allow := None; deny_message := Some "Blocked" |}
  else if String.eqb s "{}" then Some {| allow := None; deny_message := None |}
  else None.

Definition table_json : SerdeJson := {|
  from_str _ := table_response;
  to_json i := Ok (info_method i +:+ " " +:+ info_url i);
|}.

Definition any_url : UrlLib := {|
  url_parse s := Ok {| url_scheme := "https"; url_host := Some "example.com"; url_path := "/" |};
|}.

(** ** Lemmas *)

Section Common.
Context `{SerdeJson}.

Lemma from_string_trim s : from_string (trim s) = from_string s.
Proof. unfold from_string. by rewrite trim_idemp. Qed.

Lemma interpret_trim s : interpret (trim s) = interpret s.
Proof. unfold interpret. by rewrite from_string_trim. Qed.

(** The message accompanies denials only, the limit permissions only. *)
Lemma to_evaluation_result_shape r allowed msg max :
  to_evaluation_result r = (allowed, msg, max) ->
  (allowed = true -> msg = None) /\ (allowed = false -> max = None).
Proof.
  unfold to_evaluation_result. intros E.
  destruct (allow r) as [[[]|n]|]; [| | |destruct (bool_decide _)]; simplify_eq; done.
Qed.

(** ** Properties *)

(** The policy a JSON value states. *)
Definition policy_of (v : Value) (p : AllowPolicy) : Prop :=
  (exists b, v = VBool b /\ p = PBool b) \/
  (exists obj n, v = VObject obj /\ obj_remove obj "max_tx_bytes" = Some (VNumber (Some n)) /\
     p = PLimited n).

(** The [allow] field is read from a JSON boolean or from an object whose
    [max_tx_bytes] is a [u64] number, and from nothing else; what is read is
    that boolean or that number. *)
Lemma deserialize_allow_policy_iff (v : Value) (p : AllowPolicy) :
  deserialize_allow_policy v = Ok p <-> policy_of v p.
Proof.
  unfold policy_of. split.
  - intros E. destruct v as [|b|n|t|l|obj]; simpl in E; try done.
    + left. exists b. naive_solver.
    + right. destruct (obj_remove obj "max_tx_bytes") as [w|] eqn:Ew; [|done].
      destruct w as [| |[n|]| | |]; simpl in E; try done. simplify_eq. eauto 10.
  - intros [(b & -> & ->)|(obj & n & -> & Ho & ->)]; simpl; [done|]. by rewrite Ho.
Qed.

(** The text is JSON of a response. *)
Definition response_text (s : string) (r : RuleResponse) : Prop :=
  trim s <> "true" /\ trim s <> "false" /\ from_str deserialize_allow_policy (trim s) = Some r.

(** What a text of a rule says, one line of the documentation's table each:
    the decision, the denial's message, the permission's byte limit. *)
Inductive says (s : string) : bool -> option string -> option Z -> Prop :=
| SaysTrue : trim s = "true" -> says s true None None
| SaysFalse : trim s = "false" -> says s false None None
| SaysAllow r : response_text s r -> allow r = Some (PBool true) -> says s true None None
| SaysDeny r : response_text s r -> allow r = Some (PBool false) -> says s false (deny_message r) None
| SaysLimit r n : response_text s r -> allow r = Some (PLimited n) -> says s true None (Some n)
| SaysNothing r : response_text s r -> allow r = None -> deny_message r = None -> says s true None None
| SaysMessage r m : response_text s r -> allow r = None -> deny_message r = Some m ->
    says s false (Some m) None
| SaysText : trim s <> "true" -> trim s <> "false" ->
    from_str deserialize_allow_policy (trim s) = None -> says s false (Some (trim s)) None.

Lemma interpret_says s :
  let '(allowed, msg, max) := interpret s in says s allowed msg max.
Proof.
  unfold interpret, from_string.
  destruct (String.eqb (trim s) "true") eqn:Et; bools; [by apply SaysTrue|].
  destruct (String.eqb (trim s) "false") eqn:Ef; bools; [by apply SaysFalse|].
  destruct (from_str deserialize_allow_policy (trim s)) as [r|] eqn:Ej; [|by apply SaysText].
  assert (Hr : response_text s r) by done.
  unfold to_evaluation_result. destruct (allow r) as [[[]|n]|] eqn:Ea.
  - by apply (SaysAllow s r).
  - by apply (SaysDeny s r).
  - by apply (SaysLimit s r).
  - destruct (deny_message r) as [m|] eqn:Em; [by apply (SaysMessage s r)|by apply (SaysNothing s r)].
Qed.

Lemma says_unique s a m x a' m' x' : says s a m x -> says s a' m' x' -> (a, m, x) = (a', m', x').
Proof.
  intros Hs Hs'. destruct Hs, Hs'; unfold response_text in *; destruct_and?; congruence.
Qed.

(** C30: a line of text decides exactly as the table of the documentation says:
    decision, message and byte limit are those of the one line that applies.
    It permits when it reads [true], or is JSON that sets [allow] to true or to
    a byte limit, which is then the limit returned, or that sets neither [allow]
    nor [deny_message]; it denies with the message given when it sets [allow] to
    false or only a [deny_message], and with itself as the message when it is
    not such JSON at all.  The [allow] field is read from a JSON boolean, or
    from an object whose [max_tx_bytes] is a [u64] number, which is the limit,
    and from nothing else. *)
Theorem interpret_permits_iff (s : string) (allowed : bool) (msg : option string) (max : option Z) :
  (interpret s = (allowed, msg, max) <-> says s allowed msg max) /\
  (forall v p, deserialize_allow_policy v = Ok p <-> policy_of v p).
Proof.
  split; [|intros v p; apply deserialize_allow_policy_iff].
  pose proof (interpret_says s) as Hs. destruct (interpret s) as [[a m] x].
  split; [by intros [= <- <- <-]|]. intros Hs'. exact (says_unique _ _ _ _ _ _ _ Hs Hs').
Qed.

End Common.
