(* ===== verification/Paths.v ===== *)
(** * Unix paths ([std::path])

    A path is its bytes. *)

From S2P Require Import Prelude.
From Stdlib Require Import Ascii.

(** [Path::join]: an absolute path replaces the other. *)
Definition path_join (a b : string) : string :=
  if starts_with b "/" then b
  else if is_empty a || String.eqb (String.rev (String.substring 0 1 (String.rev a))) "/" then a +:+ b
  else a +:+ "/" +:+ b.

(** [Path::file_name]. *)
Definition file_name (path : string) : option string :=
  n ← last (filter (fun c => c <> "" /\ c <> ".") (split_on "/"%char path));
  if String.eqb n ".." then None else Some n.

(** Drops separators and "." components off the end of a reversed path; the
    first component of a relative path is kept. *)
Fixpoint drop_trivial (absolute : bool) (rev_parts : list string) : list string :=
  match rev_parts with
  | [] => []
  | c :: r =>
      if String.eqb c "" || (String.eqb c "." && (absolute || negb (Nat.eqb (length r) 0)))
      then drop_trivial absolute r else c :: r
  end.

(** [Path::parent]. *)
Definition path_parent (path : string) : option string :=
  match strip_prefix "/" path with
  | Some rest =>
      match drop_trivial true (rev (split_on "/"%char rest)) with
      | [] => None
      | _ :: r => Some ("/" +:+ join "/" (rev (drop_trivial true r)))
      end
  | None =>
      match drop_trivial false (rev (split_on "/"%char path)) with
      | [] => None
      | _ :: r => Some (join "/" (rev (drop_trivial false r)))
      end
  end.

Lemma append_inj_l (s t u : string) : s +:+ t = s +:+ u -> t = u.
Proof. induction s as [|a s IH]; [done|]. intros [=]. auto. Qed.

Lemma path_join_inj (d a b : string) : starts_with a "/" = false -> starts_with b "/" = false ->
  path_join d a = path_join d b -> a = b.
Proof.
  intros Ha Hb. unfold path_join. rewrite Ha, Hb. destruct (_ || _); intros E.
  - by apply append_inj_l in E.
  - by do 2 apply append_inj_l in E.
Qed.
