(* ===== verification/Process.v ===== *)
(** * Child processes ([std::process] and [tokio::process])

    A command as the builder calls leave it, and what a finished child
    reports. *)

From S2P Require Import Prelude.

Inductive Stdio : Type := Piped | Inherit | NullIo.

Record Command : Type := mkCommand {
  program : string;
  args : list string;
  envs : list (string * string);
  stdin_cfg : Stdio;
  stdout_cfg : Stdio;
  stderr_cfg : Stdio;
  kill_on_drop : bool;
}.

#[export] Instance stdio_eq_dec : EqDecision Stdio.
Proof. solve_decision. Defined.
#[export] Instance command_eq_dec : EqDecision Command.
Proof. solve_decision. Defined.

Module Command.

Definition new (p : string) : Command :=
  {| program := p; args := []; envs := []; stdin_cfg := Inherit; stdout_cfg := Inherit;
     stderr_cfg := Inherit; kill_on_drop := false |}.

(** [args] and [arg], and [env]: variables in the order they were set, a later
    one overriding an earlier one. *)
Definition add_args (c : Command) (l : list string) : Command :=
  {| program := program c; args := args c ++ l; envs := envs c; stdin_cfg := stdin_cfg c;
     stdout_cfg := stdout_cfg c; stderr_cfg := stderr_cfg c; kill_on_drop := kill_on_drop c |}.

Definition add_envs (c : Command) (l : list (string * string)) : Command :=
  {| program := program c; args := args c; envs := envs c ++ l; stdin_cfg := stdin_cfg c;
     stdout_cfg := stdout_cfg c; stderr_cfg := stderr_cfg c; kill_on_drop := kill_on_drop c |}.

Definition with_stdio (c : Command) (i o e : Stdio) : Command :=
  {| program := program c; args := args c; envs := envs c; stdin_cfg := i;
     stdout_cfg := o; stderr_cfg := e; kill_on_drop := kill_on_drop c |}.

Definition with_kill_on_drop (c : Command) : Command :=
  {| program := program c; args := args c; envs := envs c; stdin_cfg := stdin_cfg c;
     stdout_cfg := stdout_cfg c; stderr_cfg := stderr_cfg c; kill_on_drop := true |}.

(** The value the child sees for a variable the builder set. *)
Definition env_value (c : Command) (k : string) : option string :=
  foldl (fun acc '(k', v) => if String.eqb k' k then Some v else acc) None (envs c).

End Command.

(** [ExitStatus::code] is [None] for a child a signal ended. *)
Record ExitStatus : Type := { code : option Z }.

Definition success (s : ExitStatus) : bool :=
  match code s with Some n => n =? 0 | None => false end.

Record Output : Type := { status : ExitStatus; stdout : string; stderr : string }.
