(* ===== verification/ShellRules.v ===== *)
(** * The shell-script rule engine ([src/rules/shell.rs]) *)

From S2P Require Import Prelude Effects Http Rules RuleCommon Process.
From Stdlib Require Import Ascii.

(** Spawning the script, and waiting for its output for some seconds: the wait
    itself may fail, or time out, which drops (and so kills) the child. *)
Inductive shell_op : Type :=
| ShellSpawn (c : Command)
| ShellWait (timeout_secs : Z).

Inductive Elapsed : Type := elapsed.

Definition ShellSig : Sig :=
  {| op := shell_op;
     ans o := match o with
              | ShellSpawn _ => Result unit string
              | ShellWait _ => Result (Result Output string) Elapsed
              end |}.

Record ShellRuleEngine : Type := { script : string }.

Definition shell_new (s : string) : ShellRuleEngine := {| script := s |}.

Section Shell.
Context `{UrlLib}.

(** The command: a script with a space goes through [sh -c]. *)
Definition shell_command (e : ShellRuleEngine) (method : Method) (url requester_ip : string)
    (u : ParsedUrl) : Command :=
  let cmd :=
    if contains_char " "%char (script e)
    then Command.add_args (Command.new "sh") ["-c"; script e]
    else Command.new (script e) in
  let cmd := Command.add_envs cmd
    [("HTTPJAIL_URL", url); ("HTTPJAIL_METHOD", method); ("HTTPJAIL_SCHEME", url_scheme u);
     ("HTTPJAIL_HOST", default "" (url_host u)); ("HTTPJAIL_PATH", url_path u);
     ("HTTPJAIL_REQUESTER_IP", requester_ip)] in
  Command.with_kill_on_drop (Command.with_stdio cmd Inherit Piped Piped).

Definition execute_script (e : ShellRuleEngine) (method : Method) (url requester_ip : string)
    : prog ShellSig (bool * string) :=
  match url_parse url with
  | Err err => Ret (false, "Failed to parse URL: " +:+ err)
  | Ok parsed_url =>
      child ⇐ @perform ShellSig (ShellSpawn (shell_command e method url requester_ip parsed_url));
      match child with
      | Err err => Ret (false, "Script execution failed: " +:+ err)
      | Ok _ =>
          waited ⇐ @perform ShellSig (ShellWait 30);
          match waited with
          | Ok (Ok output) =>
              let stdout := trim (from_utf8_lossy (stdout output)) in
              Ret (success (status output), stdout)
          | Ok (Err err) => Ret (false, "Script execution error: " +:+ err)
          | Err _ => Ret (false, "Script execution timed out")
          end
      end
  end.

Definition shell_evaluate (e : ShellRuleEngine) (method : Method) (url requester_ip : string)
    : prog ShellSig (EvaluationResult * ShellRuleEngine) :=
  '(allowed, context) ⇐ execute_script e method url requester_ip;
  if allowed then
    let result := EvaluationResult.allow in
    Ret (if is_empty context then result else EvaluationResult.with_context result context, e)
  else
    let result := EvaluationResult.deny in
    Ret (if is_empty context then result else EvaluationResult.with_context result context, e).

#[export] Instance shell_engine : RuleEngineTrait ShellSig ShellRuleEngine := {|
  evaluate := shell_evaluate;
  engine_name _ := "shell";
|}.

(** ** Properties *)

Lemma is_empty_spec s : is_empty s = true <-> s = "".
Proof. destruct s; done. Qed.

Lemma success_iff st : success st = true <-> code st = Some 0.
Proof.
  unfold success. destruct (code st) as [n|]; [|done].
  rewrite Z.eqb_eq. split; [by intros ->|by intros [= ->]].
Qed.

(** What [shell_evaluate] makes of a verdict and a message. *)
Lemma shell_verdict (a : bool) (m : string) :
  let x := if a then EvaluationResult.allow else EvaluationResult.deny in
  let r := if is_empty m then x else EvaluationResult.with_context x m in
  (action r = Allow <-> a = true) /\ context r = (if is_empty m then None else Some m) /\
  max_tx_bytes r = None /\ context r <> Some "".
Proof.
  destruct (is_empty m) eqn:E, a; simpl; repeat split; try done; intros [= ->]; done.
Qed.

(** What a run that got the script's output did. *)
Definition script_ran (e : ShellRuleEngine) (method : Method) (url ip : string) (out : Output)
    (t : list (event ShellSig)) : Prop :=
  exists u, url_parse url = Ok u /\
    t = [@Ev ShellSig (ShellSpawn (shell_command e method url ip u)) (Ok tt);
         @Ev ShellSig (ShellWait 30) (Ok (Ok out))].

(** The output an event reports. *)
Definition reported (ev : event ShellSig) : option Output :=
  match ev with
  | {| ev_op := ShellWait _; ev_ans := r |} =>
      match r with Ok (Ok out) => Some out | _ => None end
  | _ => None
  end.

Lemma script_ran_reported e method url ip out t :
  script_ran e method url ip out t -> omap reported t = [out].
Proof. by intros (u & _ & ->). Qed.

(** A run that stopped early denies. *)
Lemma shell_fails (e : ShellRuleEngine) (method : Method) (url ip m : string)
    (t : list (event ShellSig)) :
  m <> "" ->
  (forall out, ~ script_ran e method url ip out t) ->
  let r := if is_empty m then EvaluationResult.deny
           else EvaluationResult.with_context EvaluationResult.deny m in
  (action r = Allow <-> exists out, script_ran e method url ip out t /\ code (status out) = Some 0) /\
  (forall out, script_ran e method url ip out t ->
     context r = let m := trim (from_utf8_lossy (stdout out)) in
                 if is_empty m then None else Some m) /\
  max_tx_bytes r = None /\ context r <> Some "" /\ e = e.
Proof.
  intros Hm Ht r. subst r.
  assert (is_empty m = false) as -> by (destruct m; done). simpl.
  split; [split; [done|intros (out & Hr & _); by destruct (Ht out)]|].
  split; [intros out Hr; by destruct (Ht out)|].
  repeat split; congruence.
Qed.

(** What an evaluation concludes, and from what. *)
Lemma shell_evaluate_spec (e : ShellRuleEngine) (method : Method) (url ip : string) :
  wp (evaluate e method url ip) (fun t '(r, e') =>
    (action r = Allow <->
       exists out, script_ran e method url ip out t /\ code (status out) = Some 0) /\
    (forall out, script_ran e method url ip out t ->
       context r = let m := trim (from_utf8_lossy (stdout out)) in
                   if is_empty m then None else Some m) /\
    max_tx_bytes r = None /\ context r <> Some "" /\ e' = e).
Proof.
  simpl. unfold shell_evaluate, execute_script.
  destruct (url_parse url) as [u|err] eqn:Eu;
    [|apply shell_fails; [done|intros out (u & Hu & Ht); congruence]].
  intros [[]|err]; [|by apply shell_fails; [|intros out Hr%script_ran_reported]].
  intros [[out|err]|[]];
    [|by apply shell_fails; [|intros ? Hr%script_ran_reported]..].
  simpl. set (m := trim (from_utf8_lossy (stdout out))).
  destruct (shell_verdict (success (status out)) m) as (H1 & H2 & H3 & H4).
  rewrite success_iff in H1.
  set (t := [@Ev ShellSig (ShellSpawn (shell_command e method url ip u)) (Ok tt);
             @Ev ShellSig (ShellWait 30) (Ok (Ok out))]).
  assert (Hr : script_ran e method url ip out t) by (by exists u).
  assert (Ho : forall out', script_ran e method url ip out' t -> out' = out)
    by (intros out' Hr'%script_ran_reported; by injection Hr').
  destruct (success (status out)) eqn:Es; simpl in *;
    (split; [|split; [intros out' Hr'; apply Ho in Hr' as ->; exact H2|done]]);
    rewrite H1; (split; [intros Hc; by exists out|intros (out' & Hr' & Hc); by apply Ho in Hr' as ->]).
Qed.

(** In every environment the shell engine permits a request exactly when
    the URL parses and the script, started with the request in its variables,
    ends with exit code 0 within 30 seconds; every failure (bad URL, no such
    script, wait error, timeout, signal, non-zero code) denies.  It never sets
    a byte limit and never an empty message, and the script's trimmed output
    is the message. *)
Theorem shell_permits_iff (e : ShellRuleEngine) (method : Method) (url ip : string) :
  wp (evaluate e method url ip) (fun t '(r, e') =>
    (action r = Allow <->
       exists out, script_ran e method url ip out t /\ code (status out) = Some 0) /\
    (forall out, script_ran e method url ip out t ->
       context r = let m := trim (from_utf8_lossy (stdout out)) in
                   if is_empty m then None else Some m) /\
    max_tx_bytes r = None /\ context r <> Some "" /\ e' = e).
Proof. apply shell_evaluate_spec. Qed.

End Shell.
