(* ===== verification/ProcRules.v ===== *)
(** * The line-processor rule engine ([src/rules/proc.rs])

    One child process answers every request: a line of JSON in, a line of text
    out.  The engine holds the child between evaluations; the properties follow
    the trace of what was written to which child and what became of it. *)

From S2P Require Import Prelude Effects Http Rules RuleCommon Process ShellRules.

(** What [Command::spawn] gives: a child and the ends of its pipes. *)
Record Child : Type := { child_id : Z; child_stdin : option Z; child_stdout : option Z }.

Inductive proc_op : Type :=
| ProcTryWait (child : Z)
| ProcSpawn (c : Command)
| ProcKill (child : Z)                       (** the drop of a [kill_on_drop] child *)
| ProcWriteAll (stdin : Z) (line : string)
| ProcFlush (stdin : Z)
| ProcReadLine (stdout : Z) (timeout_secs : Z).

Definition ProcSig : Sig :=
  {| op := proc_op;
     ans o := match o with
              | ProcTryWait _ => Result (option ExitStatus) string
              | ProcSpawn _ => Result Child string
              | ProcKill _ => unit
              | ProcWriteAll _ _ => Result unit string
              | ProcFlush _ => Result unit string
              | ProcReadLine _ _ => Result (Result string string) Elapsed
              end |}.

Record ProcessState : Type := { ps_child : Z; ps_stdin : Z; ps_stdout : Z }.

#[export] Instance process_state_eq_dec : EqDecision ProcessState.
Proof. solve_decision. Defined.

Record ProcRuleEngine : Type := { proc_program : string; process : option ProcessState }.

Definition proc_new (p : string) : ProcRuleEngine := {| proc_program := p; process := None |}.

Definition ptry_wait (c : Z) : prog ProcSig (Result (option ExitStatus) string) :=
  @perform ProcSig (ProcTryWait c).
Definition pspawn (c : Command) : prog ProcSig (Result Child string) :=
  @perform ProcSig (ProcSpawn c).
Definition pwrite_all (i : Z) (l : string) : prog ProcSig (Result unit string) :=
  @perform ProcSig (ProcWriteAll i l).
Definition pflush (i : Z) : prog ProcSig (Result unit string) := @perform ProcSig (ProcFlush i).
Definition pread_line (o secs : Z) : prog ProcSig (Result (Result string string) Elapsed) :=
  @perform ProcSig (ProcReadLine o secs).

Definition kill_process (s : ProcessState) : prog ProcSig unit :=
  @perform ProcSig (ProcKill (ps_child s)).

Definition proc_command (p : string) : Command :=
  Command.with_kill_on_drop (Command.with_stdio (Command.new p) Piped Piped Inherit).

(** The part of [ensure_process_running] that starts a child; a child without
    its pipes is dropped on the early return. *)
Definition start_process (p : string) : prog ProcSig (Result unit string * option ProcessState) :=
  spawned ⇐ pspawn (proc_command p);
  match spawned with
  | Err e => Ret (Err ("Failed to spawn program: " +:+ e), None)
  | Ok child =>
      match child_stdin child with
      | None =>
          _ ⇐ @perform ProcSig (ProcKill (child_id child));
          Ret (Err "Failed to get stdin handle", None)
      | Some i =>
          match child_stdout child with
          | None =>
              _ ⇐ @perform ProcSig (ProcKill (child_id child));
              Ret (Err "Failed to get stdout handle", None)
          | Some o =>
              Ret (Ok tt, Some {| ps_child := child_id child; ps_stdin := i; ps_stdout := o |})
          end
      end
  end.

Definition ensure_process_running (p : string) (process_guard : option ProcessState)
    : prog ProcSig (Result unit string * option ProcessState) :=
  match process_guard with
  | Some process_state =>
      waited ⇐ ptry_wait (ps_child process_state);
      match waited with
      | Ok (Some _) => _ ⇐ kill_process process_state; start_process p
      | Ok None => Ret (Ok tt, Some process_state)
      | Err _ => _ ⇐ kill_process process_state; start_process p
      end
  | None => start_process p
  end.

Definition verdict : Type := bool * option string * option Z.

Section Proc.
Context `{UrlLib} `{SerdeJson}.

Definition send_request_to_process (p : string) (process_guard : option ProcessState)
    (json_request : string) : prog ProcSig (Result verdict string * option ProcessState) :=
  '(ensured, process_guard) ⇐ ensure_process_running p process_guard;
  match ensured with
  | Err e => Ret (Err e, process_guard)
  | Ok _ =>
      match process_guard with
      | None => Ret (Err "Process not available after ensure_process_running", process_guard)
      | Some process_state =>
          let request_line := json_request +:+ LF in
          written ⇐ pwrite_all (ps_stdin process_state) request_line;
          match written with
          | Err _ =>
              _ ⇐ kill_process process_state; Ret (Err "Failed to write to program", None)
          | Ok _ =>
              flushed ⇐ pflush (ps_stdin process_state);
              match flushed with
              | Err _ => _ ⇐ kill_process process_state; Ret (Err "Failed to flush stdin", None)
              | Ok _ =>
                  response ⇐ pread_line (ps_stdout process_state) 5;
                  match response with
                  | Ok (Ok response_line) =>
                      if is_empty response_line then
                        _ ⇐ kill_process process_state;
                        Ret (Err "Program closed unexpectedly", None)
                      else
                        let response := trim response_line in
                        if is_empty response then
                          _ ⇐ kill_process process_state;
                          Ret (Err "Program returned empty response", None)
                        else
                          Ret (Ok (to_evaluation_result (from_string response)),
                               Some process_state)
                  | Ok (Err e) =>
                      _ ⇐ kill_process process_state;
                      Ret (Err ("Error reading from program: " +:+ e), None)
                  | Err _ =>
                      _ ⇐ kill_process process_state;
                      Ret (Err "Program response timeout", None)
                  end
              end
          end
      end
  end.

(** The result the loop of [execute_program] returns for an answer. *)
Definition proc_result (v : verdict) : EvaluationResult :=
  let '(allowed, message, max) := v in
  if allowed then
    let result := EvaluationResult.allow in
    let result := match message with
                  | Some msg => EvaluationResult.with_context result msg
                  | None => result
                  end in
    match max with
    | Some bytes => EvaluationResult.with_max_tx_bytes result bytes
    | None => result
    end
  else
    match message with
    | Some msg => EvaluationResult.with_context EvaluationResult.deny msg
    | None => EvaluationResult.deny
    end.

(** [for attempt in 0..n]. *)
Fixpoint attempts (n : nat) (p : string) (process_guard : option ProcessState)
    (json_request : string) : prog ProcSig (EvaluationResult * option ProcessState) :=
  match n with
  | O => Ret (EvaluationResult.with_context EvaluationResult.deny "Program evaluation failed",
              process_guard)
  | S n' =>
      '(sent, process_guard) ⇐ send_request_to_process p process_guard json_request;
      match sent with
      | Ok v => Ret (proc_result v, process_guard)
      | Err _ => attempts n' p process_guard json_request
      end
  end.

Definition execute_program (e : ProcRuleEngine) (method : Method) (url requester_ip : string)
    : prog ProcSig (EvaluationResult * ProcRuleEngine) :=
  match from_request method url requester_ip with
  | Err err => Ret (EvaluationResult.with_context EvaluationResult.deny err, e)
  | Ok request_info =>
      match to_json request_info with
      | Err _ =>
          Ret (EvaluationResult.with_context EvaluationResult.deny "Program evaluation failed", e)
      | Ok json_request =>
          '(result, process_guard) ⇐ attempts 2 (proc_program e) (process e) json_request;
          Ret (result, {| proc_program := proc_program e; process := process_guard |})
      end
  end.

#[export] Instance proc_engine : RuleEngineTrait ProcSig ProcRuleEngine := {|
  evaluate := execute_program;
  engine_name _ := "proc";
|}.

(** [Drop for ProcRuleEngine]: nothing when the lock is held elsewhere. *)
Definition proc_drop (e : ProcRuleEngine) (try_lock : bool) : prog ProcSig ProcRuleEngine :=
  if try_lock then
    match process e with
    | Some process_state =>
        _ ⇐ kill_process process_state;
        Ret {| proc_program := proc_program e; process := None |}
    | None => Ret e
    end
  else Ret e.

(** Requests answered one after the other, as the lock on the process orders
    them. *)
Definition Request3 : Type := Method * string * string.

Fixpoint evaluate_all (e : ProcRuleEngine) (reqs : list Request3)
    : prog ProcSig (list EvaluationResult * ProcRuleEngine) :=
  match reqs with
  | [] => Ret ([], e)
  | (m, url, ip) :: reqs' =>
      '(r, e1) ⇐ evaluate e m url ip;
      '(rs, e2) ⇐ evaluate_all e1 reqs';
      Ret (r :: rs, e2)
  end.

End Proc.

(** ** The life of the child *)

Definition try_waited (ps : ProcessState) (r : Result (option ExitStatus) string) : event ProcSig :=
  @Ev ProcSig (ProcTryWait (ps_child ps)) r.
Definition killed (c : Z) : event ProcSig := @Ev ProcSig (ProcKill c) tt.
Definition spawned_ev (p : string) (r : Result Child string) : event ProcSig :=
  @Ev ProcSig (ProcSpawn (proc_command p)) r.
Definition wrote (ps : ProcessState) (json : string) (r : Result unit string) : event ProcSig :=
  @Ev ProcSig (ProcWriteAll (ps_stdin ps) (json +:+ LF)) r.
Definition flushed_ev (ps : ProcessState) (r : Result unit string) : event ProcSig :=
  @Ev ProcSig (ProcFlush (ps_stdin ps)) r.
Definition read_ev (ps : ProcessState) (r : Result (Result string string) Elapsed) : event ProcSig :=
  @Ev ProcSig (ProcReadLine (ps_stdout ps) 5) r.

(** One request written and its answer read. *)
Definition exchange (ps : ProcessState) (json line : string) : list (event ProcSig) :=
  [wrote ps json (Ok tt); flushed_ev ps (Ok tt); read_ev ps (Ok (Ok line))].

(** A reply that is a line with something on it. *)
Definition reply (r : Result (Result string string) Elapsed) : option string :=
  match r with Ok (Ok line) => if is_empty (trim line) then None else Some line | _ => None end.

(** An exchange that broke off before the answer. *)
Inductive broken (ps : ProcessState) (json : string) : list (event ProcSig) -> Prop :=
| broken_write e : broken ps json [wrote ps json (Err e)]
| broken_flush e : broken ps json [wrote ps json (Ok tt); flushed_ev ps (Err e)]
| broken_read r : reply r = None ->
    broken ps json [wrote ps json (Ok tt); flushed_ev ps (Ok tt); read_ev ps r].

(** [life p g t a g']: from holding [g], the events [t] lead to holding [g'],
    and [a] lists what was asked and answered.  A child found dead, or that broke
    an exchange, is killed at once and not used again; a child that is kept
    has answered everything that was written to it. *)
Inductive life (p : string)
    : option ProcessState -> list (event ProcSig) -> list (string * string) ->
      option ProcessState -> Prop :=
| life_nil g : life p g [] [] g
| life_alive ps t a g :
    life p (Some ps) t a g -> life p (Some ps) (try_waited ps (Ok None) :: t) a g
| life_dead ps r t a g :
    r <> Ok None -> life p None t a g ->
    life p (Some ps) (try_waited ps r :: killed (ps_child ps) :: t) a g
| life_no_spawn e t a g : life p None t a g -> life p None (spawned_ev p (Err e) :: t) a g
| life_no_pipes c t a g :
    child_stdin c = None \/ child_stdout c = None -> life p None t a g ->
    life p None (spawned_ev p (Ok c) :: killed (child_id c) :: t) a g
| life_spawn c i o t a g :
    child_stdin c = Some i -> child_stdout c = Some o ->
    life p (Some {| ps_child := child_id c; ps_stdin := i; ps_stdout := o |}) t a g ->
    life p None (spawned_ev p (Ok c) :: t) a g
| life_answered ps json line t a g :
    is_empty (trim line) = false -> life p (Some ps) t a g ->
    life p (Some ps) (exchange ps json line ++ t) ((json, line) :: a) g
| life_broken ps json t0 t a g :
    broken ps json t0 -> life p None t a g ->
    life p (Some ps) (t0 ++ killed (ps_child ps) :: t) a g.

(** The answer and the start of a child an event reports. *)
Definition answer (e : event ProcSig) : option string :=
  match e with
  | {| ev_op := ProcReadLine _ _; ev_ans := r |} => reply r
  | _ => None
  end.

Definition is_spawn (e : event ProcSig) : Prop :=
  match ev_op e with ProcSpawn _ => True | _ => False end.

#[export] Instance is_spawn_dec e : Decision (is_spawn e).
Proof. destruct e as [[] ?]; unfold is_spawn; simpl; apply _. Defined.

Definition spawns (t : list (event ProcSig)) : nat := length (filter is_spawn t).

(** ** Lemmas *)

Lemma life_app p g t a g1 t' a' g2 :
  life p g t a g1 -> life p g1 t' a' g2 -> life p g (t ++ t') (a ++ a') g2.
Proof.
  induction 1 as [| | | | | | |? ? ? ? ? ? Hb]; intros Hl; simpl; eauto using life.
  - change ((exchange ps json line ++ t ++ t')) with (exchange ps json line ++ (t ++ t')).
    constructor; auto.
  - rewrite <- app_assoc. simpl. econstructor; eauto.
Qed.

Lemma spawns_app t t' : spawns (t ++ t') = (spawns t + spawns t')%nat.
Proof. unfold spawns. by rewrite filter_app, length_app. Qed.

Lemma spawns_none t : omap (fun e => if decide (is_spawn e) then Some tt else None) t = [] -> spawns t = O.
Proof. unfold spawns. induction t as [|e t IH]; [done|]. csimpl. rewrite filter_cons. by destruct (decide (is_spawn e)). Qed.

#[export] Hint Constructors life broken : rust.

Definition started_post (p : string) (g : option ProcessState) (t : list (event ProcSig))
    (x : Result unit string * option ProcessState) : Prop :=
  (match x.1 with Ok _ => is_Some x.2 | Err _ => x.2 = None end) /\
  life p g t [] x.2 /\ omap answer t = [] /\ (spawns t <= 1)%nat.

Lemma start_process_spec p : wp (start_process p) (started_post p None).
Proof.
  intros [[id [i|] [o|]]|e]; simpl; [|intros []..|]; repeat split; simpl; eauto with rust.
Qed.

Lemma ensure_process_running_spec p g :
  wp (ensure_process_running p g) (started_post p g).
Proof.
  destruct g as [ps|]; [|apply start_process_spec].
  intros [[st|]|e].
  2: repeat split; simpl; eauto with rust.
  all: intros []; eapply wp_mono; [|apply start_process_spec];
    intros t [r g] (H1 & H2 & H3 & H4); simpl in *;
    (split; [done|split; [by constructor|split; [done|exact H4]]]).
Qed.

Section ProcLemmas.
Context `{UrlLib} `{SerdeJson}.

Definition sent_post (p json : string) (g : option ProcessState) (t : list (event ProcSig))
    (x : Result verdict string * option ProcessState) : Prop :=
  (spawns t <= 1)%nat /\
  match x.1 with
  | Ok v => exists ps line t1,
      x.2 = Some ps /\ v = interpret line /\ is_empty (trim line) = false /\
      life p g t [(json, line)] (Some ps) /\ t = t1 ++ exchange ps json line /\
      omap answer t = [line]
  | Err _ => x.2 = None /\ life p g t [] None /\ omap answer t = []
  end.

Lemma sent_broken p json g ps t1 t0 err :
  started_post p g t1 (Ok tt, Some ps) -> broken ps json t0 -> spawns t0 = O ->
  omap answer t0 = [] ->
  sent_post p json g (t1 ++ t0 ++ [killed (ps_child ps)]) (Err err, None).
Proof.
  intros (_ & Hl & Ha & Hs) Hb Hs0 Ha0. simpl in *. unfold sent_post.
  rewrite !spawns_app, Hs0, !omap_app, Ha, Ha0. rewrite (spawns_none [killed (ps_child ps)]) by done. split; [lia|].
  repeat split. eapply (life_app _ _ _ []); [exact Hl|]. eauto with rust.
Qed.

Lemma sent_answered p json g ps t1 line :
  started_post p g t1 (Ok tt, Some ps) -> is_empty (trim line) = false ->
  sent_post p json g (t1 ++ exchange ps json line) (Ok (interpret line), Some ps).
Proof.
  intros (_ & Hl & Ha & Hs) Hline. simpl in *. unfold sent_post.
  rewrite spawns_app. rewrite (spawns_none (exchange ps json line)) by done. split; [lia|].
  exists ps, line, t1. repeat split; [done| |].
  - eapply (life_app _ _ _ []); [exact Hl|].
    rewrite <- (app_nil_r (exchange ps json line)). eauto with rust.
  - rewrite omap_app, Ha. simpl. by rewrite Hline.
Qed.

Lemma send_request_spec p g json :
  wp (send_request_to_process p g json) (sent_post p json g).
Proof.
  unfold send_request_to_process. wp_step. eapply wp_mono; [|apply ensure_process_running_spec].
  intros t1 [[[]|e] g1] Hp; simpl.
  2: { destruct Hp as (Hg & Hl & Ha & Hs). simpl in *. rewrite app_nil_r. by rewrite Hg in *. }
  destruct g1 as [ps|]; [|by destruct Hp as [[? ?] ?]].
  intros [[]|e]; simpl; [|intros []; apply (sent_broken _ _ _ ps _ [wrote ps json (Err e)]); eauto with rust].
  intros [[]|e]; simpl; [|intros []; apply (sent_broken _ _ _ ps _ [wrote ps json (Ok tt); flushed_ev ps (Err e)]); eauto with rust].
  intros r. destruct (reply r) as [line|] eqn:Er.
  - destruct r as [[l|]|]; simpl in Er; try done.
    destruct (is_empty (trim l)) eqn:El; simplify_eq.
    destruct (is_empty line) eqn:Ee; [by destruct line|].
    rewrite from_string_trim. by apply sent_answered.
  - assert (Hb : forall err, sent_post p json g
      (t1 ++ [wrote ps json (Ok tt); flushed_ev ps (Ok tt); read_ev ps r] ++
       [killed (ps_child ps)]) (Err err, None)).
    { intros err. apply sent_broken; [done|by constructor|done|].
      simpl. by rewrite Er. }
    destruct r as [[l|]|]; simpl in *.
    1: destruct (is_empty l); [|destruct (is_empty (trim l)); [|done]].
    all: intros []; apply Hb.
Qed.

Lemma proc_result_interpret line : proc_result (interpret line) = evaluation_of (interpret line).
Proof.
  destruct (interpret line) as [[allowed msg] max] eqn:E.
  pose proof (to_evaluation_result_shape _ _ _ _ E) as [Hm Hx].
  destruct allowed; simpl; [by rewrite Hm by done; destruct max|].
  by rewrite Hx by done; destruct msg.
Qed.

Definition failed_evaluation : EvaluationResult :=
  EvaluationResult.with_context EvaluationResult.deny "Program evaluation failed".

(** What [n] attempts at one request come to. *)
Definition attempts_post (n : nat) (p json : string) (g : option ProcessState)
    (t : list (event ProcSig)) (x : EvaluationResult * option ProcessState) : Prop :=
  (spawns t <= n)%nat /\
  ((exists ps line t1, x = (evaluation_of (interpret line), Some ps) /\
      is_empty (trim line) = false /\ t = t1 ++ exchange ps json line /\
      life p g t [(json, line)] (Some ps) /\ omap answer t = [line]) \/
   (x = (failed_evaluation, if n is O then g else None) /\ omap answer t = [] /\
      life p g t [] (if n is O then g else None))).

Lemma attempts_spec n p g json : wp (attempts n p g json) (attempts_post n p json g).
Proof.
  revert g. induction n as [|n IH]; intros g; simpl.
  { split; [done|]. right. repeat split. constructor. }
  wp_step. eapply wp_mono; [|apply send_request_spec].
  intros t [[v|e] g1] [Hs Hp]; simpl in *.
  - destruct Hp as (ps & line & t1 & -> & -> & Hl & Hlife & Ht & Ha).
    rewrite app_nil_r, proc_result_interpret. split; [lia|]. left. eauto 10.
  - destruct Hp as (-> & Hlife & Ha). eapply wp_mono; [|apply IH].
    intros t' [r g'] [Hs' Hp']. split; [rewrite spawns_app; lia|]. rewrite omap_app, Ha.
    destruct Hp' as [(ps & line & t1 & E & Hl & -> & Hlife' & Ha')|(E & Ha' & Hlife')].
    + left. exists ps, line, (t ++ t1). rewrite <- app_assoc. repeat split; try done.
      by eapply (life_app _ _ _ []).
    + right. rewrite E. destruct n; repeat split; try done; by eapply (life_app _ _ _ []).
Qed.

(** The line the engine writes for a request. *)
Definition request_json (method : Method) (url ip : string) : option string :=
  match from_request method url ip with
  | Ok i => Result.ok (to_json i)
  | Err _ => None
  end.

(** ** Properties *)

(** Whatever the child and the system do, an evaluation ends in one of two
    ways.  Either exactly one line with something on it was read, last, from a
    child that had just been sent this request's JSON: then the result is what
    that line says, and the child is kept.  Or no such line was read: then the
    request is denied, without a limit, and no child that was used is kept.
    At most two children are started. *)
Theorem proc_evaluate_outcome (e : ProcRuleEngine) (method : Method) (url ip : string) :
  wp (evaluate e method url ip) (fun t '(r, e') =>
    proc_program e' = proc_program e /\ (spawns t <= 2)%nat /\
    ((exists json ps line t1, request_json method url ip = Some json /\
        t = t1 ++ exchange ps json line /\ omap answer t = [line] /\
        is_empty (trim line) = false /\ process e' = Some ps /\
        r = evaluation_of (interpret line)) \/
     (omap answer t = [] /\ action r = Deny /\ max_tx_bytes r = None /\
        is_Some (context r) /\ (t = [] /\ e' = e \/ process e' = None)))).
Proof.
  assert (H02 : (spawns [] <= 2)%nat) by apply Nat.le_0_l.
  simpl. unfold execute_program, request_json.
  destruct (from_request method url ip) as [i|err]; simpl; [|by eauto 10].
  destruct (to_json i) as [json|err]; simpl; [|by eauto 10].
  wp_step. eapply wp_mono; [|apply (attempts_spec 2)].
  intros t [r g] [Hs Hp]; simpl. rewrite app_nil_r. split; [done|split; [done|]].
  destruct Hp as [(ps & line & t1 & [= -> ->] & ? & ? & ? & ?)|([= -> ->] & ? & ?)];
    [left; by eauto 12|right; by eauto 10].
Qed.

(** [served reqs rs a]: the results [rs] of the requests [reqs], when the
    answered exchanges are [a]: each is the reading of the answer to its own
    request, or a denial without an answer. *)
Inductive served : list Request3 -> list EvaluationResult -> list (string * string) -> Prop :=
| served_nil : served [] [] []
| served_answered m url ip json line reqs rs a :
    request_json m url ip = Some json -> served reqs rs a ->
    served ((m, url, ip) :: reqs) (evaluation_of (interpret line) :: rs) ((json, line) :: a)
| served_denied q r reqs rs a :
    action r = Deny -> served reqs rs a -> served (q :: reqs) (r :: rs) a.

Lemma execute_program_life e m url ip :
  wp (execute_program e m url ip) (fun t '(r, e') =>
    proc_program e' = proc_program e /\
    ((exists json line, request_json m url ip = Some json /\
        r = evaluation_of (interpret line) /\ omap answer t = [line] /\
        life (proc_program e) (process e) t [(json, line)] (process e')) \/
     (action r = Deny /\ omap answer t = [] /\ life (proc_program e) (process e) t [] (process e')))).
Proof.
  unfold execute_program, request_json.
  destruct (from_request m url ip) as [i|err]; simpl; [|by eauto with rust].
  destruct (to_json i) as [json|err]; simpl; [|by eauto with rust].
  wp_step. eapply wp_mono; [|apply (attempts_spec 2)].
  intros t [r g] [_ Hp]; simpl. rewrite app_nil_r. split; [done|].
  destruct Hp as [(ps & line & t1 & [= -> ->] & ? & ? & ? & ?)|([= -> ->] & ? & ?)];
    [left|right]; by eauto 10.
Qed.

(** C15: however many requests one engine serves, and whatever the child does
    in between (dies, stalls, closes a pipe, prints blank or unreadable
    lines), no request is ever decided by the answer to another one: each
    result is the reading of the line answered to this request's own JSON, or
    a denial, and the child in use has answered everything written to it. *)
Theorem proc_requests_matched (e : ProcRuleEngine) (reqs : list Request3) :
  wp (evaluate_all e reqs) (fun t '(rs, e') =>
    exists a, life (proc_program e) (process e) t a (process e') /\ served reqs rs a).
Proof.
  revert e. induction reqs as [|[[m url] ip] reqs IH]; intros e; cbn [evaluate_all].
  { exists []. split; constructor. }
  wp_step. eapply wp_mono; [|apply execute_program_life].
  intros t [r e1] [Hp Ho]. wp_step. eapply wp_mono; [|apply IH].
  intros t' [rs e2] (a & Hl & Hs); simpl. rewrite app_nil_r. rewrite Hp in Hl.
  destruct Ho as [(json & line & Hj & -> & _ & Hl1)|(Hd & _ & Hl1)].
  - exists ((json, line) :: a). split; [|by constructor].
    by apply (life_app _ _ _ [(json, line)] _ _ a _ Hl1).
  - exists a. split; [|by constructor]. by apply (life_app _ _ _ [] _ _ a _ Hl1).
Qed.

End ProcLemmas.
