(* ===== verification/ProcLock.v ===== *)
(** * The line processor among concurrent requests ([src/rules/proc.rs])

    The engine is shared by every connection; the child is behind a mutex that
    an evaluation holds from before its first attempt until its result.  Here
    taking the lock and dropping its guard are operations of their own, so
    evaluations can be interleaved, and dropped halfway as a [Future] can. *)

From S2P Require Import Prelude Effects Http Rules RuleCommon Process ShellRules ProcRules.

Inductive mutex_op : Type :=
| Lock                                      (** [self.process.lock().await]: what it guards *)
| Unlock.                                   (** the drop of the guard *)

Definition MutexSig : Sig :=
  {| op := mutex_op;
     ans o := match o with Lock => option ProcessState | Unlock => unit end |}.

Definition LockedSig : Sig := sig_sum MutexSig ProcSig.

(** The part of the engine outside of the mutex. *)
Record SharedProc : Type := { shared_program : string }.

Section Locked.
Context `{UrlLib} `{SerdeJson}.

Definition locked_execute_program (e : SharedProc) (method : Method) (url requester_ip : string)
    : prog LockedSig (EvaluationResult * SharedProc) :=
  match from_request method url requester_ip with
  | Err err => Ret (EvaluationResult.with_context EvaluationResult.deny err, e)
  | Ok request_info =>
      match to_json request_info with
      | Err _ =>
          Ret (EvaluationResult.with_context EvaluationResult.deny "Program evaluation failed", e)
      | Ok json_request =>
          process_guard ⇐ lift_l (@perform MutexSig Lock);
          '(result, _) ⇐ lift_r (attempts 2 (shared_program e) process_guard json_request);
          _ ⇐ lift_l (@perform MutexSig Unlock);
          Ret (result, e)
      end
  end.

#[export] Instance locked_engine : RuleEngineTrait LockedSig SharedProc := {|
  evaluate := locked_execute_program;
  engine_name _ := "proc";
|}.

(** Requests one after the other. *)
Fixpoint evaluate_each (e : SharedProc) (reqs : list Request3) : prog LockedSig (list EvaluationResult) :=
  match reqs with
  | [] => Ret []
  | (m, url, ip) :: reqs' =>
      '(r, e) ⇐ evaluate e m url ip;
      rs ⇐ evaluate_each e reqs';
      Ret (r :: rs)
  end.

End Locked.

(** ** What the mutex guards

    [guard_after g e]: the content after an operation on the child.  The code
    replaces it in place ([take], [*process_guard = Some(..)]), so this is also
    what a guard dropped at that point leaves behind. *)

Definition guard_after (g : option ProcessState) (e : event ProcSig) : option ProcessState :=
  match e with
  | {| ev_op := ProcKill _ |} => None
  | {| ev_op := ProcSpawn _; ev_ans := Ok c |} =>
      match child_stdin c, child_stdout c with
      | Some i, Some o => Some {| ps_child := child_id c; ps_stdin := i; ps_stdout := o |}
      | _, _ => g
      end
  | _ => g
  end.

Lemma life_guard p g t a g' : life p g t a g' -> foldl guard_after g t = g'.
Proof.
  induction 1 as [g|ps t a g _ IH|ps r t a g _ _ IH|e t a g _ IH|c t a g _ _ IH|c i o t a g Hi Ho _ IH
    |ps json line t a g _ _ IH|ps json t0 t a g Hb _ IH]; try done.
  - simpl. by rewrite Hi, Ho.
  - by destruct Hb.
Qed.

(** One evaluation with the lock held. *)
Definition child_event (e : event ProcSig) : event LockedSig := @Ev LockedSig (inr (ev_op e)) (ev_ans e).
Definition locked (g : option ProcessState) : event LockedSig := @Ev LockedSig (inl Lock) g.
Definition unlocked : event LockedSig := @Ev LockedSig (inl Unlock) tt.
Definition critical (g : option ProcessState) (t : list (event ProcSig)) : list (event LockedSig) :=
  locked g :: (child_event <$> t) ++ [unlocked].

Section Spec.
Context `{UrlLib} `{SerdeJson}.

(** An evaluation without JSON for the request takes no lock; the others take it
    once, and whatever the guarded child was, leave one that has answered
    everything written to it. *)
Lemma locked_evaluate_spec (e : SharedProc) m url ip :
  wp (evaluate e m url ip) (fun t '(x, e') => e' = e /\
    ((t = [] /\ action x = Deny) \/
     exists g ts g' a json, request_json m url ip = Some json /\
       t = critical g ts /\ life (shared_program e) g ts a g' /\
       ((a = [] /\ action x = Deny) \/
        exists line, a = [(json, line)] /\ x = evaluation_of (interpret line)))).
Proof.
  cbn [evaluate locked_engine]. unfold locked_execute_program, request_json.
  destruct (from_request m url ip) as [i|err]; [|by split; [|left]].
  destruct (to_json i) as [json|err]; [|by split; [|left]].
  cbn [bind lift_l perform wp]. intros g. wp_step. apply wp_lift_r.
  eapply wp_mono; [|apply (attempts_spec 2)].
  intros t [r g'] [_ Hp]. cbn [bind lift_l perform wp]. intros []. split; [done|]. right.
  destruct Hp as [(ps & line & t1 & [= -> ->] & _ & _ & Hl & _)|([= -> ->] & _ & Hl)];
    exists g, t; eexists _, _, json; (split; [reflexivity|]); (split; [reflexivity|]); (split; [exact Hl|]); eauto.
Qed.

(** The engine of [ProcRules], which is handed what the mutex guards, is this one
    between the two operations on the mutex. *)
Lemma locked_follows (p : string) g m url ip t x g' : is_Some (request_json m url ip) ->
  possible (evaluate {| proc_program := p; process := g |} m url ip) t
    (x, {| proc_program := p; process := g' |}) ->
  possible (evaluate {| shared_program := p |} m url ip) (critical g t) (x, {| shared_program := p |}).
Proof.
  unfold request_json. cbn [evaluate locked_engine proc_engine].
  unfold locked_execute_program, execute_program. intros [json Hj].
  destruct (from_request m url ip) as [i|err]; [|done]. destruct (to_json i) as [json'|err]; [|done].
  cbn [proc_program process shared_program]. intros Hp.
  change (critical g t) with ([locked g] ++ (child_event <$> t) ++ [unlocked]).
  apply (possible_bind (lift_l (perform (Σ := MutexSig) Lock)) _ [locked g] g).
  { repeat constructor. }
  apply possible_bind_inv in Hp as (t1 & [r g1] & t2 & -> & Hp & Hr).
  assert (t2 = [] /\ r = x) as [-> ->].
  { by apply possible_ret_inv in Hr as [-> [= -> _]]. }
  rewrite app_nil_r.
  apply (possible_bind _ _ (child_event <$> t1) (x, g1)); [by apply possible_lift_r|].
  apply (possible_bind (lift_l (perform (Σ := MutexSig) Unlock)) _ [unlocked] tt [] _); repeat constructor.
Qed.

End Spec.

(** ** A request dropped halfway

    A child that answers each line with [f], in order, and a world that keeps
    what the mutex guards and the answers nobody has read. *)

Section Dropped.
Context `{UrlLib} `{SerdeJson}.

Record Processor : Type := { guarded : option ProcessState; unread : list string }.

Definition fifo_child (f : string -> string) (o : op ProcSig) (u : list string) : ans ProcSig o * list string :=
  match o as o return (ans ProcSig o * list string) with
  | ProcTryWait _ => (Ok None, u)
  | ProcSpawn _ => (Ok {| child_id := 0; child_stdin := Some 1; child_stdout := Some 2 |}, [])
  | ProcKill _ => (tt, [])
  | ProcWriteAll _ line => (Ok tt, u ++ [f line])
  | ProcFlush _ => (Ok tt, u)
  | ProcReadLine _ _ => match u with l :: u' => (Ok (Ok l), u') | [] => (Err elapsed, []) end
  end.

Definition fifo (f : string -> string) : handler LockedSig Processor := fun o w =>
  match o as o return (ans LockedSig o * Processor) with
  | inl Lock => (guarded w, w)
  | inl Unlock => (tt, w)
  | inr o =>
      let '(r, u) := fifo_child f o (unread w) in
      (r, {| guarded := guard_after (guarded w) (@Ev ProcSig o r); unread := u |})
  end.

(** A [Future] dropped at its [n]th operation: what it did stays done. *)
Fixpoint run_first {Σ W A} (n : nat) (h : handler Σ W) (w : W) (p : prog Σ A) : W :=
  match n, p with
  | S n', Do o k => let '(r, w') := h o w in run_first n' h w' (k r)
  | _, _ => w
  end.

Definition line_of (q : Request3) : string :=
  let '(m, url, ip) := q in default "" (request_json m url ip) +:+ LF.

(** The decision the child means for a request. *)
Definition meant (f : string -> string) (q : Request3) : EvaluationResult :=
  evaluation_of (interpret (f (line_of q))).

Definition has_json (q : Request3) : Prop := let '(m, url, ip) := q in is_Some (request_json m url ip).

(** With the child alive, an evaluation is decided by the oldest answer that was
    not read, and leaves its own unread when there was one. *)
Lemma fifo_evaluate f (e : SharedProc) ps u m url ip json : request_json m url ip = Some json ->
  (forall line, is_empty (trim (f line)) = false) -> Forall (fun l => is_empty (trim l) = false) u ->
  exists t, run (fifo f) {| guarded := Some ps; unread := u |} (evaluate e m url ip) =
    (t, {| guarded := Some ps; unread := tail (u ++ [f (json +:+ LF)]) |},
     (evaluation_of (interpret (default "" (head (u ++ [f (json +:+ LF)])))), e)).
Proof.
  intros Hj Hf Hu. cbn [evaluate locked_engine]. unfold locked_execute_program.
  unfold request_json in Hj. destruct (from_request m url ip) as [i|err]; [|done].
  destruct (to_json i) as [json'|err]; [|done]. injection Hj as ->.
  assert (Hx : forall x l, is_empty (trim x) = false -> u ++ [f (json +:+ LF)] = x :: l ->
    exists t, run (fifo f) {| guarded := Some ps; unread := u |}
      (lift_r (attempts 2 (shared_program e) (Some ps) json)) =
    (t, {| guarded := Some ps; unread := l |}, (evaluation_of (interpret x), Some ps))).
  { intros x l Hx He. cbn. rewrite He. cbn. rewrite Hx.
    assert (is_empty x = false) as -> by (destruct x; [discriminate Hx|done]).
    cbn. rewrite <- proc_result_interpret, <- interpret_trim. by eexists. }
  assert (Hhd : exists x l, is_empty (trim x) = false /\ u ++ [f (json +:+ LF)] = x :: l).
  { destruct Hu as [|x u Hxu _]; [by exists (f (json +:+ LF)), []|by exists x, (u ++ [f (json +:+ LF)])]. }
  destruct Hhd as (x & l & Hx' & He). destruct (Hx x l Hx' He) as [t Ht]. rewrite He.
  cbn [bind lift_l perform run fifo guarded head tail default]. rewrite run_bind, Ht. by eexists.
Qed.

(** Requests one after the other, with the child alive and [u] unread. *)
Lemma fifo_evaluate_each f (e : SharedProc) ps u reqs : Forall has_json reqs ->
  (forall line, is_empty (trim (f line)) = false) -> Forall (fun l => is_empty (trim l) = false) u ->
  run_result (fifo f) {| guarded := Some ps; unread := u |} (evaluate_each e reqs) =
  take (length reqs) ((evaluation_of <$> (interpret <$> u)) ++ (meant f <$> reqs)).
Proof.
  intros Hr Hf. unfold run_result. revert u. induction Hr as [|[[m url] ip] reqs [json Hj] _ IH]; intros u Hu; [done|].
  cbn [evaluate_each length]. rewrite run_bind.
  destruct (fifo_evaluate f e ps u m url ip json Hj Hf Hu) as [t ->]. rewrite run_bind.
  specialize (IH (tail (u ++ [f (json +:+ LF)]))).
  destruct (run _ _ (evaluate_each e reqs)) as [[t' w'] rs]. cbn. cbn in IH. rewrite IH.
  - assert (Hm : meant f (m, url, ip) = evaluation_of (interpret (f (json +:+ LF)))) by (unfold meant, line_of; by rewrite Hj).
    destruct u as [|x u]; cbn; rewrite Hm; [done|]. f_equal. rewrite !fmap_app, <- !app_assoc. done.
  - apply Forall_tail, Forall_app. split; [done|by apply Forall_singleton].
Qed.

(** C11: a request dropped halfway shifts every later answer.  The future of an
    evaluation is dropped while it waits for the child's answer, as the server
    does when the client closes its connection: the guard is released with the
    child still in it, alive, and its answer unread.  From then on each request
    is decided by the answer to the one before it, so one that the rules permit,
    sent and abandoned, lets through the next one, whatever that is.  Without the
    drop each is decided by its own. *)
Theorem dropped_request_shifts_answers (f : string -> string) (e : SharedProc) (ps : ProcessState)
    (m url ip : string) (reqs : list Request3)
    (Hjson : Forall has_json ((m, url, ip) :: reqs))
    (Hanswers : forall line, is_empty (trim (f line)) = false) :
  let w := {| guarded := Some ps; unread := [] |} in
  run_result (fifo f) w (evaluate_each e ((m, url, ip) :: reqs)) = meant f <$> (m, url, ip) :: reqs /\
  run_result (fifo f) (run_first 4 (fifo f) w (evaluate e m url ip)) (evaluate_each e reqs) =
    take (length reqs) (meant f <$> (m, url, ip) :: reqs).
Proof.
  intros w. split.
  - unfold w. rewrite fifo_evaluate_each by done. apply take_ge. by rewrite length_fmap.
  - apply Forall_cons in Hjson as [[json Hj] Hr].
    assert (Hw : run_first 4 (fifo f) w (evaluate e m url ip) =
                 {| guarded := Some ps; unread := [f (json +:+ LF)] |}).
    { cbn [evaluate locked_engine]. unfold locked_execute_program. unfold request_json in Hj.
      destruct (from_request m url ip) as [i|err]; [|done].
      destruct (to_json i) as [json'|err]; [|done]. by injection Hj as ->. }
    rewrite Hw, fifo_evaluate_each by (try done; by apply Forall_singleton).
    cbn. unfold meant at 2, line_of. by rewrite Hj.
Qed.

End Dropped.

(** ** Example

    Rules that permit [https://ok.example/] only. *)

Definition only_ok (line : string) : string :=
  if String.eqb line (line_of (H := any_url) (H0 := table_json) ("GET", "https://ok.example/", "10.0.0.1"))
  then "true" +:+ LF else "false" +:+ LF.

Lemma dropped_request_shifts_answers_witness :
  run_result (fifo only_ok)
    (run_first 4 (fifo only_ok) {| guarded := Some {| ps_child := 7; ps_stdin := 8; ps_stdout := 9 |}; unread := [] |}
       (evaluate (RuleEngineTrait := locked_engine (H := any_url) (H0 := table_json))
          {| shared_program := "./rules" |} "GET" "https://ok.example/" "10.0.0.1"))
    (evaluate_each (H := any_url) (H0 := table_json) {| shared_program := "./rules" |}
       [("POST", "https://evil.example/", "10.0.0.1")]) = [EvaluationResult.allow] /\
  meant (H0 := table_json) (H := any_url) only_ok ("POST", "https://evil.example/", "10.0.0.1") = EvaluationResult.deny.
Proof.
  split; [|by vm_compute].
  refine (eq_trans (proj2 (dropped_request_shifts_answers (H := any_url) (H0 := table_json) only_ok
    {| shared_program := "./rules" |} {| ps_child := 7; ps_stdin := 8; ps_stdout := 9 |}
    "GET" "https://ok.example/" "10.0.0.1" [("POST", "https://evil.example/", "10.0.0.1")] _ _)) _);
    [by repeat constructor; eexists|intros line; unfold only_ok; by destruct (String.eqb _ _)|by vm_compute].
Defined.
