(* ===== verification/V8.v ===== *)
(** * The V8 engine, and the console the rules may log to
    ([src/rules/console_log.rs])

    V8 is a library: the class [V8] holds the calls the source makes, each over
    a heap (the isolate with its context) it may change.  A JavaScript
    exception is the [None] the binding returns.  A call that never returns is
    outside the model; the source sets no limit on it either.

    Rust code over V8 lives in the monad [Js]: it may return, return an error
    early, or panic. *)

From S2P Require Import Prelude.

Inductive Level : Type := Debug | Info | Warn | LevelError.

Class V8 := {
  Heap : Type;
  JsValue : Type;
  JsScript : Type;
  fresh_heap : Heap;                                   (** [Isolate::new], [Context::new] *)
  context_global : Heap -> JsValue;
  string_new : string -> Heap -> option JsValue * Heap;
  object_new : Heap -> JsValue * Heap;
  script_compile : JsValue -> Heap -> option JsScript * Heap;
  script_run : JsScript -> Heap -> option JsValue * Heap;
  object_get : JsValue -> JsValue -> Heap -> option JsValue * Heap;
  object_set : JsValue -> JsValue -> JsValue -> Heap -> option bool * Heap;
  to_object : JsValue -> Heap -> option JsValue * Heap;
  as_function : JsValue -> option JsValue;             (** [Local::<Function>::try_from] *)
  function_call : JsValue -> JsValue -> list JsValue -> Heap -> option JsValue * Heap;
  function_new : (list JsValue -> Heap -> Heap) -> Heap -> option JsValue * Heap;
  to_rust_string : JsValue -> Heap -> option string * Heap;  (** [to_string], then [to_rust_string_lossy] *)
  is_object : JsValue -> bool;
  is_null : JsValue -> bool;
  is_undefined : JsValue -> bool;
  is_boolean : JsValue -> bool;
  is_string : JsValue -> bool;
  boolean_value : JsValue -> bool;
  emit : Level -> string -> Heap -> Heap;              (** the [tracing] subscriber *)
}.

Inductive JsResult (A : Type) : Type :=
| JOk (a : A)
| JErr (e : string)
| JPanic.
Arguments JOk {A} a.
Arguments JErr {A} e.
Arguments JPanic {A}.

Section Js.
Context `{V8}.

Definition Js (A : Type) : Type := Heap -> JsResult A * Heap.

Definition jret {A} (a : A) : Js A := fun h => (JOk a, h).
Definition jfail {A} (e : string) : Js A := fun h => (JErr e, h).
Definition jbind {A B} (m : Js A) (f : A -> Js B) : Js B :=
  fun h => match m h with
           | (JOk a, h') => f a h'
           | (JErr e, h') => (JErr e, h')
           | (JPanic, h') => (JPanic, h')
           end.
Definition jlift {A} (m : Heap -> A * Heap) : Js A := fun h => let '(a, h') := m h in (JOk a, h').

(** [ok_or(e)?] and [unwrap()] on what a binding returns. *)
Definition jok_or {A} (e : string) (m : Heap -> option A * Heap) : Js A :=
  fun h => match m h with (Some a, h') => (JOk a, h') | (None, h') => (JErr e, h') end.
Definition junwrap {A} (m : Heap -> option A * Heap) : Js A :=
  fun h => match m h with (Some a, h') => (JOk a, h') | (None, h') => (JPanic, h') end.

(** The question mark in a function that returns an [Option]. *)
Definition joption {A B} (m : Js (option A)) (f : A -> Js (option B)) : Js (option B) :=
  jbind m (fun r => match r with Some a => f a | None => jret None end).

(** What a call that went well did. *)
Lemma jbind_ok {A B} (m : Js A) (f : A -> Js B) h b h' :
  jbind m f h = (JOk b, h') <-> exists a h1, m h = (JOk a, h1) /\ f a h1 = (JOk b, h').
Proof. unfold jbind. destruct (m h) as [[a|e|] h1]; naive_solver. Qed.

Lemma jok_or_ok {A} e (m : Heap -> option A * Heap) h a h' :
  jok_or e m h = (JOk a, h') <-> m h = (Some a, h').
Proof. unfold jok_or. destruct (m h) as [[a'|] h1]; naive_solver. Qed.

Lemma junwrap_ok {A} (m : Heap -> option A * Heap) h a h' :
  junwrap m h = (JOk a, h') <-> m h = (Some a, h').
Proof. unfold junwrap. destruct (m h) as [[a'|] h1]; naive_solver. Qed.

Lemma jlift_ok {A} (m : Heap -> A * Heap) h a h' : jlift m h = (JOk a, h') <-> m h = (a, h').
Proof. unfold jlift. destruct (m h) as [a' h1]; naive_solver. Qed.

Lemma jret_ok {A} (a b : A) h h' : jret a h = (JOk b, h') <-> a = b /\ h = h'.
Proof. unfold jret. naive_solver. Qed.

Lemma joption_some {A B} (m : Js (option A)) (f : A -> Js (option B)) h b h' :
  joption m f h = (JOk (Some b), h') <->
  exists a h1, m h = (JOk (Some a), h1) /\ f a h1 = (JOk (Some b), h').
Proof.
  unfold joption. rewrite jbind_ok. split.
  - intros ([a|] & h1 & Hm & Hf); [by eauto|]. by apply jret_ok in Hf as [[=] _].
  - intros (a & h1 & Hm & Hf). by exists (Some a), h1.
Qed.

End Js.

Notation "x ↞ m ; k" := (jbind m (fun x => k))
  (at level 20, m at level 100, k at level 200, only parsing) : rust_scope.
Notation "x ↞? m ; k" := (joption m (fun x => k))
  (at level 20, m at level 100, k at level 200, only parsing) : rust_scope.
Open Scope rust_scope.

Section Console.
Context `{V8}.

Definition try_json_stringify (value : JsValue) : Js (option string) :=
  global ↞ jlift (fun h => (context_global h, h));
  json_key ↞? jlift (string_new "JSON");
  stringify_key ↞? jlift (string_new "stringify");
  json ↞? jlift (object_get global json_key);
  json_obj ↞? jlift (to_object json);
  stringify ↞? jlift (object_get json_obj stringify_key);
  stringify_fn ↞? jret (as_function stringify);
  result ↞? jlift (function_call stringify_fn json_obj [value]);
  jlift (to_rust_string result).

Definition v8_value_to_string (value : JsValue) : Js string :=
  let fallback :=
    s ↞ jlift (to_rust_string value);
    jret (default "[value]" s) in
  if is_object value && negb (is_null value) && negb (is_undefined value) then
    json_str ↞ try_json_stringify value;
    match json_str with Some s => jret s | None => fallback end
  else fallback.

Fixpoint console_parts (args : list JsValue) : Js (list string) :=
  match args with
  | [] => jret []
  | arg :: args' =>
      part ↞ v8_value_to_string arg;
      parts ↞ console_parts args';
      jret (part :: parts)
  end.

Definition format_console_args (args : list JsValue) : Js string :=
  log_parts ↞ console_parts args;
  jret (join " " log_parts).

(** The native function behind a console method, as V8 calls it. *)
Definition console_callback (l : Level) (args : list JsValue) (h : Heap) : Heap :=
  match format_console_args args h with
  | (JOk message, h') => emit l message h'
  | (_, h') => h'
  end.

Definition add_console_method (console_obj : JsValue) (name : string) (l : Level) : Js unit :=
  key ↞ junwrap (string_new name);
  func ↞ junwrap (function_new (console_callback l));
  _ ↞ jlift (object_set console_obj key func);
  jret tt.

Definition setup_console : Js unit :=
  global ↞ jlift (fun h => (context_global h, h));
  console_obj ↞ jlift object_new;
  _ ↞ add_console_method console_obj "debug" Debug;
  _ ↞ add_console_method console_obj "log" Info;
  _ ↞ add_console_method console_obj "info" Info;
  _ ↞ add_console_method console_obj "warn" Warn;
  _ ↞ add_console_method console_obj "error" LevelError;
  console_key ↞ junwrap (string_new "console");
  _ ↞ jlift (object_set global console_key console_obj);
  jret tt.

(** Formatting the arguments of a console call never fails or panics, whatever
    the values: an exception in their conversion is the text [[value]]. *)
Lemma v8_value_to_string_total v h : exists s h', v8_value_to_string v h = (JOk s, h').
Proof.
  unfold v8_value_to_string, try_json_stringify, joption, jbind, jlift, jret.
  repeat (first [case_match | progress simplify_eq]; eauto).
Qed.

Lemma console_parts_total args h : exists l h',
  console_parts args h = (JOk l, h') /\ length l = length args.
Proof.
  revert h. induction args as [|v args IH]; intros h; cbn [console_parts]; [by exists [], h|].
  unfold jbind. destruct (v8_value_to_string_total v h) as (s & h1 & ->).
  destruct (IH h1) as (l & h2 & -> & Hl). exists (s :: l), h2. simpl. by rewrite Hl.
Qed.

(** A console call of a rule logs exactly one message, at the method's
    level, with one part for each argument, whatever the values are and however
    their conversion misbehaves: it never fails, so logging cannot change what
    the rule decides. *)
Theorem console_callback_logs (l : Level) (args : list JsValue) (h : Heap) :
  exists parts h', length parts = length args /\
    format_console_args args h = (JOk (join " " parts), h') /\
    console_callback l args h = emit l (join " " parts) h'.
Proof.
  destruct (console_parts_total args h) as (parts & h' & E & Hl).
  exists parts, h'. split; [done|].
  unfold console_callback, format_console_args, jbind. by rewrite E.
Qed.

End Console.
