(* ===== verification/JsRules.v ===== *)
(** * The JavaScript rule engine ([src/rules/v8_js.rs])

    The code and its modification time are in a cell ([ArcSwap]) that every
    concurrent evaluation reads and may replace, so reading and storing it are
    operations: what other evaluations do in between is the environment's
    choice, and [js_concurrent_reloads] runs any number of evaluations
    interleaved against one cell. *)

From S2P Require Import Prelude Effects Http Rules RuleCommon Process ShellRules ProcRules V8.

(** A [SystemTime]. *)
Abbreviation SystemTime := Z.
Abbreviation JsCode := (string * option SystemTime)%type.

Inductive js_op : Type :=
| JsLoad                              (** [ArcSwap::load] *)
| JsStore (c : JsCode)                (** [ArcSwap::store] *)
| JsModified (path : string)          (** [metadata], then [modified], both [ok()] *)
| JsReadFile (path : string)
| JsLock                              (** [reload_lock.lock().await] *)
| JsUnlock                            (** the drop of its guard *)
| JsSpawnBlocking.                    (** whether the blocking task was run to its end *)

Definition JsSig : Sig :=
  {| op := js_op;
     ans o := match o with
              | JsLoad => JsCode
              | JsStore _ => unit
              | JsModified _ => option SystemTime
              | JsReadFile _ => Result string string
              | JsLock => unit
              | JsUnlock => unit
              | JsSpawnBlocking => bool
              end |}.

Definition jload : prog JsSig JsCode := @perform JsSig JsLoad.
Definition jstore (c : JsCode) : prog JsSig unit := @perform JsSig (JsStore c).
Definition jmodified (path : string) : prog JsSig (option SystemTime) :=
  @perform JsSig (JsModified path).
Definition jread_file (path : string) : prog JsSig (Result string string) :=
  @perform JsSig (JsReadFile path).

(** The part of the engine that never changes; the cell is the world's. *)
Record V8JsRuleEngine : Type := { js_file_path : option string }.

Section Engine.
Context `{V8} `{UrlLib} `{SerdeJson}.

(** ** Compiling and running *)

Definition validate_js_code (js_code : string) : Result unit string :=
  match string_new js_code fresh_heap with
  | (None, _) => Err "Failed to create V8 string"
  | (Some source, h) =>
      match script_compile source h with
      | (None, _) => Err "Failed to compile JavaScript expression"
      | (Some _, _) => Ok tt
      end
  end.

Definition value_to_response_string (global value : JsValue) : Js string :=
  if is_object value && negb (is_null value) && negb (is_undefined value) then
    json_key ↞ junwrap (string_new "JSON");
    stringify_key ↞ junwrap (string_new "stringify");
    json_obj ↞ (v ↞? jlift (object_get global json_key); jlift (to_object v));
    json_obj ↞ jok_or "Failed to get JSON object" (fun h => (json_obj, h));
    stringify_fn ↞ (v ↞? jlift (object_get json_obj stringify_key); jret (as_function v));
    stringify_fn ↞ jok_or "Failed to get JSON.stringify function" (fun h => (stringify_fn, h));
    s ↞ (v ↞? jlift (function_call stringify_fn json_obj [value]); jlift (to_rust_string v));
    jok_or "Failed to stringify value" (fun h => (s, h))
  else if is_boolean value then
    jret (if boolean_value value then "true" else "false")
  else if is_string value then
    jok_or "Failed to convert string" (to_rust_string value)
  else jret "false".

Definition execute_with_isolate (js_code : string) (request_info : RequestInfo) : Js verdict :=
  _ ↞ setup_console;
  global ↞ jlift (fun h => (context_global h, h));
  match to_json request_info with
  | Err e => jfail ("Failed to serialize request: " +:+ error_to_string e)
  | Ok json_request =>
      json_str ↞ jok_or "Failed to create V8 string for JSON" (string_new json_request);
      json_key ↞ junwrap (string_new "JSON");
      parse_key ↞ junwrap (string_new "parse");
      json ↞ jok_or "Failed to get JSON object" (object_get global json_key);
      json_obj ↞ jok_or "JSON is not an object" (to_object json);
      parse ↞ jok_or "Failed to get JSON.parse" (object_get json_obj parse_key);
      parse_fn ↞ jok_or "JSON.parse is not a function" (fun h => (as_function parse, h));
      r_obj ↞ jok_or "Failed to parse JSON" (function_call parse_fn json_obj [json_str]);
      r_key ↞ junwrap (string_new "r");
      _ ↞ jlift (object_set global r_key r_obj);
      source ↞ jok_or "Failed to create V8 string" (string_new js_code);
      script ↞ jok_or "Failed to compile JavaScript expression" (script_compile source);
      result ↞ jok_or "Expression evaluation failed" (script_run script);
      response_str ↞ value_to_response_string global result;
      jret (to_evaluation_result (from_string response_str))
  end.

(** A fresh isolate for each execution. *)
Definition execute_with_code (js_code : string) (request_info : RequestInfo) : JsResult verdict :=
  (execute_with_isolate js_code request_info fresh_heap).1.

(** What the blocking task returns: [None] when it panicked. *)
Definition blocking_task (js_code : string) (method : Method) (url requester_ip : string)
    : option verdict :=
  match from_request method url requester_ip with
  | Err _ => Some (false, Some "Invalid request format", None)
  | Ok request_info =>
      match execute_with_code js_code request_info with
      | JOk result => Some result
      | JErr _ => Some (false, Some "JavaScript execution failed", None)
      | JPanic => None
      end
  end.

Definition execute_js_blocking (js_code : string) (method : Method) (url requester_ip : string)
    : prog JsSig verdict :=
  completed ⇐ @perform JsSig JsSpawnBlocking;
  Ret (default (false, Some "Evaluation failed", None)
         (if (completed : bool) then blocking_task js_code method url requester_ip else None)).

Definition build_evaluation_result (allowed : bool) (context : option string) (max : option Z)
    : EvaluationResult :=
  let result := if allowed then EvaluationResult.allow else EvaluationResult.deny in
  let result := match context with
                | Some ctx => EvaluationResult.with_context result ctx
                | None => result
                end in
  if allowed then
    match max with
    | Some bytes => EvaluationResult.with_max_tx_bytes result bytes
    | None => result
    end
  else result.

(** ** The engine *)

Definition new_with_file (js_code : string) (js_file_path : option string)
    : prog JsSig (Result (V8JsRuleEngine * JsCode) string) :=
  match validate_js_code js_code with
  | Err e => Ret (Err e)
  | Ok _ =>
      match js_file_path with
      | Some path =>
          initial_mtime ⇐ jmodified path;
          Ret (Ok ({| js_file_path := js_file_path |}, (js_code, initial_mtime)))
      | None => Ret (Ok ({| js_file_path := js_file_path |}, (js_code, None)))
      end
  end.

Definition needs_reload (current_mtime last_mtime : option SystemTime) : bool :=
  bool_decide (current_mtime <> last_mtime) && bool_decide (is_Some current_mtime).

(** The slow path, between taking the lock and dropping its guard. *)
Definition reload_locked (path : string) (current_mtime : option SystemTime) : prog JsSig unit :=
  '(_, last_mtime) ⇐ jload;
  if needs_reload current_mtime last_mtime then
    contents ⇐ jread_file path;
    match contents with
    | Ok new_code =>
        match validate_js_code new_code with
        | Err _ => Ret tt
        | Ok _ => jstore (new_code, current_mtime)
        end
    | Err _ => Ret tt
    end
  else Ret tt.

Definition check_and_reload_file (e : V8JsRuleEngine) : prog JsSig unit :=
  match js_file_path e with
  | None => Ret tt
  | Some path =>
      current_mtime ⇐ jmodified path;
      '(_, last_mtime) ⇐ jload;
      if needs_reload current_mtime last_mtime then
        _ ⇐ @perform JsSig JsLock;
        _ ⇐ reload_locked path current_mtime;
        @perform JsSig JsUnlock
      else Ret tt
  end.

Definition load_js_code : prog JsSig string := '(js_code, _) ⇐ jload; Ret js_code.

Definition js_evaluate (e : V8JsRuleEngine) (method : Method) (url requester_ip : string)
    : prog JsSig (EvaluationResult * V8JsRuleEngine) :=
  _ ⇐ check_and_reload_file e;
  js_code ⇐ load_js_code;
  '(allowed, context, max) ⇐ execute_js_blocking js_code method url requester_ip;
  Ret (build_evaluation_result allowed context max, e).

#[export] Instance js_engine : RuleEngineTrait JsSig V8JsRuleEngine := {|
  evaluate := js_evaluate;
  engine_name _ := "v8_js";
|}.

(** [execute], the public entry point without reloading; it runs V8 in the
    calling task, so a panic is the caller's ([None]). *)
Definition execute (e : V8JsRuleEngine) (method : Method) (url requester_ip : string)
    : prog JsSig (option verdict) :=
  match from_request method url requester_ip with
  | Err _ => Ret (Some (false, Some "Invalid request format", None))
  | Ok request_info =>
      '(js_code, _) ⇐ jload;
      match execute_with_code js_code request_info with
      | JOk result => Ret (Some result)
      | JErr _ => Ret (Some (false, Some "JavaScript execution failed", None))
      | JPanic => Ret None
      end
  end.

End Engine.

(** ** What running the rules means

    Relations between the calls of V8, written down apart from the code. *)

Section RunSpec.
Context `{V8} `{UrlLib} `{SerdeJson}.

(** [JSON.name]: the object [JSON] of the global object, and the function it
    holds under the name. *)
Inductive json_method (global : JsValue) (name : string) (h : Heap) : JsValue -> JsValue -> Heap -> Prop :=
| JsonMethod kj h1 kn h2 j h3 o h4 m h5 f :
    string_new "JSON" h = (Some kj, h1) ->
    string_new name h1 = (Some kn, h2) ->
    object_get global kj h2 = (Some j, h3) ->
    to_object j h3 = (Some o, h4) ->
    object_get o kn h4 = (Some m, h5) ->
    as_function m = Some f ->
    json_method global name h o f h5.

(** The text of a script's value: [JSON.stringify] of an object, the name of a
    boolean, a string itself, and [false] for anything else. *)
Inductive js_text (global : JsValue) (v : JsValue) (h : Heap) : string -> Heap -> Prop :=
| TextObject o f h1 r h2 s h3 :
    is_object v = true -> is_null v = false -> is_undefined v = false ->
    json_method global "stringify" h o f h1 ->
    function_call f o [v] h1 = (Some r, h2) ->
    to_rust_string r h2 = (Some s, h3) ->
    js_text global v h s h3
| TextBoolean b :
    is_object v = false \/ is_null v = true \/ is_undefined v = true ->
    is_boolean v = true -> boolean_value v = b ->
    js_text global v h (match b with true => "true" | false => "false" end) h
| TextString s h1 :
    is_object v = false \/ is_null v = true \/ is_undefined v = true ->
    is_boolean v = false -> is_string v = true -> to_rust_string v h = (Some s, h1) ->
    js_text global v h s h1
| TextOther :
    is_object v = false \/ is_null v = true \/ is_undefined v = true ->
    is_boolean v = false -> is_string v = false ->
    js_text global v h "false" h.

(** The code, run on a request in a fresh isolate with a console, with the
    variable [r] of its global object the request read back from its JSON, ends
    with a value whose text is [s]. *)
Inductive js_runs (code : string) (i : RequestInfo) (s : string) (h' : Heap) : Prop :=
| JsRuns h0 json kt h1 o f h2 r h3 kr h4 b h5 src h6 script h7 v h8 :
    let global := context_global h0 in
    setup_console fresh_heap = (JOk tt, h0) ->
    to_json i = Ok json ->
    string_new json h0 = (Some kt, h1) ->
    json_method global "parse" h1 o f h2 ->
    function_call f o [kt] h2 = (Some r, h3) ->
    string_new "r" h3 = (Some kr, h4) ->
    object_set global kr r h4 = (b, h5) ->
    string_new code h5 = (Some src, h6) ->
    script_compile src h6 = (Some script, h7) ->
    script_run script h7 = (Some v, h8) ->
    js_text global v h8 s h' ->
    js_runs code i s h'.

(** What the code decides: what the text it ran to says; a denial without a
    limit when it did not run to one, or the URL does not parse. *)
Inductive js_decides (code : string) (m : Method) (url ip : string) : EvaluationResult -> Prop :=
| DecidedByText i s h a msg max :
    from_request m url ip = Ok i -> js_runs code i s h -> says s a msg max ->
    js_decides code m url ip
      {| action := if a : bool then Allow else Deny; context := msg; max_tx_bytes := max |}
| DeniedByFailure r :
    (forall i s h, from_request m url ip = Ok i -> ~ js_runs code i s h) ->
    action r = Deny -> max_tx_bytes r = None ->
    js_decides code m url ip r.

(** The code compiles, in a fresh isolate. *)
Definition js_compiles (code : string) : Prop :=
  exists src h1 script h2, string_new code fresh_heap = (Some src, h1) /\
    script_compile src h1 = (Some script, h2).

Ltac js_steps := repeat match goal with
  | Hx : ex _ |- _ => destruct Hx
  | Hx : _ /\ _ |- _ => destruct Hx
  | Hx : jbind _ _ _ = (JOk _, _) |- _ => apply (proj1 (jbind_ok _ _ _ _ _)) in Hx
  | Hx : jok_or _ _ _ = (JOk _, _) |- _ => apply (proj1 (jok_or_ok _ _ _ _ _)) in Hx
  | Hx : junwrap _ _ = (JOk _, _) |- _ => apply (proj1 (junwrap_ok _ _ _ _)) in Hx
  | Hx : jlift _ _ = (JOk _, _) |- _ => apply (proj1 (jlift_ok _ _ _ _)) in Hx
  | Hx : jret _ _ = (JOk _, _) |- _ => apply (proj1 (jret_ok _ _ _ _)) in Hx
  | Hx : @joption _ _ _ _ _ _ = (JOk (Some _), _) |- _ => apply (proj1 (joption_some _ _ _ _ _)) in Hx
  | Hx : (fun _ => (_, _)) _ = (_, _) |- _ => cbv beta in Hx
  | Hx : (_, _) = (_, _) |- _ => injection Hx as ? ?; subst
  | Hx : ?a = ?b |- _ => is_var a; subst a
  | Hx : ?a = ?b |- _ => is_var b; subst b
  end.

(** Runs a [Js] program whose calls are known. *)
Ltac js_run := repeat match goal with
  | |- jbind _ _ _ = _ => apply (proj2 (jbind_ok _ _ _ _ _)); do 2 eexists; split
  | |- @joption _ _ _ _ _ _ = _ => apply (proj2 (joption_some _ _ _ _ _)); do 2 eexists; split
  | |- jret _ _ = _ => apply (proj2 (jret_ok _ _ _ _)); split; (eassumption || reflexivity)
  | |- jok_or _ _ _ = _ => apply (proj2 (jok_or_ok _ _ _ _ _)); (eassumption || reflexivity || (by f_equal))
  | |- junwrap _ _ = _ => apply (proj2 (junwrap_ok _ _ _ _)); eassumption
  | |- jlift _ _ = _ => apply (proj2 (jlift_ok _ _ _ _)); (eassumption || reflexivity)
  | |- setup_console _ = _ => eassumption
  | |- value_to_response_string _ _ _ = _ => eassumption
  end.

Lemma not_object v : is_object v && negb (is_null v) && negb (is_undefined v) = false <->
  is_object v = false \/ is_null v = true \/ is_undefined v = true.
Proof. destruct (is_object v), (is_null v), (is_undefined v); naive_solver. Qed.

Lemma value_to_response_string_text global v h s h' :
  value_to_response_string global v h = (JOk s, h') <-> js_text global v h s h'.
Proof.
  unfold value_to_response_string. split.
  - intros Hs. destruct (_ && _ && _) eqn:Eo.
    + apply andb_prop in Eo as [[Eo Ev]%andb_prop Eu]. apply negb_true_iff in Ev, Eu. js_steps.
      by repeat econstructor.
    + apply not_object in Eo. destruct (is_boolean v) eqn:Eb; js_steps; [by apply TextBoolean|].
      destruct (is_string v) eqn:Es; js_steps; [by apply TextString|by apply TextOther].
  - destruct 1 as [o f h1 r h2 t h3 Eo Ev Eu [] ? ?|b Eo Eb Ev|t h1 Eo Eb Es Ht|Eo Eb Es].
    1: { rewrite Eo, Ev, Eu. cbn. js_run; js_run. }
    all: apply not_object in Eo; rewrite Eo, Eb; try rewrite Es; js_run; by subst.
Qed.

(** The code that runs the rules is what the relation says. *)
Lemma execute_with_isolate_runs code i x h :
  execute_with_isolate code i fresh_heap = (JOk x, h) <->
  exists s, x = interpret s /\ js_runs code i s h.
Proof.
  unfold execute_with_isolate. split.
  - intros Hx. js_steps. destruct (to_json i) as [json|] eqn:Ej; [|done]. js_steps.
    eexists. split; [reflexivity|]. match goal with u : unit |- _ => destruct u end.
    econstructor; try eassumption; [econstructor; eassumption|by apply value_to_response_string_text].
  - intros (s & -> & [h0 json kt h1 o f h2 r h3 kr h4 b h5 src h6 script h7 v h8 g Hc Hj Hk [] Hf Hr Ho Hs Hcm Hrun Ht]).
    apply value_to_response_string_text in Ht. unfold g in *.
    rewrite Hj. js_run; js_run.
Qed.

Lemma runs_execute code i s h :
  js_runs code i s h -> execute_with_isolate code i fresh_heap = (JOk (interpret s), h).
Proof. intros Hs. apply execute_with_isolate_runs. by exists s. Qed.

End RunSpec.

(** ** Properties of one evaluation *)

Section EngineProps.
Context `{V8} `{UrlLib} `{SerdeJson}.

Definition valid_code (c : string) : Prop := Result.is_ok (validate_js_code c) = true.

Lemma valid_code_compiles code : valid_code code <-> js_compiles code.
Proof.
  unfold valid_code, validate_js_code, js_compiles.
  destruct (string_new code fresh_heap) as [[src|] h1] eqn:Es;
    [|split; [done|by intros (? & ? & ? & ? & ? & _)]].
  destruct (script_compile src h1) as [[sc|] h2] eqn:E; cbn; split; try done.
  - intros _. by exists src, h1, sc, h2.
  - intros (? & ? & ? & ? & Hs & Hc). simplify_eq. congruence.
Qed.

(** What an evaluation concludes when it ran [js_code]. *)
Definition decision (js_code : string) (method : Method) (url ip : string) (completed : bool)
    : EvaluationResult :=
  evaluation_of (default (false, Some "Evaluation failed", None)
    (if completed then blocking_task js_code method url ip else None)).

Lemma execute_with_isolate_shape js_code i h v h' :
  execute_with_isolate js_code i h = (JOk v, h') -> exists s, v = interpret s.
Proof.
  intros E. unfold execute_with_isolate, jbind in E.
  assert (Hin : forall (m : Js string) h0,
    (match m h0 with
     | (JOk a, h1) => jret (to_evaluation_result (from_string a)) h1
     | (JErr e, h1) => (JErr e, h1)
     | (JPanic, h1) => (JPanic, h1)
     end) = (JOk v, h') -> exists s, v = interpret s).
  { intros m h0 E0. destruct (m h0) as [[a|e|] h1]; unfold jret in E0; simplify_eq; eauto. }
  repeat (case_match; simplify_eq; try by eauto).
Qed.

Lemma blocking_task_shape js_code method url ip v :
  blocking_task js_code method url ip = Some v ->
  (v.1.1 = true -> v.1.2 = None) /\ (v.1.1 = false -> v.2 = None).
Proof.
  unfold blocking_task. intros E.
  destruct (from_request method url ip) as [i|]; [|by simplify_eq].
  unfold execute_with_code in E.
  destruct (execute_with_isolate js_code i fresh_heap) as [[x|e|] h'] eqn:Ex; simpl in E;
    simplify_eq; [|done].
  apply execute_with_isolate_shape in Ex as [s Hs]. destruct v as [[a m] l].
  exact (to_evaluation_result_shape _ _ _ _ (eq_sym Hs)).
Qed.

(** The result carries a limit only when it permits. *)
Lemma build_decision js_code method url ip (completed : bool) :
  let v := default (false, Some "Evaluation failed", None)
             (if completed then blocking_task js_code method url ip else None) in
  build_evaluation_result v.1.1 v.1.2 v.2 = decision js_code method url ip completed.
Proof.
  intros v. unfold decision. fold v.
  assert (Hv : (v.1.1 = true -> v.1.2 = None) /\ (v.1.1 = false -> v.2 = None)).
  { subst v. destruct completed; simpl; [|done].
    destruct (blocking_task js_code method url ip) as [v|] eqn:E; [|done].
    exact (blocking_task_shape _ _ _ _ _ E). }
  destruct v as [[[] m] l]; destruct Hv as [Hm Hl]; simpl in *.
  - rewrite Hm by done. by destruct l.
  - rewrite Hl by done. by destruct m.
Qed.

End EngineProps.

(** ** Concurrent evaluations *)

Record JsWorld : Type := { cell : JsCode; lock_owner : option nat }.

(** The cell and the lock; the file may change at any time. *)
Definition js_rel (i : nat) (o : op JsSig) (w : JsWorld) : ans JsSig o -> JsWorld -> Prop :=
  match o as o return (ans JsSig o -> JsWorld -> Prop) with
  | JsLoad => fun r w' => r = cell w /\ w' = w
  | JsStore c => fun _ w' => w' = {| cell := c; lock_owner := lock_owner w |}
  | JsModified _ => fun _ w' => w' = w
  | JsReadFile _ => fun _ w' => w' = w
  | JsLock => fun _ w' => lock_owner w = None /\ w' = {| cell := cell w; lock_owner := Some i |}
  | JsUnlock => fun _ w' => w' = {| cell := cell w; lock_owner := None |}
  | JsSpawnBlocking => fun _ w' => w' = w
  end.

Section Concurrent.
Context `{V8} `{UrlLib} `{SerdeJson}.

Section Thread.
Context {A : Type} (Q : A -> Prop).

(** The discipline of one evaluation: outside the lock ([None]) it never
    stores; inside, the cell being [c], it stores only code that compiles, with
    a time that is known and new. *)
Fixpoint disciplined (h : option JsCode) (p : prog JsSig A) : Prop :=
  match p with
  | Ret a => h = None /\ Q a
  | Do o k =>
      match o as o return (ans JsSig o -> prog JsSig A) -> _ with
      | JsLoad => fun k =>
          match h with
          | Some c => disciplined (Some c) (k c)
          | None => forall c, valid_code c.1 -> disciplined None (k c)
          end
      | JsStore c' => fun k =>
          match h with
          | Some c => valid_code c'.1 /\ is_Some c'.2 /\ c'.2 <> c.2 /\ disciplined (Some c') (k tt)
          | None => False
          end
      | JsLock => fun k =>
          h = None /\ forall c, valid_code c.1 -> disciplined (Some c) (k tt)
      | JsUnlock => fun k => is_Some h /\ disciplined None (k tt)
      | JsModified path => fun k => forall r, disciplined h (k r)
      | JsReadFile path => fun k => forall r, disciplined h (k r)
      | JsSpawnBlocking => fun k => forall r, disciplined h (k r)
      end k
  end.

End Thread.

(** An evaluation may be dropped at any point; a guard it holds goes with it. *)
Definition js_dropped (i : nat) (w w' : JsWorld) : Prop :=
  w' = if decide (lock_owner w = Some i) then {| cell := cell w; lock_owner := None |} else w.

(** The tasks' states agree with the lock. *)
Definition pool_ok {A} (Q : nat -> A -> Prop) (s : JsWorld * list (task JsSig A)) : Prop :=
  valid_code (cell s.1).1 /\
  (forall i, lock_owner s.1 = Some i -> exists t, s.2 !! i = Some t /\ is_Some (rest t)) /\
  forall i t p, s.2 !! i = Some t -> rest t = Some p ->
    disciplined (Q i) (if decide (lock_owner s.1 = Some i) then Some (cell s.1) else None) p.

Lemma pool_ok_insert {A} (Q : nat -> A -> Prop) (w w' : JsWorld) ts i t :
  valid_code (cell w').1 ->
  is_Some (ts !! i) ->
  (lock_owner w' = Some i -> is_Some (rest t)) ->
  (forall p, rest t = Some p ->
     disciplined (Q i) (if decide (lock_owner w' = Some i) then Some (cell w') else None) p) ->
  (forall j, j <> i -> lock_owner w' = Some j <-> lock_owner w = Some j) ->
  (cell w' = cell w \/ forall j, j <> i -> lock_owner w <> Some j) ->
  pool_ok Q (w, ts) -> pool_ok Q (w', <[i := t]> ts).
Proof.
  intros Hv Hi Hlive Hp Ho Hc (_ & Hown & Hts).
  assert (Hlt : (i < length ts)%nat) by (destruct Hi; by eapply lookup_lt_Some).
  split; [done|]. split.
  - intros j Hj. destruct (decide (j = i)) as [->|Hji]; simpl.
    + exists t. rewrite list_lookup_insert_eq by done. auto.
    + rewrite list_lookup_insert_ne by done. apply Hown. simpl in *. by apply Ho.
  - intros j t' q Ht Hq. simpl in *. destruct (decide (j = i)) as [->|Hji].
    + rewrite list_lookup_insert_eq in Ht by done. simplify_eq. by apply Hp.
    + rewrite list_lookup_insert_ne in Ht by done. specialize (Hts j t' q Ht Hq). simpl in Hts.
      destruct (decide (lock_owner w' = Some j)) as [Hw'|Hw'],
        (decide (lock_owner w = Some j)) as [Hw|Hw]; try done.
      * destruct Hc as [->|Hc]; [done|]. by destruct (Hc j Hji).
      * by apply Ho in Hw'.
      * by apply Ho in Hw.
Qed.

Lemma pool_ok_do {A} (Q : nat -> A -> Prop) (w w' : JsWorld) ts i t (o : op JsSig) k r :
  ts !! i = Some (Task t (Some (Do o k))) -> js_rel i o w r w' -> pool_ok Q (w, ts) ->
  pool_ok Q (w', <[i := Task (t ++ [Ev o r]) (Some (k r))]> ts).
Proof.
  intros Hi HR Hok. pose proof Hok as (Hv & Hown & Hts).
  specialize (Hts i _ _ Hi eq_refl). assert (His : is_Some (ts !! i)) by (rewrite Hi; by eexists).
  assert (Hgo : forall w', valid_code (cell w').1 ->
    disciplined (Q i) (if decide (lock_owner w' = Some i) then Some (cell w') else None) (k r) ->
    (forall j, j <> i -> lock_owner w' = Some j <-> lock_owner w = Some j) ->
    (cell w' = cell w \/ forall j, j <> i -> lock_owner w <> Some j) ->
    pool_ok Q (w', <[i := Task (t ++ [Ev o r]) (Some (k r))]> ts)).
  { intros w1 Hv' Hp Ho Hc. apply (pool_ok_insert Q w w1); try done. intros q [= <-]. exact Hp. }
  destruct o; simpl in Hv, HR, Hts, r.
  - destruct HR as [-> ->]. apply Hgo; try done; [|by left].
    destruct (decide _); [done|by apply Hts].
  - subst w'. destruct (decide (lock_owner w = Some i)) as [Ho|]; [|done].
    destruct Hts as (Hvc & Hm & Hne & Hd). destruct r. apply Hgo; simpl; try done.
    all: try by destruct (decide _).
    all: right; intros j Hj Hoj; congruence.
  - subst w'. apply Hgo; try done; try by left. all: apply Hts.
  - subst w'. apply Hgo; try done; try by left. all: apply Hts.
  - destruct HR as [Ho ->]. destruct (decide _); [congruence|]. destruct Hts as [_ Hd], r.
    apply Hgo; simpl; try done; try by left.
    all: try by (intros j Hj; split; congruence).
    all: destruct (decide _); [by apply Hd|done].
  - subst w'. destruct Hts as [[c Hc] Hd], r.
    destruct (decide (lock_owner w = Some i)) as [Ho|]; [|done].
    apply Hgo; simpl; try done; try by left.
    all: intros j Hj; split; congruence.
  - subst w'. apply Hgo; try done; try by left. all: apply Hts.
Qed.

Lemma pool_ok_drop {A} (Q : nat -> A -> Prop) (w w' : JsWorld) ts i t p :
  ts !! i = Some (Task t (Some p)) -> js_dropped i w w' -> pool_ok Q (w, ts) ->
  pool_ok Q (w', <[i := Task t None]> ts).
Proof.
  intros Hi -> Hok. pose proof Hok as (Hv & _).
  apply (pool_ok_insert Q w); try done; destruct (decide _) as [Ho|Ho]; simpl; try done; try by left.
  intros j Hj. split; congruence.
Qed.

Lemma pool_ok_reachable {A} (Q : nat -> A -> Prop) s s' :
  rtc (task_step (A := A) js_rel js_dropped) s s' -> pool_ok Q s -> pool_ok Q s'.
Proof. induction 1 as [|? ? ? []]; eauto using pool_ok_do, pool_ok_drop. Qed.

Lemma js_rel_total i (o : op JsSig) w :
  (o = JsLock -> lock_owner w = None) -> exists r w', js_rel i o w r w'.
Proof.
  intros Hl. destruct o; simpl.
  1, 2, 5, 6: by repeat eexists; eauto.
  - by exists None; eauto.
  - by exists (Err ""); eauto.
  - by exists true; eauto.
Qed.

(** A pool that has not finished can move. *)
Lemma pool_ok_moves {A} (Q : nat -> A -> Prop) w (ts : list (task JsSig A)) i t o k :
  pool_ok Q (w, ts) -> ts !! i = Some (Task t (Some (Do o k))) ->
  exists s', task_step js_rel never_dropped (w, ts) s'.
Proof.
  intros (Hv & Hown & Hts) Hi. simpl in *.
  destruct (lock_owner w) as [j|] eqn:Ho.
  - destruct (Hown j eq_refl) as ([t' [p|]] & Hj & Hp); [|by destruct Hp].
    specialize (Hts j _ _ Hj eq_refl).
    destruct (decide _); [|done]. destruct p as [a|o' k']; [by destruct Hts|].
    destruct (js_rel_total j o' w) as (r & w' & HR).
    { intros ->. by destruct Hts as [? _]. }
    eexists. by eapply task_do.
  - destruct (js_rel_total i o w) as (r & w' & HR); [by intros _|].
    eexists. by eapply task_do.
Qed.

(** ** Every evaluation keeps the discipline *)

Definition js_post (reqs : list Request3) (i : nat) (x : EvaluationResult * V8JsRuleEngine) : Prop :=
  exists m url ip code completed, reqs !! i = Some (m, url, ip) /\ valid_code code /\
    x.1 = decision code m url ip completed.

Lemma disciplined_evaluate reqs i e m url ip :
  reqs !! i = Some (m, url, ip) ->
  disciplined (js_post reqs i) None (js_evaluate e m url ip).
Proof.
  intros Hi.
  assert (Htail : disciplined (js_post reqs i) None
    (js_code ⇐ load_js_code;
     '(allowed, context, max) ⇐ execute_js_blocking js_code m url ip;
     Ret (build_evaluation_result allowed context max, e))).
  { simpl. intros [code mt] Hc completed. simpl.
    pose proof (build_decision code m url ip completed) as Hd. simpl in Hd.
    destruct (default _ _) as [[a c] l] eqn:Ed in Hd |- *. simpl in *.
    split; [done|]. exists m, url, ip, code, completed. by rewrite <- Hd. }
  unfold js_evaluate, check_and_reload_file.
  destruct (js_file_path e) as [path|]; [|exact Htail]. simpl.
  intros mt [c0 m0] _. destruct (needs_reload mt m0); [|exact Htail]. simpl.
  split; [done|]. intros [c1 m1] Hc1. simpl. destruct (needs_reload mt m1) eqn:En;
    [|split; [by eexists|exact Htail]].
  simpl. intros [new|err]; [|split; [by eexists|exact Htail]].
  destruct (validate_js_code new) as [[]|err] eqn:Ev; [|split; [by eexists|exact Htail]].
  simpl. unfold needs_reload in En. apply andb_prop in En as [E1 E2].
  apply bool_decide_eq_true in E1, E2.
  split; [unfold valid_code; by rewrite Ev|]. split; [done|]. split; [done|].
  split; [by eexists|exact Htail].
Qed.

(** The evaluations of the requests, ready to run, by engines that share the
    cell. *)
Definition evaluations (engines : list V8JsRuleEngine) (reqs : list Request3)
    : list (prog JsSig (EvaluationResult * V8JsRuleEngine)) :=
  zip_with (fun e '(m, url, ip) => evaluate e m url ip) engines reqs.

(** C17: any number of evaluations share one cell, run interleaved in any
    order, and are dropped at any point, while the rules file changes
    arbitrarily.  The code in the cell
    always compiles; only the holder of the reload lock stores, always code
    that compiles under a modification time that is not the cell's; every
    request that was decided was decided by one such code, or denied because
    the task failed; and the evaluations never deadlock on the lock, as one that
    is dropped gives it back. *)
Theorem js_concurrent_reloads (code : JsCode) (engines : list V8JsRuleEngine)
    (reqs : list Request3) (w : JsWorld) (ts : list (task JsSig (EvaluationResult * V8JsRuleEngine)))
    (Hvalid : valid_code code.1)
    (Hreach : rtc (task_step js_rel js_dropped)
                ({| cell := code; lock_owner := None |}, fresh_task <$> evaluations engines reqs) (w, ts)) :
  valid_code (cell w).1 /\
  (forall i t c k, ts !! i = Some (Task t (Some (@Do JsSig _ (JsStore c) k))) ->
     lock_owner w = Some i /\ valid_code c.1 /\ is_Some c.2 /\ c.2 <> (cell w).2) /\
  (forall i t r e, ts !! i = Some (Task t (Some (Ret (r, e)))) -> js_post reqs i (r, e)) /\
  (forall i t o k, ts !! i = Some (Task t (Some (Do o k))) ->
     exists s', task_step js_rel never_dropped (w, ts) s').
Proof.
  assert (Hok : pool_ok (js_post reqs) (w, ts)).
  { apply (pool_ok_reachable _ _ _ Hreach). split; [done|]. split; [done|].
    intros i t p Ht Hp. simpl in *. rewrite list_lookup_fmap in Ht.
    apply fmap_Some in Ht as (q & Hq & ->). injection Hp as <-.
    apply lookup_zip_with_Some in Hq as (e & [[m url] ip] & -> & He & Hr). by apply disciplined_evaluate. }
  pose proof Hok as (Hv & Hown & Hts). split; [done|]. split; [|split].
  - intros i t c k Hi. specialize (Hts i _ _ Hi eq_refl). simpl in *.
    destruct (decide _); [|done]. by destruct Hts as (? & ? & ? & _).
  - intros i t r e Hi. by destruct (Hts i _ _ Hi eq_refl).
  - intros i t o k Hi. by eapply pool_ok_moves.
Qed.

End Concurrent.

(** ** One evaluation, alone *)

Section Sequential.
Context `{V8} `{UrlLib} `{SerdeJson}.

Record JsDisk : Type := {
  d_cell : JsCode;
  d_mtime : option SystemTime;
  d_contents : Result string string;
}.

(** A quiet environment: the file and the cell change only by the engine. *)
Definition quiet : handler JsSig JsDisk := fun o d =>
  match o as o return (ans JsSig o * JsDisk) with
  | JsLoad => (d_cell d, d)
  | JsStore c => (tt, {| d_cell := c; d_mtime := d_mtime d; d_contents := d_contents d |})
  | JsModified _ => (d_mtime d, d)
  | JsReadFile _ => (d_contents d, d)
  | JsLock => (tt, d)
  | JsUnlock => (tt, d)
  | JsSpawnBlocking => (true, d)
  end.

(** What the code in use becomes: replaced exactly when the engine watches a
    file whose modification time is known and is not the one the code was
    loaded under, and what the file holds compiles. *)
Inductive js_reloaded (e : V8JsRuleEngine) (d : JsDisk) : JsCode -> Prop :=
| Reloaded path mtime new_code :
    js_file_path e = Some path -> d_mtime d = Some mtime -> (d_cell d).2 <> Some mtime ->
    d_contents d = Ok new_code -> js_compiles new_code ->
    js_reloaded e d (new_code, Some mtime)
| Kept :
    js_file_path e = None \/ d_mtime d = None \/ (d_cell d).2 = d_mtime d \/
    (forall new_code, d_contents d = Ok new_code -> ~ js_compiles new_code) ->
    js_reloaded e d (d_cell d).

(** What an event tells of the code and of the task. *)
Definition seen (ev : event JsSig) : option (JsCode + bool) :=
  match ev with
  | {| ev_op := JsLoad; ev_ans := c |} => Some (inl c)
  | {| ev_op := JsSpawnBlocking; ev_ans := b |} => Some (inr b)
  | _ => None
  end.

(** The code's decision is the relation's. *)
Lemma decision_decides code method url ip : js_decides code method url ip (decision code method url ip true).
Proof.
  unfold decision, blocking_task, execute_with_code. cbn.
  destruct (from_request method url ip) as [i|] eqn:Ei; cbn; [|by apply DeniedByFailure; [rewrite Ei|..]].
  destruct (execute_with_isolate code i fresh_heap) as [[v|err|] h] eqn:E; cbn.
  - apply execute_with_isolate_runs in E as (s & -> & Hs). pose proof (interpret_says s) as Ht.
    destruct (interpret s) as [[a m] l]. by apply (DecidedByText _ _ _ _ i s h).
  - apply DeniedByFailure; [|done..]. intros i' s h' Hi Hs%runs_execute. simplify_eq. congruence.
  - apply DeniedByFailure; [|done..]. intros i' s h' Hi Hs%runs_execute. simplify_eq. congruence.
Qed.

Lemma decision_run code method url ip i s h :
  from_request method url ip = Ok i -> js_runs code i s h ->
  decision code method url ip true = evaluation_of (interpret s).
Proof.
  intros Hi E%runs_execute.
  unfold decision, blocking_task, execute_with_code. by rewrite Hi, E.
Qed.

(** The text on which the code permitted the request. *)
Definition permitted_by (code : string) (m : Method) (url ip : string) : Prop :=
  exists i s h limit, from_request m url ip = Ok i /\ js_runs code i s h /\ says s true None limit.

Lemma decision_permits code method url ip completed :
  action (decision code method url ip completed) = Allow <->
  completed = true /\ permitted_by code method url ip.
Proof.
  destruct completed; [|by split; [|intros [? _]]]. split.
  - pose proof (decision_decides code method url ip) as Hd. intros Ha. split; [done|].
    destruct Hd as [i s h a m l Hi Hs Ht|]; [|congruence]. destruct a; [|done].
    exists i, s, h, l. replace (@None string) with m; [done|]. by inversion Ht.
  - intros (_ & i & s & h & l & Hi & Hs & Ht). rewrite (decision_run _ _ _ _ _ _ _ Hi Hs).
    pose proof (interpret_says s) as Ht'. destruct (interpret s) as [[a m] l'].
    pose proof (says_unique _ _ _ _ _ _ _ Ht Ht') as [= <- _ _]. done.
Qed.

Lemma decision_deny_no_limit code method url ip completed :
  action (decision code method url ip completed) = Deny ->
  max_tx_bytes (decision code method url ip completed) = None.
Proof.
  unfold decision. destruct completed; [|done].
  destruct (blocking_task code method url ip) as [[[a m] l]|] eqn:E; [|done].
  apply blocking_task_shape in E as [_ Hl]. destruct a; [done|]. intros _. by apply Hl.
Qed.

Definition with_cell (d : JsDisk) (c : JsCode) : JsDisk :=
  {| d_cell := c; d_mtime := d_mtime d; d_contents := d_contents d |}.

Lemma needs_reload_true now last :
  needs_reload now last = true <-> exists m, now = Some m /\ last <> Some m.
Proof.
  unfold needs_reload. rewrite andb_true_iff, !bool_decide_eq_true. split.
  - intros [Hne [m ->]]. exists m. by split; [|congruence].
  - intros (m & -> & Hne). split; [congruence|by eexists].
Qed.

Lemma run_check_and_reload e d : exists c, js_reloaded e d c /\
  run_world quiet d (check_and_reload_file e) = with_cell d c.
Proof.
  assert (Hk : js_file_path e = None \/ d_mtime d = None \/ (d_cell d).2 = d_mtime d \/
    (forall new_code, d_contents d = Ok new_code -> ~ js_compiles new_code) ->
    exists c, js_reloaded e d c /\ d = with_cell d c)
    by (exists (d_cell d); split; [by apply Kept|by destruct d]).
  unfold run_world, check_and_reload_file.
  destruct (js_file_path e) as [path|] eqn:Ep; simpl; [|by apply Hk; left].
  destruct (d_cell d) as [code mt] eqn:Ec. simpl. pose proof (needs_reload_true (d_mtime d) mt) as Hn.
  destruct (needs_reload (d_mtime d) mt) eqn:En; cbn.
  2: { apply Hk. cbn. destruct (d_mtime d) as [m|]; [|by right; left].
       destruct (decide (mt = Some m)) as [->|Hne]; [by do 2 right; left|].
       destruct Hn as [_ Hn]. by specialize (Hn ltac:(by exists m)). }
  destruct (proj1 Hn eq_refl) as (m & Em & Hne). rewrite Ec. cbn. rewrite En. cbn.
  destruct (d_contents d) as [new|err] eqn:Ed; cbn; [|apply Hk; by do 3 right].
  destruct (validate_js_code new) as [[]|err] eqn:Ev; cbn.
  - exists (new, Some m). split; [|unfold with_cell; by rewrite Ed, Em]. apply (Reloaded e d path); rewrite ?Ec; try done.
    apply valid_code_compiles. unfold valid_code. by rewrite Ev.
  - apply Hk. do 3 right. intros n [= ->] Hc%valid_code_compiles.
    unfold valid_code in Hc. by rewrite Ev in Hc.
Qed.

(** C32: an evaluation reloads the rules exactly when the watched file's
    modification time is known and is not the one the rules were loaded under,
    earlier times included, and the new contents can be read and compile
    (otherwise the old rules stay); nothing else of the disk changes; and then
    it decides by the code now in use, run in a fresh isolate. *)
Theorem js_evaluate_reloads (e : V8JsRuleEngine) (d : JsDisk) (method : Method) (url ip : string) :
  exists c r, js_reloaded e d c /\
    run_world quiet d (evaluate e method url ip) =
      {| d_cell := c; d_mtime := d_mtime d; d_contents := d_contents d |} /\
    run_result quiet d (evaluate e method url ip) = (r, e) /\
    js_decides c.1 method url ip r.
Proof.
  destruct (run_check_and_reload e d) as (c & Hc & Hr). exists c, (decision c.1 method url ip true).
  split; [done|]. apply and_assoc. split; [|by apply decision_decides].
  unfold run_world, run_result in *. cbn [evaluate js_engine]. unfold js_evaluate.
  rewrite run_bind. destruct (run quiet d (check_and_reload_file e)) as [[t d'] []].
  simpl in Hr. subst d'. simpl. destruct c as [code mt]. simpl.
  pose proof (build_decision code method url ip true) as Hd. simpl in Hd.
  destruct (default _ _) as [[a x] l] eqn:Ed in Hd |- *. simpl in *. by rewrite <- Hd.
Qed.

(** What an event stores in the cell, and what it read from the file. *)
Definition stored (ev : event JsSig) : option JsCode :=
  match ev_op ev with JsStore c => Some c | _ => None end.

Definition file_read (path : string) (ev : event JsSig) : option string :=
  match ev with
  | {| ev_op := JsReadFile p; ev_ans := Ok s |} => if String.eqb p path then Some s else None
  | _ => None
  end.

(** What is stored in the cell was read from the engine's file. *)
Definition stores_what_was_read (path : option string) (t : list (event JsSig)) : Prop :=
  forall c, c ∈ omap stored t -> exists p, path = Some p /\ c.1 ∈ omap (file_read p) t.

Lemma check_and_reload_stores (e : V8JsRuleEngine) :
  wp (check_and_reload_file e) (fun t _ =>
    (js_file_path e = None -> t = []) /\ stores_what_was_read (js_file_path e) t).
Proof.
  unfold check_and_reload_file, reload_locked, stores_what_was_read.
  destruct (js_file_path e) as [path|]; cbn; [|by split; [|intros c ?%elem_of_nil]].
  intros mt [c0 m0]. destruct (needs_reload mt m0); cbn; [|by split; [|intros c ?%elem_of_nil]].
  intros u [c1 m1]. destruct (needs_reload mt m1); cbn; [|by intros; split; [|intros c ?%elem_of_nil]].
  intros [new|err]; cbn; [|by intros; split; [|intros c ?%elem_of_nil]].
  destruct (validate_js_code new) as [[]|]; cbn; [|by intros; split; [|intros c ?%elem_of_nil]].
  intros u1 u2. split; [done|]. intros c ->%list_elem_of_singleton. exists path.
  rewrite String.eqb_refl. by split; [|left].
Qed.

(** What an evaluation did: perhaps a reload, then the load of the code it ran. *)
Lemma js_evaluate_trace (e : V8JsRuleEngine) (method : Method) (url ip : string) :
  wp (evaluate e method url ip) (fun t '(r, e') => e' = e /\ exists t1 code mt completed,
    t = t1 ++ [@Ev JsSig JsLoad (code, mt); @Ev JsSig JsSpawnBlocking completed] /\
    ((js_file_path e = None -> t1 = []) /\ stores_what_was_read (js_file_path e) t1) /\
    r = decision code method url ip completed).
Proof.
  cbn [evaluate js_engine]. unfold js_evaluate. wp_step.
  eapply wp_mono; [|apply check_and_reload_stores]. intros t1 [] Ht1 [code mt] completed. simpl.
  pose proof (build_decision code method url ip completed) as Hd. simpl in Hd.
  destruct (default _ _) as [[a x] l] eqn:Ed in Hd |- *. simpl in *. rewrite Hd.
  split; [done|]. by exists t1, code, mt, completed.
Qed.

(** C31: in every environment an evaluation of the JavaScript engine ends by
    loading the code and waiting for the task that runs it, and its result is
    what that code decides when the task completed, and a denial without a limit
    when it was cancelled.  So it permits exactly when the task completed, the
    URL parses and the code ran, on the request, without an exception, a compile
    error or a panic, to a value whose text permits: [JSON.stringify] of an
    object, the name of a boolean, a string itself. *)
Theorem js_permits_iff (e : V8JsRuleEngine) (method : Method) (url ip : string) :
  wp (evaluate e method url ip) (fun t '(r, e') => e' = e /\ exists t1 code mt completed,
    t = t1 ++ [@Ev JsSig JsLoad (code, mt); @Ev JsSig JsSpawnBlocking completed] /\
    (completed = true -> js_decides code method url ip r) /\
    (completed = false -> action r = Deny /\ max_tx_bytes r = None) /\
    (action r = Allow <-> completed = true /\ permitted_by code method url ip)).
Proof.
  eapply wp_mono; [|apply js_evaluate_trace].
  intros t [r e'] (-> & t1 & code & mt & completed & -> & _ & ->). split; [done|].
  exists t1, code, mt, completed. split; [done|]. rewrite decision_permits.
  split; [intros ->; apply decision_decides|]. by split; [intros ->|].
Qed.

End Sequential.

(** ** Parity of the two engines *)

Section Parity.
Context `{V8} `{UrlLib} `{SerdeJson}.

(** C33: the JavaScript engine and the line processor agree.  Whenever the
    code runs on a request to a value with the text [s], the engine that holds
    the code gives, for that request, exactly the result of a line processor
    whose answer to it reads [s], white space around it aside: same decision,
    message and limit. *)
Theorem js_proc_parity (e : ProcRuleEngine) (d : JsDisk) (method : Method) (url ip js_code s : string)
    (i : RequestInfo) (h : Heap)
    (Hi : from_request method url ip = Ok i)
    (Hcode : (d_cell d).1 = js_code)
    (Hrun : js_runs js_code i s h) :
  wp (evaluate e method url ip) (fun t '(r, _) => forall line,
    omap answer t = [line] -> trim line = trim s ->
    run_result quiet d (evaluate {| js_file_path := None |} method url ip) =
      (r, {| js_file_path := None |})).
Proof.
  assert (Hjs : run_result quiet d (evaluate {| js_file_path := None |} method url ip) =
    (evaluation_of (interpret s), {| js_file_path := None |})).
  { rewrite <- (decision_run _ _ _ _ _ _ _ Hi Hrun), <- Hcode.
    unfold run_result. simpl. destruct (d_cell d) as [code mt]. simpl.
    pose proof (build_decision code method url ip true) as Hd. simpl in Hd.
    destruct (default _ _) as [[a x] l] eqn:Ed in Hd |- *. simpl in *. by rewrite <- Hd. }
  rewrite Hjs. eapply wp_mono; [|apply execute_program_life].
  intros t [r e'] [_ [(json & line & _ & -> & Ha & _)|(_ & Ha & _)]] line' Ha' Ht;
    [|congruence].
  rewrite Ha in Ha'. injection Ha' as ->.
  by rewrite <- (interpret_trim s), <- Ht, interpret_trim.
Qed.

End Parity.

(** ** A small V8 for the examples

    Strings, booleans, the global objects with their two functions, and objects
    known by their JSON; a script is its source text: [true] and [false] run to
    the booleans, [throw] throws, [syntax error] does not compile, a text in
    braces runs to the object it writes, and any other to the string itself. *)

Inductive ToyValue : Type :=
| TStr (s : string) | TBool (b : bool) | TObject | TJson (text : string) | TParse | TStringify.

Definition toy_v8 : V8 := {|
  Heap := list (Level * string);
  JsValue := ToyValue;
  JsScript := string;
  fresh_heap := [];
  context_global _ := TObject;
  string_new s h := (Some (TStr s), h);
  object_new h := (TObject, h);
  script_compile v h :=
    (match v with TStr s => if String.eqb s "syntax error" then None else Some s | _ => None end, h);
  script_run s h :=
    (if String.eqb s "true" then Some (TBool true)
     else if String.eqb s "false" then Some (TBool false)
     else if String.eqb s "throw" then None
     else if starts_with s "{" then Some (TJson s) else Some (TStr s), h);
  object_get o k h := (Some (match k with
                             | TStr "parse" => TParse
                             | TStr "stringify" => TStringify
                             | _ => TObject end), h);
  object_set _ _ _ h := (Some true, h);
  to_object v h := (Some v, h);
  as_function v := match v with TParse => Some TParse | TStringify => Some TStringify | _ => None end;
  function_call f _ args h :=
    (match f, args with
     | TParse, [TStr s] => Some (TJson s)
     | TStringify, [TJson s] => Some (TStr s)
     | _, _ => None
     end, h);
  function_new _ h := (Some TParse, h);
  to_rust_string v h :=
    (match v with TStr s => Some s | TBool true => Some "true" | TBool false => Some "false"
             | _ => Some "[object]" end, h);
  is_object v := match v with TStr _ | TBool _ => false | _ => true end;
  is_null _ := false;
  is_undefined _ := false;
  is_boolean v := match v with TBool _ => true | _ => false end;
  is_string v := match v with TStr _ => true | _ => false end;
  boolean_value v := match v with TBool b => b | _ => true end;
  emit l s h := (l, s) :: h;
|}.

(** The rule's value is an object; the processor's line has its JSON. *)
Lemma js_proc_parity_witness :
  let code := "{" +:+ dquote +:+ "deny_message" +:+ dquote +:+ ": " +:+ dquote +:+ "Blocked" +:+ dquote +:+ "}" in
  let d := {| d_cell := (code, None); d_mtime := None; d_contents := Err "" |} in
  wp (@evaluate _ _ (@proc_engine any_url table_json) {| proc_program := "p"; process := None |}
        "GET" "https://example.com/" "10.0.0.1")
    (fun t '(r, _) => forall line, omap answer t = [line] -> trim line = trim code ->
       run_result quiet d (@evaluate _ _ (@js_engine toy_v8 any_url table_json)
         {| js_file_path := None |} "GET" "https://example.com/" "10.0.0.1") =
       (r, {| js_file_path := None |})).
Proof.
  intros code d.
  eapply (@js_proc_parity toy_v8 any_url table_json _ d _ _ _ code code
    {| info_url := "https://example.com/"; info_method := "GET"; info_scheme := "https";
       info_host := "example.com"; info_path := "/"; info_requester_ip := "10.0.0.1" |} [] eq_refl eq_refl).
  eapply JsRuns; [reflexivity|reflexivity|reflexivity|by eapply JsonMethod|reflexivity..|].
  eapply TextObject; [reflexivity|reflexivity|reflexivity|by eapply JsonMethod|reflexivity..].
Defined.

(** Two evaluations meet a changed file; the first is dropped with the lock. *)
Lemma js_concurrent_reloads_witness :
  let R := ("GET", "https://example.com/", "10.0.0.1") in
  exists (w : JsWorld) ts,
    lock_owner w = Some 1%nat /\
    valid_code (H := toy_v8) (cell w).1 /\
    (forall i t c k, ts !! i = Some (Task t (Some (@Do JsSig (EvaluationResult * V8JsRuleEngine) (JsStore c) k))) ->
       lock_owner w = Some i /\ valid_code (H := toy_v8) c.1 /\ is_Some c.2 /\ c.2 <> (cell w).2) /\
    (forall i t r e, ts !! i = Some (Task t (Some (Ret (r, e)))) ->
       @js_post toy_v8 any_url table_json [R; R] i (r, e)) /\
    (forall i t o k, ts !! i = Some (Task t (Some (Do o k))) ->
       exists s', task_step js_rel never_dropped (w, ts) s').
Proof.
  eexists _, _. split; [|eapply (@js_concurrent_reloads toy_v8 any_url table_json
    ("true", Some 1) [{| js_file_path := Some "r.js" |}; {| js_file_path := Some "r.js" |}]);
    [reflexivity|]].
  2: { eapply rtc_l. { eapply (@task_do JsSig _ _ js_rel _ 0 _ (JsModified "r.js") _ (Some 2)); reflexivity. }
       eapply rtc_l. { eapply (@task_do JsSig _ _ js_rel _ 1 _ (JsModified "r.js") _ (Some 2)); reflexivity. }
       eapply rtc_l. { eapply (@task_do JsSig _ _ js_rel _ 0 _ JsLoad _ ("true", Some 1)); [reflexivity|by split]. }
       eapply rtc_l. { eapply (@task_do JsSig _ _ js_rel _ 0 _ JsLock _ tt); [reflexivity|by split]. }
       eapply rtc_l. { eapply (@task_drop JsSig _ _ js_rel js_dropped 0); reflexivity. }
       eapply rtc_l. { eapply (@task_do JsSig _ _ js_rel _ 1 _ JsLoad _ ("true", Some 1)); [reflexivity|by split]. }
       eapply rtc_l. { eapply (@task_do JsSig _ _ js_rel _ 1 _ JsLock _ tt); [reflexivity|by split]. }
       apply rtc_refl. }
  reflexivity.
Defined.
