(* ===== verification/Engines.v ===== *)
(** * The rule engine of a run ([src/main.rs])

    The three engines behind the one trait object the program holds
    ([Box<dyn RuleEngineTrait>]), the engine the command line asks for, and the
    dry run that asks it once. *)

From S2P Require Import Prelude Effects Http Rules RuleCommon Process ShellRules ProcRules V8 JsRules.
From Stdlib Require Import Ascii.

(** ** Any engine *)

Inductive AnyEngine : Type :=
| ShellEngine (e : ShellRuleEngine)
| ProcEngine (e : ProcRuleEngine)
| JsEngine (e : V8JsRuleEngine).

Definition AnySig : Sig := sig_sum ShellSig (sig_sum ProcSig JsSig).

Definition shell_event (e : event ShellSig) : event AnySig := @Ev AnySig (inl (ev_op e)) (ev_ans e).
Definition proc_event (e : event ProcSig) : event AnySig :=
  @Ev AnySig (inr (inl (ev_op e))) (ev_ans e).
Definition js_event (e : event JsSig) : event AnySig := @Ev AnySig (inr (inr (ev_op e))) (ev_ans e).

Section Dispatch.
Context `{V8} `{UrlLib} `{SerdeJson}.

(** The dynamic dispatch of [evaluate]. *)
Definition any_evaluate (e : AnyEngine) (method : Method) (url requester_ip : string)
    : prog AnySig (EvaluationResult * AnyEngine) :=
  match e with
  | ShellEngine e =>
      '(x, e) ⇐ lift_l (evaluate e method url requester_ip); Ret (x, ShellEngine e)
  | ProcEngine e =>
      '(x, e) ⇐ lift_r (lift_l (evaluate e method url requester_ip)); Ret (x, ProcEngine e)
  | JsEngine e =>
      '(x, e) ⇐ lift_r (lift_r (evaluate e method url requester_ip)); Ret (x, JsEngine e)
  end.

#[export] Instance any_engine : RuleEngineTrait AnySig AnyEngine := {|
  evaluate := any_evaluate;
  engine_name e := match e with
                   | ShellEngine e => engine_name e
                   | ProcEngine e => engine_name e
                   | JsEngine e => engine_name e
                   end;
|}.

End Dispatch.

(** ** The engine of the command line *)

(** The rule options. *)
Record RuleArgs : Type := {
  sh : option string;
  proc : option string;
  js : option string;
  js_file : option string;
  request_log_path : option string;
}.

Inductive EngineChoice : Type :=
| UseShell (script : string)
| UseProc (program : string)
| UseJs (code : string)
| UseJsFile (path : string).

Definition choose_engine (a : RuleArgs) : EngineChoice :=
  match sh a, proc a, js a, js_file a with
  | Some script, _, _, _ => UseShell script
  | None, Some p, _, _ => UseProc p
  | None, None, Some code, _ => UseJs code
  | None, None, None, Some path => UseJsFile path
  | None, None, None, None => UseJs "false"
  end.

(** Opening the request log, reading the rules, and what V8 needs. *)
Inductive file_op : Type := OpenAppend (path : string) | ReadToString (path : string).

Definition FileSig : Sig :=
  {| op := file_op;
     ans o := match o with
              | OpenAppend _ => Result unit Error
              | ReadToString _ => Result string Error
              end |}.

Definition BuildSig : Sig := sig_sum FileSig JsSig.

(** How a run ends before it began: with an error of [main], or with a line
    on stderr and exit code 1. *)
Inductive Stop : Type := Failed (e : Error) | Exit1 (stderr : string).

Section Build.
Context `{V8} `{UrlLib} `{SerdeJson}.

Definition open_request_log (path : option string) : prog BuildSig (Result bool Stop) :=
  match path with
  | Some path =>
      file ⇐ lift_l (@perform FileSig (OpenAppend path));
      Ret (Result.map_err Failed
             (Result.map (fun _ => true)
                (Result.context ("Failed to open request log file: " +:+ path) file)))
  | None => Ret (Ok false)
  end.

(** A JavaScript engine, whose cell starts with the code; [what] is the
    message's name for it. *)
Definition build_js (what js_code : string) (path : option string)
    : prog BuildSig (Result (V8JsRuleEngine * JsCode) Stop) :=
  engine ⇐ lift_r (new_with_file js_code path);
  Ret (Result.map_err (fun e => Exit1 ("Failed to create " +:+ what +:+ ": " +:+ e)) engine).

(** The engine, and what the cell of a JavaScript engine holds at first. *)
Definition build_engine (a : RuleArgs) : prog BuildSig (Result (AnyEngine * option JsCode) Stop) :=
  match sh a with
  | Some script => Ret (Ok (ShellEngine (shell_new script), None))
  | None =>
  match proc a with
  | Some proc => Ret (Ok (ProcEngine (proc_new proc), None))
  | None =>
  match js a with
  | Some js_code =>
      built ⇐? build_js "V8 JavaScript engine" js_code None;
      let '(engine, cell) := built in
      Ret (Ok (JsEngine engine, Some cell))
  | None =>
  match js_file a with
  | Some js_file =>
      code ⇐ lift_l (@perform FileSig (ReadToString js_file));
      match Result.context ("Failed to read JS file: " +:+ js_file) code with
      | Ok code =>
          built ⇐? build_js "V8 JavaScript engine" code (Some js_file);
          let '(engine, cell) := built in
          Ret (Ok (JsEngine engine, Some cell))
      | Err e => Ret (Err (Failed e))
      end
  | None =>
      built ⇐? build_js "default V8 JavaScript engine" "false" None;
      let '(engine, cell) := built in
      Ret (Ok (JsEngine engine, Some cell))
  end end end end.

Definition build_rule_engine (a : RuleArgs)
    : prog BuildSig (Result (RuleEngine AnyEngine * option JsCode) Stop) :=
  request_log ⇐? open_request_log (request_log_path a);
  built ⇐? build_engine a;
  let '(engine, cell) := built in
  Ret (Ok (from_trait engine request_log, cell)).

(** ** What is built *)

(** The engine a choice stands for; the rules of a file are what was read. *)
Definition built_for (c : EngineChoice) (t : list (event BuildSig)) (e : AnyEngine)
    (cell : option JsCode) : Prop :=
  match c with
  | UseShell s => e = ShellEngine {| script := s |} /\ cell = None
  | UseProc p => e = ProcEngine {| proc_program := p; process := None |} /\ cell = None
  | UseJs code => e = JsEngine {| js_file_path := None |} /\ cell = Some (code, None) /\ valid_code code
  | UseJsFile path => exists code mt,
      @Ev BuildSig (inl (ReadToString path)) (Ok code) ∈ t /\
      e = JsEngine {| js_file_path := Some path |} /\ cell = Some (code, mt) /\ valid_code code
  end.

Lemma build_js_spec what code path :
  wp (build_js what code path) (fun _ r => match r with
    | Ok (e, cell) => e = {| js_file_path := path |} /\ valid_code code /\
        exists mt, cell = (code, mt) /\ (path = None -> mt = None)
    | Err stop => exists m, stop = Exit1 m
    end).
Proof.
  unfold build_js, new_with_file, valid_code.
  destruct (validate_js_code code) as [[]|err]; [|by eexists].
  destruct path as [path|]; [intros mt|]; cbn; eauto 10 with congruence.
Qed.

Lemma build_engine_spec a :
  wp (build_engine a) (fun t r => match r with
    | Ok (e, cell) => built_for (choose_engine a) t e cell
    | Err _ => True
    end).
Proof.
  unfold build_engine, choose_engine.
  destruct (sh a); [done|]. destruct (proc a); [done|].
  destruct (js a) as [code|]; [|destruct (js_file a) as [path|]].
  - apply wp_try. eapply wp_mono; [|apply build_js_spec].
    intros t [[e cell]|] H'; [|done]. destruct H' as (-> & Hc & mt & -> & Hm). by rewrite Hm.
  - intros [code|err]; cbn; [|done]. apply wp_try. eapply wp_mono; [|apply build_js_spec].
    intros t [[e cell]|] H'; [|done]. destruct H' as (-> & Hc & mt & -> & Hm). cbn.
    exists code, mt. split; [by left|done].
  - apply wp_try. eapply wp_mono; [|apply build_js_spec].
    intros t [[e cell]|] H'; [|done]. destruct H' as (-> & Hc & mt & -> & Hm). by rewrite Hm.
Qed.

Definition is_some {A} (o : option A) : bool := match o with Some _ => true | None => false end.

(** The program holds an engine of the kind chosen, under the logger exactly
    when a request log was asked for. *)
Lemma build_rule_engine_spec a :
  wp (build_rule_engine a) (fun t r => match r with
    | Ok (re, cell) => exists e, re = from_trait e (is_some (request_log_path a)) /\
        built_for (choose_engine a) t e cell
    | Err _ => True
    end).
Proof.
  unfold build_rule_engine. apply wp_try.
  apply (wp_mono _ (fun _ r => match r with Ok log => log = is_some (request_log_path a) | Err _ => True end));
    [|by unfold open_request_log; destruct (request_log_path a); [intros [[]|]|]].
  intros t1 [log|] Hl; [|done]. apply wp_try. eapply wp_mono; [|apply build_engine_spec].
  intros t [[e cell]|] Hb; [|done]. exists e. rewrite app_nil_r. split; [by subst log|].
  destruct (choose_engine a); [done..|]. destruct Hb as (code & mt & Hin & Hb). exists code, mt.
  split; [apply elem_of_app; by right|done].
Qed.

(** The log could not be opened, or the rules could not be read. *)
Definition refused (e : event BuildSig) : bool :=
  match e with
  | {| ev_op := inl (OpenAppend _); ev_ans := Err _ |} => true
  | {| ev_op := inl (ReadToString _); ev_ans := Err _ |} => true
  | _ => false
  end.

(** Then there is no engine. *)
Lemma refused_no_engine a :
  wp (build_rule_engine a) (fun t r => existsb refused t = true -> Result.is_err r = true).
Proof.
  assert (Hjs : forall what code path, wp (build_js what code path) (fun t _ => existsb refused t = false)).
  { intros what code path. unfold build_js, new_with_file.
    destruct (validate_js_code code), path; by try intros mt. }
  assert (Hdone : forall what code path, wp (built ⇐? build_js what code path;
      let '(engine, cell) := built in Ret (Ok (JsEngine engine, Some cell)))
    (fun t r => existsb refused t = true -> Result.is_err r = true)).
  { intros what code path. apply wp_try. eapply wp_mono; [|apply Hjs].
    intros t [[e cell]|stop] Ht; [apply wp_ret; rewrite app_nil_r|]; by rewrite Ht. }
  unfold build_rule_engine. apply wp_try.
  apply (wp_mono _ (fun t r => existsb refused t = true -> Result.is_err r = true));
    [|by unfold open_request_log; destruct (request_log_path a); [intros [[]|]|]].
  intros t1 [log|stop] Ht1; [|done].
  assert (Hl : existsb refused t1 = false) by (destruct (existsb refused t1); [by discriminate Ht1|done]).
  apply wp_try. apply (wp_mono _ (fun t r => existsb refused t = true -> Result.is_err r = true)).
  - intros t [[e cell]|stop] Ht; [apply wp_ret; rewrite app_nil_r|]; by rewrite existsb_app, Hl.
  - unfold build_engine. destruct (sh a); [done|]. destruct (proc a); [done|].
    destruct (js a); [apply Hdone|]. destruct (js_file a); [|apply Hdone].
    intros [code|err]; cbn [Result.context]; [|done]. apply Hdone.
Qed.

End Build.

(** ** The dry run *)

(** [str::parse] to a [hyper::Method]. *)
Class MethodParser := { parse_method : string -> option Method }.

Section DryRun.
Context `{MethodParser}.

Definition method_or_get (s : string) : Method :=
  match parse_method (to_ascii_uppercase s) with Some m => m | None => GET end.

(** The method and the URL of [--test]: one value, or two. *)
Definition test_request (test_vals : list string) : option (Method * string) :=
  match test_vals with
  | [s] => Some (match split_whitespace s with
                 | maybe_method :: url_rest :: _ => (method_or_get maybe_method, url_rest)
                 | _ => (GET, s)
                 end)
  | maybe_method :: url :: _ => Some (method_or_get maybe_method, url)
  | [] => None                                (* at least one value is required *)
  end.

Context {Σ : Sig} {E : Type} `{RuleEngineTrait Σ E}.

(** The lines printed and the exit code. *)
Definition dry_run (r : RuleEngine E) (method : Method) (url : string)
    : prog (sig_sum Σ LogSig) (list string * Z) :=
  '(eval, _) ⇐ evaluate_with_context r method url;
  let context_lines := match context eval with Some ctx => [ctx] | None => [] end in
  Ret (match action eval with
       | Allow => (("ALLOW " +:+ method +:+ " " +:+ url) :: context_lines, 0)
       | Deny => (("DENY " +:+ method +:+ " " +:+ url) :: context_lines, 1)
       end).

(** The dry run tells what the engine decides: it evaluates the rule once,
    for the method and URL it prints and a loopback client, and its first line
    and its exit code are those of the decision. *)
Theorem dry_run_reports_decision (e : E) (log : bool) (method : Method) (url : string) :
  wp (dry_run (from_trait e log) method url) (fun t '(out, code) => exists t0 x e',
    possible (evaluate_with_context_and_ip (from_trait e log) method url "127.0.0.1") t0 (x, e') /\
    t = t0 /\ (code = 0 <-> action x = Allow) /\ (code = 0 \/ code = 1) /\
    out = ((if code =? 0 then "ALLOW " else "DENY ") +:+ method +:+ " " +:+ url) ::
          match context x with Some ctx => [ctx] | None => [] end).
Proof.
  unfold dry_run. wp_step. eapply wp_mono; [|apply wp_self]. intros t [x e'] Hp.
  apply wp_ret. rewrite app_nil_r. destruct (action x) eqn:Ea.
  all: exists t, x, e'; rewrite Ea; split; [exact Hp|]; split; [done|].
  all: split; [by split|]; split; [by (left + right)|]; reflexivity.
Qed.

End DryRun.

Example test_request_examples :
  let P := {| parse_method s := if bool_decide (s ∈ ["GET"; "POST"]) then Some s else None |} in
  test_request (H := P) ["post https://a.com/"] = Some ("POST", "https://a.com/") /\
  test_request (H := P) ["https://a.com/"] = Some ("GET", "https://a.com/") /\
  test_request (H := P) ["nope"; "https://a.com/"] = Some ("GET", "https://a.com/").
Proof. by vm_compute. Qed.
