(* ===== verification/Proxy.v ===== *)
(** * The HTTP proxy ([src/proxy.rs])

    A request is judged by the rule engine, rewritten, limited and forwarded,
    or answered by the proxy itself.  The handler is a program over the
    engine's operations and the client's ([ClientSig]). *)

From S2P Require Import Prelude Effects Http LimitedBody Rules Net.
From Stdlib Require Import Ascii.

Definition HTTPJAIL_HEADER : string := "HTTPJAIL".
Definition HTTPJAIL_HEADER_VALUE : string := "true".
Definition BLOCKED_MESSAGE : string := "Request blocked by httpjail".
Definition HTTPJAIL_LOOP_DETECTION_HEADER : string := "Httpjail-Loop-Prevention".

Definition create_connect_403_response : string :=
  "HTTP/1.1 403 Forbidden" +:+ CRLF +:+ "Content-Type: text/plain" +:+ CRLF +:+
  "Content-Length: 27" +:+ CRLF +:+ CRLF +:+ "Request blocked by httpjail".

Definition blocked_message (context : option string) : string :=
  match context with
  | Some ctx => BLOCKED_MESSAGE +:+ LF +:+ ctx
  | None => BLOCKED_MESSAGE
  end.

Definition create_connect_403_response_with_context (context : option string) : string :=
  let message := blocked_message context in
  "HTTP/1.1 403 Forbidden" +:+ CRLF +:+ "Content-Type: text/plain" +:+ CRLF +:+
  "Content-Length: " +:+ dec (len message) +:+ CRLF +:+ CRLF +:+ message.

(** ** Bodies

    [BoxBody]: a body as it arrives, a full one, or a limited one. *)

Inductive BoxBody (B : Type) : Type :=
| BIncoming (b : B)
| BFull (data : string)
| BLimited (l : LimitedBody B).
Arguments BIncoming {B} b.
Arguments BFull {B} data.
Arguments BLimited {B} l.

Inductive ByteLimitResult (U H B : Type) : Type :=
| WithinLimit (req : Request U H (LimitedBody B))
| ExceedsLimit (content_length max_bytes : Z).
Arguments WithinLimit {U H B} req.
Arguments ExceedsLimit {U H B} content_length max_bytes.

Definition map_body {U H B B'} (f : B -> B') (r : Request U H B) : Request U H B' :=
  mkRequest (req_method r) (req_uri r) (req_headers r) (f (req_body r)).

(** ** The client *)

Inductive client_op (U H B : Type) : Type :=
| ClientRequest (req : Request U H (BoxBody B)).
Arguments ClientRequest {U H B} req.

Definition ClientSig (U H B : Type) : Sig :=
  {| op := client_op U H B; ans _ := Result (Response H B) Error |}.

Section Requests.
Context {U H B : Type} `{HeaderMap H} `{HeaderValues} `{UriOps U}.

(** The size of the request line and the headers on the wire, in [u64]. *)
Definition request_line_size (r : Request U H B) : Z :=
  len (req_method r +:+ " " +:+ default "/" (uri_path_and_query (req_uri r)) +:+
       " HTTP/1.1" +:+ CRLF).

Definition headers_size (h : H) : Z :=
  foldl (fun acc '(name, value) => wrap_u64 (acc + (len name + 2 + len value + 2))) 0 (hm_iter h).

Definition total_header_size (r : Request U H B) : Z :=
  wrap_u64 (wrap_u64 (request_line_size r + headers_size (req_headers r)) + 2).

Definition declared_length (h : H) : option Z :=
  v ← hm_get h "content-length"; s ← hv_to_str v; parse_u64 s.

Definition apply_request_byte_limit (r : Request U H B) (max_bytes : Z) : ByteLimitResult U H B :=
  let header_size := total_header_size r in
  let within :=
    let body_limit := saturating_sub max_bytes header_size in
    WithinLimit (map_body (fun b => limited_new b body_limit) r) in
  match declared_length (req_headers r) with
  | Some content_length =>
      let total_size := wrap_u64 (header_size + content_length) in
      if max_bytes <? total_size then ExceedsLimit content_length max_bytes else within
  | None => within
  end.

Definition prepare_upstream_request (r : Request U H B) (target_uri : U) (loop_nonce : string)
    : Request U H B :=
  let h := req_headers r in
  let h := hm_remove h "proxy-connection" in
  let h := hm_remove h "proxy-authorization" in
  let h := hm_remove h "proxy-authenticate" in
  let h := hm_append h HTTPJAIL_LOOP_DETECTION_HEADER
             (default "invalid" (hv_from_str loop_nonce)) in
  let h := match uri_authority target_uri with
           | Some authority => hm_insert h "host" (default "unknown" (hv_from_str authority))
           | None => h
           end in
  mkRequest (req_method r) target_uri h (req_body r).

(** ** Responses of the proxy itself *)

Definition create_error_response (status : Z) (message : string) : Response H (BoxBody B) :=
  let h := hm_append hm_empty "Content-Type" "text/plain" in
  let h := hm_append h "Content-Length" (dec (len message)) in
  let h := hm_append h HTTPJAIL_HEADER HTTPJAIL_HEADER_VALUE in
  mkResponse status h (BFull message).

Definition create_forbidden_response (context : option string) : Response H (BoxBody B) :=
  create_error_response FORBIDDEN (blocked_message context).

(** The response of the upstream server, marked. *)
Definition mark_response (resp : Response H B) : Response H (BoxBody B) :=
  mkResponse (resp_status resp)
    (hm_insert (resp_headers resp) HTTPJAIL_HEADER HTTPJAIL_HEADER_VALUE)
    (BIncoming (resp_body resp)).

(** ** The loop check and the URL that is judged *)

Definition is_loop (h : H) (our_nonce : string) : bool :=
  existsb (fun value => match hv_to_str value with
                        | Some nonce => String.eqb nonce our_nonce
                        | None => false
                        end) (hm_get_all h HTTPJAIL_LOOP_DETECTION_HEADER).

Definition header_text (h : H) (n : string) : option string :=
  v ← hm_get h n; hv_to_str v.

Definition full_url (r : Request U H B) : string :=
  let uri := req_uri r in
  if bool_decide (is_Some (uri_scheme uri)) && bool_decide (is_Some (uri_authority uri))
  then uri_to_string uri
  else "http://" +:+ default "unknown" (header_text (req_headers r) "host") +:+
       default "/" (uri_path_and_query uri).

(** What [proxy_request] does with a request before it is sent: the request to
    send, or the 413 answer. *)
Definition limit_message (content_length max_bytes : Z) : string :=
  "Request body size (" +:+ dec content_length +:+ " bytes) exceeds maximum allowed (" +:+
  dec max_bytes +:+ " bytes)".

Definition limit_request (prepared_req : Request U H B) (max_tx_bytes : option Z)
    : Request U H (BoxBody B) + Response H (BoxBody B) :=
  match max_tx_bytes with
  | Some max_bytes =>
      match apply_request_byte_limit prepared_req max_bytes with
      | WithinLimit req => inl (map_body BLimited req)
      | ExceedsLimit content_length max_bytes =>
          inr (create_error_response PAYLOAD_TOO_LARGE (limit_message content_length max_bytes))
      end
  | None => inl (map_body BIncoming prepared_req)
  end.

Definition send_upstream (new_req : Request U H (BoxBody B))
    : prog (ClientSig U H B) (Result (Response H (BoxBody B)) Error) :=
  resp ⇐ @perform (ClientSig U H B) (ClientRequest new_req);
  match resp with
  | Ok r => Ret (Ok (mark_response r))
  | Err e => Ret (Err e)
  end.

Definition proxy_request (r : Request U H B) (url : string) (max_tx_bytes : option Z)
    (loop_nonce : string) : prog (ClientSig U H B) (Result (Response H (BoxBody B)) Error) :=
  match uri_parse url with
  | Err e => Ret (Err e)
  | Ok target_uri =>
      match limit_request (prepare_upstream_request r target_uri loop_nonce) max_tx_bytes with
      | inl new_req => send_upstream new_req
      | inr resp => Ret (Ok resp)
      end
  end.

(** ** The handler *)

Section Handler.
Context {Σ : Sig} {E : Type} `{RuleEngineTrait Σ E}.

Record ProxyContext : Type := { rule_engine : RuleEngine E; loop_nonce : string }.

Definition HandlerSig : Sig := sig_sum (sig_sum Σ LogSig) (ClientSig U H B).

Definition handle_http_request (r : Request U H B) (ctx : ProxyContext) (remote : SocketAddr)
    : prog HandlerSig (Response H (BoxBody B) * ProxyContext) :=
  if is_loop (req_headers r) (loop_nonce ctx) then
    Ret (create_forbidden_response
      (Some "Loop detected: request already processed by this httpjail instance"), ctx)
  else
    let url := full_url r in
    let requester_ip := show_ip (addr_ip remote) in
    '(evaluation, e) ⇐ lift_l
        (evaluate_with_context_and_ip (rule_engine ctx) (req_method r) url requester_ip);
    let ctx := {| rule_engine := e; loop_nonce := loop_nonce ctx |} in
    match action evaluation with
    | Allow =>
        resp ⇐ lift_r (proxy_request r url (max_tx_bytes evaluation) (loop_nonce ctx));
        match resp with
        | Ok resp => Ret (resp, ctx)
        | Err _ => Ret (create_error_response BAD_GATEWAY "Proxy error", ctx)
        end
    | Deny => Ret (create_forbidden_response (context evaluation), ctx)
    end.

End Handler.
End Requests.
Arguments ProxyContext : clear implicits.

(** ** The headers and the body of a forwarded request *)

Definition proxy_header (n : string) : bool :=
  same_name "proxy-connection" n || same_name "proxy-authorization" n ||
  same_name "proxy-authenticate" n.

Section Forwarded.
Context {U H B : Type} `{HeaderMapLaws H} `{HeaderValues} `{UriOps U}.

(** The values a name has after [prepare_upstream_request]. *)
Definition forwarded_values (h : H) (u : U) (nonce n : string) : list string :=
  match uri_authority u with
  | Some a => if same_name "host" n then [default "unknown" (hv_from_str a)]
              else if same_name HTTPJAIL_LOOP_DETECTION_HEADER n
                   then hm_get_all h n ++ [default "invalid" (hv_from_str nonce)]
                   else if proxy_header n then [] else hm_get_all h n
  | None => if same_name HTTPJAIL_LOOP_DETECTION_HEADER n
            then hm_get_all h n ++ [default "invalid" (hv_from_str nonce)]
            else if proxy_header n then [] else hm_get_all h n
  end.

Lemma loop_not_proxy n :
  same_name HTTPJAIL_LOOP_DETECTION_HEADER n = true -> proxy_header n = false.
Proof.
  intros Hn. apply same_name_eq in Hn. unfold proxy_header, same_name. by rewrite <- Hn.
Qed.

Lemma prepare_values (r : Request U H B) u nonce n :
  hm_get_all (req_headers (prepare_upstream_request r u nonce)) n =
  forwarded_values (req_headers r) u nonce n.
Proof.
  unfold prepare_upstream_request, forwarded_values. simpl.
  assert (Hbase : hm_get_all (hm_append (hm_remove (hm_remove (hm_remove (req_headers r)
      "proxy-connection") "proxy-authorization") "proxy-authenticate")
      HTTPJAIL_LOOP_DETECTION_HEADER (default "invalid" (hv_from_str nonce))) n =
    if same_name HTTPJAIL_LOOP_DETECTION_HEADER n
    then hm_get_all (req_headers r) n ++ [default "invalid" (hv_from_str nonce)]
    else if proxy_header n then [] else hm_get_all (req_headers r) n).
  { rewrite get_all_append, !get_all_remove.
    destruct (same_name HTTPJAIL_LOOP_DETECTION_HEADER n) eqn:El.
    - pose proof (loop_not_proxy n El) as Hp. unfold proxy_header in Hp.
      apply orb_false_elim in Hp as [[-> ->]%orb_false_elim ->]. done.
    - unfold proxy_header.
      by destruct (same_name "proxy-connection" n), (same_name "proxy-authorization" n),
        (same_name "proxy-authenticate" n). }
  destruct (uri_authority u) as [a|]; [|exact Hbase].
  rewrite get_all_insert. by destruct (same_name "host" n).
Qed.

End Forwarded.

(** ** What the handler does, branch by branch *)

Section HandlerSpec.
Context {U H B : Type} `{HeaderMap H} `{HeaderValues} `{UriOps U}.
Context {Σ : Sig} {E : Type} `{RuleEngineTrait Σ E}.

Abbreviation HSig := (HandlerSig (U := U) (H := H) (B := B) (Σ := Σ)).

Definition eval_event (e : event (sig_sum Σ LogSig)) : event HSig :=
  @Ev HSig (inl (ev_op e)) (ev_ans e).

Definition client_event (req : Request U H (BoxBody B)) (a : Result (Response H B) Error)
    : event HSig :=
  @Ev HSig (inr (ClientRequest req)) a.

(** The request an event sends upstream. *)
Definition sent (e : event HSig) : option (Request U H (BoxBody B)) :=
  match ev_op e with
  | inr (ClientRequest req) => Some req
  | inl _ => None
  end.

Lemma sent_evals t : omap sent (eval_event <$> t) = [].
Proof. induction t; [done|]. by csimpl. Qed.

(** What follows a permission: the rest of the trace and the response. *)
Definition permitted_outcome (prepare : U -> Request U H B) (url : string) (max : option Z)
    (t : list (event HSig)) (resp : Response H (BoxBody B)) : Prop :=
  match uri_parse url with
  | Err _ => t = [] /\ resp = create_error_response BAD_GATEWAY "Proxy error"
  | Ok u =>
      match limit_request (prepare u) max with
      | inr early => t = [] /\ resp = early
      | inl req => exists a, t = [client_event req a] /\
          resp = match a with
                 | Ok upstream => mark_response upstream
                 | Err _ => create_error_response BAD_GATEWAY "Proxy error"
                 end
      end
  end.

Definition judged (r : Request U H B) (ctx : ProxyContext E) (remote : SocketAddr)
    (t1 : list (event (sig_sum Σ LogSig))) (x : EvaluationResult) (e' : RuleEngine E) : Prop :=
  possible (evaluate_with_context_and_ip (rule_engine ctx) (req_method r) (full_url r)
              (show_ip (addr_ip remote))) t1 (x, e').

Definition loop_message : string :=
  "Loop detected: request already processed by this httpjail instance".

Definition handle_outcome (r : Request U H B) (ctx : ProxyContext E) (remote : SocketAddr)
    (t : list (event HSig)) (resp : Response H (BoxBody B)) (ctx' : ProxyContext E) : Prop :=
  loop_nonce ctx' = loop_nonce ctx /\
  if is_loop (req_headers r) (loop_nonce ctx)
  then t = [] /\ resp = create_forbidden_response (Some loop_message) /\ rule_engine ctx' = rule_engine ctx
  else exists t1 x, judged r ctx remote t1 x (rule_engine ctx') /\
    match action x with
    | Deny => t = eval_event <$> t1 /\ resp = create_forbidden_response (context x)
    | Allow => exists t2, t = (eval_event <$> t1) ++ t2 /\
        permitted_outcome (fun u => prepare_upstream_request r u (loop_nonce ctx)) (full_url r)
          (max_tx_bytes x) t2 resp
    end.

Lemma handle_http_request_spec (r : Request U H B) (ctx : ProxyContext E) (remote : SocketAddr) :
  wp (handle_http_request r ctx remote) (fun t '(resp, ctx') =>
    handle_outcome r ctx remote t resp ctx').
Proof.
  unfold handle_http_request, handle_outcome.
  destruct (is_loop _ _); [by simpl|]. wp_step. apply wp_lift_l.
  eapply wp_mono; [|apply wp_possible; intros t1 y Hy; exact Hy].
  intros t1 [x e'] Hp. simpl. fold eval_event. destruct (action x) eqn:Ea; simpl.
  - wp_step. apply wp_lift_r. unfold proxy_request.
    unfold permitted_outcome.
    destruct (uri_parse (full_url r)) as [u|err] eqn:Eu; simpl.
    + destruct (limit_request _ _) as [req|early] eqn:El; simpl.
      * intros a. destruct a as [up|err]; simpl; (split; [done|]); exists t1, x;
          (split; [done|]); rewrite Ea; eexists; (split; [done|]); rewrite El; eauto.
      * split; [done|]. exists t1, x. split; [done|]. rewrite Ea. exists [].
        split; [done|]. by rewrite El.
    + split; [done|]. exists t1, x. split; [done|]. rewrite Ea. by exists [].
  - rewrite app_nil_r. split; [done|]. exists t1, x. by rewrite Ea.
Qed.

End HandlerSpec.

(** ** Properties *)

Section Properties.
Context {U H B : Type} `{HeaderMapLaws H} `{HeaderValues} `{UriOps U}.

(** The body a request is sent with. *)
Definition sent_body (prepared : Request U H B) (max : option Z) : BoxBody B :=
  match max with
  | None => BIncoming (req_body prepared)
  | Some m => BLimited (limited_new (req_body prepared)
                          (saturating_sub m (total_header_size prepared)))
  end.

Lemma limit_request_inl (p : Request U H B) max req :
  limit_request p max = inl req ->
  req = mkRequest (req_method p) (req_uri p) (req_headers p) (sent_body p max).
Proof.
  unfold limit_request, sent_body, apply_request_byte_limit. intros E.
  destruct max as [m|]; [|by simplify_eq].
  destruct (declared_length (req_headers p)) as [cl|]; [|by simplify_eq].
  destruct (m <? _); by simplify_eq.
Qed.

(** The content length a request declares is early refused, or fits. *)
Lemma limit_request_inr (p : Request U H B) max early :
  limit_request p max = inr early ->
  exists m cl, max = Some m /\ declared_length (req_headers p) = Some cl /\
    m < wrap_u64 (total_header_size p + cl) /\
    early = create_error_response PAYLOAD_TOO_LARGE (limit_message cl m).
Proof.
  unfold limit_request, apply_request_byte_limit. intros E.
  destruct max as [m|]; [|done].
  destruct (declared_length (req_headers p)) as [cl|]; [|done].
  destruct (m <? _) eqn:F; [|done]. bools. simplify_eq. eauto 10.
Qed.

(** C7: complete mediation.  A plain HTTP request reaches the upstream client
    at most once, and only as the last thing the handler does, after the rule
    engine was asked about this very method, URL and client address and
    answered Allow.  What is sent goes to the judged URL with the judged
    method; its Host is the authority of that URL, it carries this proxy's
    nonce after those it came with, no proxy header, and otherwise the headers
    it came with; and its body is the client's, limited to what the rule left. *)
Theorem http_request_mediated {Σ E} `{RuleEngineTrait Σ E}
    (r : Request U H B) (ctx : ProxyContext E) (remote : SocketAddr) :
  wp (handle_http_request r ctx remote) (fun t '(resp, ctx') =>
    omap sent t = [] \/
    exists t1 x u req a,
      t = (eval_event <$> t1) ++ [client_event req a] /\
      is_loop (req_headers r) (loop_nonce ctx) = false /\
      judged r ctx remote t1 x (rule_engine ctx') /\ action x = Allow /\
      uri_parse (full_url r) = Ok u /\ req_uri req = u /\ req_method req = req_method r /\
      (forall n, hm_get_all (req_headers req) n =
                 forwarded_values (req_headers r) u (loop_nonce ctx) n) /\
      exists hs, req_body req = match max_tx_bytes x with
                                | None => BIncoming (req_body r)
                                | Some m => BLimited (limited_new (req_body r) (saturating_sub m hs))
                                end).
Proof.
  eapply wp_mono; [|apply handle_http_request_spec].
  intros t [resp ctx'] [_ Ho]. destruct (is_loop _ _) eqn:El; [left; by destruct Ho as [-> _]|].
  destruct Ho as (t1 & x & Hj & Ho). destruct (action x) eqn:Ea;
    [|left; destruct Ho as [-> _]; apply sent_evals].
  destruct Ho as (t2 & -> & Ho). unfold permitted_outcome in Ho.
  rewrite omap_app, sent_evals. simpl.
  destruct (uri_parse (full_url r)) as [u|err] eqn:Eu; [|left; by destruct Ho as [-> _]].
  destruct (limit_request _ _) as [req|early] eqn:Eq; [|left; by destruct Ho as [-> _]].
  right. destruct Ho as (a & -> & _). exists t1, x, u, req, a.
  apply limit_request_inl in Eq. subst req. simpl.
  do 6 (split; [done|]). split; [done|]. split; [intros n; apply prepare_values|].
  eexists. unfold sent_body. by destruct (max_tx_bytes x).
Qed.

(** The header every response of the proxy carries, and the declared length of
    its own answers. *)
Definition marked (resp : Response H (BoxBody B)) : Prop :=
  hm_get_all (resp_headers resp) HTTPJAIL_HEADER = [HTTPJAIL_HEADER_VALUE].

Lemma error_response_headers status msg :
  let resp := create_error_response (B := B) status msg in
  hm_get_all (resp_headers resp) HTTPJAIL_HEADER = [HTTPJAIL_HEADER_VALUE] /\
  hm_get_all (resp_headers resp) "Content-Length" = [dec (len msg)] /\
  hm_get_all (resp_headers resp) "Content-Type" = ["text/plain"].
Proof. simpl. by rewrite !get_all_append, !get_all_empty. Qed.

Lemma mark_response_marked resp : marked (mark_response resp).
Proof. unfold marked, mark_response. simpl. by rewrite get_all_insert. Qed.

(** A response the proxy makes itself. *)
Definition own_answer (status : Z) (message : string) (resp : Response H (BoxBody B)) : Prop :=
  resp_status resp = status /\ resp_body resp = BFull message /\
  hm_get_all (resp_headers resp) "Content-Type" = ["text/plain"] /\
  hm_get_all (resp_headers resp) "Content-Length" = [dec (len message)].

(** The response of the upstream server: its status, its body, and its headers
    but for the mark. *)
Definition passed_on (upstream : Response H B) (resp : Response H (BoxBody B)) : Prop :=
  resp_status resp = resp_status upstream /\ resp_body resp = BIncoming (resp_body upstream) /\
  forall n, same_name "HTTPJAIL" n = false ->
    hm_get_all (resp_headers resp) n = hm_get_all (resp_headers upstream) n.

(** How a permitted request may end, with the operations on the client. *)
Inductive permitted_answer (r : Request U H B) (max : option Z) (resp : Response H (BoxBody B))
    : list (Request U H (BoxBody B) * Result (Response H B) Error) -> Prop :=
| BadUrl e : uri_parse (full_url r) = Err e -> own_answer 502 "Proxy error" resp ->
    permitted_answer r max resp []
| TooLarge m cl : max = Some m -> declared_length (req_headers r) = Some cl ->
    own_answer 413 ("Request body size (" +:+ dec cl +:+ " bytes) exceeds maximum allowed (" +:+
                    dec m +:+ " bytes)") resp ->
    permitted_answer r max resp []
| UpstreamFailed req e : own_answer 502 "Proxy error" resp -> permitted_answer r max resp [(req, Err e)]
| UpstreamAnswered req up : passed_on up resp -> permitted_answer r max resp [(req, Ok up)].

Lemma own_answer_error status msg : own_answer status msg (create_error_response status msg).
Proof. destruct (error_response_headers status msg) as (_ & Hl & Ht). by split_and!. Qed.

Lemma passed_on_mark up : passed_on up (mark_response up).
Proof. split; [done|]. split; [done|]. intros n Hn. simpl. rewrite get_all_insert.
  unfold HTTPJAIL_HEADER. by rewrite Hn. Qed.

Lemma declared_length_prepared (r : Request U H B) u nonce :
  declared_length (req_headers (prepare_upstream_request r u nonce)) = declared_length (req_headers r).
Proof.
  unfold declared_length, hm_get. rewrite prepare_values. unfold forwarded_values.
  by destruct (uri_authority u).
Qed.

Lemma permitted_outcome_answers (r : Request U H B) {Σ} nonce max
    (t2 : list (event (HandlerSig (U := U) (H := H) (B := B) (Σ := Σ)))) resp :
  permitted_outcome (fun u => prepare_upstream_request r u nonce) (full_url r) max t2 resp ->
  marked resp /\ exists calls, t2 = ((fun '(req, a) => client_event req a) <$> calls) /\
    permitted_answer r max resp calls.
Proof.
  unfold permitted_outcome. intros Ho. destruct (uri_parse (full_url r)) as [u|err] eqn:Eu.
  2: { destruct Ho as [-> ->]. split; [apply error_response_headers|]. exists []. split; [done|].
       eapply BadUrl; [exact Eu|apply own_answer_error]. }
  destruct (limit_request _ _) as [req|early] eqn:Eq.
  - destruct Ho as (a & -> & ->). split; [destruct a; [apply mark_response_marked|apply error_response_headers]|].
    exists [(req, a)]. split; [done|].
    destruct a; [apply UpstreamAnswered, passed_on_mark|apply UpstreamFailed, own_answer_error].
  - destruct Ho as [-> ->]. apply limit_request_inr in Eq as (m & cl & Hm & Hcl & _ & ->).
    rewrite declared_length_prepared in Hcl. split; [apply error_response_headers|].
    exists []. split; [done|]. eapply TooLarge; [exact Hm|exact Hcl|apply own_answer_error].
Qed.


(** *** Loops *)

Lemma is_loop_member h nonce :
  is_loop h nonce = true <->
  exists v, v ∈ hm_get_all h HTTPJAIL_LOOP_DETECTION_HEADER /\ hv_to_str v = Some nonce.
Proof.
  unfold is_loop. rewrite existsb_exists. split.
  - intros (v & Hv & Hn). exists v. apply list_elem_of_In in Hv. split; [done|].
    destruct (hv_to_str v) as [n|]; [|done]. bools. by subst.
  - intros (v & Hv & Hn). exists v. apply list_elem_of_In in Hv. split; [done|].
    rewrite Hn. apply String.eqb_refl.
Qed.

Lemma forwarded_loop_values h u nonce :
  forwarded_values h u nonce HTTPJAIL_LOOP_DETECTION_HEADER =
  hm_get_all h HTTPJAIL_LOOP_DETECTION_HEADER ++ [default "invalid" (hv_from_str nonce)].
Proof. unfold forwarded_values. by destruct (uri_authority u). Qed.

End Properties.

Lemma hex_digit_visible d : 0 <= d < 16 -> visible (hex_digit d) = true.
Proof.
  intros Hd. assert (Hall : forallb (fun n => visible (hex_digit (Z.of_nat n))) (seq 0 16) = true)
    by reflexivity.
  rewrite forallb_forall in Hall. specialize (Hall (Z.to_nat d)). rewrite Z2Nat.id in Hall by lia.
  apply Hall, in_seq. lia.
Qed.

Lemma hex_go_visible fuel n acc :
  0 <= n -> all_chars visible acc = true -> all_chars visible (hex_go fuel n acc) = true.
Proof.
  revert n acc. induction fuel as [|fuel IH]; intros n acc Hn Hacc; [done|].
  assert (Hd : visible (hex_digit (n mod 16)) = true)
    by (apply hex_digit_visible, Z.mod_pos_bound; lia).
  simpl. destruct (n <? 16).
  - simpl. by rewrite Hd, Hacc.
  - apply IH; [apply Z.div_pos; lia|]. simpl. by rewrite Hd, Hacc.
Qed.

(** The nonce [ProxyServer::new] draws. *)
Definition make_nonce (random_u64 : Z) : string := hex_u64 random_u64.

Lemma nonce_visible n : 0 <= n -> all_chars visible (make_nonce n) = true.
Proof. intros Hn. by apply hex_go_visible. Qed.

Section Loops.
Context {U H B : Type} `{HeaderMapLaws H} `{HeaderValuesLaws} `{UriOps U}.

(** C23: no request goes round twice.  Whatever this proxy sends upstream, if
    it comes back to it through any proxies that keep or extend the loop
    header, is answered 403 at once: the engine is not asked and nothing is
    sent.  An instance with another nonce takes the forwarded request for a
    loop only if it would have taken the original for one. *)
Theorem forwarded_request_not_forwarded_again {Σ E} `{RuleEngineTrait Σ E}
    (r : Request U H B) (ctx : ProxyContext E) (remote : SocketAddr) (n : Z)
    (Hn : 0 <= n) (Hnonce : loop_nonce ctx = make_nonce n) :
  wp (handle_http_request r ctx remote) (fun t '(_, ctx') => forall req, req ∈ omap sent t ->
    (forall (r2 : Request U H B) remote2,
       (forall v, v ∈ hm_get_all (req_headers req) HTTPJAIL_LOOP_DETECTION_HEADER ->
          v ∈ hm_get_all (req_headers r2) HTTPJAIL_LOOP_DETECTION_HEADER) ->
       handle_http_request r2 ctx' remote2 =
         Ret (create_forbidden_response (Some loop_message), ctx')) /\
    (forall n2, 0 <= n2 -> make_nonce n2 <> loop_nonce ctx ->
       is_loop (req_headers req) (make_nonce n2) = is_loop (req_headers r) (make_nonce n2))).
Proof.
  pose proof (nonce_visible n Hn) as Hvis. rewrite <- Hnonce in Hvis.
  pose proof (from_str_visible _ Hvis) as Hfrom. pose proof (to_str_visible _ Hvis) as Hto.
  eapply wp_mono; [|apply handle_http_request_spec].
  intros t [resp ctx'] [Hctx Ho] req Hreq.
  assert (Hvals : hm_get_all (req_headers req) HTTPJAIL_LOOP_DETECTION_HEADER =
    hm_get_all (req_headers r) HTTPJAIL_LOOP_DETECTION_HEADER ++ [loop_nonce ctx]).
  { destruct (is_loop _ _); [by destruct Ho as [-> _]; apply not_elem_of_nil in Hreq|].
    destruct Ho as (t1 & x & _ & Ho).
    destruct (action x); [|destruct Ho as [-> _]; rewrite sent_evals in Hreq;
      by apply not_elem_of_nil in Hreq].
    destruct Ho as (t2 & -> & Ho). rewrite omap_app, sent_evals in Hreq. simpl in Hreq.
    unfold permitted_outcome in Ho. destruct (uri_parse (full_url r)) as [u|];
      [|by destruct Ho as [-> _]; apply not_elem_of_nil in Hreq].
    destruct (limit_request _ _) as [q|] eqn:Eq;
      [|by destruct Ho as [-> _]; apply not_elem_of_nil in Hreq].
    destruct Ho as (a & -> & _). apply limit_request_inl in Eq. csimpl in Hreq.
    apply list_elem_of_singleton in Hreq. subst req q. cbn [req_headers].
    by rewrite prepare_values, forwarded_loop_values, Hfrom. }
  split.
  - intros r2 remote2 Hkeep. unfold handle_http_request.
    assert (is_loop (req_headers r2) (loop_nonce ctx') = true) as ->; [|done].
    apply is_loop_member. exists (loop_nonce ctx). rewrite Hctx. split; [|done].
    apply Hkeep. rewrite Hvals. apply elem_of_app. right. by apply list_elem_of_singleton.
  - intros n2 Hn2 Hne. unfold is_loop. rewrite Hvals, existsb_app. simpl. rewrite Hto.
    destruct (String.eqb (loop_nonce ctx) (make_nonce n2)) eqn:Ee; bools; [congruence|].
    by rewrite !orb_false_r.
Qed.

End Loops.

(** *** Byte limits *)

Section ByteLimits.
Context {U H B T E : Type} `{HeaderMap H} `{HeaderValues} `{UriOps U} `{Body T E B}.

Lemma total_header_size_u64 (p : Request U H B) : is_u64 (total_header_size p).
Proof.
  unfold total_header_size, wrap_u64, is_u64, u64_max.
  pose proof (Z.mod_pos_bound (wrap_u64 (request_line_size p + headers_size (req_headers p)) + 2)
    (2 ^ 64) ltac:(lia)). unfold wrap_u64 in *. lia.
Qed.

Lemma declared_length_bounds h cl : declared_length h = Some cl -> 0 <= cl <= u64_max.
Proof.
  unfold declared_length. intros Hcl. destruct (hm_get _ _) as [v|]; simpl in Hcl; [|done].
  destruct (hv_to_str v) as [s|]; simpl in Hcl; [|done].
  by apply (parse_uint_bounds u64_max) in Hcl; [|unfold u64_max; lia].
Qed.

Lemma frames_fit_mono m m' (b : B) :
  m' <= m -> frames_fit (T := T) (E := E) m b -> frames_fit (T := T) (E := E) m' b.
Proof. intros Hm Hf n. eapply Forall_impl; [apply Hf|]. intros q Hq. simpl in Hq. lia. Qed.

Lemma limited_data (b : B) m ts n :
  is_u64 m -> 0 <= ts -> frames_fit (T := T) (E := E) m b ->
  data_of (T := T) (E := E) n (limited_new b (saturating_sub m ts)) =
  take (Z.to_nat (saturating_sub m ts)) (data_of n b).
Proof.
  intros Hm Hts Hf. destruct (limited_polls (limited_new b (saturating_sub m ts)) n) as (Hd & _ & _);
    [simpl; ulia|simpl; ulia|simpl|simpl in Hd; by rewrite Z.sub_0_r in Hd].
  apply (frames_fit_mono m); [ulia|done].
Qed.

(** A header's line. *)
Definition header_line (nv : string * string) : string :=
  nv.1 +:+ ": " +:+ nv.2 +:+ CRLF.

(** The text before the body: the request line, a line for each header, and the
    empty line. *)
Definition head_text (p : Request U H B) : string :=
  req_method p +:+ " " +:+ default "/" (uri_path_and_query (req_uri p)) +:+ " HTTP/1.1" +:+ CRLF +:+
  concat_strings (header_line <$> hm_iter (req_headers p)) +:+
  CRLF.

Lemma headers_size_text l acc :
  let text := concat_strings (header_line <$> l) in
  0 <= acc -> acc + len text <= u64_max ->
  foldl (fun acc '(name, value) => wrap_u64 (acc + (len name + 2 + len value + 2))) acc l = acc + len text.
Proof.
  cbn zeta. revert acc. induction l as [|[n v] l IH]; intros acc Ha Hl; [symmetry; apply Z.add_0_r|].
  cbn [fmap list_fmap foldl] in *.
  rewrite join_nil_cons in Hl |- *. unfold header_line at 1 in Hl. unfold header_line at 1.
  cbn [fst snd] in *. rewrite !len_append in Hl |- *. change (len ": ") with 2 in *.
  change (len CRLF) with 2 in *. pose proof (len_nonneg n). pose proof (len_nonneg v).
  set (rest := concat_strings _) in *. pose proof (len_nonneg rest).
  assert (wrap_u64 (acc + (len n + 2 + len v + 2)) = acc + (len n + 2 + len v + 2)) as ->
    by (unfold wrap_u64; apply Z.mod_small; ulia).
  rewrite IH; subst rest; [lia|lia|lia].
Qed.

(** The code's sum is the length of that text, as long as it fits in 64 bits. *)
Lemma total_header_size_text (p : Request U H B) :
  len (head_text p) <= u64_max -> total_header_size p = len (head_text p).
Proof.
  intros Hl. unfold total_header_size, headers_size.
  assert (Hsum : len (head_text p) = request_line_size p + len (concat_strings
    (header_line <$> hm_iter (req_headers p))) + 2).
  { unfold head_text, request_line_size. by rewrite !len_append, <- !Z.add_assoc. }
  pose proof (len_nonneg (concat_strings
    (header_line <$> hm_iter (req_headers p)))).
  assert (0 <= request_line_size p) by apply len_nonneg.
  rewrite (headers_size_text (hm_iter (req_headers p)) 0) by (cbn zeta; lia).
  rewrite Z.add_0_l. set (c := len (concat_strings _)) in *. unfold wrap_u64.
  rewrite (Z.mod_small (request_line_size p + c)) by ulia. rewrite Z.mod_small by ulia. by rewrite Hsum.
Qed.

(** What a limited body [l] promises of the request it is sent with: the head
    and the body stay within [m] (the body is empty when the head alone is over
    it), the body is a prefix of the client's, and a body as long as declared,
    or shorter, is whole. *)
Definition keeps_limit (p : Request U H B) (m : Z) (l : LimitedBody B) : Prop :=
  forall n,
    len (head_text p) + blen (data_of (T := T) (E := E) n l) <= Z.max m (len (head_text p)) /\
    data_of n l `prefix_of` data_of n (req_body p) /\
    forall cl, declared_length (req_headers p) = Some cl -> len (head_text p) + cl <= u64_max ->
      blen (data_of n (req_body p)) <= cl -> data_of n l = data_of n (req_body p).

Lemma within_keeps_limit (p : Request U H B) m :
  len (head_text p) <= u64_max -> is_u64 m -> frames_fit (T := T) (E := E) m (req_body p) ->
  (forall cl, declared_length (req_headers p) = Some cl -> len (head_text p) + cl <= u64_max ->
     len (head_text p) + cl <= m) ->
  keeps_limit p m (limited_new (req_body p) (saturating_sub m (total_header_size p))).
Proof.
  intros Hhead Hm Hf Hfits n. rewrite total_header_size_text by done.
  pose proof (len_nonneg (head_text p)) as Hts.
  rewrite limited_data by done. split; [|split; [apply prefix_take|]].
  - unfold blen. rewrite length_take. ulia.
  - intros cl Hcl Hov Hb. apply take_ge. specialize (Hfits cl Hcl Hov). unfold blen in Hb. ulia.
Qed.

(** C14: a byte limit [m] keeps its promise.  Count as head the text a reader
    of the message sees before the body: request line, a line per header, empty
    line.  A request that is sent is the one prepared but for its body, which
    is the client's, cut so that head and body together have at most [m]
    bytes, unless the head alone is over it, and then the body is empty.  A
    declared length that fits with the head is never cut, and one that does not
    fit (its sum with the head staying in 64 bits) is refused with a 413 before
    anything is sent. *)
Theorem byte_limit_enforced (p : Request U H B) (m : Z)
    (Hm : is_u64 m) (Hhead : len (head_text p) <= u64_max)
    (Hfit : frames_fit (T := T) (E := E) m (req_body p)) :
  match limit_request p (Some m) with
  | inl req => exists l, keeps_limit p m l /\
      req = mkRequest (req_method p) (req_uri p) (req_headers p) (BLimited l)
  | inr early => resp_status early = 413 /\
      exists cl, declared_length (req_headers p) = Some cl /\ m < len (head_text p) + cl
  end /\
  (forall cl, declared_length (req_headers p) = Some cl -> len (head_text p) + cl <= u64_max ->
     m < len (head_text p) + cl ->
     exists early, limit_request p (Some m) = inr early /\ resp_status early = 413).
Proof.
  pose proof (len_nonneg (head_text p)) as Hts.
  pose proof (within_keeps_limit p m Hhead Hm Hfit) as Hkeep.
  unfold limit_request, apply_request_byte_limit in *. rewrite total_header_size_text in * by done.
  set (ts := len (head_text p)) in *.
  destruct (declared_length (req_headers p)) as [cl|] eqn:Ecl;
    [|split; [eexists; split; [by apply Hkeep|reflexivity]|done]].
  pose proof (declared_length_bounds _ _ Ecl) as Hcl.
  assert (Hsmall : ts + cl <= u64_max -> wrap_u64 (ts + cl) = ts + cl)
    by (intros Hs; unfold wrap_u64; apply Z.mod_small; ulia).
  destruct (m <? wrap_u64 (ts + cl)) eqn:F; bools.
  - split; [split; [done|]|]; [exists cl; split; [done|]|by eauto].
    destruct (decide (ts + cl <= u64_max)) as [Hs|Hs]; [by rewrite Hsmall in F|ulia].
  - split; [eexists; split; [apply Hkeep|reflexivity]|].
    + intros cl' [= <-] Hs. rewrite Hsmall in F by done. lia.
    + intros cl' [= <-] Hs Hlt. rewrite Hsmall in F by done. lia.
Qed.

(** The early refusal of an oversized request can be evaded: a declared
    length whose sum with the header size leaves 64 bits is compared after
    wrapping (in a build without overflow checks), so a request that declares
    almost 2^64 bytes is sent, its body limited, instead of being refused. *)
Theorem declared_length_overflow_sent (p : Request U H B) (m cl : Z)
    (Hcl : declared_length (req_headers p) = Some cl)
    (Hover : u64_max < total_header_size p + cl)
    (Hwrapped : total_header_size p + cl - 2 ^ 64 <= m) :
  exists req, limit_request p (Some m) = inl req /\
    req_body req = BLimited (limited_new (req_body p) (saturating_sub m (total_header_size p))).
Proof.
  pose proof (total_header_size_u64 p) as Hts. pose proof (declared_length_bounds _ _ Hcl) as Hb.
  unfold limit_request, apply_request_byte_limit. rewrite Hcl.
  set (ts := total_header_size p) in *.
  assert (wrap_u64 (ts + cl) = ts + cl - 2 ^ 64) as ->.
  { unfold wrap_u64. rewrite <- (Z.mod_small (ts + cl - 2 ^ 64) (2 ^ 64)) by ulia.
    by rewrite Zminus_mod, Z_mod_same_full, Z.sub_0_r, Zmod_mod. }
  destruct (m <? ts + cl - 2 ^ 64) eqn:F; bools; [lia|]. by eexists.
Qed.

End ByteLimits.

(** *** The proxy's own answers *)

(** The length that the proxy's own answers declare is the length of
    their body, in the 403 of a refused CONNECT, written by hand, as in every
    error response; and the fixed 403 is the one without a message. *)
Theorem own_answers_declare_length {H B} `{HeaderMapLaws H} (status : Z) (message : string)
    (ctx : option string)
    (Hlen : len message <= u64_max) (Hctx : len (blocked_message ctx) <= u64_max) :
  (exists l, hm_get (resp_headers (create_error_response (H := H) (B := B) status message))
               "Content-Length" = Some l /\ parse_u64 l = Some (len message) /\
     resp_body (create_error_response (H := H) (B := B) status message) = BFull message) /\
  (exists head l, create_connect_403_response_with_context ctx =
     head +:+ "Content-Length: " +:+ l +:+ CRLF +:+ CRLF +:+ blocked_message ctx /\
     parse_u64 l = Some (len (blocked_message ctx))) /\
  create_connect_403_response_with_context None = create_connect_403_response.
Proof.
  pose proof (len_nonneg message). pose proof (len_nonneg (blocked_message ctx)).
  split; [|split; [|reflexivity]].
  - exists (dec (len message)). unfold hm_get.
    rewrite (proj1 (proj2 (error_response_headers status message))).
    split; [done|]. split; [|done]. by apply parse_uint_dec.
  - exists ("HTTP/1.1 403 Forbidden" +:+ CRLF +:+ "Content-Type: text/plain" +:+ CRLF),
      (dec (len (blocked_message ctx))).
    split; [|by apply parse_uint_dec].
    unfold create_connect_403_response_with_context. by rewrite !append_assoc.
Qed.

(** ** Examples *)

Definition example_request : Request PlainUri assoc (script unit unit) :=
  mkRequest "POST" {| pu_scheme := Some "http"; pu_authority := Some "example.com";
                      pu_path_and_query := Some "/a" |}
    [("host", "evil.example"); ("proxy-authorization", "secret"); ("content-length", "13")]
    hello_script.

(** An engine that permits [http://example.com/...] with 200 bytes and denies the rest. *)
#[export] Instance example_engine : RuleEngineTrait LogSig unit := {|
  evaluate e m url ip :=
    Ret (if starts_with url "http://example.com/"
         then {| action := Allow; context := None; max_tx_bytes := Some 200 |}
         else EvaluationResult.with_context EvaluationResult.deny "no", e);
  engine_name _ := "example";
|}.

Definition example_context : ProxyContext unit :=
  {| rule_engine := Plain tt; loop_nonce := make_nonce 3735928559 |}.

Definition example_peer : SocketAddr := mkSocketAddr (V4 LOCALHOST4) 40000.

Lemma http_request_mediated_witness :
  wp (handle_http_request example_request example_context example_peer) (fun t '(resp, ctx') =>
    omap sent t = [] \/
    exists req, omap sent t = [req] /\ hm_get_all (req_headers req) "Host" = ["example.com"] /\
      hm_get_all (req_headers req) "Proxy-Authorization" = []).
Proof.
  eapply wp_mono; [|apply (http_request_mediated example_request example_context example_peer)].
  intros t [resp ctx'] [Hn|(t1 & x & u & req & a & -> & _ & _ & _ & Hu & _ & _ & Hh & _)]; [by left|].
  right. exists req. rewrite omap_app, sent_evals, !Hh.
  vm_compute in Hu. injection Hu as <-. done.
Defined.


Lemma forwarded_request_not_forwarded_again_witness :
  loop_nonce example_context = "deadbeef" /\
  wp (handle_http_request example_request example_context example_peer) (fun t '(_, ctx') =>
    forall req, req ∈ omap sent t ->
      handle_http_request (mkRequest "GET" (req_uri req) (req_headers req) hello_script) ctx'
        example_peer =
      Ret (create_forbidden_response (Some loop_message), ctx')).
Proof.
  split; [reflexivity|].
  eapply wp_mono; [|apply (forwarded_request_not_forwarded_again example_request example_context
    example_peer 3735928559); [lia|reflexivity]].
  intros t [resp ctx'] Ho req Hreq. by apply (Ho req Hreq).
Defined.

Lemma byte_limit_enforced_witness :
  head_text example_request =
    "POST /a HTTP/1.1" +:+ CRLF +:+ "host: evil.example" +:+ CRLF +:+
    "proxy-authorization: secret" +:+ CRLF +:+ "content-length: 13" +:+ CRLF +:+ CRLF /\
  (exists l, limit_request example_request (Some 102) =
       inl (mkRequest "POST" (req_uri example_request) (req_headers example_request) (BLimited l)) /\
     keeps_limit (T := unit) (E := unit) example_request 102 l) /\
  exists early, limit_request example_request (Some 101) = inr early /\ resp_status early = 413.
Proof.
  split; [reflexivity|]. split.
  - destruct (byte_limit_enforced (T := unit) (E := unit) example_request 102) as [Hr _];
      [done|by vm_compute|apply script_fits; [done|by repeat constructor]|].
    destruct (limit_request example_request (Some 102)) as [req|early] eqn:E; [|by vm_compute in E].
    destruct Hr as (l & Hk & ->). by exists l.
  - apply (byte_limit_enforced (T := unit) (E := unit) example_request 101) with (cl := 13);
      [done|by vm_compute|apply script_fits; [done|by repeat constructor]|done| |]; by vm_compute.
Defined.

Lemma declared_length_overflow_sent_witness :
  let p := mkRequest "POST" (req_uri example_request) [("content-length", "18446744073709551615")]
             hello_script in
  exists req, limit_request p (Some 100) = inl req /\
    req_body req = BLimited (limited_new hello_script (saturating_sub 100 (total_header_size p))).
Proof.
  apply (declared_length_overflow_sent
    (mkRequest "POST" (req_uri example_request) [("content-length", "18446744073709551615")]
       hello_script) 100 18446744073709551615); by vm_compute.
Defined.

Lemma own_answers_declare_length_witness :
  exists l, hm_get (resp_headers (create_error_response (H := assoc) (B := unit) 502 "Proxy error"))
              "Content-Length" = Some l /\ parse_u64 l = Some 11.
Proof.
  destruct (own_answers_declare_length (H := assoc) (B := unit) 502 "Proxy error" (Some "x"))
    as [(l & Hl & Hp & _) _]; [by vm_compute|by vm_compute|].
  exists l. by split.
Defined.
