(* ===== verification/ProxyTls.v ===== *)
(** * The HTTPS side of the proxy ([src/proxy_tls.rs])

    A connection is recognised by its first bytes (TLS, CONNECT or plain HTTP),
    decrypted with a certificate made for its host, and served request by
    request.  The program of a connection is over the handlers' operations and
    the socket's ([TlsSig]). *)

From S2P Require Import Prelude Effects Http LimitedBody Rules RuleCommon ShellRules Net Proxy.
From Stdlib Require Import Ascii.

(** Timeouts, in seconds. *)
Definition PROTOCOL_DETECT_TIMEOUT : Z := 5.
Definition CONNECT_READ_TIMEOUT : Z := 10.
Definition TLS_HANDSHAKE_TIMEOUT : Z := 10.
Definition WRITE_TIMEOUT : Z := 5.
Definition CLIENT_HELLO_TIMEOUT : Z := 5.

(** ** The TLS parser *)

Inductive TlsMessage : Type := ClientHello (ext : option string) | OtherMessage.
Inductive SNIType : Type := HostName | OtherName.
Inductive TlsExtension : Type := SNI (sni_list : list (SNIType * string)) | OtherExtension.

Class TlsParser := {
  parse_tls_plaintext : string -> option (list TlsMessage);
  parse_tls_extensions : string -> option (list TlsExtension);
}.

(** ** The socket *)

Inductive tls_op (U H B : Type) : Type :=
| Peek (size : Z) (timeout_secs : Z)
| ConnReadLine (timeout_nanos : Z)
| ElapsedNanos                               (** [start_time.elapsed()] *)
| ConnWriteFlush (bytes : string) (timeout_secs : Z)
| GetCertForHost (host : string)
| WithSingleCert
| AcceptTls (timeout_secs : Z)
| NextRequest                                (** hyper's server loop reads a request *)
| SendResponse (resp : Response H (BoxBody B)).
Arguments Peek {U H B}.
Arguments ConnReadLine {U H B}.
Arguments ElapsedNanos {U H B}.
Arguments ConnWriteFlush {U H B}.
Arguments GetCertForHost {U H B}.
Arguments WithSingleCert {U H B}.
Arguments AcceptTls {U H B}.
Arguments NextRequest {U H B}.
Arguments SendResponse {U H B}.

Definition TlsSig (U H B : Type) : Sig :=
  {| op := tls_op U H B;
     ans o := match o with
              | Peek _ _ => Result (Result string Error) Elapsed
              | ConnReadLine _ => Result (Result string Error) Elapsed
              | ElapsedNanos => Z
              | ConnWriteFlush _ _ => Result (Result unit Error) Elapsed
              | GetCertForHost _ => Result unit Error
              | WithSingleCert => Result unit Error
              | AcceptTls _ => Result (Result unit Error) Elapsed
              | NextRequest => Result (option (Request U H B)) Error
              | SendResponse _ => unit
              end |}.

(** How a connection ended; [Unfinished] when the bound on the model's loops
    was met first. *)
Inductive ConnEnd : Type :=
| Closed
| Failed (e : Error)
| Unfinished.

Definition nth_byte (i : nat) (s : string) : ascii := default Ascii.zero (String.get i s).

(** The first piece of [split(':')]: what comes before the first colon. *)
Definition connect_host (target : string) : string :=
  if contains_char ":"%char target then default "unknown" (head (split_on ":"%char target))
  else target.

Section Sni.
Context `{TlsParser}.

Fixpoint first_hostname (l : list (SNIType * string)) : option string :=
  match l with
  | [] => None
  | (HostName, data) :: l' =>
      match from_utf8 data with Some hostname => Some hostname | None => first_hostname l' end
  | (OtherName, _) :: l' => first_hostname l'
  end.

Fixpoint first_sni (exts : list TlsExtension) : option string :=
  match exts with
  | [] => None
  | SNI l :: exts' =>
      match first_hostname l with Some hostname => Some hostname | None => first_sni exts' end
  | OtherExtension :: exts' => first_sni exts'
  end.

(** The hostname in the peeked bytes of a ClientHello. *)
Definition sni_of (buf : string) : option string :=
  if len buf <? 5 then None
  else match parse_tls_plaintext buf with
       | Some (ClientHello (Some ext_data) :: _) => exts ← parse_tls_extensions ext_data; first_sni exts
       | _ => None
       end.

End Sni.

Section Tls.
Context {U H B : Type} `{HeaderMap H} `{HeaderValues} `{UriOps U} `{TlsParser}.
Context {Σ : Sig} {E : Type} `{RuleEngineTrait Σ E}.

Abbreviation HSig := (HandlerSig (U := U) (H := H) (B := B) (Σ := Σ)).

Definition ConnSig : Sig := sig_sum HSig (TlsSig U H B).

Definition conn_do (o : op (TlsSig U H B)) : prog ConnSig (ans (TlsSig U H B) o) :=
  lift_r (@perform (TlsSig U H B) o).

(** ** Decrypted requests *)

Definition https_url (host : string) (r : Request U H B) : string :=
  "https://" +:+ host +:+ default "/" (uri_path_and_query (req_uri r)).

Definition proxy_https_request (r : Request U H B) (host : string) (max_tx_bytes : option Z)
    (loop_nonce : string) : prog (ClientSig U H B) (Result (Response H (BoxBody B)) Error) :=
  let target_url := https_url host r in
  match uri_parse target_url with
  | Err e => Ret (Err e)
  | Ok target_uri =>
      let prepared_req := prepare_upstream_request r target_uri loop_nonce in
      match limit_request prepared_req max_tx_bytes with
      | inl new_req => send_upstream new_req
      | inr resp => Ret (Ok resp)
      end
  end.

Definition handle_decrypted_https_request (r : Request U H B) (ctx : ProxyContext E)
    (host : string) (remote : SocketAddr)
    : prog HSig (Response H (BoxBody B) * ProxyContext E) :=
  let url := https_url host r in
  let requester_ip := show_ip (addr_ip remote) in
  '(evaluation, e) ⇐ lift_l
      (evaluate_with_context_and_ip (rule_engine ctx) (req_method r) url requester_ip);
  let ctx := {| rule_engine := e; loop_nonce := loop_nonce ctx |} in
  match action evaluation with
  | Allow =>
      resp ⇐ lift_r (proxy_https_request r host (max_tx_bytes evaluation) (loop_nonce ctx));
      match resp with
      | Ok resp => Ret (resp, ctx)
      | Err _ => Ret (create_error_response BAD_GATEWAY "Proxy error", ctx)
      end
  | Deny => Ret (create_forbidden_response (context evaluation), ctx)
  end.

(** ** Serving a connection

    [serve_connection] calls the service for one request after the other. *)

Fixpoint serve_connection (n : nat)
    (service : Request U H B -> ProxyContext E -> prog HSig (Response H (BoxBody B) * ProxyContext E))
    (ctx : ProxyContext E) : prog ConnSig (ConnEnd * ProxyContext E) :=
  match n with
  | O => Ret (Unfinished, ctx)
  | S n' =>
      next ⇐ conn_do NextRequest;
      match next with
      | Ok (Some req) =>
          '(resp, ctx) ⇐ lift_l (service req ctx);
          _ ⇐ conn_do (SendResponse resp);
          serve_connection n' service ctx
      | Ok None => Ret (Closed, ctx)
      | Err e => Ret (Failed e, ctx)
      end
  end.

Definition handle_plain_http (n : nat) (ctx : ProxyContext E) (remote : SocketAddr)
    : prog ConnSig (ConnEnd * ProxyContext E) :=
  serve_connection n (fun req ctx => handle_http_request req ctx remote) ctx.

(** [proxy.rs]: the same, on the HTTP port. *)
Definition handle_http_connection := handle_plain_http.

(** The handshake both ways of TLS share. *)
Definition tls_handshake (n : nat) (host : string) (ctx : ProxyContext E) (remote : SocketAddr)
    : prog ConnSig (ConnEnd * ProxyContext E) :=
  cert ⇐ conn_do (GetCertForHost host);
  match cert with
  | Err e =>
      Ret (Failed (Msg ("Failed to get certificate for " +:+ host +:+ ": " +:+ error_to_string e)), ctx)
  | Ok _ =>
      config ⇐ conn_do WithSingleCert;
      match config with
      | Err e => Ret (Failed (Msg ("Failed to create TLS config: " +:+ error_to_string e)), ctx)
      | Ok _ =>
          accepted ⇐ conn_do (AcceptTls TLS_HANDSHAKE_TIMEOUT);
          match accepted with
          | Ok (Ok _) =>
              serve_connection n
                (fun req ctx => handle_decrypted_https_request req ctx host remote) ctx
          | Ok (Err e) => Ret (Failed e, ctx)
          | Err _ => Ret (Failed (Msg "TLS handshake timeout"), ctx)
          end
      end
  end.

Definition perform_tls_interception := tls_handshake.

Definition extract_sni_from_stream : prog ConnSig (option string) :=
  peeked ⇐ conn_do (Peek 2048 CLIENT_HELLO_TIMEOUT);
  match peeked with
  | Ok (Ok buf) => Ret (sni_of buf)
  | Ok (Err _) => Ret None
  | Err _ => Ret None
  end.

Definition handle_transparent_tls (n : nat) (ctx : ProxyContext E) (remote : SocketAddr)
    : prog ConnSig (ConnEnd * ProxyContext E) :=
  sni ⇐ extract_sni_from_stream;
  tls_handshake n (default "example.com" sni) ctx remote.

(** ** CONNECT *)

Inductive HeadersEnd : Type := HeadersRead (headers : list string) | HeadersTimeout | HeadersUnfinished.

Definition NANOS : Z := 1000000000.

Fixpoint read_connect_headers (fuel : nat) (headers : list string) : prog (TlsSig U H B) HeadersEnd :=
  match fuel with
  | O => Ret HeadersUnfinished
  | S fuel' =>
      elapsed ⇐ perform (Σ := TlsSig U H B) ElapsedNanos;
      if CONNECT_READ_TIMEOUT * NANOS <? elapsed then Ret HeadersTimeout
      else
        elapsed ⇐ perform (Σ := TlsSig U H B) ElapsedNanos;
        let remaining_time := saturating_sub (CONNECT_READ_TIMEOUT * NANOS) elapsed in
        line ⇐ perform (Σ := TlsSig U H B) (ConnReadLine remaining_time);
        match line with
        | Ok (Ok line) =>
            if is_empty line then Ret (HeadersRead headers)
            else if String.eqb line CRLF || String.eqb line LF then Ret (HeadersRead headers)
            else read_connect_headers fuel' (headers ++ [line])
        | Ok (Err _) => Ret (HeadersRead headers)
        | Err _ => Ret (HeadersRead headers)
        end
  end.

Definition CONNECT_ESTABLISHED : string :=
  "HTTP/1.1 200 Connection Established" +:+ CRLF +:+ CRLF.

(** The part of [handle_connect_tunnel] after the headers. *)
Definition connect_decide (n : nat) (target : string) (ctx : ProxyContext E) (remote : SocketAddr)
    : prog ConnSig (ConnEnd * ProxyContext E) :=
  let host := connect_host target in
  let full_url := "https://" +:+ target in
  let requester_ip := show_ip (addr_ip remote) in
  '(evaluation, e) ⇐ lift_l (lift_l
      (evaluate_with_context_and_ip (rule_engine ctx) GET full_url requester_ip));
  let ctx := {| rule_engine := e; loop_nonce := loop_nonce ctx |} in
  match action evaluation with
  | Allow =>
      written ⇐ conn_do (ConnWriteFlush CONNECT_ESTABLISHED WRITE_TIMEOUT);
      match written with
      | Ok (Ok _) => perform_tls_interception n host ctx remote
      | Ok (Err e) => Ret (Failed e, ctx)
      | Err _ => Ret (Failed (Msg "Timeout writing CONNECT response"), ctx)
      end
  | Deny =>
      _ ⇐ conn_do (ConnWriteFlush (create_connect_403_response_with_context (context evaluation))
                     WRITE_TIMEOUT);
      Ret (Closed, ctx)
  end.

Definition handle_connect_tunnel (n : nat) (ctx : ProxyContext E) (remote : SocketAddr)
    : prog ConnSig (ConnEnd * ProxyContext E) :=
  read_result ⇐ conn_do (ConnReadLine (CONNECT_READ_TIMEOUT * NANOS));
  match read_result with
  | Ok (Ok first_line) =>
      if is_empty first_line then Ret (Closed, ctx)
      else match split_whitespace first_line with
           | _ :: target :: _ =>
               headers ⇐ lift_r (read_connect_headers n [first_line]);
               match headers with
               | HeadersRead _ => connect_decide n target ctx remote
               | HeadersTimeout => Ret (Closed, ctx)
               | HeadersUnfinished => Ret (Unfinished, ctx)
               end
           | _ => Ret (Closed, ctx)
           end
  | Ok (Err _) => Ret (Closed, ctx)
  | Err _ => Ret (Closed, ctx)
  end.

(** ** Protocol detection *)

Inductive Protocol : Type := TransparentTls | Connect | PlainHttp | Unknown.

Definition zeros (n : nat) : string := concat_strings (replicate n (byte 0)).

(** The six-byte buffer of the source: what was peeked, then zeros. *)
Definition peek_buffer (peeked : string) : string := peeked +:+ zeros (6 - String.length peeked).

Definition detect_protocol (peeked : string) : Protocol :=
  let peek_buf := peek_buffer peeked in
  let b0 := nth_byte 0 peek_buf in
  let b1 := nth_byte 1 peek_buf in
  if byte_eq 22 b0 && (1 <? len peeked) && (byte_eq 3 b1 || byte_eq 2 b1) then TransparentTls
  else if byte_in 65 90 b0 then
    if starts_with (from_utf8_lossy peek_buf) "CONNEC" then Connect else PlainHttp
  else Unknown.

Definition handle_https_connection (n : nat) (ctx : ProxyContext E) (remote : SocketAddr)
    : prog ConnSig (ConnEnd * ProxyContext E) :=
  peeked ⇐ conn_do (Peek 6 PROTOCOL_DETECT_TIMEOUT);
  match peeked with
  | Ok (Ok peeked) =>
      if is_empty peeked then Ret (Closed, ctx)
      else match detect_protocol peeked with
           | TransparentTls => handle_transparent_tls n ctx remote
           | Connect => handle_connect_tunnel n ctx remote
           | PlainHttp => handle_plain_http n ctx remote
           | Unknown => Ret (Closed, ctx)
           end
  | Ok (Err _) => Ret (Closed, ctx)
  | Err _ => Ret (Closed, ctx)
  end.

End Tls.

(** ** Mediation of a whole connection *)

Section Mediation.
Context {U H B : Type} `{HeaderMapLaws H} `{HeaderValues} `{UriOps U} `{TlsParser}.
Context {Σ : Sig} {E : Type} `{RuleEngineTrait Σ E}.

Abbreviation HSig := (HandlerSig (U := U) (H := H) (B := B) (Σ := Σ)).
Abbreviation CSig := (ConnSig (U := U) (H := H) (B := B) (Σ := Σ)).

Definition handler_event (e : event HSig) : event CSig := @Ev CSig (inl (ev_op e)) (ev_ans e).
Definition tls_event (o : tls_op U H B) (a : ans (TlsSig U H B) o) : event CSig :=
  @Ev CSig (inr o) a.

(** The engine the proxy started with, its nonce, and the client's address. *)
Section Started.
Context (e0 : RuleEngine E) (nonce ip : string).

(** One judgement of the rule engine, in whatever state earlier requests left
    it. *)
Definition judgement (m : Method) (url : string) (t : list (event HSig)) (x : EvaluationResult) : Prop :=
  exists (e e' : RuleEngine E) t1, rtc asked e0 e /\
    possible (evaluate_with_context_and_ip e m url ip) t1 (x, e') /\ t = eval_event <$> t1.

(** What serving one request may do.  Nothing; or ask the engine; or ask the
    engine, be told Allow, and then send one request to the URL that was
    judged. *)
Inductive request_trace : list (event HSig) -> Prop :=
| trace_refused : request_trace []
| trace_judged m url t x : judgement m url t x -> request_trace t
| trace_sent m url t x u req a :
    judgement m url t x -> action x = Allow ->
    uri_parse url = Ok u -> req_uri req = u -> req_method req = m ->
    (forall auth, uri_authority u = Some auth ->
       hm_get_all (req_headers req) "host" = [default "unknown" (hv_from_str auth)]) ->
    default "invalid" (hv_from_str nonce) ∈
      hm_get_all (req_headers req) HTTPJAIL_LOOP_DETECTION_HEADER ->
    (forall m, max_tx_bytes x = Some m -> exists l, req_body req = BLimited l /\ max_bytes l <= Z.max 0 m) ->
    request_trace (t ++ [client_event req a]).

(** A connection's trace is made of socket operations and of the traces of its
    requests. *)
Inductive mediated : list (event CSig) -> Prop :=
| mediated_nil : mediated []
| mediated_tls o a t : mediated t -> mediated (tls_event o a :: t)
| mediated_request t1 t :
    request_trace t1 -> mediated t -> mediated ((handler_event <$> t1) ++ t).

#[local] Hint Constructors request_trace mediated : rust.

Lemma mediated_app t t' :
  mediated t -> mediated t' -> mediated (t ++ t').
Proof.
  induction 1 as [|o a t Hm IH|t1 t Hr Hm IH]; intros Ht'; simpl; auto with rust.
  rewrite <- app_assoc. auto with rust.
Qed.

Lemma permitted_trace (r : Request U H B) url max t1 x t2 resp :
  judgement (req_method r) url t1 x -> action x = Allow -> max_tx_bytes x = max ->
  permitted_outcome (fun u => prepare_upstream_request r u nonce) url max t2 resp ->
  request_trace (t1 ++ t2).
Proof.
  intros Hj Ha Hmax Ho. unfold permitted_outcome in Ho.
  destruct (uri_parse url) as [u|err] eqn:Eu;
    [|destruct Ho as [-> _]; rewrite app_nil_r; eauto with rust].
  destruct (limit_request _ _) as [req|early] eqn:Eq;
    [|destruct Ho as [-> _]; rewrite app_nil_r; eauto with rust].
  destruct Ho as (a & -> & _). apply limit_request_inl in Eq.
  subst req. apply (trace_sent (req_method r) url t1 x u); [done..| | |];
    cbn [req_uri req_method req_headers req_body].
  - intros auth Hauth. rewrite prepare_values. unfold forwarded_values. by rewrite Hauth.
  - rewrite prepare_values, forwarded_loop_values. apply elem_of_app. right.
    by apply list_elem_of_singleton.
  - intros m Hm. subst max. unfold sent_body. rewrite Hm. eexists. split; [reflexivity|].
    cbn [max_bytes limited_new].
    pose proof (total_header_size_u64 (prepare_upstream_request r u nonce)). ulia.
Qed.

Lemma judged_judgement m url (e e' : RuleEngine E) t1 x :
  rtc asked e0 e -> possible (evaluate_with_context_and_ip e m url ip) t1 (x, e') ->
  judgement m url (eval_event <$> t1) x /\ rtc asked e0 e'.
Proof.
  intros He Hp. split; [by exists e, e', t1|]. eapply rtc_r; [exact He|]. by exists m, url, ip, t1, x.
Qed.

(** The context of a connection of this proxy. *)
Definition started (ctx : ProxyContext E) : Prop :=
  loop_nonce ctx = nonce /\ rtc asked e0 (rule_engine ctx).

Lemma http_request_trace (r : Request U H B) (ctx : ProxyContext E) remote :
  started ctx -> show_ip (addr_ip remote) = ip ->
  wp (handle_http_request r ctx remote) (fun t '(_, ctx') => started ctx' /\ request_trace t).
Proof.
  intros [Hnon Heng] Hip. eapply wp_mono; [|apply handle_http_request_spec].
  intros t [resp ctx'] [Hn Ho]. unfold started. rewrite Hn.
  destruct (is_loop _ _); [destruct Ho as (-> & _ & ->); by repeat constructor|].
  destruct Ho as (t1 & x & Hj & Ho). unfold judged in Hj. rewrite Hip in Hj.
  apply judged_judgement in Hj as [Hj He']; [|done]. split; [done|]. destruct (action x) eqn:Ea.
  - destruct Ho as (t2 & -> & Ho). rewrite Hnon in Ho. by eapply permitted_trace.
  - destruct Ho as [-> _]. eauto with rust.
Qed.

(** The decrypted handler, branch by branch. *)
Lemma decrypted_request_spec (r : Request U H B) (ctx : ProxyContext E) host remote :
  wp (handle_decrypted_https_request r ctx host remote) (fun t '(resp, ctx') =>
    loop_nonce ctx' = loop_nonce ctx /\ exists t1 x,
    possible (evaluate_with_context_and_ip (rule_engine ctx) (req_method r) (https_url host r)
                (show_ip (addr_ip remote))) t1 (x, rule_engine ctx') /\
    match action x with
    | Deny => t = eval_event <$> t1 /\ resp = create_forbidden_response (context x)
    | Allow => exists t2, t = (eval_event <$> t1) ++ t2 /\
        permitted_outcome (fun u => prepare_upstream_request r u (loop_nonce ctx))
          (https_url host r) (max_tx_bytes x) t2 resp
    end).
Proof.
  unfold handle_decrypted_https_request. wp_step. apply wp_lift_l.
  eapply wp_mono; [|apply wp_possible; intros t1 y Hy; exact Hy].
  intros t1 [x e'] Hp. simpl. destruct (action x) eqn:Ea; simpl.
  - wp_step. apply wp_lift_r. unfold proxy_https_request, permitted_outcome.
    destruct (uri_parse (https_url host r)) as [u|err] eqn:Eu; simpl.
    + destruct (limit_request _ _) as [req|early] eqn:El; simpl.
      * intros a. destruct a as [up|err]; simpl; (split; [done|]); exists t1, x;
          (split; [done|]); rewrite Ea; eexists; (split; [done|]); rewrite El; eauto.
      * split; [done|]. exists t1, x. split; [done|]. rewrite Ea. exists [].
        split; [done|]. by rewrite El.
    + split; [done|]. exists t1, x. split; [done|]. rewrite Ea. by exists [].
  - rewrite app_nil_r. split; [done|]. exists t1, x. by rewrite Ea.
Qed.

Lemma decrypted_request_trace (r : Request U H B) (ctx : ProxyContext E) host remote :
  started ctx -> show_ip (addr_ip remote) = ip ->
  wp (handle_decrypted_https_request r ctx host remote) (fun t '(_, ctx') =>
    started ctx' /\ request_trace t).
Proof.
  intros [Hnon Heng] Hip. eapply wp_mono; [|apply decrypted_request_spec].
  intros t [resp ctx'] (Hn & t1 & x & Hj & Ho). unfold started. rewrite Hn. rewrite Hip in Hj.
  apply judged_judgement in Hj as [Hj He']; [|done]. split; [done|].
  destruct (action x) eqn:Ea.
  - destruct Ho as (t2 & -> & Ho). rewrite Hnon in Ho. by eapply permitted_trace.
  - destruct Ho as [-> _]. eauto with rust.
Qed.

(** What every part of a connection guarantees. *)
Definition conn_post {A} (t : list (event CSig)) (x : A * ProxyContext E) : Prop :=
  started x.2 /\ mediated t.

Lemma mediated_wp {A} t0 (p : prog CSig (A * ProxyContext E)) :
  mediated t0 -> wp p (conn_post) ->
  wp p (fun t x => conn_post (t0 ++ t) x).
Proof.
  intros Hm Hp. eapply wp_mono; [|exact Hp]. intros t x [Hn Ht].
  split; [done|by apply mediated_app].
Qed.

Lemma conn_do_mediated {A} o (k : ans (TlsSig U H B) o -> prog CSig (A * ProxyContext E)) :
  (forall a, wp (k a) (conn_post)) -> wp (bind (conn_do o) k) (conn_post).
Proof.
  intros Hk. simpl. intros a. apply (mediated_wp [tls_event o a]); [|apply Hk].
  repeat constructor.
Qed.

Lemma serve_mediated n service (ctx : ProxyContext E) :
  started ctx ->
  (forall r c, started c ->
     wp (service r c) (fun t '(_, c') => started c' /\ request_trace t)) ->
  wp (serve_connection n service ctx) conn_post.
Proof.
  intros Hctx Hs. revert ctx Hctx. induction n as [|n IH]; intros ctx Hctx; [by split; [|constructor]|].
  cbn [serve_connection]. apply conn_do_mediated. intros [[r|]|e]; [|by split; [|constructor]..].
  wp_step. apply wp_lift_l. eapply wp_mono; [|by apply Hs]. intros t [resp c] [Hc Ht].
  apply mediated_wp.
  - rewrite <- (app_nil_r (_ <$> t)). by repeat constructor.
  - apply conn_do_mediated. intros []. by apply IH.
Qed.

Lemma tls_handshake_mediated n host (ctx : ProxyContext E) remote :
  started ctx -> show_ip (addr_ip remote) = ip -> wp (tls_handshake n host ctx remote) conn_post.
Proof.
  intros Hctx Hip. unfold tls_handshake. apply conn_do_mediated. intros [[]|e]; [|by split; [|constructor]].
  apply conn_do_mediated. intros [[]|e]; [|by split; [|constructor]].
  apply conn_do_mediated. intros [[[]|e]|[]]; [|by split; [|constructor]..].
  apply serve_mediated; [done|]. intros r c Hc. by apply decrypted_request_trace.
Qed.

Lemma read_connect_headers_mediated {A} fuel hs
    (k : HeadersEnd -> prog CSig (A * ProxyContext E)) :
  (forall h, wp (k h) (conn_post)) ->
  wp (bind (lift_r (read_connect_headers fuel hs)) k) (conn_post).
Proof.
  intros Hk. revert hs. induction fuel as [|fuel IH]; intros hs; [apply Hk|].
  simpl. intros elapsed.
  apply (mediated_wp [tls_event ElapsedNanos elapsed]); [by repeat constructor|].
  destruct (_ <? elapsed); [apply Hk|]. simpl. intros elapsed2 line.
  apply (mediated_wp [tls_event ElapsedNanos elapsed2; tls_event (ConnReadLine _) line]);
    [by repeat constructor|].
  destruct line as [[line|e]|[]]; [|apply Hk..].
  destruct (is_empty line); [apply Hk|]. destruct (_ || _); [apply Hk|]. apply IH.
Qed.

Lemma connect_decide_mediated n target (ctx : ProxyContext E) remote :
  started ctx -> show_ip (addr_ip remote) = ip -> wp (connect_decide n target ctx remote) conn_post.
Proof.
  intros [Hnon Heng] Hip. unfold connect_decide. wp_step. apply wp_lift_l, wp_lift_l.
  eapply wp_mono; [|apply wp_self]. rewrite Hip.
  intros t1 [x e'] Hj. apply judged_judgement in Hj as [Hj He']; [|done]. apply mediated_wp.
  { rewrite <- (app_nil_r (_ <$> _)), <- list_fmap_compose.
    rewrite (list_fmap_compose eval_event handler_event).
    apply mediated_request; [|constructor]. eauto with rust. }
  destruct (action x).
  - apply conn_do_mediated. intros [[[]|e]|[]]; [|by split; [|constructor]..].
    apply tls_handshake_mediated; [by split|done].
  - apply conn_do_mediated. intros a. by split; [|constructor].
Qed.

Lemma plain_http_mediated n (ctx : ProxyContext E) remote :
  started ctx -> show_ip (addr_ip remote) = ip -> wp (handle_plain_http n ctx remote) conn_post.
Proof. intros Hctx Hip. apply serve_mediated; [done|]. intros r c Hc. by apply http_request_trace. Qed.

Lemma https_connection_mediated n (ctx : ProxyContext E) remote :
  started ctx -> show_ip (addr_ip remote) = ip -> wp (handle_https_connection n ctx remote) conn_post.
Proof.
  intros Hctx Hip. unfold handle_https_connection. apply conn_do_mediated.
  assert (Hend : forall r : ConnEnd, wp (Ret (r, ctx)) (conn_post (A := ConnEnd))) by (by split; [|constructor]).
  intros [[peeked|e]|[]]; [|apply Hend..].
  destruct (is_empty peeked); [apply Hend|].
  destruct (detect_protocol peeked); [| |by apply plain_http_mediated|apply Hend].
  - unfold handle_transparent_tls, extract_sni_from_stream. simpl. intros a.
    apply (mediated_wp [tls_event (Peek 2048 CLIENT_HELLO_TIMEOUT) a]);
      [by repeat constructor|].
    destruct a as [[buf|e]|[]]; by apply tls_handshake_mediated.
  - unfold handle_connect_tunnel. apply conn_do_mediated.
    intros [[line|e]|[]]; [|apply Hend..].
    destruct (is_empty line); [apply Hend|].
    destruct (split_whitespace line) as [|w [|target ws]]; [apply Hend..|].
    apply read_connect_headers_mediated. intros []; [|apply Hend..].
    by apply connect_decide_mediated.
Qed.

End Started.

(** C1: complete mediation of connections.  Whatever a client sends on the
    HTTP or the HTTPS port (TLS with or without SNI, a CONNECT tunnel, plain
    HTTP, anything else), however many requests the connection carries, and
    whatever fails, all that goes upstream is requests the rule engine
    permitted: each one is sent right after a judgement, by the proxy's engine
    in the state its earlier requests left it, that allowed its method, its URL
    and the client's address, to the URL that was judged, with the Host of that
    URL, this proxy's nonce, and a body no longer than the limit the judgement
    set. *)
Theorem connections_mediated (n : nat) (ctx : ProxyContext E) (remote : SocketAddr) :
  let ip := show_ip (addr_ip remote) in
  wp (handle_https_connection n ctx remote)
    (fun t _ => mediated (rule_engine ctx) (loop_nonce ctx) ip t) /\
  wp (handle_http_connection n ctx remote)
    (fun t _ => mediated (rule_engine ctx) (loop_nonce ctx) ip t).
Proof.
  intros ip. assert (Hs : started (rule_engine ctx) (loop_nonce ctx) ctx) by (by split).
  split; (eapply wp_mono; [|by (apply https_connection_mediated || apply plain_http_mediated)]);
    by intros t x [_ Ht].
Qed.

End Mediation.

(** ** CONNECT tunnels *)

Section Tunnel.
Context {U H B : Type} `{HeaderMap H} `{HeaderValues} `{UriOps U} `{TlsParser}.
Context {Σ : Sig} {E : Type} `{RuleEngineTrait Σ E}.

Abbreviation CSig := (ConnSig (U := U) (H := H) (B := B) (Σ := Σ)).

(** The operations that only read the client's CONNECT request. *)
Definition reading (e : event CSig) : Prop :=
  match ev_op e with
  | inr (ConnReadLine _) | inr ElapsedNanos => True
  | _ => False
  end.

(** The judgement of a tunnel and what follows it. *)
Definition decided (n : nat) (target : string) (ctx ctx' : ProxyContext E) (remote : SocketAddr)
    (t : list (event CSig)) (r : ConnEnd) : Prop :=
  exists t1 x e, possible (evaluate_with_context_and_ip (rule_engine ctx) GET ("https://" +:+ target)
                             (show_ip (addr_ip remote))) t1 (x, e) /\
    match action x with
    | Deny => exists w, r = Closed /\ t = (handler_event <$> (eval_event <$> t1)) ++
        [tls_event (ConnWriteFlush (create_connect_403_response_with_context (context x)) 5) w]
    | Allow => exists w t2, t = (handler_event <$> (eval_event <$> t1)) ++
          tls_event (ConnWriteFlush CONNECT_ESTABLISHED 5) w :: t2 /\
        match w with
        | Ok (Ok _) => possible (perform_tls_interception n (connect_host target)
              {| rule_engine := e; loop_nonce := loop_nonce ctx |} remote) t2 (r, ctx')
        | _ => t2 = [] /\ exists err, r = Failed err
        end
    end.

Lemma connect_decide_spec n target (ctx : ProxyContext E) remote :
  wp (connect_decide n target ctx remote)
    (fun t '(r, ctx') => decided n target ctx ctx' remote t r).
Proof.
  unfold connect_decide. wp_step. apply wp_lift_l, wp_lift_l.
  eapply wp_mono; [|apply wp_possible; intros t1 y Hy; exact Hy].
  intros t1 [x e'] Hp.
  destruct (action x) eqn:Ea.
  - intros w.
    assert (Hd : forall t2 r ctx',
      match w with
      | Ok (Ok _) => possible (perform_tls_interception n (connect_host target)
            {| rule_engine := e'; loop_nonce := loop_nonce ctx |} remote) t2 (r, ctx')
      | _ => t2 = [] /\ exists err, r = Failed err
      end -> decided n target ctx ctx' remote ((handler_event <$> (eval_event <$> t1)) ++
               tls_event (ConnWriteFlush CONNECT_ESTABLISHED 5) w :: t2) r).
    { intros t2 r ctx' Hw. exists t1, x, e'. split; [done|]. rewrite Ea. by exists w, t2. }
    destruct w as [[[]|err]|[]].
    + apply (proj2 (wp_possible (perform_tls_interception n (connect_host target)
        {| rule_engine := e'; loop_nonce := loop_nonce ctx |} remote) _)). intros t2 [r ctx'] Hp2. exact (Hd t2 r ctx' Hp2).
    + exact (Hd [] _ _ (conj eq_refl (ex_intro _ _ eq_refl))).
    + exact (Hd [] _ _ (conj eq_refl (ex_intro _ _ eq_refl))).
  - intros w. exists t1, x, e'. split; [done|]. rewrite Ea. by exists w.
Qed.

Lemma read_connect_headers_reading fuel hs :
  wp (lift_r (read_connect_headers fuel hs) : prog CSig HeadersEnd) (fun t _ => Forall reading t).
Proof.
  revert hs. induction fuel as [|fuel IH]; intros hs; simpl; [constructor|].
  intros e1. destruct (_ <? e1); simpl; [by repeat constructor|].
  intros e2 line. destruct line as [[line|err]|[]]; [|by repeat constructor..].
  destruct (is_empty line); [by repeat constructor|].
  destruct (_ || _); [by repeat constructor|].
  eapply wp_mono; [|apply IH]. intros t h Ht. by repeat constructor.
Qed.

(** C34: a CONNECT tunnel.  Nothing is written, and no handshake is made,
    before the rule engine judged [GET https://target], [target] being the
    second word of the request line.  If it denies, the 403 with its message
    is all the client gets, and the connection is closed; if it allows, the
    200 is written first, and only when that succeeded is the client's TLS
    taken over, with a certificate for the target's host. *)
Theorem connect_tunnel_outcome (n : nat) (ctx : ProxyContext E) (remote : SocketAddr) :
  wp (handle_connect_tunnel n ctx remote) (fun t '(r, ctx') =>
    Forall reading t \/
    exists t0 first_line verb target ws t1,
      t = t0 ++ t1 /\ Forall reading t0 /\
      head t0 = Some (tls_event (ConnReadLine (CONNECT_READ_TIMEOUT * NANOS)) (Ok (Ok first_line))) /\
      split_whitespace first_line = verb :: target :: ws /\
      decided n target ctx ctx' remote t1 r).
Proof.
  unfold handle_connect_tunnel. intros a. destruct a as [[line|e]|[]]; [|by left; apply Forall_singleton..].
  simpl. destruct (is_empty line); [by left; apply Forall_singleton|].
  destruct (split_whitespace line) as [|verb [|target ws]] eqn:Ew; [by left; apply Forall_singleton..|].
  wp_step. eapply wp_mono; [|apply read_connect_headers_reading].
  intros t0 h Ht0. destruct h as [hs| |]; simpl;
    [|by left; rewrite app_nil_r; apply Forall_cons..].
  eapply wp_mono; [|apply connect_decide_spec]. intros t1 [r ctx'] Hd. right.
  exists (tls_event (ConnReadLine (CONNECT_READ_TIMEOUT * NANOS)) (Ok (Ok line)) :: t0), line, verb, target, ws, t1.
  split; [done|]. split; [by apply Forall_cons|]. done.
Qed.

(** A client that sends lines, and then closes; the clock is any function of
    how often it was read. *)
Record Wire : Type := { wire_lines : list string; clock_reads : nat }.

Variable clock : nat -> Z.

Definition wire : handler (TlsSig U H B) Wire := fun o w =>
  match o as o return (ans (TlsSig U H B) o * Wire) with
  | Peek _ _ => (Ok (Ok ""), w)
  | ConnReadLine _ =>
      (Ok (Ok (default "" (head (wire_lines w)))),
       {| wire_lines := tail (wire_lines w); clock_reads := clock_reads w |})
  | ElapsedNanos =>
      (clock (clock_reads w), {| wire_lines := wire_lines w; clock_reads := S (clock_reads w) |})
  | ConnWriteFlush _ _ => (Ok (Ok tt), w)
  | GetCertForHost _ => (Ok tt, w)
  | WithSingleCert => (Ok tt, w)
  | AcceptTls _ => (Ok (Ok tt), w)
  | NextRequest => (Ok None, w)
  | SendResponse _ => (tt, w)
  end.

Definition blank (line : string) : bool := String.eqb line CRLF || String.eqb line LF.

(** The header lines before the first blank one, or before the end. *)
Fixpoint until_blank (lines : list string) : list string :=
  match lines with
  | [] => []
  | l :: lines' => if is_empty l || blank l then [] else l :: until_blank lines'
  end.

(** C39: reading the headers of a CONNECT always comes to an end: with a bound
    above the number of lines the client sends, whatever the clock says, the
    loop is not cut short by the bound; and as long as the clock stays within
    ten seconds it reads exactly the lines before the first blank one. *)
Theorem connect_headers_terminate (lines hs : list string) (reads fuel : nat)
    (Hfuel : (length lines < fuel)%nat) :
  let r := run_result wire {| wire_lines := lines; clock_reads := reads |}
             (read_connect_headers fuel hs) in
  r <> HeadersUnfinished /\
  ((forall k, clock k <= CONNECT_READ_TIMEOUT * NANOS) -> r = HeadersRead (hs ++ until_blank lines)).
Proof.
  revert lines hs reads Hfuel. unfold run_result.
  induction fuel as [|fuel IH]; intros lines hs reads Hfuel; [lia|].
  cbn [read_connect_headers bind perform run wire ans TlsSig]. simpl.
  destruct (CONNECT_READ_TIMEOUT * NANOS <? clock reads) eqn:F; bools; simpl.
  { split; [done|]. intros Hk. specialize (Hk reads). lia. }
  destruct lines as [|l lines]; simpl; [by rewrite app_nil_r|].
  unfold blank. destruct (is_empty l) eqn:El; simpl; [by rewrite app_nil_r|].
  destruct (String.eqb l CRLF || String.eqb l LF) eqn:Eb; simpl; [by rewrite app_nil_r|].
  specialize (IH lines (hs ++ [l]) (S (S reads))). rewrite <- app_assoc in IH. simpl in IH.
  destruct (run _ _ (read_connect_headers fuel (hs ++ [l]))) as [[t w] r] eqn:Er.
  simpl in *. apply IH. lia.
Qed.

End Tunnel.

(** ** Hosts *)

(** The host of a CONNECT target is what stands before its first colon,
    so the port is forgotten: the requests inside a tunnel to [host:port] are
    judged, and sent, as requests to [https://host/...], whatever the port. *)
Theorem connect_host_drops_port (host port : string) (Hh : contains_char ":"%char host = false) :
  connect_host (host +:+ ":" +:+ port) = host /\ connect_host host = host /\
  forall {U H B} `{UriOps U} (r : Request U H B),
    https_url (connect_host (host +:+ ":" +:+ port)) r =
    "https://" +:+ host +:+ default "/" (uri_path_and_query (req_uri r)).
Proof.
  assert (Hc : connect_host (host +:+ ":" +:+ port) = host).
  { unfold connect_host. change (":" +:+ port) with (String ":"%char port).
    rewrite contains_char_append. by rewrite split_on_prefix. }
  split; [done|split; [unfold connect_host; by rewrite Hh|]]. intros. unfold https_url.
  by rewrite Hc.
Qed.

Lemma connect_host_drops_port_witness :
  connect_host "example.com:8443" = "example.com" /\ connect_host "[::1]:443" = "[".
Proof.
  split.
  - by apply (connect_host_drops_port "example.com" "8443").
  - by apply (connect_host_drops_port "[" ":1]:443").
Defined.

(** ** SNI and protocol detection *)

Section Detection.
Context `{TlsParser}.

(** The UTF-8 hostnames of the SNI extensions, in order. *)
Definition hostnames (exts : list TlsExtension) : list string :=
  exts ≫= (fun e => match e with
                    | SNI l => omap (fun x => match x with
                                              | (HostName, data) => from_utf8 data
                                              | (OtherName, _) => None
                                              end) l
                    | OtherExtension => []
                    end).

Lemma first_hostname_head l :
  first_hostname l = head (omap (fun x => match x with
                                          | (HostName, data) => from_utf8 data
                                          | (OtherName, _) => None
                                          end) l).
Proof. induction l as [|[[] data] l IH]; csimpl; [done| |done]. by destruct (from_utf8 data). Qed.

(** The host of a transparent connection is the first hostname of the
    ClientHello's SNI extensions that is UTF-8, in the order of the extensions
    and of each list; without five bytes, a ClientHello first, or an extension
    that parses, there is none. *)
Theorem sni_is_first_hostname (buf : string) :
  sni_of buf =
  if len buf <? 5 then None
  else match parse_tls_plaintext buf with
       | Some (ClientHello (Some ext_data) :: _) =>
           match parse_tls_extensions ext_data with
           | Some exts => head (hostnames exts)
           | None => None
           end
       | _ => None
       end.
Proof.
  assert (Hf : forall exts, first_sni exts = head (hostnames exts)).
  { induction exts as [|[l|] exts IH]; csimpl; [done| |done].
    rewrite first_hostname_head, IH. unfold hostnames. csimpl.
    by destruct (omap _ l). }
  unfold sni_of. destruct (len buf <? 5); [done|].
  destruct (parse_tls_plaintext buf) as [[|[[ext|]|] ms]|]; try done.
  simpl. destruct (parse_tls_extensions ext) as [exts|]; [|done]. apply Hf.
Qed.

End Detection.

Definition ascii_text (s : string) : bool := all_chars (byte_in 0 127) s.

(** The first byte of what a scan yields for a byte that is not ASCII. *)
Lemma lossy_non_ascii a r : byte_in 0 127 a = false ->
  exists b s, from_utf8_lossy (String a r) = String b s /\ byte_in 0 127 b = false.
Proof.
  intros Ha. unfold from_utf8_lossy. cbn [utf8_scan]. rewrite Ha.
  repeat case_match; csimpl; rewrite join_nil_cons; simpl; by eexists _, _.
Qed.

Lemma lossy_ascii a r : byte_in 0 127 a = true ->
  from_utf8_lossy (String a r) = String a (from_utf8_lossy r).
Proof.
  intros Ha. unfold from_utf8_lossy. cbn [utf8_scan]. rewrite Ha. csimpl. by rewrite join_nil_cons.
Qed.

Lemma lossy_prefix p s : ascii_text p = true ->
  starts_with (from_utf8_lossy s) p = starts_with s p.
Proof.
  revert s. induction p as [|c p IH]; intros s Hp; [by destruct s, (from_utf8_lossy _)|].
  unfold ascii_text in Hp. simpl in Hp. apply andb_prop in Hp as [Hc Hp].
  destruct s as [|a s]; [done|]. destruct (byte_in 0 127 a) eqn:Ha.
  - rewrite lossy_ascii by done. unfold starts_with in *. simpl.
    destruct (ascii_dec c a); [by apply IH|done].
  - destruct (lossy_non_ascii a s Ha) as (b & s' & -> & Hb). unfold starts_with. simpl.
    destruct (ascii_dec c b), (ascii_dec c a); subst; congruence.
Qed.

(** Zeros after a text do not change which NUL-free prefixes it has. *)
Lemma prefix_zeros p s k : all_chars (fun a => negb (byte_eq 0 a)) p = true ->
  starts_with (s +:+ zeros k) p = starts_with s p.
Proof.
  revert s. induction p as [|c p IH]; intros s Hp; [by destruct s, (_ +:+ _)|].
  simpl in Hp. apply andb_prop in Hp as [Hc Hp]. unfold starts_with in *.
  destruct s as [|a s].
  - destruct k as [|k]; [done|]. unfold zeros. cbn [replicate]. rewrite join_nil_cons.
    simpl. destruct (ascii_dec c (ascii_of_nat 0)) as [->|]; done.
  - rewrite append_cons. cbn [String.prefix]. destruct (ascii_dec c a); [by apply IH|done].
Qed.

Lemma peek_buffer_connect s : starts_with (peek_buffer s) "CONNEC" = starts_with s "CONNEC".
Proof. by apply prefix_zeros. Qed.

Lemma peek_buffer_bytes s : s <> "" ->
  nth_byte 0 (peek_buffer s) = nth_byte 0 s /\
  (1 <? len s = true -> nth_byte 1 (peek_buffer s) = nth_byte 1 s).
Proof.
  intros Hs. destruct s as [|a [|b s]]; [done|by split|by split].
Qed.

(** How a connection on the HTTPS port is recognised, by the bytes it
    starts with (six at most are looked at).  It is a CONNECT exactly when they
    are [CONNEC]; transparent TLS exactly when they are a handshake record of
    version 2.x or 3.x, at least two of them; plain HTTP exactly when they
    start with another upper-case letter; and dropped otherwise. *)
Theorem detect_protocol_correct (peeked : string) :
  let b0 := nth_byte 0 peeked in
  let b1 := nth_byte 1 peeked in
  (detect_protocol peeked = Connect <-> starts_with peeked "CONNEC" = true) /\
  (detect_protocol peeked = TransparentTls <->
     byte_eq 22 b0 = true /\ (byte_eq 3 b1 = true \/ byte_eq 2 b1 = true)) /\
  (detect_protocol peeked = PlainHttp <->
     byte_in 65 90 b0 = true /\ starts_with peeked "CONNEC" = false).
Proof.
  intros b0 b1. assert (Hc : starts_with peeked "CONNEC" = true -> b0 = "C"%char).
  { subst b0. by intros [t ->]%prefix_spec. }
  assert (Hlen : byte_eq 3 b1 = true \/ byte_eq 2 b1 = true -> 1 <? len peeked = true).
  { subst b1. destruct peeked as [|a [|b s]]; [by intros []|by intros []|].
    intros _. apply Z.ltb_lt. unfold len. simpl. lia. }
  destruct (decide (peeked = "")) as [->|Hne]; [vm_compute; naive_solver|].
  destruct (peek_buffer_bytes peeked Hne) as [H0 H1].
  unfold detect_protocol. rewrite lossy_prefix, peek_buffer_connect, H0 by done. fold b0.
  destruct (1 <? len peeked) eqn:El.
  - rewrite H1 by done. fold b1. rewrite andb_true_r.
    destruct (byte_eq 22 b0) eqn:E22; simpl.
    + assert (byte_in 65 90 b0 = false /\ starts_with peeked "CONNEC" = false) as [-> ->].
      { unfold byte_eq in E22. apply Nat.eqb_eq in E22. split.
        - unfold byte_in. by rewrite E22.
        - destruct (starts_with peeked "CONNEC") eqn:Es; [|done]. by rewrite Hc in E22. }
      destruct (byte_eq 3 b1), (byte_eq 2 b1); simpl; naive_solver.
    + destruct (starts_with peeked "CONNEC") eqn:Es; [rewrite Hc by done; naive_solver|].
      destruct (byte_in 65 90 b0); naive_solver.
  - rewrite andb_false_r. simpl.
    destruct (starts_with peeked "CONNEC") eqn:Es; [rewrite Hc by done; naive_solver|].
    destruct (byte_in 65 90 b0); naive_solver.
Qed.

(** ** Loops over TLS *)

Section HttpsLoop.
Context {U H B : Type} `{HeaderMap H} `{HeaderValues} `{UriOps U}.
Context {Σ : Sig} {E : Type} `{RuleEngineTrait Σ E}.

(** The loop check guards plain HTTP only.  A request that carries this
    proxy's own nonce is refused without asking the engine when it comes over
    plain HTTP; the same request inside TLS, whenever the engine permits it, is
    sent upstream again. *)
Theorem https_loop_not_detected (r : Request U H B) (ctx : ProxyContext E) (host : string)
    (remote : SocketAddr) t1 x e u a
    (Hloop : is_loop (req_headers r) (loop_nonce ctx) = true)
    (Heval : possible (evaluate_with_context_and_ip (rule_engine ctx) (req_method r)
               (https_url host r) (show_ip (addr_ip remote))) t1 (x, e))
    (Hallow : action x = Allow) (Hmax : max_tx_bytes x = None)
    (Huri : uri_parse (https_url host r) = Ok u) :
  handle_http_request r ctx remote =
    Ret (create_forbidden_response (Some loop_message), ctx) /\
  exists resp ctx', possible (handle_decrypted_https_request r ctx host remote)
    ((eval_event <$> t1) ++
     [client_event (map_body BIncoming (prepare_upstream_request r u (loop_nonce ctx))) a])
    (resp, ctx').
Proof.
  split; [unfold handle_http_request; by rewrite Hloop|].
  unfold handle_decrypted_https_request.
  destruct a; eexists _, _;
    (eapply possible_bind; [by apply possible_lift_l|]); simpl; rewrite Hallow, Hmax;
    unfold proxy_https_request; rewrite Huri; simpl;
    eapply (@possible_do (HandlerSig (U := U) (H := H) (B := B) (Σ := Σ)));
    simpl; constructor.
Qed.

End HttpsLoop.

(** ** Examples *)

Definition looping_request : Request PlainUri assoc (LimitedBody.script unit unit) :=
  mkRequest "GET" {| pu_scheme := None; pu_authority := None; pu_path_and_query := Some "/" |}
    [("httpjail-loop-prevention", "deadbeef")] hello_script.

(** An engine that permits everything. *)
Definition open_engine : RuleEngineTrait LogSig unit := {|
  evaluate e m url ip := Ret (EvaluationResult.allow, e);
  engine_name _ := "open";
|}.

Lemma https_loop_not_detected_witness :
  exists u, exists resp ctx', possible (@handle_decrypted_https_request _ _ _ _ _ _ _ _ open_engine
      looping_request example_context "example.com" example_peer)
    [client_event (map_body BIncoming (prepare_upstream_request looping_request u "deadbeef"))
       (Err (Msg "unreachable"))]
    (resp, ctx').
Proof.
  eexists. apply (@https_loop_not_detected _ _ _ _ _ _ _ _ open_engine looping_request
    example_context "example.com" example_peer [] EvaluationResult.allow (Plain tt));
    [reflexivity|constructor|reflexivity|reflexivity|reflexivity].
Defined.

(** A parser that takes the bytes after the record header for the name. *)
#[export] Instance toy_tls : TlsParser := {|
  parse_tls_plaintext b := Some [ClientHello (Some b)];
  parse_tls_extensions b := Some [OtherExtension; SNI [(OtherName, b); (HostName, b)]];
|}.

Lemma connections_mediated_witness :
  wp (handle_https_connection 3 example_context example_peer)
    (fun t _ => mediated (U := PlainUri) (H := assoc) (B := LimitedBody.script unit unit)
                  (rule_engine example_context) "deadbeef" "127.0.0.1" t).
Proof. apply (connections_mediated 3 example_context example_peer). Defined.

Lemma connect_headers_terminate_witness :
  run_result (wire (U := PlainUri) (H := assoc) (B := LimitedBody.script unit unit) (fun k => Z.of_nat k * 0))
    {| wire_lines := ["Host: example.com" +:+ CRLF; CRLF; "tls"]; clock_reads := 0 |}
    (read_connect_headers 4 ["CONNECT example.com:443 HTTP/1.1" +:+ CRLF]) =
  HeadersRead ["CONNECT example.com:443 HTTP/1.1" +:+ CRLF; "Host: example.com" +:+ CRLF].
Proof.
  apply (connect_headers_terminate (U := PlainUri) (H := assoc) (B := LimitedBody.script unit unit)
    (fun k => Z.of_nat k * 0) ["Host: example.com" +:+ CRLF; CRLF; "tls"]
    ["CONNECT example.com:443 HTTP/1.1" +:+ CRLF] 0 4).
  - simpl. lia.
  - intros k. unfold CONNECT_READ_TIMEOUT, NANOS. lia.
Defined.
