(* ===== verification/TlsHosts.v ===== *)
(** * The host of a TLS session ([src/proxy_tls.rs])

    The HTTPS port answers a TLS client with a certificate made for one host.
    This file ties that host to where it comes from and to what the session's
    requests are judged and sent as. *)

From S2P Require Import Prelude Effects Http LimitedBody Rules RuleCommon ShellRules Net Proxy ProxyTls.
From Stdlib Require Import Ascii.

Section Hosts.
Context {U H B : Type} `{HeaderMapLaws H} `{HeaderValues} `{UriOps U} `{TlsParser}.
Context {Σ : Sig} {E : Type} `{RuleEngineTrait Σ E}.

Abbreviation HSig := (HandlerSig (U := U) (H := H) (B := B) (Σ := Σ)).
Abbreviation CSig := (ConnSig (U := U) (H := H) (B := B) (Σ := Σ)).

(** ** Traces *)

Definition asks_certificate (e : event CSig) : bool :=
  match ev_op e with inr (GetCertForHost _) => true | _ => false end.

Definition no_certificate (t : list (event CSig)) : Prop :=
  Forall (fun e => asks_certificate e = false) t.

(** Serving a request of a session for [host]: it is judged as one for that
    host, and goes nowhere else. *)
Definition served (host ip : string) (t : list (event HSig)) : Prop :=
  exists (r : Request U H B) (e e' : RuleEngine E) t1 x,
    possible (evaluate_with_context_and_ip e (req_method r) (https_url host r) ip) t1 (x, e') /\
    (t = eval_event <$> t1 \/
     exists u req a, action x = Allow /\ uri_parse (https_url host r) = Ok u /\ req_uri req = u /\
       t = (eval_event <$> t1) ++ [client_event req a]).

(** What follows the certificate: operations on the socket, and requests
    served for its host. *)
Inductive session (host ip : string) : list (event CSig) -> Prop :=
| session_end : session host ip []
| session_socket o a t :
    asks_certificate (tls_event o a) = false -> session host ip t -> session host ip (tls_event o a :: t)
| session_request t1 t :
    served host ip t1 -> session host ip t -> session host ip ((handler_event <$> t1) ++ t).

(** Where the host comes from: the name in the client's hello, [example.com]
    when it has none or could not be read, or the target of a CONNECT that was
    accepted. *)
Definition host_origin (host : string) (pre : list (event CSig)) : Prop :=
  (exists peeked, tls_event (Peek 2048 CLIENT_HELLO_TIMEOUT) peeked ∈ pre /\
     host = default "example.com" (match peeked with Ok (Ok buf) => sni_of buf | _ => None end)) \/
  (exists first_line verb target ws w,
     tls_event (ConnReadLine (CONNECT_READ_TIMEOUT * NANOS)) (Ok (Ok first_line)) ∈ pre /\
     split_whitespace first_line = verb :: target :: ws /\ host = connect_host target /\
     last pre = Some (tls_event (ConnWriteFlush CONNECT_ESTABLISHED WRITE_TIMEOUT) w) /\ w = Ok (Ok tt)).

Definition one_session (ip : string) (t : list (event CSig)) : Prop :=
  no_certificate t \/
  exists pre host c post, t = pre ++ tls_event (GetCertForHost host) c :: post /\
    no_certificate pre /\ host_origin host pre /\ session host ip post /\
    (Result.is_err c = true -> post = []).

(** ** Lemmas *)

Lemma handler_no_certificate (t : list (event HSig)) : no_certificate (handler_event <$> t).
Proof. apply Forall_fmap, Forall_true. intros e. done. Qed.

Lemma wp_conn_do {A} (o : op (TlsSig U H B)) (k : ans (TlsSig U H B) o -> prog CSig A) Q :
  (forall a, wp (k a) (fun t x => Q (tls_event o a :: t) x)) -> wp (bind (conn_do o) k) Q.
Proof. intros Hk a. apply Hk. Qed.

Lemma served_decrypted (r : Request U H B) (ctx : ProxyContext E) host remote :
  wp (handle_decrypted_https_request r ctx host remote)
    (fun t _ => served host (show_ip (addr_ip remote)) t).
Proof.
  eapply wp_mono; [|apply decrypted_request_spec]. intros t [resp ctx'] (_ & t1 & x & Hp & Ho).
  exists r, (rule_engine ctx), (rule_engine ctx'), t1, x. split; [exact Hp|].
  destruct (action x) eqn:Ea; [|left; by destruct Ho].
  destruct Ho as (t2 & -> & Ho). unfold permitted_outcome in Ho.
  destruct (uri_parse _) as [u|err] eqn:Eu; [|left; destruct Ho as [-> _]; by rewrite app_nil_r].
  destruct (limit_request _ _) as [req|early] eqn:El; [|left; destruct Ho as [-> _]; by rewrite app_nil_r].
  right. destruct Ho as (a & -> & _). exists u, req, a. apply limit_request_inl in El. by subst req.
Qed.

Lemma session_serves n host (ctx : ProxyContext E) remote :
  wp (serve_connection n (fun req ctx => handle_decrypted_https_request req ctx host remote) ctx)
    (fun t _ => session host (show_ip (addr_ip remote)) t).
Proof.
  revert ctx. induction n as [|n IH]; intros ctx; [constructor|]. cbn [serve_connection].
  apply wp_conn_do. intros [[r|]|e]; [|by repeat constructor..].
  wp_step. apply wp_lift_l. eapply wp_mono; [|apply served_decrypted]. intros t [resp c] Ht.
  apply wp_conn_do. intros []. eapply wp_mono; [|apply IH]. intros t' x Ht'.
  apply session_socket, session_request, session_socket; done.
Qed.

(** After what decided on the host, a handshake is one session. *)
Lemma handshake_session n host (ctx : ProxyContext E) remote pre :
  no_certificate pre -> host_origin host pre ->
  wp (tls_handshake n host ctx remote)
    (fun t _ => one_session (show_ip (addr_ip remote)) (pre ++ t)).
Proof.
  intros Hpre Hor. unfold tls_handshake. apply wp_conn_do. intros c.
  assert (Hs : forall post, (Result.is_err c = true -> post = []) ->
    session host (show_ip (addr_ip remote)) post ->
    one_session (show_ip (addr_ip remote)) (pre ++ tls_event (GetCertForHost host) c :: post))
    by (intros post Hc Hp; right; by exists pre, host, c, post).
  destruct c as [[]|e]; [|apply wp_ret, Hs; [done|constructor]].
  apply wp_conn_do. intros config. destruct config as [[]|e]; [|apply wp_ret, Hs; by repeat constructor].
  apply wp_conn_do. intros [[[]|e]|[]]; [|apply wp_ret, Hs; by repeat constructor..].
  eapply wp_mono; [|apply session_serves]. intros t x Ht. apply Hs; [done|].
  by repeat apply session_socket.
Qed.

Lemma plain_no_certificate n (ctx : ProxyContext E) remote :
  wp (handle_plain_http n ctx remote) (fun t _ => no_certificate t).
Proof.
  unfold handle_plain_http. revert ctx. induction n as [|n IH]; intros ctx; [constructor|].
  cbn [serve_connection]. apply wp_conn_do. intros [[r|]|e]; [|by repeat constructor..].
  wp_step. apply wp_lift_l, wp_true. intros t [resp c]. apply wp_conn_do. intros [].
  eapply wp_mono; [|apply IH]. intros t' x Ht'. constructor; [done|].
  apply Forall_app. split; [apply handler_no_certificate|by constructor].
Qed.

Lemma reading_no_certificate t : Forall (reading (U := U) (H := H) (B := B) (Σ := Σ)) t -> no_certificate t.
Proof.
  intros Ht. apply (Forall_impl _ _ _ Ht). intros [[o|o] a]; unfold reading, asks_certificate; [done|].
  by destruct o.
Qed.

(** A CONNECT tunnel. *)
Lemma decide_session n target (ctx : ProxyContext E) remote pre first_line verb ws :
  no_certificate pre ->
  tls_event (ConnReadLine (CONNECT_READ_TIMEOUT * NANOS)) (Ok (Ok first_line)) ∈ pre ->
  split_whitespace first_line = verb :: target :: ws ->
  wp (connect_decide n target ctx remote)
    (fun t _ => one_session (show_ip (addr_ip remote)) (pre ++ t)).
Proof.
  intros Hpre Hin Hw. unfold connect_decide. wp_step. apply wp_lift_l, wp_lift_l, wp_true.
  intros t1 [x e']. set (t1' := _ <$> _).
  assert (Ht1 : no_certificate (pre ++ t1')) by (apply Forall_app; split; [done|apply handler_no_certificate]).
  destruct (action x).
  - apply wp_conn_do. intros w. set (ev := tls_event _ w).
    assert (Hend : one_session (show_ip (addr_ip remote)) (pre ++ t1' ++ [ev])).
    { left. rewrite app_assoc. apply Forall_app. split; [done|by repeat constructor]. }
    destruct w as [[[]|e]|[]]; [|exact Hend..].
    eapply wp_mono; [|apply (handshake_session n (connect_host target) _ remote ((pre ++ t1') ++ [ev]))].
    + intros t y Ht. by rewrite <- !app_assoc in Ht.
    + apply Forall_app. split; [done|by repeat constructor].
    + right. exists first_line, verb, target, ws, (Ok (Ok tt)).
      split; [do 2 (apply elem_of_app; left); exact Hin|]. do 2 (split; [done|]).
      split; [apply last_snoc|done].
  - apply wp_conn_do. intros a. left. rewrite app_assoc. apply Forall_app. split; [done|by repeat constructor].
Qed.

Lemma tunnel_session n (ctx : ProxyContext E) remote pre :
  no_certificate pre ->
  wp (handle_connect_tunnel n ctx remote)
    (fun t _ => one_session (show_ip (addr_ip remote)) (pre ++ t)).
Proof.
  intros Hpre. unfold handle_connect_tunnel. apply wp_conn_do. intros line. set (ev := tls_event _ line).
  assert (Hn : no_certificate (pre ++ [ev])) by (apply Forall_app; split; [done|by repeat constructor]).
  destruct line as [[line|e]|[]]; [|by left..]. destruct (is_empty line); [by left|].
  destruct (split_whitespace line) as [|w [|target ws]] eqn:Ew; [by left..|].
  wp_step. eapply wp_mono; [|apply read_connect_headers_reading]. intros t1 h Ht1%reading_no_certificate.
  assert (Hn1 : no_certificate ((pre ++ [ev]) ++ t1)) by (by apply Forall_app).
  assert (Hend : one_session (show_ip (addr_ip remote)) (pre ++ ev :: t1 ++ []))
    by (left; rewrite app_nil_r; by rewrite <- app_assoc in Hn1).
  destruct h; [|exact Hend..].
  eapply wp_mono; [|apply (decide_session n target ctx remote ((pre ++ [ev]) ++ t1) line w ws)]; [|done| |done].
  - intros t y Ht. by rewrite <- !app_assoc in Ht.
  - apply elem_of_app. left. apply elem_of_app. right. by left.
Qed.

(** C9: a TLS session is served for the host its certificate names.  A
    connection to the HTTPS port asks for at most one certificate.  Its host is
    the name in the client's hello, or the target of a CONNECT whose acceptance
    was written just before; and every request of the session, whatever its own
    Host header says, is judged as a request for that host, and sent, if at all,
    to the URL that was judged. *)
Theorem tls_session_bound_to_host (n : nat) (ctx : ProxyContext E) (remote : SocketAddr) :
  wp (handle_https_connection n ctx remote)
    (fun t _ => one_session (show_ip (addr_ip remote)) t).
Proof.
  unfold handle_https_connection. apply wp_conn_do. intros peeked. set (ev := tls_event _ peeked).
  assert (Hn : no_certificate [ev]) by (by repeat constructor).
  destruct peeked as [[peeked|e]|[]]; [|by left..]. destruct (is_empty peeked); [by left|].
  destruct (detect_protocol peeked); [| | |by left].
  - unfold handle_transparent_tls, extract_sni_from_stream. wp_step. apply wp_conn_do. intros buf.
    set (ev2 := tls_event _ buf).
    assert (Hs : forall sni, sni = match buf with Ok (Ok buf) => sni_of buf | _ => None end ->
      wp (tls_handshake n (default "example.com" sni) ctx remote)
        (fun t _ => one_session (show_ip (addr_ip remote)) ([ev; ev2] ++ t))).
    { intros sni ->. apply handshake_session; [by repeat constructor|]. left. exists buf.
      split; [right; by left|done]. }
    destruct buf as [[buf|e]|[]]; by apply Hs.
  - apply (tunnel_session n ctx remote [ev] Hn).
  - eapply wp_mono; [|apply plain_no_certificate]. intros t x Ht. left. by constructor.
Qed.

End Hosts.

(** ** Examples *)

(** Whatever the request's own Host is, it is judged for the certificate's. *)
Lemma tls_session_bound_to_host_witness :
  wp (handle_https_connection 3 example_context example_peer)
    (fun t _ => one_session (U := PlainUri) (H := assoc) (B := LimitedBody.script unit unit)
                  (E := unit) "127.0.0.1" t).
Proof. exact (tls_session_bound_to_host 3 example_context example_peer). Defined.
