(* ===== verification/Mediation.v ===== *)
(** * From the rules of the command line to the requests sent upstream

    The composition of the engine the command line asks for ([Engines], of
    [src/main.rs]) with the connections it judges ([ProxyTls], of
    [src/proxy.rs] and [src/proxy_tls.rs]).  The two meet at an interface: what
    an engine promises ([Promise]) is all the proxy's side uses of it. *)

From S2P Require Import Prelude Effects Http LimitedBody Rules RuleCommon Process ShellRules ProcRules V8 JsRules Engines Net Proxy ProxyTls.
From Stdlib Require Import Ascii.

(** ** The interface *)

(** What an engine promises: from a state it keeps, whatever it permits has
    its evidence in what the evaluation did. *)
Record Promise (Σ : Sig) (E : Type) `{RuleEngineTrait Σ E} : Type := {
  state : E -> Prop;
  evidence : Method -> string -> string -> list (event Σ) -> Prop;
  promised e m url ip : state e ->
    wp (evaluate e m url ip) (fun t '(x, e') => state e' /\ (action x = Allow -> evidence m url ip t));
}.
Arguments state {Σ E _} _ _.
Arguments evidence {Σ E _} _ _ _ _ _.
Arguments promised {Σ E _} _ _ _ _ _ _.

(** ** The client's side *)

Section Client.
Context {U H B : Type} `{HeaderMapLaws H} `{HeaderValues} `{UriOps U} `{TlsParser}.
Context {Σ : Sig} {E : Type} `{RuleEngineTrait Σ E}.
Context (P : Promise Σ E).

Abbreviation HSig := (HandlerSig (U := U) (H := H) (B := B) (Σ := Σ)).
Abbreviation CSig := (ConnSig (U := U) (H := H) (B := B) (Σ := Σ)).

(** The request an event of a connection sends upstream. *)
Definition upstream (e : event CSig) : option (Request U H (BoxBody B)) :=
  match ev_op e with
  | inl (inr (ClientRequest req)) => Some req
  | _ => None
  end.

Definition logging (e : event (sig_sum Σ LogSig)) : Prop :=
  match ev_op e with inr _ => True | inl _ => False end.

(** Right before each request that is sent, the engine did what is the evidence
    of its permission for that request, and at most the request log was written
    in between. *)
Definition evidenced_by (ev : Method -> string -> string -> list (event Σ) -> Prop) (ip : string)
    : list (event CSig) -> Prop :=
  precedes upstream (fun pre req => exists url t1 tl pre',
    pre = pre' ++ (handler_event <$> (eval_event <$> ((inner_event <$> t1) ++ tl))) /\
    Forall logging tl /\ ev (req_method req) url ip t1 /\ uri_parse url = Ok (req_uri req)).

Definition evidenced : string -> list (event CSig) -> Prop := evidenced_by (evidence P).

Definition engine_of (r : RuleEngine E) : E :=
  match r with Plain e => e | Logged l => logged_engine l end.

(** The engine held decides; what is under the logger may be logged. *)
Lemma judged_by_engine (r : RuleEngine E) m url ip :
  wp (evaluate_with_context_and_ip r m url ip) (fun t '(x, r') => exists t1 tl,
    possible (evaluate (engine_of r) m url ip) t1 (x, engine_of r') /\
    t = (inner_event <$> t1) ++ tl /\ Forall logging tl).
Proof.
  unfold evaluate_with_context_and_ip, inner_evaluate.
  assert (Hp : forall e, wp (evaluate e m url ip) (possible (evaluate e m url ip)))
    by (intros e; by apply wp_possible).
  destruct r as [e|l]; cbn [evaluate logging_engine]; unfold logging_evaluate; wp_step; [|wp_step];
    apply wp_lift_l; (eapply wp_mono; [|apply Hp]); intros t1 [x e'] Ht.
  - apply wp_ret. by exists t1, [].
  - destruct (request_log l); [|apply wp_ret, wp_ret; exists t1, []; by rewrite !app_nil_r].
    wp_step. apply wp_lift_r, wp_true. intros tl []. cbn. rewrite app_nil_r.
    eexists t1, _. split; [done|split; [reflexivity|]].
    rewrite app_nil_r. by apply Forall_fmap, Forall_true.
Qed.

Definition held (r : RuleEngine E) : Prop := state P (engine_of r).

Lemma judged_evidence (r : RuleEngine E) m url ip : held r ->
  wp (evaluate_with_context_and_ip r m url ip) (fun t '(x, r') => held r' /\
    (action x = Allow -> exists t1 tl, t = (inner_event <$> t1) ++ tl /\ Forall logging tl /\
                                      evidence P m url ip t1)).
Proof.
  intros Hr. eapply wp_mono; [|apply judged_by_engine]. intros t [x r'] (t1 & tl & Hp & -> & Hl).
  pose proof (promised P _ m url ip Hr) as He. rewrite wp_possible in He.
  destruct (He _ _ Hp) as [Hs Hx]. split; [exact Hs|]. intros Ha. exists t1, tl. auto.
Qed.

Lemma asked_held r r' : rtc asked r r' -> held r -> held r'.
Proof.
  induction 1 as [|r1 r2 r3 (m & url & ip & t & x & Hp) _ IH]; [done|]. intros Hr. apply IH.
  pose proof (judged_evidence r1 m url ip Hr) as Hj. rewrite wp_possible in Hj.
  by destruct (Hj _ _ Hp).
Qed.

Lemma upstream_handler (e : event HSig) : upstream (handler_event e) = sent e.
Proof. by destruct e as [[o|[req]] a]. Qed.

Lemma evidenced_app ip t t' : evidenced ip t -> evidenced ip t' -> evidenced ip (t ++ t').
Proof.
  intros Ht Ht'. apply precedes_app; [done|]. eapply precedes_mono; [|exact Ht'].
  intros pre req (url & t1 & tl & pre' & -> & Hr). exists url, t1, tl, (t ++ pre').
  by rewrite app_assoc.
Qed.

Lemma request_evidenced e0 nonce ip t1 : held e0 -> request_trace e0 nonce ip t1 ->
  evidenced ip (handler_event <$> t1).
Proof.
  intros He0 Ht.
  assert (Hq : forall t, omap sent t = [] -> omap upstream (handler_event <$> t) = []).
  { intros t <-. induction t as [|e t IH]; [done|]. csimpl. by rewrite upstream_handler, IH. }
  destruct Ht as [|m url t x (e & e' & t1 & He & Hp & ->)|m url t x u req a (e & e' & t1 & He & Hp & ->) Ha Hu Hr Hm _ _ _];
    [by apply precedes_none|apply precedes_none, Hq, sent_evals|].
  rewrite fmap_app. apply precedes_app; [apply precedes_none, Hq, sent_evals|].
  apply (precedes_single _ _ _ req); [done|].
  pose proof (judged_evidence e m url ip (asked_held _ _ He He0)) as Hj. rewrite wp_possible in Hj.
  destruct (Hj _ _ Hp) as [_ Hx]. destruct (Hx Ha) as (t2 & tl & -> & Hl & Hev).
  exists url, t2, tl, []. rewrite app_nil_r. by subst u m.
Qed.

Lemma mediated_evidenced e0 nonce ip t : held e0 -> mediated e0 nonce ip t -> evidenced ip t.
Proof.
  intros He0. induction 1 as [|o a t _ IH|t1 t Ht1 _ IH].
  - by apply precedes_none.
  - by apply (evidenced_app ip [_]); [apply precedes_none|].
  - apply evidenced_app; [|done]. by eapply request_evidenced.
Qed.

(** Both ports, for a proxy whose engine was built in a state it keeps and has
    answered any requests since. *)
Lemma connections_evidenced (re : RuleEngine E) (ctx : ProxyContext E) (n : nat) (remote : SocketAddr) :
  held re -> rtc asked re (rule_engine ctx) ->
  wp (handle_https_connection n ctx remote) (fun t _ => evidenced (show_ip (addr_ip remote)) t) /\
  wp (handle_http_connection n ctx remote) (fun t _ => evidenced (show_ip (addr_ip remote)) t).
Proof.
  intros Hre Ha. assert (Hs : started re (loop_nonce ctx) ctx) by (by split).
  split; (eapply wp_mono; [|by (apply https_connection_mediated || apply plain_http_mediated)]);
    intros t x [_ Ht]; by eapply mediated_evidenced.
Qed.

End Client.

(** ** What the engines promise *)

Section Engines.
Context `{V8} `{UrlLib} `{SerdeJson}.

(** A script ran for this request and exited with 0. *)
Definition shell_evidence (s : string) (m : Method) (url ip : string) (t : list (event ShellSig)) : Prop :=
  exists out, script_ran {| script := s |} m url ip out t /\ code (status out) = Some 0.

(** A child of the program was sent this request, and the line it answered
    permits it. *)
Definition proc_evidence (p : string) (m : Method) (url ip : string) (t : list (event ProcSig)) : Prop :=
  exists g ps json line, request_json m url ip = Some json /\ life p g t [(json, line)] ps /\
    (interpret line).1.1 = true.

(** The code found in the cell ran on this request to a value whose text
    permits it; what was stored in the cell before was read from the file, and
    without a file the cell was only read. *)
Definition js_evidence (path : option string) (m : Method) (url ip : string)
    (t : list (event JsSig)) : Prop :=
  exists t1 code mt,
    t = t1 ++ [@Ev JsSig JsLoad (code, mt); @Ev JsSig JsSpawnBlocking true] /\
    ((path = None -> t1 = []) /\ stores_what_was_read path t1) /\ permitted_by code m url ip.

Definition any_state (c : EngineChoice) (e : AnyEngine) : Prop :=
  match c, e with
  | UseShell s, ShellEngine e => e = {| script := s |}
  | UseProc p, ProcEngine e => proc_program e = p
  | UseJs _, JsEngine e => js_file_path e = None
  | UseJsFile path, JsEngine e => js_file_path e = Some path
  | _, _ => False
  end.

Definition any_evidence (c : EngineChoice) (m : Method) (url ip : string) (t : list (event AnySig)) : Prop :=
  match c with
  | UseShell s => exists t1, t = shell_event <$> t1 /\ shell_evidence s m url ip t1
  | UseProc p => exists t1, t = proc_event <$> t1 /\ proc_evidence p m url ip t1
  | UseJs _ => exists t1, t = js_event <$> t1 /\ js_evidence None m url ip t1
  | UseJsFile path => exists t1, t = js_event <$> t1 /\ js_evidence (Some path) m url ip t1
  end.

Lemma shell_promised (e : ShellRuleEngine) m url ip :
  wp (evaluate e m url ip) (fun t '(x, e') => e' = e /\
    (action x = Allow -> shell_evidence (script e) m url ip t)).
Proof.
  eapply wp_mono; [|apply shell_evaluate_spec]. intros t [x e'] (Hx & _ & _ & _ & ->).
  split; [done|]. rewrite Hx. by destruct e.
Qed.

Lemma evaluation_of_allow v : action (evaluation_of v) = Allow -> v.1.1 = true.
Proof. by destruct v as [[[] ?] ?]. Qed.

Lemma proc_promised (e : ProcRuleEngine) m url ip :
  wp (evaluate e m url ip) (fun t '(x, e') => proc_program e' = proc_program e /\
    (action x = Allow -> proc_evidence (proc_program e) m url ip t)).
Proof.
  eapply wp_mono; [|apply execute_program_life]. intros t [x e'] [-> Hx]. split; [done|].
  destruct Hx as [(json & line & Hj & -> & _ & Hl)|[Hd _]]; [|by rewrite Hd].
  intros Ha%evaluation_of_allow. by exists (process e), (process e'), json, line.
Qed.

Lemma js_promised (e : V8JsRuleEngine) m url ip :
  wp (evaluate e m url ip) (fun t '(x, e') => e' = e /\
    (action x = Allow -> js_evidence (js_file_path e) m url ip t)).
Proof.
  eapply wp_mono; [|apply js_evaluate_trace].
  intros t [x e'] (-> & t1 & code & mt & b & -> & Hp & ->). split; [done|].
  rewrite decision_permits. intros [-> Hr]. by exists t1, code, mt.
Qed.

Lemma any_promised (c : EngineChoice) (e : AnyEngine) m url ip : any_state c e ->
  wp (evaluate e m url ip) (fun t '(x, e') => any_state c e' /\
    (action x = Allow -> any_evidence c m url ip t)).
Proof.
  intros He. destruct e as [e|e|e]; cbn [evaluate any_engine any_evaluate]; wp_step.
  - apply wp_lift_l. eapply wp_mono; [|apply shell_promised].
    intros t [x e'] [-> Hx]. cbn. rewrite app_nil_r.
    destruct c; try done. cbn in *. subst e. eauto.
  - apply wp_lift_r, wp_lift_l. eapply wp_mono; [|apply proc_promised].
    intros t [x e'] [Hp Hx]. cbn. rewrite app_nil_r, <- list_fmap_compose.
    destruct c; try done. cbn in *. subst. split; [done|]. eauto.
  - apply wp_lift_r, wp_lift_r. eapply wp_mono; [|apply js_promised].
    intros t [x e'] [-> Hx]. cbn. rewrite app_nil_r, <- list_fmap_compose.
    destruct c; try done; cbn in *; rewrite He in Hx; split; eauto.
Qed.

Definition any_promise (c : EngineChoice) : Promise AnySig AnyEngine :=
  {| state := any_state c; evidence := any_evidence c; promised := any_promised c |}.

Lemma built_state c t e cell : built_for c t e cell -> any_state c e.
Proof. destruct c; cbn; [intros [-> _]|intros [-> _]|intros [-> _]|intros (? & ? & _ & -> & _)]; done. Qed.

End Engines.

(** ** The script [false] *)

Section DenyAll.
Context `{V8} `{UrlLib} `{SerdeJson}.

(** What JavaScript says of the literal [false]. *)
Definition false_literal : Prop := forall h src h1 sc h2 v h3,
  string_new "false" h = (Some src, h1) -> script_compile src h1 = (Some sc, h2) ->
  script_run sc h2 = (Some v, h3) ->
  is_object v = false /\ is_boolean v = true /\ boolean_value v = false.

Lemma false_denies m url ip : false_literal -> ~ permitted_by "false" m url ip.
Proof.
  intros Hf (i & s & h & l & _ & Hrun & Hs). destruct Hrun as [h0 json kt h1 o f h2 r h3 kr h4 b h5
    src h6 script h7 v h8 g _ _ _ _ _ _ _ Hsrc Hsc Hv Ht].
  destruct (Hf _ _ _ _ _ _ _ Hsrc Hsc Hv) as (Ho & Hb & Hbv).
  assert (s = "false") as ->. { destruct Ht as [|bv _ _ <-| |]; [congruence|by rewrite Hbv|congruence|done]. }
  pose proof (says_unique _ _ _ _ _ _ _ Hs (SaysFalse "false" eq_refl)) as [=].
Qed.

End DenyAll.

(** ** A run *)

Section Run.
Context {U H B : Type} `{HeaderMapLaws H} `{HeaderValues} `{UriOps U} `{TlsParser}.
Context `{V8} `{UrlLib} `{SerdeJson}.

Abbreviation CSig := (ConnSig (U := U) (H := H) (B := B) (Σ := AnySig)).

(** An event of the code's cell shows it unchanged. *)
Definition cell_reads (cell : JsCode) (e : event CSig) : Prop :=
  match e with
  | {| ev_op := inl (inl (inl (inr (inr JsLoad)))); ev_ans := c |} => c = cell
  | _ => True
  end.

(** The evidence of what was configured; for the code of [--js] it is a run of
    that very code. *)
Definition configured_evidence (c : EngineChoice) (m : Method) (url ip : string)
    (t : list (event AnySig)) : Prop :=
  match c with
  | UseJs code =>
      t = js_event <$> [@Ev JsSig JsLoad (code, None); @Ev JsSig JsSpawnBlocking true] /\
      permitted_by code m url ip
  | _ => any_evidence c m url ip t
  end.

(** What the cell of the built engine holds: the given code, or the text that
    was read from the given file. *)
Definition cell_holds (c : EngineChoice) (t : list (event BuildSig)) (cell : option JsCode) : Prop :=
  match c with
  | UseJs code => cell = Some (code, None)
  | UseJsFile path => exists code mt, cell = Some (code, mt) /\
      @Ev BuildSig (inl (ReadToString path)) (Ok code) ∈ t
  | _ => cell = None
  end.

(** The engine of [--js] never stores in its cell, so it reads what it was
    built with. *)
Definition cell_kept (c : EngineChoice) (e : event CSig) : Prop :=
  match c with UseJs code => cell_reads (code, None) e | _ => True end.

Lemma configured_evidenced c ip (t : list (event CSig)) :
  Forall (cell_kept c) t -> evidenced (any_promise c) ip t -> evidenced_by (configured_evidence c) ip t.
Proof.
  intros Hk Ht. destruct c as [s|p|code|path]; try exact Ht.
  intros pre ev post req -> Hev. destruct (Ht _ _ _ _ eq_refl Hev) as (url & t2 & tl & pre' & -> & Hl & Hj & Hu).
  exists url, t2, tl, pre'. split; [done|]. split; [done|]. split; [|done].
  destruct Hj as (t3 & -> & t4 & code' & mt & -> & [Ht4 _] & Hp).
  rewrite Ht4 in Hk |- * by done. rewrite !Forall_app in Hk. destruct Hk as [[_ Hk] _].
  do 2 rewrite fmap_app in Hk. apply Forall_app in Hk as [Hk _]. apply Forall_cons in Hk as [Hload _].
  by injection Hload as -> ->.
Qed.

Lemma built_cell c t e cell : built_for c t e cell -> cell_holds c t cell.
Proof. destruct c; cbn; [intros [_ ->]|intros [_ ->]|intros (_ & -> & _)|intros (? & ? & ? & _ & -> & _)]; eauto. Qed.

(** C2: from the command line to the network.  Whatever rules the command line
    gives, the engine built holds them, and the proxy that is started with it
    sends a request upstream, on any connection and after any history, only
    right after that engine found the evidence for it: the given script, started
    with this request's method, URL and client address in its variables, exited
    with 0; the given program was sent this request as JSON and answered a line
    that permits it; the code of [--js], that very code, ran on this request to a
    value whose text permits it; or, for a file, the code in the cell did, which
    is the text read from that file when the engine was built or at a reload.
    Between the two only the request log is written.  The cell of [--js], which
    nothing stores into, is taken to read what it was built with. *)
Theorem configured_rules_mediate (a : RuleArgs) :
  wp (build_rule_engine a) (fun tb r => match r with
    | Ok (re, cell) => cell_holds (choose_engine a) tb cell /\
        forall (ctx : ProxyContext AnyEngine) (n : nat) (remote : SocketAddr),
        rtc asked re (rule_engine ctx) ->
        let told (t : list (event CSig)) := Forall (cell_kept (choose_engine a)) t ->
          evidenced_by (configured_evidence (choose_engine a)) (show_ip (addr_ip remote)) t in
        wp (handle_https_connection n ctx remote) (fun t _ => told t) /\
        wp (handle_http_connection n ctx remote) (fun t _ => told t)
    | Err _ => True
    end).
Proof.
  eapply wp_mono; [|apply build_rule_engine_spec]. intros t [[re cell]|]; [|done].
  intros (e & -> & Hb). split; [by eapply built_cell|]. apply built_state in Hb.
  intros ctx n remote Hr told.
  destruct (connections_evidenced (U := U) (H := H) (B := B) (any_promise (choose_engine a))
    (from_trait e (is_some (request_log_path a))) ctx n remote) as [H1' H2']; [|done|].
  { unfold held. by destruct (is_some _). }
  split; (eapply wp_mono; [|eassumption]); intros t' x Ht Hk; by apply configured_evidenced.
Qed.

Lemma false_sends_nothing ip (t : list (event CSig)) : false_literal ->
  evidenced (any_promise (UseJs "false")) ip t ->
  Forall (cell_reads ("false", None)) t -> omap upstream t = [].
Proof.
  intros Hfalse Ht Hreads. apply (configured_evidenced (UseJs "false")) in Ht; [|done].
  destruct (omap upstream t) as [|req l] eqn:Eo; [done|exfalso].
  assert (Hin : req ∈ omap upstream t) by (rewrite Eo; by left).
  apply list_elem_of_omap in Hin as (ev & (pre & post & ->)%list_elem_of_split & Hev).
  destruct (Ht _ _ _ _ eq_refl Hev) as (url & t2 & tl & pre' & _ & _ & [_ Hp] & _).
  by apply (false_denies _ _ _ Hfalse) in Hp.
Qed.

(** C6: without rules nothing leaves.  With none of the four rule options, and
    whatever clients send, on either port, not one request is sent upstream. *)
Theorem no_rules_nothing_sent (a : RuleArgs) (Hfalse : false_literal)
    (Hnone : sh a = None /\ proc a = None /\ js a = None /\ js_file a = None) :
  wp (build_rule_engine a) (fun _ r => match r with
    | Ok (re, cell) => cell = Some ("false", None) /\
        forall (ctx : ProxyContext AnyEngine) (n : nat) (remote : SocketAddr),
        rtc asked re (rule_engine ctx) ->
        let silent (t : list (event CSig)) :=
          Forall (cell_reads ("false", None)) t -> omap upstream t = [] in
        wp (handle_https_connection n ctx remote) (fun t _ => silent t) /\
        wp (handle_http_connection n ctx remote) (fun t _ => silent t)
    | Err _ => True
    end).
Proof.
  assert (Hc : choose_engine a = UseJs "false")
    by (unfold choose_engine; by destruct Hnone as (-> & -> & -> & ->)).
  eapply wp_mono; [|apply build_rule_engine_spec]. intros t [[re cell]|]; [|done].
  rewrite Hc. intros (e & -> & Hb).
  split; [apply Hb|]. intros ctx n remote Hr silent.
  destruct (connections_evidenced (U := U) (H := H) (B := B) (any_promise (UseJs "false")) (from_trait e (is_some (request_log_path a))) ctx n remote)
    as [H1' H2']; [|done|].
  { apply built_state in Hb. unfold held. by destruct (is_some _). }
  split; (eapply wp_mono; [|eassumption]); intros t' x Ht Hl; by apply (false_sends_nothing (show_ip (addr_ip remote))).
Qed.

End Run.

(** ** Examples *)

Definition script_args : RuleArgs :=
  {| sh := Some "./rules.sh"; proc := None; js := None; js_file := None; request_log_path := None |}.

Definition no_args : RuleArgs :=
  {| sh := None; proc := None; js := None; js_file := None; request_log_path := None |}.

Definition code_args : RuleArgs :=
  {| sh := None; proc := None; js := Some "true"; js_file := None; request_log_path := None |}.

(** With [--sh], and with [--js true]. *)
Lemma configured_rules_mediate_witness :
  let held e := {| rule_engine := Plain e; loop_nonce := "deadbeef" |} in
  let https e := @handle_https_connection PlainUri assoc (LimitedBody.script unit unit) _ _ _ _ _ _
        (@any_engine toy_v8 any_url table_json) 2%nat (held e) example_peer in
  wp (https (ShellEngine {| script := "./rules.sh" |})) (fun t _ =>
    Forall (cell_kept (UseShell "./rules.sh")) t ->
    evidenced_by (@configured_evidence toy_v8 any_url table_json (UseShell "./rules.sh")) "127.0.0.1" t) /\
  wp (https (JsEngine {| js_file_path := None |})) (fun t _ =>
    Forall (cell_kept (UseJs "true")) t ->
    evidenced_by (@configured_evidence toy_v8 any_url table_json (UseJs "true")) "127.0.0.1" t).
Proof.
  intros held https. split.
  - exact (proj1 (proj2 (@configured_rules_mediate _ _ _ _ assoc_headers_laws _ _ _ toy_v8 any_url table_json
                  script_args) (held _) 2%nat example_peer (rtc_refl _ _))).
  - exact (proj1 (proj2 (@configured_rules_mediate _ _ _ _ assoc_headers_laws _ _ _ toy_v8 any_url table_json
                  code_args) (held _) 2%nat example_peer (rtc_refl _ _))).
Defined.

Lemma toy_false_literal : false_literal (H := toy_v8).
Proof. intros h src h1 sc h2 v h3 [= <- <-] [= <- <-] [= <- <-]. done. Qed.

Lemma no_rules_nothing_sent_witness :
  let ctx := {| rule_engine := Plain (JsEngine {| js_file_path := None |}); loop_nonce := "deadbeef" |} in
  wp (@handle_https_connection PlainUri assoc (LimitedBody.script unit unit) _ _ _ _ _ _
        (@any_engine toy_v8 any_url table_json) 2%nat ctx example_peer)
    (fun t _ => Forall (cell_reads ("false", None)) t -> omap upstream t = []).
Proof.
  intros ctx.
  exact (proj1 (proj2 (@no_rules_nothing_sent _ _ _ _ assoc_headers_laws _ _ _ toy_v8 any_url table_json
                  no_args toy_false_literal (conj eq_refl (conj eq_refl (conj eq_refl eq_refl)))) ctx 2%nat example_peer
                  (rtc_refl _ _))).
Defined.
