(* ===== verification/Concurrent.v ===== *)
(** * Connections at once ([src/proxy.rs], [src/proxy_tls.rs], [src/rules/proc.rs])

    Every connection is a task of its own, and all share one rule engine.  Here
    any number of them run interleaved, operation by operation, over a line
    processor behind its mutex ([ProcLock]); a connection may be dropped. *)

From S2P Require Import Prelude Effects Http LimitedBody Rules RuleCommon Process ShellRules ProcRules ProcLock Net Proxy ProxyTls Mediation.

(** ** What a connection does with the mutex *)

Inductive lock_action : Type :=
| Taken (g : option ProcessState)
| Released
| Used (e : event ProcSig).

Definition lock_action_of (e : event LockedSig) : lock_action :=
  match e with
  | {| ev_op := inl Lock; ev_ans := g |} => Taken g
  | {| ev_op := inl Unlock |} => Released
  | {| ev_op := inr o; ev_ans := r |} => Used (@Ev ProcSig o r)
  end.

Section Sections.
Context (p : string).

(** [recorded h l]: [l] is a sequence of critical sections, each the life of a
    child from what it found behind the mutex; each was entered when the history
    [h] of the child, from the start, was a life that had come to just that. *)
Inductive recorded (h : list (event ProcSig)) : list lock_action -> Prop :=
| recorded_nil : recorded h []
| recorded_section g t a g' h1 h2 a1 l :
    life p g t a g' -> h = h1 ++ t ++ h2 -> life p None h1 a1 g -> recorded h l ->
    recorded h (Taken g :: (Used <$> t) ++ Released :: l).

(** The same for one connection on its own. *)
Inductive sections : list lock_action -> Prop :=
| sections_nil : sections []
| sections_section g t a g' l :
    life p g t a g' -> sections l -> sections (Taken g :: (Used <$> t) ++ Released :: l).

Lemma recorded_sections h l : recorded h l -> sections l.
Proof. induction 1; econstructor; eauto. Qed.

Lemma recorded_grows h h' l : recorded h l -> recorded (h ++ h') l.
Proof.
  induction 1 as [|g t a g' h1 h2 a1 l Ht -> H1 _ IH]; econstructor; eauto.
  by rewrite <- !app_assoc.
Qed.

Lemma recorded_app h l l' : recorded h l -> recorded h l' -> recorded h (l ++ l').
Proof.
  induction 1; intros Hl'; [done|]. cbn. rewrite <- app_assoc. econstructor; eauto.
Qed.

Lemma sections_app l l' : sections l -> sections l' -> sections (l ++ l').
Proof.
  induction 1; intros Hl'; [done|]. cbn. rewrite <- app_assoc. econstructor; eauto.
Qed.

(** What comes after uses of the child, if the section is to end. *)
Lemma after_uses t t' e l l' : (Used <$> t) ++ e :: l = (Used <$> t') ++ Released :: l' ->
  (e = Released /\ t = t' /\ l = l') \/ exists x t'', e = Used x /\ t' = t ++ x :: t''.
Proof.
  revert t'. induction t as [|y t IH]; intros [|y' t']; csimpl; intros Heq; simplify_eq/=; eauto.
  destruct (IH t') as [(-> & -> & ->)|(x & t'' & -> & ->)]; [done|by left|right; by eauto].
Qed.

Lemma section_inv g l : sections (Taken g :: l) ->
  exists t a g' l', l = (Used <$> t) ++ Released :: l' /\ life p g t a g' /\ sections l'.
Proof. inversion 1; subst; eauto 8. Qed.

Lemma sections_cancel l l' : sections l -> sections (l ++ l') -> sections l'.
Proof.
  induction 1 as [|g t a g' l Ht Hl IH]; [done|]. cbn. rewrite <- app_assoc. cbn.
  intros (t' & a' & g'' & l'' & Heq & _ & Hl'')%section_inv.
  apply after_uses in Heq as [(_ & _ & <-)|(x & t'' & [=] & _)]. auto.
Qed.

(** Outside of a section only the taking of the lock can come next. *)
Lemma closed_next l e l' : sections l -> sections (l ++ e :: l') -> exists g, e = Taken g.
Proof. intros Hl He%sections_cancel; [|done]. inversion He; eauto. Qed.

(** Inside, only a use of the child, or the end of a life of it. *)
Lemma open_next l g t e l' : sections l -> sections (l ++ (Taken g :: (Used <$> t)) ++ e :: l') ->
  (e = Released /\ exists a g', life p g t a g') \/ exists x, e = Used x.
Proof.
  intros Hl He%sections_cancel; [|done].
  apply section_inv in He as (t' & a & g' & l'' & Heq & Ht & _).
  apply after_uses in Heq as [(-> & -> & _)|(x & t'' & -> & _)]; eauto.
Qed.

Lemma open_not_closed l g t : sections l -> ~ sections (l ++ Taken g :: (Used <$> t)).
Proof.
  intros Hl He%sections_cancel; [|done]. apply section_inv in He as (t' & a & g' & l' & Heq & _).
  assert (Hin : Released ∈ Used <$> t) by (rewrite Heq; set_solver).
  by apply list_elem_of_fmap in Hin as (x & [=] & _).
Qed.

Lemma section_further t l l0 g l1 : (Used <$> t) ++ Released :: l = l0 ++ Taken g :: l1 ->
  exists l0', l = l0' ++ Taken g :: l1.
Proof.
  revert l0. induction t as [|y t IH]; intros [|z l0]; csimpl; intros Heq; simplify_eq/=; eauto.
Qed.

(** A section found among recorded ones, and what was not finished yet. *)
Lemma recorded_in h l tl l0 g t l1 : recorded h l -> Released ∉ tl ->
  l ++ tl = l0 ++ Taken g :: (Used <$> t) ++ Released :: l1 ->
  exists h1 h2 a, h = h1 ++ t ++ h2 /\ life p None h1 a g.
Proof.
  intros Hl Htl. revert l0. induction Hl as [|g' t' a g'' h1 h2 a1 l Ht -> Hh _ IH]; intros l0.
  { cbn. intros ->. set_solver. }
  cbn. rewrite <- app_assoc. cbn. destruct l0 as [|x l0]; cbn; intros [= <- Heq].
  - apply after_uses in Heq as [(_ & <- & _)|(x & t'' & [=] & _)]. eauto.
  - apply section_further in Heq as [l0' Heq]. by apply (IH l0').
Qed.

End Sections.

(** ** One connection *)

Section Connection.
Context {U H B : Type} `{HeaderMapLaws H} `{HeaderValues} `{UriOps U} `{TlsParser}.
Context `{UrlLib} `{SerdeJson}.

Abbreviation HSig := (HandlerSig (U := U) (H := H) (B := B) (Σ := LockedSig)).
Abbreviation CSig := (ConnSig (U := U) (H := H) (B := B) (Σ := LockedSig)).

(** The connection's operations on the engine it shares. *)
Definition shared_event (e : event CSig) : option lock_action :=
  match e with
  | {| ev_op := inl (inl (inl o)); ev_ans := r |} => Some (lock_action_of (@Ev LockedSig o r))
  | _ => None
  end.

Definition actions (t : list (event CSig)) : list lock_action := omap shared_event t.

Lemma actions_app t t' : actions (t ++ t') = actions t ++ actions t'.
Proof. apply omap_app. Qed.

Definition engine_events (t : list (event LockedSig)) : list (event CSig) :=
  handler_event <$> (eval_event <$> (inner_event <$> t)).

Lemma actions_engine t : actions (engine_events t) = lock_action_of <$> t.
Proof. induction t as [|[o r] t IH]; [done|]. unfold actions, engine_events in *. csimpl. by rewrite IH. Qed.

Lemma actions_critical g t : actions (engine_events (critical g t)) = Taken g :: (Used <$> t) ++ [Released].
Proof.
  rewrite actions_engine. unfold critical. csimpl. rewrite fmap_app, <- list_fmap_compose. do 2 f_equal.
  apply list_fmap_ext. by intros i [o r] _.
Qed.

Lemma actions_logging tl : Forall logging tl -> actions (handler_event <$> (eval_event <$> tl)) = [].
Proof. induction 1 as [|[[o|o] r] tl Ho _ IH]; [done|done|exact IH]. Qed.

(** A child was sent this request, and the line it answered permits it. *)
Definition locked_evidence (p : string) (m : Method) (url ip : string) (t : list (event LockedSig)) : Prop :=
  exists g ts g' json line, t = critical g ts /\ request_json m url ip = Some json /\
    life p g ts [(json, line)] g' /\ (interpret line).1.1 = true.

Lemma locked_promised (p : string) (e : SharedProc) m url ip : shared_program e = p ->
  wp (evaluate e m url ip) (fun t '(x, e') => shared_program e' = p /\
    (action x = Allow -> locked_evidence p m url ip t)).
Proof.
  intros <-. eapply wp_mono; [|apply locked_evaluate_spec].
  intros t [x e'] [-> [[_ Hd]|(g & ts & g' & a & json & Hj & -> & Hl & Hx)]]; (split; [done|]); [by rewrite Hd|].
  destruct Hx as [[_ Hd]|(line & -> & ->)]; [by rewrite Hd|]. intros Ha%evaluation_of_allow.
  by exists g, ts, g', json, line.
Qed.

Definition locked_promise (p : string) : Promise LockedSig SharedProc :=
  {| state e := shared_program e = p; evidence := locked_evidence p; promised := locked_promised p |}.

Lemma judged_sections p (r : RuleEngine SharedProc) m url ip t x : held (locked_promise p) r ->
  possible (evaluate_with_context_and_ip r m url ip) t x ->
  sections p (actions (handler_event <$> (eval_event <$> t))).
Proof.
  intros Hr Ht. pose proof (judged_by_engine r m url ip) as Hj. rewrite wp_possible in Hj.
  specialize (Hj _ _ Ht). destruct x as [x r']. destruct Hj as (t1 & tl & Hp & -> & Hl).
  rewrite !fmap_app, actions_app, (actions_logging tl Hl), app_nil_r.
  pose proof (locked_evaluate_spec (engine_of r) m url ip) as He. rewrite wp_possible in He.
  destruct (He _ _ Hp) as [_ [[-> _]|(g & ts & g' & a & json & _ & -> & Hlife & _)]]; [constructor|].
  change (sections p (actions (engine_events (critical g ts)))). rewrite actions_critical.
  unfold held in Hr. cbn in Hr. rewrite <- Hr. econstructor; [exact Hlife|constructor].
Qed.

Lemma mediated_sections p (e0 : RuleEngine SharedProc) nonce ip (t : list (event CSig)) :
  held (locked_promise p) e0 -> mediated e0 nonce ip t -> sections p (actions t).
Proof.
  intros He0. assert (Hj : forall m url t x, judgement (U := U) (H := H) (B := B) e0 ip m url t x ->
    sections p (actions (handler_event <$> t))).
  { intros m url t' x (e & e' & t1 & He & Hp & ->). by eapply judged_sections; [eapply asked_held|]. }
  induction 1 as [|o a t _ IH|t1 t Ht1 _ IH]; [constructor|exact IH|].
  rewrite actions_app. apply sections_app; [|done].
  destruct Ht1 as [|m url t1 x Ht1|m url t1 x u req a Ht1 _ _ _ _ _ _]; [constructor|by eapply Hj|].
  rewrite fmap_app, actions_app, app_nil_r. by eapply Hj.
Qed.

(** Where a client connected, with what address, and how many requests its
    connection carries at most. *)
Record Client : Type := { https_port : bool; turns : nat; peer : SocketAddr }.

Definition client_ip (c : Client) : string := show_ip (addr_ip (peer c)).

Definition connection (ctx : ProxyContext SharedProc) (c : Client) : prog CSig (ConnEnd * ProxyContext SharedProc) :=
  if https_port c then handle_https_connection (turns c) ctx (peer c)
  else handle_http_connection (turns c) ctx (peer c).

(** What a connection does is critical sections, with evidence for all it
    sends. *)
Definition orderly (p ip : string) (t : list (event CSig)) : Prop :=
  sections p (actions t) /\ evidenced (locked_promise p) ip t.

Lemma connection_orderly p (ctx : ProxyContext SharedProc) (c : Client) :
  held (locked_promise p) (rule_engine ctx) ->
  wp (connection ctx c) (fun t _ => orderly p (client_ip c) t).
Proof.
  intros Hr. assert (Hs : started (rule_engine ctx) (loop_nonce ctx) ctx) by by split.
  unfold connection. destruct (https_port c);
    (eapply wp_mono; [|(apply https_connection_mediated || apply plain_http_mediated); [exact Hs|reflexivity]]);
    intros t x [_ Ht]; (split; [by eapply mediated_sections|by eapply mediated_evidenced]).
Qed.

#[local] Instance result_inhabited {A E} `{Inhabited E} : Inhabited (Result A E) := populate (Err inhabitant).
#[local] Instance error_inhabited : Inhabited Error := populate (Msg "").
#[local] Instance elapsed_inhabited : Inhabited Elapsed := populate elapsed.

Lemma connection_answers : answers CSig.
Proof. repeat apply answers_sum; intros []; cbn; by exists inhabitant. Qed.

(** ** The world they share *)

(** Who holds the mutex, what is behind it, and all that was done to children
    so far. *)
Record Shared : Type := {
  owner : option nat;
  content : option ProcessState;
  history : list (event ProcSig);
}.

Definition shared_start : Shared := {| owner := None; content := None; history := [] |}.

Definition engine_rel (i : nat) (o : op LockedSig) (w : Shared) : ans LockedSig o -> Shared -> Prop :=
  match o as o return (ans LockedSig o -> Shared -> Prop) with
  | inl Lock => fun g w' => owner w = None /\ g = content w /\
      w' = {| owner := Some i; content := content w; history := history w |}
  | inl Unlock => fun _ w' => w' = {| owner := None; content := content w; history := history w |}
  | inr o => fun r w' => w' =
      {| owner := owner w; content := guard_after (content w) (@Ev ProcSig o r);
         history := history w ++ [@Ev ProcSig o r] |}
  end.

(** Everything else is between the connection and its own peers. *)
Definition shared_rel (i : nat) (o : op CSig) (w : Shared) : ans CSig o -> Shared -> Prop :=
  match o as o return (ans CSig o -> Shared -> Prop) with
  | inl (inl (inl o)) => engine_rel i o w
  | _ => fun _ w' => w' = w
  end.

(** A connection dropped at any moment but inside an evaluation. *)
Definition dropped_outside (i : nat) (w w' : Shared) : Prop := owner w <> Some i /\ w' = w.

Lemma shared_rel_total i (o : op CSig) w :
  (o = inl (inl (inl (inl Lock))) -> owner w = None) -> exists r w', shared_rel i o w r w'.
Proof.
  intros Ho. destruct (connection_answers o) as [r _].
  destruct o as [[[[[|]|o]|o]|o]|o]; try (by exists r; eexists).
  exists (content w). eexists. split; [by apply Ho|done].
Qed.

(** ** The invariant *)

Section Pool.
Context (p : string) (clients : list Client).

Abbreviation ConnTask := (task CSig (ConnEnd * ProxyContext SharedProc)).

Definition ip_of (i : nat) : string := default "" (client_ip <$> clients !! i).

(** A task on its own: what it did was orderly so far, and will be to the end. *)
Definition task_ok (i : nat) (t : ConnTask) : Prop :=
  evidenced (locked_promise p) (ip_of i) (past t) /\
  forall q, rest t = Some q -> wp q (fun t' _ => orderly p (ip_of i) (past t ++ t')).

(** Its sections are all finished, or it is inside one: it holds the mutex,
    and its uses of the child are the last ones. *)
Definition outside (w : Shared) (t : ConnTask) : Prop := recorded p (history w) (actions (past t)).

Definition inside (w : Shared) (t : ConnTask) : Prop := exists l g used h a,
  actions (past t) = l ++ Taken g :: (Used <$> used) /\ recorded p (history w) l /\
  history w = h ++ used /\ life p None h a g /\ content w = foldl guard_after g used /\
  is_Some (rest t).

Definition pool_invariant (s : Shared * list ConnTask) : Prop :=
  (forall i t, s.2 !! i = Some t -> task_ok i t) /\
  (forall i t, s.2 !! i = Some t -> owner s.1 <> Some i -> outside s.1 t) /\
  match owner s.1 with
  | None => exists a, life p None (history s.1) a (content s.1)
  | Some i => exists t, s.2 !! i = Some t /\ inside s.1 t
  end.

(** What a task does next is orderly too. *)
Lemma task_next i t o k : task_ok i t -> rest t = Some (Do o k) -> forall r,
  task_ok i {| past := past t ++ [Ev o r]; rest := Some (k r) |} /\
  exists l, sections p (actions (past t) ++ actions [@Ev CSig o r] ++ l).
Proof.
  intros [_ Hq] Hr r. specialize (Hq _ Hr r).
  assert (Hk : wp (k r) (fun t' _ => orderly p (ip_of i) ((past t ++ [Ev o r]) ++ t'))).
  { eapply wp_mono; [|exact Hq]. intros t' x. by rewrite <- app_assoc. }
  destruct (wp_some _ _ connection_answers Hk) as (t' & x & Hs & He). split.
  - split; [|by intros q [= <-]]. intros pre e post b Heq Hb. eapply He; [|done].
    cbn in Heq. by rewrite Heq, <- app_assoc.
  - exists (actions t'). by rewrite <- !actions_app, app_assoc.
Qed.

(** One task moved, and the world with it. *)
Lemma invariant_insert w w' ts i t t' :
  ts !! i = Some t -> pool_invariant (w, ts) -> task_ok i t' ->
  (exists h, history w' = history w ++ h) ->
  (forall j, j <> i -> owner w' = Some j -> w' = w) ->
  (forall j, j <> i -> owner w = Some j -> owner w' = Some j) ->
  (owner w' <> Some i -> outside w' t') ->
  (owner w' = None -> exists a, life p None (history w') a (content w')) ->
  (owner w' = Some i -> inside w' t') ->
  pool_invariant (w', <[i := t']> ts).
Proof.
  intros Hi (Hok & Hout & Hown) Hok' [h Hh] Hsame Hkeep Hout' Hfree Hin'. cbn in *.
  assert (Hlt : (i < length ts)%nat) by (by eapply lookup_lt_Some).
  split; [|split]; cbn.
  - intros j tj Hj. destruct (decide (j = i)) as [->|Hji].
    + rewrite list_lookup_insert_eq in Hj by done. by simplify_eq.
    + rewrite list_lookup_insert_ne in Hj by done. by apply Hok.
  - intros j tj Hj Ho. destruct (decide (j = i)) as [->|Hji].
    + rewrite list_lookup_insert_eq in Hj by done. simplify_eq. by apply Hout'.
    + rewrite list_lookup_insert_ne in Hj by done. unfold outside. rewrite Hh.
      apply recorded_grows, (Hout j); [done|]. intros Hw. by apply Ho, Hkeep.
  - destruct (owner w') as [j|] eqn:Ew; [|by apply Hfree]. destruct (decide (j = i)) as [->|Hji].
    + exists t'. rewrite list_lookup_insert_eq by done. auto.
    + rewrite (Hsame j Hji eq_refl) in *. rewrite Ew in Hown. rewrite list_lookup_insert_ne by done. done.
Qed.

Lemma actions_shared (o : op LockedSig) (r : ans LockedSig o) :
  actions [@Ev CSig (inl (inl (inl o))) r] = [lock_action_of (@Ev LockedSig o r)].
Proof. done. Qed.

Lemma owner_dec (w : Shared) i : owner w = Some i \/ owner w <> Some i.
Proof. destruct (decide (owner w = Some i)); auto. Qed.

(** Operations that are not on the engine. *)
Lemma private_step w ts i t t' : ts !! i = Some t -> pool_invariant (w, ts) -> task_ok i t' ->
  actions (past t') = actions (past t) -> (owner w = Some i -> is_Some (rest t')) ->
  pool_invariant (w, <[i := t']> ts).
Proof.
  intros Hi Hinv Hok Ha Hr. pose proof Hinv as (_ & Hout & Hown). cbn in *.
  eapply invariant_insert; try done; [by exists []; rewrite app_nil_r|..].
  - intros Ho. unfold outside. rewrite Ha. by apply (Hout i).
  - intros Ho. by rewrite Ho in Hown.
  - intros Ho. rewrite Ho in Hown. destruct Hown as (t0 & Ht0 & l & g & used & h & a & Hp & Hin).
    simplify_eq. exists l, g, used, h, a. rewrite Ha. destruct Hin as (? & ? & ? & ? & _). auto 7.
Qed.

(** Operations on the engine. *)
Lemma engine_step w ts i (t : ConnTask) (o : op LockedSig) (r : ans LockedSig o)
    (k : ans LockedSig o -> prog CSig (ConnEnd * ProxyContext SharedProc)) w' :
  ts !! i = Some t -> pool_invariant (w, ts) ->
  rest t = Some (@Do CSig _ (inl (inl (inl o))) k) -> engine_rel i o w r w' ->
  pool_invariant (w', <[i := {| past := past t ++ [@Ev CSig (inl (inl (inl o))) r]; rest := Some (k r) |}]> ts).
Proof.
  intros Hi Hinv Hr Hrel. pose proof Hinv as (Hok & Hout & Hown). cbn [fst snd] in Hok, Hout, Hown.
  destruct (task_next i t (inl (inl (inl o))) k (Hok _ _ Hi) Hr r) as [Hok' [l' Hnext]]. rewrite actions_shared in Hnext.
  destruct (owner_dec w i) as [Ho|Ho].
  - rewrite Ho in Hown. destruct Hown as (t0 & Ht0 & l & g & used & h & a & Hp & Hrec & Hh & Hl & Hc & _).
    simplify_eq. rewrite Hp, <- app_assoc in Hnext.
    apply open_next in Hnext as [(Hact & a' & g' & Hlife)|(x & Hact)]; [| |by eapply recorded_sections].
    + destruct o as [[]|o]; [done| |done]. cbn in Hrel. subst w'.
      assert (Hg : content w = g') by (rewrite Hc; by eapply life_guard).
      eapply invariant_insert; try done; cbn; [by exists []; rewrite app_nil_r|by intros j Hj; rewrite Ho; intros [=]| |].
      * intros _. unfold outside. cbn. rewrite actions_app, Hp, actions_shared, <- app_assoc. cbn.
        apply recorded_app; [done|]. econstructor; [exact Hlife| |exact Hl|constructor].
        by rewrite Hh, app_nil_r.
      * intros _. exists (a ++ a'). rewrite Hh, Hg. by eapply life_app.
    + destruct o as [[]|o]; [done..|]. cbn in Hrel. subst w'. injection Hact as <-.
      eapply invariant_insert; try done; cbn; [by eexists|by intros j Hj; rewrite Ho; intros [=]|by rewrite Ho|].
      intros _. exists l, g, (used ++ [@Ev ProcSig o r]), h, a. cbn.
      split; [by rewrite actions_app, Hp, actions_shared, fmap_app, <- app_assoc|].
      split; [by apply recorded_grows|]. split; [by rewrite Hh, <- app_assoc|].
      by rewrite foldl_snoc, Hc.
  - assert (Hrec := Hout i _ Hi Ho). pose proof Hnext as [g Hg]%closed_next; [|by eapply recorded_sections].
    destruct o as [[]|o]; [|done..]. injection Hg as ->. destruct Hrel as (Hfree & -> & ->).
    rewrite Hfree in Hown. destruct Hown as [a Ha].
    eapply invariant_insert; try done; cbn; [by exists []; rewrite app_nil_r|by intros j Hj [= ->]|by rewrite Hfree|].
    intros _. exists (actions (past t)), (content w), [], (history w), a. cbn.
    by rewrite actions_app, app_nil_r.
Qed.

Lemma invariant_step s s' : task_step shared_rel dropped_outside s s' -> pool_invariant s -> pool_invariant s'.
Proof.
  destruct 1 as [i t o k r w w' ts Hi Hrel|i t q w w' ts Hi [Ho ->]]; intros Hinv.
  - pose proof (proj1 (task_next i _ o k (proj1 Hinv _ _ Hi) eq_refl r)) as Hok.
    destruct o as [[[o|o]|o]|o];
      [exact (engine_step w ts i (Task t (Some (Do _ k))) o r k w' Hi Hinv eq_refl Hrel)|..];
      cbn in Hrel; subst w'; (eapply private_step; [exact Hi|done|exact Hok| |done]);
      cbn [past]; by rewrite actions_app, app_nil_r.
  - eapply private_step; [exact Hi|done| |done|done]. split; [|done]. apply (proj1 Hinv _ _ Hi).
Qed.

Lemma invariant_reachable s s' : rtc (task_step shared_rel dropped_outside) s s' ->
  pool_invariant s -> pool_invariant s'.
Proof. induction 1; eauto using invariant_step. Qed.

Lemma invariant_start (ctx : ProxyContext SharedProc) : held (locked_promise p) (rule_engine ctx) ->
  pool_invariant (shared_start, fresh_task <$> (connection ctx <$> clients)).
Proof.
  intros Hc. split; [|split]; cbn [fst snd].
  - intros i t. rewrite !list_lookup_fmap. unfold task_ok, ip_of.
    destruct (clients !! i) as [c|]; [|done]. intros [= <-]. split; [by apply precedes_none|].
    intros q [= <-]. by apply connection_orderly.
  - intros i t. rewrite !list_lookup_fmap. destruct (clients !! i) as [c|]; [|done]. intros [= <-] _. constructor.
  - exists []. constructor.
Qed.

(** ** Consequences *)

(** In the history of the children, this request was written to a child that
    had nothing else to answer, and the line it answered permits it. *)
Definition child_permitted (h : list (event ProcSig)) (req : Request U H (BoxBody B)) (ip : string) : Prop :=
  exists url json line h1 used h2 a g g',
    uri_parse url = Ok (req_uri req) /\ request_json (req_method req) url ip = Some json /\
    (interpret line).1.1 = true /\ h = h1 ++ used ++ h2 /\
    life p None h1 a g /\ life p g used [(json, line)] g'.

(** Whatever a task finished is in the history, whole. *)
Lemma finished_recorded w ts i t l g used l' : pool_invariant (w, ts) -> ts !! i = Some t ->
  actions (past t) = l ++ Taken g :: (Used <$> used) ++ Released :: l' ->
  exists h1 h2 a, history w = h1 ++ used ++ h2 /\ life p None h1 a g.
Proof.
  intros (_ & Hout & Hown) Hi Ha. cbn [fst snd] in *. destruct (owner_dec w i) as [Ho|Ho].
  - rewrite Ho in Hown. destruct Hown as (t0 & Ht0 & l1 & g1 & used1 & h & a & Hp & Hrec & _). simplify_eq.
    eapply recorded_in; [exact Hrec| |by rewrite <- Hp]. rewrite elem_of_cons, list_elem_of_fmap.
    by intros [[=]|(x & [=] & _)].
  - eapply (recorded_in p (history w) _ []); [exact (Hout i _ Hi Ho)| |rewrite app_nil_r; exact Ha].
    apply not_elem_of_nil.
Qed.

Lemma sent_permitted w ts i t pre ev post req : pool_invariant (w, ts) -> ts !! i = Some t ->
  past t = pre ++ ev :: post -> upstream ev = Some req -> child_permitted (history w) req (ip_of i).
Proof.
  intros Hinv Hi Hpast Hev. destruct (proj1 Hinv i t Hi) as [Hevid _].
  destruct (Hevid _ _ _ _ Hpast Hev) as (url & t1 & tl & pre' & -> & Hl & (g & used & g' & json & line & -> & Hj & Hlife & Ha) & Hu).
  destruct (finished_recorded w ts i t (actions pre') g used (actions (ev :: post)) Hinv Hi) as (h1 & h2 & a & Hh & Hl1).
  { rewrite Hpast, !actions_app, !fmap_app, actions_app, (actions_logging tl Hl), app_nil_r.
    change (handler_event <$> (eval_event <$> (inner_event <$> critical g used))) with (engine_events (critical g used)).
    rewrite actions_critical, <- app_assoc. cbn. by rewrite <- app_assoc. }
  exists url, json, line, h1, used, h2, a, g, g'. auto 10.
Qed.

(** Somebody can always go on. *)
Lemma pool_moves w ts i t o k : pool_invariant (w, ts) -> ts !! i = Some t -> rest t = Some (Do o k) ->
  exists s', task_step shared_rel never_dropped (w, ts) s'.
Proof.
  intros Hinv Hi Hr. pose proof Hinv as (Hok & _ & Hown). cbn [fst snd] in *.
  assert (Hgo : forall j tj o k, ts !! j = Some tj -> rest tj = Some (Do o k) ->
    (o = inl (inl (inl (inl Lock))) -> owner w = None) -> exists s', task_step shared_rel never_dropped (w, ts) s').
  { intros j [tj q] o' k' Hj Hq Hlock. cbn in Hq. subst q.
    destruct (shared_rel_total j o' w Hlock) as (r & w' & Hrel). eexists. by eapply task_do. }
  destruct (owner w) as [j|] eqn:Ho; [|exact (Hgo i t o k Hi Hr (fun _ => eq_refl))].
  destruct Hown as (tj & Hj & l & g & used & h & a & Hp & Hrec%recorded_sections & _ & _ & _ & [q Hq]).
  destruct q as [x|o' k'].
  - exfalso. destruct (Hok _ _ Hj) as [_ Hend]. destruct (Hend _ Hq) as [Hs _].
    rewrite app_nil_r, Hp in Hs. exact (open_not_closed p l g used Hrec Hs).
  - eapply Hgo; [exact Hj|exact Hq|]. intros ->. exfalso.
    destruct (task_next j tj _ k' (Hok _ _ Hj) Hq (content w)) as [_ [l' Hnext]].
    rewrite actions_shared, Hp, <- app_assoc in Hnext.
    by apply open_next in Hnext as [([=] & _)|(x & [=])].
Qed.

End Pool.

(** C3: connections at once, one line processor.  Any number of clients are
    connected, to either port; their connections run interleaved, operation by
    operation, over one child behind its mutex, whatever it answers and whenever
    it fails; and a connection may be dropped at any moment but inside an
    evaluation.  Whatever any connection sends upstream, its own request, with
    its own client's address, was written to a child that owed no other answer,
    and the line that child answered to it permits it.  And they never deadlock:
    as long as a connection is not done, some connection can go on. *)
Theorem connections_share_processor (ctx : ProxyContext SharedProc) (clients : list Client)
    (w : Shared) (ts : list (task CSig (ConnEnd * ProxyContext SharedProc)))
    (Hrun : rtc (task_step shared_rel dropped_outside)
              (shared_start, fresh_task <$> (connection ctx <$> clients)) (w, ts)) :
  let p := shared_program (engine_of (rule_engine ctx)) in
  (forall i c t pre ev post req, clients !! i = Some c -> ts !! i = Some t ->
     past t = pre ++ ev :: post -> upstream ev = Some req ->
     child_permitted p (history w) req (client_ip c)) /\
  (forall i t o k, ts !! i = Some t -> rest t = Some (Do o k) ->
     exists s', task_step shared_rel never_dropped (w, ts) s').
Proof.
  intros p. assert (Hinv : pool_invariant p clients (w, ts))
    by (eapply invariant_reachable; [exact Hrun|by apply invariant_start]).
  split; [|by intros; eapply pool_moves].
  intros i c t pre ev post req Hc Hi Hpast Hev.
  pose proof (sent_permitted p clients w ts i t pre ev post req Hinv Hi Hpast Hev) as Hs.
  unfold ip_of in Hs. by rewrite Hc in Hs.
Qed.

End Connection.

(** ** Example

    Two clients on the HTTP port.  The second one's request waits for the mutex
    while the first one's is judged; both are sent. *)

Definition shared_context : ProxyContext SharedProc :=
  {| rule_engine := Plain {| shared_program := "./rules" |}; loop_nonce := "deadbeef" |}.

Definition two_clients : list Client :=
  [{| https_port := false; turns := 1; peer := example_peer |};
   {| https_port := false; turns := 1; peer := example_peer |}].

Section Example.

Abbreviation Body := (LimitedBody.script unit unit).
Abbreviation CSig := (ConnSig (U := PlainUri) (H := assoc) (B := Body) (Σ := LockedSig)).
Abbreviation ConnTask := (task CSig (ConnEnd * ProxyContext SharedProc)).

Definition child_answer (o : op ProcSig) : ans ProcSig o :=
  match o with
  | ProcTryWait _ => Ok None
  | ProcSpawn _ => Ok {| child_id := 7; child_stdin := Some 8; child_stdout := Some 9 |}
  | ProcKill _ => tt
  | ProcWriteAll _ _ => Ok tt
  | ProcFlush _ => Ok tt
  | ProcReadLine _ _ => Ok (Ok ("true" +:+ LF))
  end.

Definition engine_answer (w : Shared) (o : op LockedSig) : ans LockedSig o :=
  match o with inl Lock => content w | inl Unlock => tt | inr o => child_answer o end.

Definition log_answer (o : op LogSig) : ans LogSig o :=
  match o with LogLock => false | UtcNow => "" | LogWriteln _ => Ok tt end.

Definition tls_answer (o : op (TlsSig PlainUri assoc Body)) : ans (TlsSig PlainUri assoc Body) o :=
  match o with
  | Peek _ _ => Err elapsed
  | ConnReadLine _ => Err elapsed
  | ElapsedNanos => 0
  | ConnWriteFlush _ _ => Err elapsed
  | GetCertForHost _ => Ok tt
  | WithSingleCert => Ok tt
  | AcceptTls _ => Err elapsed
  | NextRequest => Ok (Some example_request)
  | SendResponse _ => tt
  end.

Definition example_answer (w : Shared) (o : op CSig) : ans CSig o :=
  match o with
  | inl (inl (inl o)) => engine_answer w o
  | inl (inl (inr o)) => log_answer o
  | inl (inr _) => Err (Msg "unreachable")
  | inr o => tls_answer o
  end.

Definition engine_next (i : nat) (w : Shared) (o : op LockedSig) (r : ans LockedSig o) : Shared :=
  match o as o return (ans LockedSig o -> Shared) with
  | inl Lock => fun _ => {| owner := Some i; content := content w; history := history w |}
  | inl Unlock => fun _ => {| owner := None; content := content w; history := history w |}
  | inr o => fun r => {| owner := owner w; content := guard_after (content w) (@Ev ProcSig o r);
                         history := history w ++ [@Ev ProcSig o r] |}
  end r.

(** The task of each turn goes on, unless it waits for the mutex. *)
Definition turn (i : nat) (s : Shared * list ConnTask) : Shared * list ConnTask :=
  let '(w, ts) := s in
  match ts !! i with
  | Some (Task t (Some (Do o k))) =>
      let r := example_answer w o in
      let ts' := <[i := Task (t ++ [Ev o r]) (Some (k r))]> ts in
      match o as o return (ans CSig o -> Shared * list ConnTask) with
      | inl (inl (inl o)) => fun r =>
          if match o with inl Lock => bool_decide (owner w <> None) | _ => false end
          then s else (engine_next i w o r, ts')
      | _ => fun _ => (w, ts')
      end r
  | _ => s
  end.

Lemma turn_step i s : rtc (task_step shared_rel dropped_outside) s (turn i s).
Proof.
  destruct s as [w ts]. unfold turn. destruct (ts !! i) as [[t [[x|o k]|]]|] eqn:Hi; [done| |done..].
  destruct o as [[[o|o]|o]|o]; [|by apply rtc_once; eapply (task_do shared_rel); [exact Hi|]..].
  destruct o as [[|]|o]; [case_bool_decide as Ho; [done|]|..];
    apply rtc_once; (eapply (task_do shared_rel); [exact Hi|]); try done.
Qed.

Definition run_turns (l : list nat) (s : Shared * list ConnTask) : Shared * list ConnTask :=
  foldl (fun s i => turn i s) s l.

Lemma run_turns_steps l s : rtc (task_step shared_rel dropped_outside) s (run_turns l s).
Proof.
  revert s. induction l as [|i l IH]; intros s; [done|]. cbn.
  etrans; [apply turn_step|apply IH].
Qed.

Definition two_start : Shared * list ConnTask :=
  (shared_start,
   fresh_task <$> (connection (H5 := any_url) (H6 := table_json) shared_context <$> two_clients)).

Definition two_end : Shared * list ConnTask :=
  run_turns ([0; 1; 0; 1; 0; 1; 0; 1; 0; 0; 0; 0; 1; 1; 1; 1; 1; 1; 1; 0; 1; 0; 1]%nat) two_start.

Example both_were_sent : (fun t => length (omap upstream (past t))) <$> two_end.2 = [1; 1]%nat.
Proof. by vm_compute. Qed.

Lemma connections_share_processor_witness : exists w ts, two_end = (w, ts) /\
  (fun t => length (omap upstream (past t))) <$> ts = [1; 1]%nat /\
  forall i c t pre ev post req, two_clients !! i = Some c -> ts !! i = Some t ->
    past t = pre ++ ev :: post -> upstream ev = Some req ->
    child_permitted (H5 := any_url) (H6 := table_json) "./rules" (history w) req (client_ip c).
Proof.
  pose proof both_were_sent as Hsent. pose proof (run_turns_steps _ _ : rtc _ two_start two_end) as Hrun.
  destruct two_end as [w ts]. exists w, ts. split; [done|]. split; [exact Hsent|].
  exact (proj1 (connections_share_processor (H5 := any_url) (H6 := table_json) shared_context two_clients w ts Hrun)).
Defined.

End Example.
