(* ===== verification/Tls.v ===== *)
(** * Certificates ([src/tls.rs])

    The CA on disk, and a certificate per intercepted host, kept in a cache
    that all connections share.  Key pairs and certificates are those of
    [rcgen]; the cache is an [lru] cache behind a lock. *)

From stdpp Require Import gmap.
From S2P Require Import Prelude Effects Paths.

Definition CERT_CACHE_SIZE : Z := 1024.

(** ** [rcgen] *)

Inductive DnType : Type := CountryName | OrganizationName | CommonName.
Inductive KeyUsagePurpose : Type := DigitalSignature | KeyAgreement | KeyCertSign | CrlSign.
Inductive ExtendedKeyUsagePurpose : Type := ServerAuth.
Inductive SanType : Type := DnsName (name : string).

(** [DateTime] is the library's point in time. *)
Record CertificateParams (DateTime : Type) : Type := mkParams {
  is_ca : bool;                              (** [IsCa::Ca(BasicConstraints::Unconstrained)] *)
  distinguished_name : list (DnType * string);
  key_usages : list KeyUsagePurpose;
  extended_key_usages : list ExtendedKeyUsagePurpose;
  subject_alt_names : list SanType;
  serial_number : option (list Z);
  not_before : DateTime;
  not_after : DateTime;
}.
Arguments mkParams {DateTime}.
Arguments is_ca {DateTime} _.
Arguments distinguished_name {DateTime} _.
Arguments key_usages {DateTime} _.
Arguments extended_key_usages {DateTime} _.
Arguments subject_alt_names {DateTime} _.
Arguments serial_number {DateTime} _.
Arguments not_before {DateTime} _.
Arguments not_after {DateTime} _.

(** What the manager uses of the certificate libraries.  [date_time_ymd] panics
    on a date that is none.  [signed params subject issuer issuer_key c]: [c] is
    a certificate for [params] and the key [subject], signed by the issuer. *)
Class Rcgen := {
  DateTime : Type;
  KeyPair : Type;
  Certificate : Type;
  PrivateKeyDer : Type;
  default_params : CertificateParams DateTime;
  params_new : list string -> Result (CertificateParams DateTime) Error;
  ia5_string : string -> Result string Error;
  date_time_ymd : Z -> Z -> Z -> option DateTime;
  key_from_pem : string -> Result KeyPair Error;
  key_to_pem : KeyPair -> string;
  key_to_der : KeyPair -> string;
  private_key_der : string -> Result PrivateKeyDer Error;
  cert_pem : Certificate -> string;
  cert_der : Certificate -> string;
  self_signed : CertificateParams DateTime -> KeyPair -> Certificate -> Prop;
  signed : CertificateParams DateTime -> KeyPair -> Certificate -> KeyPair -> Certificate -> Prop;
}.

(** A day of the calendar. *)
Definition is_leap (y : Z) : bool :=
  (y mod 4 =? 0) && (negb (y mod 100 =? 0) || (y mod 400 =? 0)).

Definition days_in_month (y m : Z) : Z :=
  if m =? 2 then if is_leap y then 29 else 28
  else if (m =? 4) || (m =? 6) || (m =? 9) || (m =? 11) then 30 else 31.

Definition valid_date (y m d : Z) : bool :=
  (1 <=? m) && (m <=? 12) && (1 <=? d) && (d <=? days_in_month y m).

(** The documented behaviour relied on: keys survive PEM, and dates exist
    exactly when the calendar has them. *)
Class RcgenLaws (R : Rcgen) : Prop := {
  key_pem_roundtrip k : key_from_pem (key_to_pem k) = Ok k;
  date_valid y m d : is_Some (date_time_ymd y m d) <-> valid_date y m d = true;
}.

(** ** Operations *)

Section Tls.
Context `{R : Rcgen}.

Definition Chain : Type := list string.

Inductive tls_op : Type :=
| ConfigDir                                  (** [dirs::config_dir] *)
| HomeDir                                    (** [dirs::home_dir] *)
| TlsEnvVar (name : string)
| TlsCreateDirAll (path : string)
| TlsExists (path : string)
| TlsRead (path : string)
| TlsWrite (path contents : string)
| TlsMetadata (path : string)
| TlsSetMode (path : string) (mode : Z)
| GenerateKey
| SelfSign (params : CertificateParams DateTime) (key : KeyPair)
| Sign (params : CertificateParams DateTime) (subject : KeyPair) (issuer : Certificate)
    (issuer_key : KeyPair)
| UtcToday                                   (** year, month, day *)
| CacheGet (host : string)                   (** under the lock *)
| CachePut (host : string) (chain : Chain).

Definition TlsSig : Sig :=
  {| op := tls_op;
     ans o := match o with
              | ConfigDir | HomeDir | TlsEnvVar _ => option string
              | TlsCreateDirAll _ | TlsWrite _ _ | TlsMetadata _ | TlsSetMode _ _ => Result unit Error
              | TlsExists _ => bool
              | TlsRead _ => Result string Error
              | GenerateKey => Result KeyPair Error
              | SelfSign _ _ | Sign _ _ _ _ => Result Certificate Error
              | UtcToday => (Z * Z * Z)%type
              | CacheGet _ => option Chain
              | CachePut _ _ => unit
              end |}.

Definition tls (o : op TlsSig) : prog TlsSig (ans TlsSig o) := perform o.

(** An operation whose failure gets a context. *)
Definition tls_context {A} (c : string) (p : prog TlsSig (Result A Error)) : prog TlsSig (Result A Error) :=
  r ⇐ p; Ret (Result.context c r).

Definition utf8_path (p : string) : Result string Error :=
  Result.ok_or (from_utf8 p) (Msg "Config directory path is not valid UTF-8").

(** ** The CA *)

Record CertificateManager : Type := {
  ca_cert : Certificate;
  ca_key_pair : KeyPair;
  server_key_pair : KeyPair;
  server_key_der : PrivateKeyDer;
  manager_config_dir : option string;
}.

Definition ca_params : CertificateParams DateTime :=
  let p := default_params in
  mkParams true
    [(CountryName, "US"); (OrganizationName, "httpjail"); (CommonName, "httpjail CA")]
    [DigitalSignature; KeyCertSign; CrlSign]
    (extended_key_usages p) (subject_alt_names p) (serial_number p) (not_before p) (not_after p).

Definition default_config_dir : prog TlsSig (Result string Error) :=
  dir ⇐ tls ConfigDir;
  Ret (match dir with
       | Some d => utf8_path (path_join d "httpjail")
       | None => Err (Msg "Could not find user config directory")
       end).

Definition load_ca (ca_cert_path ca_key_path : string) : prog TlsSig (Result (Certificate * KeyPair) Error) :=
  _cert_pem ⇐? tls_context "Failed to read CA certificate" (tls (TlsRead ca_cert_path));
  key_pem ⇐? tls_context "Failed to read CA key" (tls (TlsRead ca_key_path));
  key_pair ⇐? Ret (Result.context "Failed to parse CA key" (key_from_pem key_pem));
  ca_cert ⇐? tls_context "Failed to recreate CA certificate" (tls (SelfSign ca_params key_pair));
  Ret (Ok (ca_cert, key_pair)).

Definition generate_ca (ca_cert_path ca_key_path : string)
    : prog TlsSig (Result (Certificate * KeyPair) Error) :=
  ca_key_pair ⇐? tls GenerateKey;
  ca_cert ⇐? tls_context "Failed to generate CA certificate" (tls (SelfSign ca_params ca_key_pair));
  _ ⇐? tls_context "Failed to write CA certificate" (tls (TlsWrite ca_cert_path (cert_pem ca_cert)));
  _ ⇐? tls_context "Failed to write CA key" (tls (TlsWrite ca_key_path (key_to_pem ca_key_pair)));
  _ ⇐? tls (TlsMetadata ca_key_path);
  _ ⇐? tls (TlsSetMode ca_key_path 384);     (* 0o600 *)
  Ret (Ok (ca_cert, ca_key_pair)).

Definition load_or_generate_ca_with_dir (config_dir : option string)
    : prog TlsSig (Result (Certificate * KeyPair) Error) :=
  config_dir ⇐? match config_dir with
                | Some dir => Ret (Ok dir)
                | None => default_config_dir
                end;
  _ ⇐? tls_context "Failed to create config directory" (tls (TlsCreateDirAll config_dir));
  let ca_cert_path := path_join config_dir "ca-cert.pem" in
  let ca_key_path := path_join config_dir "ca-key.pem" in
  cert_exists ⇐ tls (TlsExists ca_cert_path);
  key_exists ⇐ (if (cert_exists : bool) then tls (TlsExists ca_key_path) else Ret false);
  if (key_exists : bool) then load_ca ca_cert_path ca_key_path
  else generate_ca ca_cert_path ca_key_path.

Definition with_config_dir (config_dir : option string)
    : prog TlsSig (Result CertificateManager Error) :=
  ca ⇐? load_or_generate_ca_with_dir config_dir;
  let '(ca_cert, ca_key_pair) := ca in
  server_key_pair ⇐? tls_context "Failed to generate server key pair" (tls GenerateKey);
  server_key_der ⇐? Ret (Result.map_err (fun _ => Msg "Failed to convert private key to DER")
                           (private_key_der (key_to_der server_key_pair)));
  Ret (Ok {| ca_cert := ca_cert; ca_key_pair := ca_key_pair; server_key_pair := server_key_pair;
             server_key_der := server_key_der; manager_config_dir := config_dir |}).

Definition manager_new : prog TlsSig (Result CertificateManager Error) := with_config_dir None.

Definition is_ca_trusted : bool := true.

(** ** A host's certificate *)

(** From today to the same day of the next year, at most 2049; [None] is a
    panic. *)
Definition validity (today : Z * Z * Z) : option (DateTime * DateTime) :=
  let '(year, month, day) := today in
  let end_year := Z.min (year + 1) 2049 in
  not_before ← date_time_ymd year month day;
  not_after ← date_time_ymd end_year month day;
  Some (not_before, not_after).

Definition leaf_params (base : CertificateParams DateTime) (hostname name : string)
    (nb na : DateTime) : CertificateParams DateTime :=
  mkParams (is_ca base) [(CommonName, hostname)] [DigitalSignature; KeyAgreement] [ServerAuth]
    [DnsName name] (Some [1; 2; 3; 4]) nb na.

(** [None] is a panic. *)
Definition get_cert_for_host (m : CertificateManager) (hostname : string)
    : prog TlsSig (option (Result (Chain * PrivateKeyDer) Error)) :=
  cached ⇐ tls (CacheGet hostname);
  match cached with
  | Some cert_chain => Ret (Some (Ok (cert_chain, server_key_der m)))
  | None =>
      match params_new [hostname], ia5_string hostname with
      | Err e, _ => Ret (Some (Err (WithContext "Failed to create certificate params" e)))
      | Ok _, Err e => Ret (Some (Err e))
      | Ok params, Ok name =>
          today ⇐ tls UtcToday;
          match validity today with
          | None => Ret None
          | Some (nb, na) =>
              cert ⇐ tls (Sign (leaf_params params hostname name nb na) (server_key_pair m)
                            (ca_cert m) (ca_key_pair m));
              match cert with
              | Err e => Ret (Some (Err e))
              | Ok cert =>
                  let cert_chain := [cert_der cert; cert_der (ca_cert m)] in
                  _ ⇐ tls (CachePut hostname cert_chain);
                  Ret (Some (Ok (cert_chain, server_key_der m)))
              end
          end
      end
  end.

Definition get_ca_cert_pem (m : CertificateManager) : string := cert_pem (ca_cert m).
Definition get_ca_cert_der (m : CertificateManager) : string := cert_der (ca_cert m).

(** ** Where clients find the CA *)

Definition get_ca_cert_path : prog TlsSig (Result string Error) :=
  config_dir ⇐? default_config_dir;
  Ret (Ok (path_join config_dir "ca-cert.pem")).

(** The places looked at when the user's configuration has no CA. *)
Definition possible_paths : prog TlsSig (list string) :=
  sudo_user ⇐ tls (TlsEnvVar "SUDO_USER");
  first ⇐ match sudo_user with
          | None => Ret None
          | Some sudo_user =>
              home ⇐ tls HomeDir;
              Ret (home ← home;
                   let parent := match path_parent home with Some p => p | None => home end in
                   Some (path_join (path_join parent sudo_user) ".config/httpjail/ca-cert.pem"))
          end;
  Ret (match first with Some p => [p] | None => [] end ++
       ["/home/runner/.config/httpjail/ca-cert.pem"; "/root/.config/httpjail/ca-cert.pem"]).

(** The first that exists replaces the path. *)
Fixpoint first_existing (ca_path : string) (paths : list string) : prog TlsSig (Result string Error) :=
  match paths with
  | [] => Ret (Ok ca_path)
  | path :: rest =>
      exists_ ⇐ tls (TlsExists path);
      if (exists_ : bool)
      then Ret (Result.ok_or (from_utf8 path) (Msg "CA cert path is not valid UTF-8"))
      else first_existing ca_path rest
  end.

Definition ca_env_vars (ca_path : string) : list (string * string) :=
  let ca_dir := match path_parent ca_path with Some p => p | None => "." end in
  [("SSL_CERT_FILE", ca_path); ("SSL_CERT_DIR", ca_dir); ("CURL_CA_BUNDLE", ca_path);
   ("GIT_SSL_CAINFO", ca_path); ("REQUESTS_CA_BUNDLE", ca_path); ("NODE_EXTRA_CA_CERTS", ca_path);
   ("DENO_CERT", ca_path)].

Definition get_ca_env_vars : prog TlsSig (Result (list (string * string)) Error) :=
  ca_path ⇐? get_ca_cert_path;
  found ⇐ tls (TlsExists ca_path);
  ca_path ⇐? (if (found : bool) then Ret (Ok ca_path)
              else
                paths ⇐ possible_paths;
                ca_path ⇐? first_existing ca_path paths;
                exists_ ⇐ tls (TlsExists ca_path);
                Ret (if (exists_ : bool) then Ok ca_path
                     else Err (Msg ("CA certificate not found. Searched: " +:+ dquote +:+ ca_path +:+
                                    dquote +:+ " and common locations"))));
  Ret (Ok (ca_env_vars ca_path)).

End Tls.

(** ** The cache, shared *)

(** [lru::LruCache], seen as the map it holds. *)
Class Lru := {
  LruCache : Type;
  lru_new : Z -> LruCache;
  lru_get : string -> LruCache -> option Chain * LruCache;
  lru_put : string -> Chain -> LruCache -> LruCache;
  lru_entries : LruCache -> gmap string Chain;
  lru_cap : LruCache -> Z;
}.

Class LruLaws (L : Lru) : Prop := {
  new_law n : lru_entries (lru_new n) = ∅ /\ lru_cap (lru_new n) = n;
  get_law k c : (lru_get k c).1 = lru_entries c !! k /\
    lru_entries (lru_get k c).2 = lru_entries c /\ lru_cap (lru_get k c).2 = lru_cap c;
  put_law k v c : lru_cap (lru_put k v c) = lru_cap c /\
    (forall k' v', lru_entries (lru_put k v c) !! k' = Some v' ->
       k' = k /\ v' = v \/ lru_entries c !! k' = Some v') /\
    (1 <= lru_cap c -> Z.of_nat (size (lru_entries c)) <= lru_cap c ->
       lru_entries (lru_put k v c) !! k = Some v /\
       Z.of_nat (size (lru_entries (lru_put k v c))) <= lru_cap c);
}.

Section Cache.
Context `{R : Rcgen} `{L : Lru} `{!LruLaws L}.

(** What the environment may answer, and what it does to the cache. *)
Definition tls_rel (o : op TlsSig) : LruCache -> ans TlsSig o -> LruCache -> Prop :=
  match o as o return LruCache -> ans TlsSig o -> LruCache -> Prop with
  | CacheGet host => fun w r w' => (r, w') = lru_get host w
  | CachePut host chain => fun w _ w' => w' = lru_put host chain w
  | Sign params subject issuer issuer_key => fun w r w' =>
      w' = w /\ forall c, r = Ok c -> signed params subject issuer issuer_key c
  | _ => fun w _ w' => w' = w
  end.

(** A chain for a host: a server certificate for exactly that name and the
    shared key, signed by the CA, and the CA's own. *)
Definition issued (m : CertificateManager) (host : string) (chain : Chain) : Prop :=
  exists cert base name nb na,
    chain = [cert_der cert; cert_der (ca_cert m)] /\
    params_new [host] = Ok base /\ ia5_string host = Ok name /\
    signed (leaf_params base host name nb na) (server_key_pair m) (ca_cert m) (ca_key_pair m) cert.

Definition cache_ok (m : CertificateManager) (c : LruCache) : Prop :=
  lru_cap c = CERT_CACHE_SIZE /\ Z.of_nat (size (lru_entries c)) <= CERT_CACHE_SIZE /\
  forall host chain, lru_entries c !! host = Some chain -> issued m host chain.

Definition cert_post (m : CertificateManager) (host : string)
    (x : option (Result (Chain * PrivateKeyDer) Error)) : Prop :=
  forall chain key, x = Some (Ok (chain, key)) -> issued m host chain /\ key = server_key_der m.

Lemma cache_ok_put m c host chain :
  cache_ok m c -> issued m host chain -> cache_ok m (lru_put host chain c).
Proof.
  intros (Hc & Hs & He) Hi. destruct (put_law host chain c) as (Hcap & Hent & Hsize).
  rewrite Hc in *. destruct Hsize as [_ Hsize]; [done|done|]. split; [done|]. split; [done|].
  intros h ch Hh. destruct (Hent h ch Hh) as [[-> ->]|Hold]; [done|]. by apply He.
Qed.

Lemma get_cert_keeps m host :
  keeps tls_rel (cache_ok m) (get_cert_for_host m host) (cert_post m host).
Proof.
  simpl. intros w r w' Hw HR. destruct (get_law host w) as (Hr & He & Hc). rewrite <- HR in *.
  simpl in Hr, He, Hc.
  assert (Hw' : cache_ok m w'). { unfold cache_ok. rewrite He, Hc. exact Hw. }
  split; [exact Hw'|]. destruct r as [chain|]; simpl.
  - intros ch key [= <- <-]. split; [|done]. by apply Hw.
  - destruct (params_new [host]) as [base|e] eqn:Eb; [|by intros ? ?].
    destruct (ia5_string host) as [name|e] eqn:En; [|by intros ? ?]. simpl.
    intros w1 today w2 Hw1 ->. split; [done|].
    destruct (validity today) as [[nb na]|]; [|by intros ? ?]. simpl.
    intros w2 r w3 Hw2 [-> Hsign]. split; [done|]. destruct r as [cert|e]; [|by intros ? ?]. simpl.
    assert (Hi : issued m host [cert_der cert; cert_der (ca_cert m)]).
    { exists cert, base, name, nb, na. repeat split; [done..|]. by apply Hsign. }
    intros w3 [] w4 Hw3 ->. split; [by apply cache_ok_put|]. by intros ch key [= <- <-].
Qed.

(** C18: the certificates of concurrent connections.  Any number of requests
    for certificates share one cache and run interleaved in any order, from an
    empty cache or any later one: every chain returned is a certificate for the
    host that was asked for, with the shared key, signed by the manager's CA and
    followed by it, also when it comes from the cache or two requests for one
    host cross; the cache holds only such chains, at most 1024 of them. *)
Theorem certificates_match_hosts (m : CertificateManager) (hosts : list string) (w w' : LruCache)
    (ps : list (prog TlsSig (option (Result (Chain * PrivateKeyDer) Error))))
    (Hw : w = lru_new CERT_CACHE_SIZE \/ cache_ok m w)
    (Hreach : rtc (pool_step (fun _ => tls_rel)) (w, get_cert_for_host m <$> hosts) (w', ps)) :
  cache_ok m w' /\
  forall i host chain key, hosts !! i = Some host -> ps !! i = Some (Ret (Some (Ok (chain, key)))) ->
    issued m host chain /\ key = server_key_der m.
Proof.
  assert (Hw0 : cache_ok m w).
  { destruct Hw as [->|Hw]; [|exact Hw]. destruct (new_law CERT_CACHE_SIZE) as [He Hc].
    unfold cache_ok. rewrite He, Hc, map_size_empty. split; [done|]. split; [done|].
    intros h ch Hh. by rewrite lookup_empty in Hh. }
  destruct (pool_keeps tls_rel (cache_ok m) (fun i x => forall h, hosts !! i = Some h -> cert_post m h x)
    _ _ Hreach) as [Hw' Hps]; [done| |].
  - intros i p Hp. simpl in Hp. apply list_lookup_fmap_Some in Hp as (h & -> & Hh).
    eapply keeps_mono; [|apply get_cert_keeps]. intros x Hx h' Hh'. by simplify_eq.
  - split; [exact Hw'|]. intros i h ch key Hh Hi. by apply (Hps i _ Hi h Hh).
Qed.

End Cache.

(** ** The CA clients are told of *)

Section Env.
Context `{R : Rcgen}.

(** A file an event saw to exist. *)
Definition existing (e : event TlsSig) : option string :=
  match e with {| ev_op := TlsExists p; ev_ans := true |} => Some p | _ => None end.

(** The variables that name the CA: when they are given, they name one file
    that was just seen to exist, all of them the same one, and its directory;
    otherwise there is an error, never variables for a missing file. *)
Theorem ca_env_names_existing_file :
  wp get_ca_env_vars (fun t r => match r with
    | Ok vars => exists path, last (omap existing t) = Some path /\ vars = ca_env_vars path /\
        forall k v, (k, v) ∈ vars -> k <> "SSL_CERT_DIR" -> v = path
    | Err _ => True
    end).
Proof.
  assert (Hall : forall path k v, (k, v) ∈ ca_env_vars path -> k <> "SSL_CERT_DIR" -> v = path).
  { intros path k v Hin Hk. unfold ca_env_vars in Hin.
    repeat (apply elem_of_cons in Hin as [Hin|Hin]; [by injection Hin as -> ->|]).
    by apply not_elem_of_nil in Hin. }
  unfold get_ca_env_vars. wp_step. apply wp_true. intros t0 [path|e]; [|done].
  unfold tls at 1, perform. cbn [bind wp]. intros [|].
  - exists path. simpl. rewrite omap_app. simpl. rewrite last_snoc. by split; [|split; [|apply Hall]].
  - wp_step. wp_step. apply wp_true. intros t1 paths. wp_step. apply wp_true.
    intros t2 [p|e]; [|done]. simpl. intros [|]; simpl; [|done].
    exists p. split; [|by split; [|apply Hall]].
    change (last (omap existing (t0 ++ (@Ev TlsSig (TlsExists path) false :: t1 ++ t2 ++
      [@Ev TlsSig (TlsExists p) true]) ++ [])) = Some p).
    rewrite app_nil_r, omap_app. csimpl. rewrite !omap_app. csimpl. by rewrite !app_assoc, last_snoc.
Qed.
End Env.

(** ** The CA on disk *)

Section Disk.
Context `{R : Rcgen} `{!RcgenLaws R}.

(** The files, by path.  Any operation may fail; a write that succeeds leaves
    the contents, and one that fails may have changed the file. *)
Abbreviation Files := (gmap string string).

Definition disk_rel (o : op TlsSig) : Files -> ans TlsSig o -> Files -> Prop :=
  match o as o return Files -> ans TlsSig o -> Files -> Prop with
  | TlsExists p => fun w r w' => w' = w /\ r = bool_decide (is_Some (w !! p))
  | TlsRead p => fun w r w' => w' = w /\ forall s, r = Ok s -> w !! p = Some s
  | TlsWrite p s => fun w r w' =>
      match r with Ok _ => w' = <[p := s]> w | Err _ => delete p w' = delete p w end
  | SelfSign params key => fun w r w' => w' = w /\ forall c, r = Ok c -> self_signed params key c
  | _ => fun w _ w' => w' = w
  end.

(** [c] is a certificate of the CA for the key [k], signed with it: one that may
    sign certificates, of this name whatever the key. *)
Definition ca_certificate (c : Certificate) (k : KeyPair) : Prop :=
  exists params, self_signed params k c /\ is_ca params = true /\
    distinguished_name params =
      [(CountryName, "US"); (OrganizationName, "httpjail"); (CommonName, "httpjail CA")] /\
    KeyCertSign ∈ key_usages params.

(** The two files of a directory. *)
Definition cert_file (dir : string) (w : Files) : option string := w !! path_join dir "ca-cert.pem".
Definition key_file (dir : string) (w : Files) : option string := w !! path_join dir "ca-key.pem".

Definition ca_on_disk (dir : string) (w : Files) : Prop :=
  is_Some (cert_file dir w) /\ is_Some (key_file dir w).

(** The key on disk is [key], beside a certificate. *)
Definition ca_stored (dir : string) (key : KeyPair) (w : Files) : Prop :=
  is_Some (cert_file dir w) /\ exists pem, key_file dir w = Some pem /\ key_from_pem pem = Ok key.

Lemma ca_params_certificate c k : self_signed ca_params k c -> ca_certificate c k.
Proof. intros Hs. exists ca_params. split_and!; [done..|]. simpl. set_solver. Qed.

Lemma load_ca_spec dir w :
  wpr disk_rel (load_ca (path_join dir "ca-cert.pem") (path_join dir "ca-key.pem")) w (fun r w' =>
    w' = w /\ forall c k, r = Ok (c, k) -> ca_certificate c k /\
      exists pem, key_file dir w = Some pem /\ key_from_pem pem = Ok k).
Proof.
  unfold load_ca, tls_context. simpl. intros [s|e] w1 [-> Hs]; simpl; [|done].
  intros [pem|e] w2 [-> Hp]; simpl; [|done]. specialize (Hp pem eq_refl).
  destruct (key_from_pem pem) as [k|e] eqn:Ek; simpl; [|done].
  intros [c|e] w3 [-> Hc]; simpl; [|done]. split; [done|]. intros c' k' [= <- <-].
  split; [by apply ca_params_certificate, Hc|]. by exists pem.
Qed.

Lemma generate_ca_spec dir w :
  wpr disk_rel (generate_ca (path_join dir "ca-cert.pem") (path_join dir "ca-key.pem")) w (fun r w' =>
    forall c k, r = Ok (c, k) -> ca_certificate c k /\ ca_stored dir k w' /\
      cert_file dir w' = Some (cert_pem c)).
Proof.
  unfold generate_ca, tls_context. simpl. intros [k|e] w1 ->; simpl; [|done].
  intros [c|e] w1 [-> Hc]; simpl; [|done]. intros [[]|e] w1 Hw1; simpl; [|done].
  intros [[]|e] w2 Hw2; simpl; [|done]. intros [[]|e] w3 ->; simpl; [|done].
  intros [[]|e] w3 ->; simpl; [|done]. intros c' k' [= <- <-]. subst w1 w2.
  assert (Hne : path_join dir "ca-key.pem" <> path_join dir "ca-cert.pem").
  { intros E. by apply path_join_inj in E. }
  assert (Hcert : cert_file dir (<[path_join dir "ca-key.pem" := key_to_pem k]>
    (<[path_join dir "ca-cert.pem" := cert_pem c]> w)) = Some (cert_pem c)).
  { unfold cert_file. rewrite lookup_insert_ne by done. apply lookup_insert_eq. }
  split; [by apply ca_params_certificate, Hc|]. split; [|exact Hcert].
  split; [rewrite Hcert; by eexists|].
  exists (key_to_pem k). split; [apply lookup_insert_eq|apply key_pem_roundtrip].
Qed.

Lemma load_or_generate_spec dir w :
  wpr disk_rel (load_or_generate_ca_with_dir (Some dir)) w (fun r w' =>
    (ca_on_disk dir w -> w' = w) /\
    forall c k, r = Ok (c, k) -> ca_certificate c k /\ ca_stored dir k w' /\
      (~ ca_on_disk dir w -> cert_file dir w' = Some (cert_pem c))).
Proof.
  unfold load_or_generate_ca_with_dir. simpl. unfold tls_context. simpl.
  intros [[]|e] w1 ->; simpl; [|done]. intros b w1 [-> ->].
  assert (Hgen : ~ ca_on_disk dir w ->
    wpr disk_rel (generate_ca (path_join dir "ca-cert.pem") (path_join dir "ca-key.pem")) w (fun r w' =>
      (ca_on_disk dir w -> w' = w) /\
      forall c k, r = Ok (c, k) -> ca_certificate c k /\ ca_stored dir k w' /\
        (~ ca_on_disk dir w -> cert_file dir w' = Some (cert_pem c)))).
  { intros Hn. eapply wpr_mono; [|apply generate_ca_spec]. intros r w' Hr. split; [done|].
    intros c k E. by destruct (Hr c k E) as (? & ? & ?). }
  destruct (bool_decide_reflect (is_Some (w !! path_join dir "ca-cert.pem"))) as [Hc|Hc]; cbn [bind].
  - simpl. intros b w1 [-> ->].
    destruct (bool_decide_reflect (is_Some (w !! path_join dir "ca-key.pem"))) as [Hk|Hk].
    + eapply wpr_mono; [|apply load_ca_spec]. intros r w' [-> Hr]. split; [done|].
      intros c k E. destruct (Hr c k E) as [Hca Hkey]. split_and!; [done|by split|].
      intros Hn. by destruct Hn.
    + apply Hgen. by intros [_ ?].
  - apply Hgen. by intros [? _].
Qed.


Lemma leap_once y : is_leap y = true -> is_leap (y + 1) = false.
Proof.
  unfold is_leap. intros Hy. apply andb_prop in Hy as [Hy _]. apply Z.eqb_eq in Hy.
  destruct ((y + 1) mod 4 =? 0) eqn:E; [|done]. apply Z.eqb_eq in E.
  exfalso. Z.to_euclidean_division_equations. lia.
Qed.

(** Only a leap day is missing from another year. *)
Lemma valid_date_year y y' m d : valid_date y m d = true ->
  valid_date y' m d = negb ((m =? 2) && (d =? 29) && negb (is_leap y')).
Proof.
  unfold valid_date, days_in_month. intros Hd. repeat (apply andb_prop in Hd as [Hd ?]).
  rewrite Hd, H0, H1. simpl. destruct (m =? 2) eqn:Em; [|by rewrite H].
  destruct (is_leap y), (is_leap y'); simpl; destruct (d =? 29) eqn:E29; simpl; ulia.
Qed.

(** C38: the dates of a certificate.  On every day of the calendar before 2049
    a new certificate is valid from that day to the same day of the next year,
    except that on a leap day there is no such day and the code panics; from
    2049 on the end stays in 2049, which is not after the start. *)
Theorem validity_dates (y m d : Z) (Hday : valid_date y m d = true) :
  (y < 2049 ->
     (validity (y, m, d) = None <-> m = 2 /\ d = 29) /\
     forall nb na, validity (y, m, d) = Some (nb, na) ->
       date_time_ymd y m d = Some nb /\ date_time_ymd (y + 1) m d = Some na) /\
  (2049 <= y -> forall nb na, validity (y, m, d) = Some (nb, na) ->
     date_time_ymd y m d = Some nb /\ date_time_ymd 2049 m d = Some na).
Proof.
  assert (Hv : forall e, Z.min (y + 1) 2049 = e -> forall nb na, validity (y, m, d) = Some (nb, na) ->
    date_time_ymd y m d = Some nb /\ date_time_ymd e m d = Some na).
  { intros e He nb na. unfold validity. rewrite He.
    destruct (date_time_ymd y m d) as [b|]; [|done]. simpl.
    destruct (date_time_ymd e m d) as [a|]; [|done]. by intros [= -> ->]. }
  split; intros Hy; [split|]; [|apply Hv; lia..].
  unfold validity. rewrite Z.min_l by lia.
  pose proof (proj2 (date_valid y m d) Hday) as [nb Hnb]. rewrite Hnb. simpl.
  pose proof (valid_date_year y (y + 1) m d Hday) as Hy1.
  assert (Hleap : m = 2 -> d = 29 -> is_leap (y + 1) = false).
  { intros -> ->. apply leap_once. unfold valid_date, days_in_month in Hday. simpl in Hday.
    by destruct (is_leap y). }
  destruct (date_time_ymd (y + 1) m d) as [na|] eqn:Ena; simpl.
  - split; [done|]. intros [-> ->]. rewrite (Hleap eq_refl eq_refl) in Hy1. simpl in Hy1.
    assert (Hs : is_Some (date_time_ymd (y + 1) 2 29)) by (rewrite Ena; by eexists).
    apply date_valid in Hs. congruence.
  - split; [|done]. intros _. destruct ((m =? 2) && (d =? 29)) eqn:E.
    + by bools.
    + simpl in Hy1. apply date_valid in Hy1. rewrite Ena in Hy1. by destruct Hy1.
Qed.

End Disk.

(** ** Instances *)

(** Keys are their PEM text, certificates the pair of the keys involved. *)
Definition toy_rcgen : Rcgen := {|
  DateTime := Z * Z * Z; KeyPair := string; Certificate := string; PrivateKeyDer := string;
  default_params := mkParams false [] [] [] [] None (1975, 1, 1) (4096, 1, 1);
  params_new names := Ok (mkParams false [] [] [] (DnsName <$> names) None (1975, 1, 1) (4096, 1, 1));
  ia5_string s := Ok s;
  date_time_ymd y m d := if valid_date y m d then Some (y, m, d) else None;
  key_from_pem s := Ok s; key_to_pem k := k; key_to_der k := k; private_key_der s := Ok s;
  cert_pem c := c; cert_der c := c;
  self_signed _ k c := c = k; signed p s _ k c := subject_alt_names p = [DnsName c];
|}.

#[export] Instance toy_rcgen_laws : RcgenLaws toy_rcgen.
Proof.
  split; [done|]. intros y m d. simpl. destruct (valid_date y m d); [by split; [|eexists]|].
  split; [by intros [? ?]|done].
Qed.

(** A cache that forgets everything when it is full. *)
Definition toy_lru : Lru := {|
  LruCache := Z * gmap string Chain;
  lru_new n := (n, ∅);
  lru_get k c := (c.2 !! k, c);
  lru_put k v c :=
    (c.1, if Z.of_nat (size (<[k := v]> c.2)) <=? c.1 then <[k := v]> c.2 else {[k := v]});
  lru_entries c := c.2; lru_cap c := c.1;
|}.

#[export] Instance toy_lru_laws : LruLaws toy_lru.
Proof.
  split; [done|done|]. intros k v [n c]. simpl. split; [done|].
  destruct (Z.leb_spec (Z.of_nat (size (<[k := v]> c))) n) as [Hle|Hgt].
  - split; [|by rewrite lookup_insert_eq]. intros k' v' Hk'.
    apply lookup_insert_Some in Hk' as [[-> ->]|[_ Hk']]; [by left|by right].
  - split; [|rewrite lookup_singleton_eq, map_size_singleton; by split].
    intros k' v' Hk'. apply lookup_singleton_Some in Hk' as [-> ->]. by left.
Qed.

Definition toy_manager : CertificateManager (R := toy_rcgen) :=
  {| ca_cert := "ca" : Certificate (Rcgen := toy_rcgen); ca_key_pair := "ck"; server_key_pair := "sk";
     server_key_der := "der"; manager_config_dir := None |}.

Lemma certificates_match_hosts_witness :
  exists (w' : LruCache (Lru := toy_lru)) (chain : Chain),
    rtc (pool_step (fun _ => tls_rel (R := toy_rcgen) (L := toy_lru)))
      (lru_new (Lru := toy_lru) CERT_CACHE_SIZE, get_cert_for_host toy_manager <$> ["a.com"])
      (w', [Ret (Some (Ok (chain, "der")))]) /\
    cache_ok toy_manager w' /\ issued toy_manager "a.com" chain.
Proof.
  assert (Hreach : rtc (pool_step (fun _ => tls_rel (R := toy_rcgen) (L := toy_lru)))
      (lru_new (Lru := toy_lru) CERT_CACHE_SIZE, get_cert_for_host toy_manager <$> ["a.com"])
      ((1024, {["a.com" := ["a.com"; "ca"]]}),
       [Ret (Some (Ok (["a.com"; "ca"], "der" : PrivateKeyDer (Rcgen := toy_rcgen))))])).
  { eapply rtc_l; [by eapply (@pool_do TlsSig _ _ _ 0 (CacheGet "a.com") _ None)|].
    eapply rtc_l; [by eapply (@pool_do TlsSig _ _ _ 0 UtcToday _ (2024, 5, 6))|].
    eapply rtc_l; [eapply (@pool_do TlsSig _ _ _ 0 (Sign _ _ _ _) _ (Ok ("a.com" : Certificate (Rcgen := toy_rcgen)))); [reflexivity|]; split; [reflexivity|by intros c [= <-]]|].
    eapply rtc_l; [by eapply (@pool_do TlsSig _ _ _ 0 (CachePut "a.com" _) _ tt)|].
    apply rtc_refl. }
  exists (1024, {["a.com" := ["a.com"; "ca"]]}), ["a.com"; "ca"]. split; [exact Hreach|].
  destruct (certificates_match_hosts (L := toy_lru) toy_manager ["a.com"] _ _ _ (or_introl eq_refl) Hreach)
    as [Hc Hi].
  split; [exact Hc|]. exact (proj1 (Hi 0%nat "a.com" _ _ eq_refl eq_refl)).
Defined.


Lemma validity_dates_witness :
  valid_date 2024 2 29 = true /\ validity (R := toy_rcgen) (2024, 2, 29) = None.
Proof.
  split; [reflexivity|].
  apply (proj1 (proj1 (validity_dates (R := toy_rcgen) 2024 2 29 eq_refl) ltac:(lia))). by split.
Defined.
