(* ===== verification/Server.v ===== *)
(** * The proxy server ([src/proxy.rs], [src/dangerous_verifier.rs])

    The creation of a server (its certificates, the client it shares with every
    other server of the process, its nonce), the sockets it listens on, and the
    loops that accept connections. *)

From S2P Require Import Prelude Effects Http Rules Net Paths Tls Proxy.
From Stdlib Require Import Ascii.

(** ** Listening *)

Inductive net_op : Type :=
| GenRange (lo hi : Z)                       (** [rng.gen_range(lo..=hi)] *)
| SocketNew (v6 : bool)
| SetFreebind
| SetReuseAddress
| SetNonblocking
| SocketBind (addr : SocketAddr)
| SocketListen (backlog : Z)
| FromStd
| TcpBind (addr : SocketAddr)
| LocalPort (listener : Z)
| SpawnListener (protocol : string) (listener : Z)
| Accept (listener : Z)
| SpawnHandler (protocol : string) (conn : Z) (peer : SocketAddr).

Definition NetSig : Sig :=
  {| op := net_op;
     ans o := match o with
              | GenRange _ _ => Z
              | SetFreebind => bool
              | SocketNew _ | SetReuseAddress | SetNonblocking | SocketBind _ | SocketListen _ =>
                  Result unit Error
              | FromStd | TcpBind _ | LocalPort _ => Result Z Error
              | SpawnListener _ _ | SpawnHandler _ _ _ => unit
              | Accept _ => Result (Z * SocketAddr) Error
              end |}.

Definition net_do (o : op NetSig) : prog NetSig (ans NetSig o) := perform o.

Definition is_specific_non_loopback (ip : IpAddr) : bool :=
  match ip with
  | V4 a => bool_decide (a <> LOCALHOST4) && bool_decide (a <> UNSPECIFIED4)
  | V6 s => bool_decide (s <> LOCALHOST6) && bool_decide (s <> UNSPECIFIED6)
  end.

Definition bind_listener (addr : SocketAddr) : prog NetSig (Result Z Error) :=
  if is_specific_non_loopback (addr_ip addr) then
    let v6 := match addr_ip addr with V4 _ => false | V6 _ => true end in
    _ ⇐? net_do (SocketNew v6);
    _ ⇐ net_do SetFreebind;                  (* a failure is only logged *)
    _ ⇐? net_do SetReuseAddress;
    _ ⇐? net_do SetNonblocking;
    _ ⇐? net_do (SocketBind addr);
    _ ⇐? net_do (SocketListen 128);
    _ ⇐? net_do SetNonblocking;
    net_do FromStd
  else net_do (TcpBind addr).

Fixpoint bind_attempts (n : nat) (start end_ : Z) (ip : IpAddr) : prog NetSig (Result Z Error) :=
  match n with
  | O => Ret (Err (Msg ("No available port found after 16 attempts in range " +:+ dec start +:+
                        "-" +:+ dec end_ +:+ " on " +:+ show_ip ip)))
  | S n' =>
      port ⇐ net_do (GenRange start end_);
      bound ⇐ bind_listener (mkSocketAddr ip port);
      match bound with
      | Ok listener => Ret (Ok listener)
      | Err _ => bind_attempts n' start end_ ip
      end
  end.

Definition bind_to_available_port (start end_ : Z) (ip : IpAddr) : prog NetSig (Result Z Error) :=
  bind_attempts 16 start end_ ip.

Definition bind_or_pick (bind : option SocketAddr) : prog NetSig (Result Z Error) :=
  match bind with
  | Some addr => bind_listener addr
  | None => bind_to_available_port 8000 8999 (V4 LOCALHOST4)
  end.

(** [n] turns of the accept loop: a connection is handled in a task of its own,
    a failed accept is logged, and the loop goes on. *)
Fixpoint listener_task (n : nat) (listener : Z) (protocol : string) : prog NetSig unit :=
  match n with
  | O => Ret tt
  | S n' =>
      accepted ⇐ net_do (Accept listener);
      match accepted with
      | Ok (stream, addr) =>
          _ ⇐ net_do (SpawnHandler protocol stream addr);
          listener_task n' listener protocol
      | Err _ => listener_task n' listener protocol
      end
  end.

(** The address and the loopback port an attempt tried, and how it failed. *)
Definition failed_attempt (start end_ : Z) (ip : IpAddr) (x : Z * Error) : list (event NetSig) :=
  [@Ev NetSig (GenRange start end_) x.1; @Ev NetSig (TcpBind (mkSocketAddr ip x.1)) (Err x.2)].

Lemma bind_attempts_spec n start end_ ip :
  is_specific_non_loopback ip = false ->
  wp (bind_attempts n start end_ ip) (fun t r => exists fs,
    match r with
    | Ok l => exists port, (length fs < n)%nat /\
        t = (fs ≫= failed_attempt start end_ ip) ++
            [@Ev NetSig (GenRange start end_) port;
             @Ev NetSig (TcpBind (mkSocketAddr ip port)) (Ok l)]
    | Err _ => length fs = n /\ t = fs ≫= failed_attempt start end_ ip
    end).
Proof.
  intros Hip. induction n as [|n IH]; [by exists []|].
  cbn [bind_attempts]. wp_step. intros port. simpl. wp_step.
  unfold bind_listener. cbn [addr_ip]. rewrite Hip. intros [l|e]; simpl.
  - exists [], port. split; [simpl; lia|done].
  - eapply wp_mono; [|apply IH]. intros t r (fs & Hr). exists ((port, e) :: fs).
    destruct r as [l|e']; simpl.
    + destruct Hr as (p & Hlen & ->). exists p. split; [simpl; lia|done].
    + destruct Hr as [Hlen ->]. by rewrite Hlen.
Qed.

(** Without a configured address a listener is looked for on the loopback
    interface, one random port of 8000 to 8999 at a time: the first port that
    can be bound is taken, and it gives up only after sixteen that could not. *)
Theorem bind_or_pick_tries_sixteen :
  wp (bind_or_pick None) (fun t r => exists fs,
    match r with
    | Ok l => exists port, (length fs < 16)%nat /\
        t = (fs ≫= failed_attempt 8000 8999 (V4 LOCALHOST4)) ++
            [@Ev NetSig (GenRange 8000 8999) port;
             @Ev NetSig (TcpBind (mkSocketAddr (V4 LOCALHOST4) port)) (Ok l)]
    | Err _ => length fs = 16%nat /\ t = fs ≫= failed_attempt 8000 8999 (V4 LOCALHOST4)
    end).
Proof. by apply bind_attempts_spec. Qed.

Definition accepted_conn (protocol : string) (e : event NetSig) : option (event NetSig) :=
  match e with
  | {| ev_op := Accept _; ev_ans := Ok (stream, addr) |} =>
      Some (@Ev NetSig (SpawnHandler protocol stream addr) tt)
  | _ => None
  end.

Definition is_handler (e : event NetSig) : option (event NetSig) :=
  match ev_op e with SpawnHandler _ _ _ => Some e | _ => None end.

Definition is_accept (e : event NetSig) : option unit :=
  match ev_op e with Accept _ => Some tt | _ => None end.

(** The accept loop never stops accepting, whatever fails: in any number
    of turns it accepts that many times, and every connection accepted, in
    order, is handed to one handler task with its peer's address. *)
Theorem listener_serves_all (n : nat) (listener : Z) (protocol : string) :
  wp (listener_task n listener protocol) (fun t _ =>
    length (omap is_accept t) = n /\
    omap is_handler t = omap (accepted_conn protocol) t).
Proof.
  induction n as [|n IH]; [done|]. cbn [listener_task]. intros [[stream addr]|e]; simpl.
  - intros []. eapply wp_mono; [|apply IH]. intros t [] [Ha Hh].
    split; [exact (f_equal S Ha)|exact (f_equal (cons _) Hh)].
  - eapply wp_mono; [|apply IH]. intros t [] [Ha Hh].
    split; [exact (f_equal S Ha)|exact Hh].
Qed.

(** ** Verifying upstream certificates *)

(** What [rustls] asks of a verifier. *)
Record ServerCertVerifier : Type := {
  verify_server_cert : forall (end_entity : string) (intermediates : list string)
    (server_name ocsp_response : string) (now : Z), Result unit string;
  verify_tls12_signature : forall message cert dss : string, Result unit string;
  verify_tls13_signature : forall message cert dss : string, Result unit string;
  supported_verify_schemes : list string;
}.

(** The libraries: the stores of roots ([RootCertStore::add] may refuse a
    certificate), Mozilla's roots, the system's, and the verifier of a store. *)
Class WebPki := {
  RootStore : Type;
  webpki_roots : RootStore;
  native_roots : option RootStore;
  add_root : RootStore -> string -> option RootStore;
  webpki_verifier : RootStore -> ServerCertVerifier;
}.

Definition DangerousAcceptAnyVerifier : ServerCertVerifier := {|
  verify_server_cert _ _ _ _ _ := Ok tt;
  verify_tls12_signature _ _ _ := Ok tt;
  verify_tls13_signature _ _ _ := Ok tt;
  supported_verify_schemes :=
    ["RSA_PKCS1_SHA256"; "RSA_PKCS1_SHA384"; "RSA_PKCS1_SHA512"; "ECDSA_NISTP256_SHA256";
     "ECDSA_NISTP384_SHA384"; "ECDSA_NISTP521_SHA512"; "RSA_PSS_SHA256"; "RSA_PSS_SHA384";
     "RSA_PSS_SHA512"; "ED25519"];
|}.

(** [rustls::ClientConfig], without client authentication. *)
Record ClientConfig : Type := { verifier : ServerCertVerifier }.

Definition create_dangerous_client_config : ClientConfig :=
  {| verifier := DangerousAcceptAnyVerifier |}.

(** ** The shared client *)

(** The client of the process: its TLS configuration, the timeout of its
    connector's fallback from IPv6 to IPv4 in milliseconds, its pool, and
    whether it keeps the case of header names. *)
Record HttpsClient : Type := {
  tls_config : ClientConfig;
  happy_eyeballs_ms : option Z;
  pool_idle_timeout_secs : Z;
  pool_max_idle_per_host : Z;
  title_case_headers : bool;
  preserve_header_case : bool;
}.

Definition client_with (config : ClientConfig) (happy_eyeballs_ms : option Z) : HttpsClient :=
  {| tls_config := config; happy_eyeballs_ms := happy_eyeballs_ms; pool_idle_timeout_secs := 5;
     pool_max_idle_per_host := 1; title_case_headers := false; preserve_header_case := true |}.

Inductive server_op : Type :=
| ServerEnvVar (name : string)
| RandomU64.

Definition ServerSig : Sig :=
  {| op := server_op;
     ans o := match o with ServerEnvVar _ => option string | RandomU64 => Z end |}.

Definition DANGER : string := "HTTPJAIL_DANGER_DISABLE_CERT_VALIDATION".

Section ProxyServers.
Context `{R : Rcgen} `{WebPki}.

(** [None] is a panic: a certificate the store does not take. *)
Definition create_client_config_with_ca (ca_cert_der : string) : option ClientConfig :=
  roots ← add_root webpki_roots ca_cert_der;
  Some {| verifier := webpki_verifier roots |}.

(** [HTTPS_CLIENT] is a [OnceLock], here [cell]: what it holds stays.  [None] is
    a panic. *)
Definition init_client_with_ca (cell : option HttpsClient) (ca_cert_der : string)
    : prog ServerSig (option (option HttpsClient)) :=
  match cell with
  | Some client => Ret (Some (Some client))
  | None =>
      danger ⇐ @perform ServerSig (ServerEnvVar DANGER);
      Ret (match danger with
           | Some _ => Some (Some (client_with create_dangerous_client_config None))
           | None =>
               config ← create_client_config_with_ca ca_cert_der;
               Some (Some (client_with config (Some 250)))
           end)
  end.

(** The client a request is sent with, and the cell afterwards. *)
Definition get_client (cell : option HttpsClient) : option (HttpsClient * option HttpsClient) :=
  match cell with
  | Some client => Some (client, cell)
  | None =>
      roots ← native_roots;
      let client := client_with {| verifier := webpki_verifier roots |} None in
      Some (client, Some client)
  end.

(** ** The server *)

Context {E : Type}.

Record ProxyServer : Type := {
  http_bind : option SocketAddr;
  https_bind : option SocketAddr;
  context : ProxyContext E;
  cert_manager : CertificateManager;
}.

Definition NewSig : Sig := sig_sum TlsSig ServerSig.

(** [ProxyServer::new]; [None] is a panic. *)
Definition new (cell : option HttpsClient) (http_bind https_bind : option SocketAddr)
    (rule_engine : RuleEngine E) : prog NewSig (option (ProxyServer * option HttpsClient)) :=
  manager ⇐ lift_l manager_new;
  match manager with
  | Err _ => Ret None
  | Ok cert_manager =>
      initialized ⇐ lift_r (init_client_with_ca cell (get_ca_cert_der cert_manager));
      match initialized with
      | None => Ret None
      | Some cell =>
          random_u64 ⇐ lift_r (@perform ServerSig RandomU64);
          Ret (Some ({| http_bind := http_bind; https_bind := https_bind;
                        context := {| rule_engine := rule_engine; loop_nonce := make_nonce random_u64 |};
                        cert_manager := cert_manager |}, cell))
      end
  end.

Definition start (s : ProxyServer) : prog NetSig (Result (Z * Z) Error) :=
  http_listener ⇐? bind_or_pick (http_bind s);
  http_port ⇐? net_do (LocalPort http_listener);
  _ ⇐ net_do (SpawnListener "HTTP" http_listener);
  https_listener ⇐? bind_or_pick (https_bind s);
  https_port ⇐? net_do (LocalPort https_listener);
  _ ⇐ net_do (SpawnListener "HTTPS" https_listener);
  Ret (Ok (http_port, https_port)).

(** ** What a start does *)

(** A socket bound to an address of a host, listening, the port it got, and the
    task that accepts its connections. *)
Definition listening (addr : SocketAddr) (protocol : string) (port : Z) (t : list (event NetSig)) : Prop :=
  exists v6 freebind listener,
    t = [@Ev NetSig (SocketNew v6) (Ok tt); @Ev NetSig SetFreebind freebind;
         @Ev NetSig SetReuseAddress (Ok tt); @Ev NetSig SetNonblocking (Ok tt);
         @Ev NetSig (SocketBind addr) (Ok tt); @Ev NetSig (SocketListen 128) (Ok tt);
         @Ev NetSig SetNonblocking (Ok tt); @Ev NetSig FromStd (Ok listener);
         @Ev NetSig (LocalPort listener) (Ok port); @Ev NetSig (SpawnListener protocol listener) tt].

Definition bound (addr : SocketAddr) (listener : Z) (t : list (event NetSig)) : Prop :=
  exists v6 freebind,
    t = [@Ev NetSig (SocketNew v6) (Ok tt); @Ev NetSig SetFreebind freebind;
         @Ev NetSig SetReuseAddress (Ok tt); @Ev NetSig SetNonblocking (Ok tt);
         @Ev NetSig (SocketBind addr) (Ok tt); @Ev NetSig (SocketListen 128) (Ok tt);
         @Ev NetSig SetNonblocking (Ok tt); @Ev NetSig FromStd (Ok listener)].

Lemma bind_listener_bound addr : is_specific_non_loopback (addr_ip addr) = true ->
  wp (bind_or_pick (Some addr)) (fun t r => forall l, r = Ok l -> bound addr l t).
Proof.
  intros Ha. unfold bind_or_pick, bind_listener. rewrite Ha. unfold net_do, perform.
  intros [[]|e]; [|done]. intros fb. do 5 (intros [[]|e]; [|done]).
  intros [l|e]; [|done]. cbn. intros l' [= <-]. by eexists _, fb.
Qed.

Lemma bound_listening addr l protocol port t : bound addr l t ->
  listening addr protocol port (t ++ [@Ev NetSig (LocalPort l) (Ok port); @Ev NetSig (SpawnListener protocol l) tt]).
Proof. intros (v6 & fb & ->). by exists v6, fb, l. Qed.

(** A server for two addresses of a host listens on both, and returns the ports
    the sockets got. *)
Lemma start_listens (s : ProxyServer) a1 a2 :
  http_bind s = Some a1 -> https_bind s = Some a2 ->
  is_specific_non_loopback (addr_ip a1) = true -> is_specific_non_loopback (addr_ip a2) = true ->
  wp (start s) (fun t r => forall p q, r = Ok (p, q) -> exists t1 t2,
    t = t1 ++ t2 /\ listening a1 "HTTP" p t1 /\ listening a2 "HTTPS" q t2).
Proof.
  intros H1 H2 Hs1 Hs2. unfold start. rewrite H1, H2.
  apply wp_try. eapply wp_mono; [|by apply bind_listener_bound]. intros t1 [l1|e] Hb1; [|done].
  cbn. intros [p|e]; [|done]. cbn. intros [].
  apply wp_try. eapply wp_mono; [|by apply bind_listener_bound]. intros t2 [l2|e] Hb2; [|done].
  cbn. intros [q|e]; [|done]. cbn. intros [] p' q' [= <- <-].
  eexists _, _. split; [|split; [exact (bound_listening _ _ _ _ _ (Hb1 _ eq_refl))|
                                 exact (bound_listening _ _ _ _ _ (Hb2 _ eq_refl))]].
  by rewrite <- app_assoc.
Qed.

Lemma new_keeps cell hb sb re :
  wp (new cell hb sb re) (fun _ r => forall s cell', r = Some (s, cell') ->
    http_bind s = hb /\ https_bind s = sb /\ rule_engine (context s) = re).
Proof.
  unfold new. wp_step. apply wp_lift_l, wp_true. intros t [m|e]; [|done].
  wp_step. apply wp_lift_r, wp_true. intros t' [cell'|]; [|done]. intros n s cell'' [= <- _]. done.
Qed.

(** ** What the client of a run accepts *)

(** The switch that turns verification off, as an event found it. *)
Definition danger_read (e : event NewSig) : option (option string) :=
  match e with
  | {| ev_op := inr (ServerEnvVar name); ev_ans := v |} =>
      if String.eqb name DANGER then Some v else None
  | _ => None
  end.

Lemma no_danger_read (t : list (event TlsSig)) :
  omap danger_read ((fun e => @Ev NewSig (inl (ev_op e)) (ev_ans e)) <$> t) = [].
Proof. induction t as [|e t IH]; [done|]. by csimpl. Qed.

(** C8: whose certificates the proxy believes.  A process reads the switch that
    turns verification off once, when it makes its first server.  If it is not
    set, the client every request is then sent with verifies the upstream's
    certificates against Mozilla's roots and this process's own CA, as the
    library does; if it is set, to anything, that client accepts any
    certificate and any signature.  A later server of the process changes
    nothing. *)
Theorem upstream_certificates_verified (hb sb : option SocketAddr) (re : RuleEngine E) :
  wp (new None hb sb re) (fun t r => match r with
    | Some (s, cell) => exists client danger, cell = Some client /\ omap danger_read t = [danger] /\
        get_client cell = Some (client, cell) /\ rule_engine (context s) = re /\
        match danger with
        | None => exists roots, add_root webpki_roots (get_ca_cert_der (cert_manager s)) = Some roots /\
                    verifier (tls_config client) = webpki_verifier roots
        | Some _ => forall c ints name ocsp now msg dss,
            verify_server_cert (verifier (tls_config client)) c ints name ocsp now = Ok tt /\
            verify_tls12_signature (verifier (tls_config client)) msg c dss = Ok tt /\
            verify_tls13_signature (verifier (tls_config client)) msg c dss = Ok tt
        end /\
        forall hb' sb' re', wp (new cell hb' sb' re') (fun t' r' =>
          omap danger_read t' = [] /\ forall s' cell', r' = Some (s', cell') -> cell' = cell)
    | None => True
    end).
Proof.
  assert (Hlater : forall client hb' sb' re', wp (new (Some client) hb' sb' re') (fun t' r' =>
    omap danger_read t' = [] /\ forall s' cell', r' = Some (s', cell') -> cell' = Some client)).
  { intros client hb' sb' re'. unfold new. wp_step. apply wp_lift_l, wp_true. intros t [m|e]; cbn.
    - intros n. rewrite omap_app, no_danger_read. split; [done|]. by intros ? ? [= <- <-].
    - rewrite app_nil_r, no_danger_read. by split. }
  unfold new. wp_step. apply wp_lift_l, wp_true. intros t [m|e]; [|done].
  cbn. intros danger. destruct danger as [v|].
  - intros n. exists (client_with create_dangerous_client_config None), (Some v).
    rewrite omap_app, no_danger_read. do 4 (split; [done|]). split; [done|apply Hlater].
  - unfold create_client_config_with_ca.
    destruct (add_root webpki_roots (get_ca_cert_der m)) as [roots|] eqn:Er; [|done]. intros n.
    exists (client_with {| verifier := webpki_verifier roots |} (Some 250)), None.
    rewrite omap_app, no_danger_read. do 4 (split; [done|]). split; [by exists roots|apply Hlater].
Qed.

End ProxyServers.

(** ** A store of roots for the examples: a list, trusted by equality. *)

#[export] Instance toy_webpki : WebPki := {|
  RootStore := list string;
  webpki_roots := ["mozilla"];
  native_roots := Some ["system"];
  add_root l ca := Some (l ++ [ca]);
  webpki_verifier l := {|
    verify_server_cert c _ _ _ _ := if bool_decide (c ∈ l) then Ok tt else Err "UnknownIssuer";
    verify_tls12_signature _ _ _ := Ok tt;
    verify_tls13_signature _ _ _ := Ok tt;
    supported_verify_schemes := ["ED25519"];
  |};
|}.
