(* ===== verification/Os.v ===== *)
(** * The operating system, and resources that clean up after themselves
    ([src/sys_resource.rs])

    [OsSig] holds the operations the jails perform: child processes, files,
    environment variables, threads and the clock.  [SystemResource] is the
    interface a resource gives [ManagedResource], which releases it on drop;
    [SystemResourceLaws] is the idempotence its documentation asks for. *)

From S2P Require Import Prelude Effects Paths Process.

Inductive os_op : Type :=
| RunOutput (c : Command)                    (** [Command::output] *)
| RunStatus (c : Command)                    (** [Command::status] *)
| SpawnPiped (c : Command)                   (** [Command::spawn] of a command fed on stdin *)
| WriteStdin (data : string)
| WaitOutput                                 (** [wait_with_output] *)
| WaitStatus                                 (** [wait] *)
| GetUid
| EnvVar (name : string)
| DataDir                                    (** [dirs::data_dir] *)
| GenIndex (n : Z)                           (** [rng.gen_range(0..n)] *)
| PathExists (path : string)
| IsFile (path : string)
| ReadDir (path : string)
| Modified (path : string)                   (** [fs::metadata] then [modified] *)
| Now
| CreateDirAll (path : string)
| WriteFile (path contents : string)
| CreateNew (path : string)
| RemoveFile (path : string)
| RemoveDirAll (path : string)
| ReadLink (path : string)
| Canonicalize (path : string)
| SetMtime (path : string) (atime mtime : Z)
| Accessed (path : string)
| StartDns (addr : string)                   (** [DummyDnsServer::start] *)
| StopDns
| SpawnHeartbeat (path : string) (interval : Z)
| LoadStop
| StoreStop
| JoinHeartbeat
| Sleep (nanos : Z).

Definition OsSig : Sig :=
  {| op := os_op;
     ans o := match o with
              | RunOutput _ => Result Output Error
              | RunStatus _ => Result ExitStatus Error
              | SpawnPiped _ | WriteStdin _ => Result unit Error
              | WaitOutput => Result Output Error
              | WaitStatus => Result ExitStatus Error
              | GetUid => Z
              | EnvVar _ => option string
              | DataDir => option string
              | GenIndex _ => Z
              | PathExists _ | IsFile _ => bool
              | ReadDir _ => Result (list (Result string Error)) Error
              | Modified _ => Result (Result Z Error) Error
              | Now => Z
              | CreateDirAll _ | WriteFile _ _ | CreateNew _ | RemoveFile _ | RemoveDirAll _ =>
                  Result unit Error
              | ReadLink _ | Canonicalize _ => Result string Error
              | SetMtime _ _ _ => Result unit Error
              | Accessed _ => Result (Result Z Error) Error
              | StartDns _ => Result unit Error
              | StopDns | SpawnHeartbeat _ _ | StoreStop | Sleep _ => unit
              | LoadStop => bool
              | JoinHeartbeat => Result unit Error
              end |}.

Definition os (o : op OsSig) : prog OsSig (ans OsSig o) := perform o.

Definition cmd (p : string) (l : list string) : Command := Command.add_args (Command.new p) l.

(** ** [SystemResource] *)

Class SystemResource (T : Type) := {
  sr_create : string -> prog OsSig (Result T Error);
  sr_cleanup : T -> prog OsSig (Result unit Error * T);
  sr_for_existing : string -> T;
}.

(** Once cleaned up, a resource is not cleaned up again. *)
Class SystemResourceLaws (T : Type) `{SystemResource T} : Prop := {
  cleanup_idempotent (x : T) :
    wp (sr_cleanup x) (fun _ '(r, x') => r = Ok tt -> sr_cleanup x' = Ret (Ok tt, x'));
}.

(** ** [ManagedResource] *)

Record ManagedResource (T : Type) : Type := mkManaged { resource : option T }.
Arguments mkManaged {T} _.
Arguments resource {T} _.

Section Managed.
Context {T : Type} `{SystemResource T}.

Definition managed_create (jail_id : string) : prog OsSig (Result (ManagedResource T) Error) :=
  r ⇐? sr_create jail_id;
  Ret (Ok (mkManaged (Some r))).

Definition managed_for_existing (jail_id : string) : ManagedResource T :=
  mkManaged (Some (sr_for_existing jail_id)).

Definition managed_from_resource (r : T) : ManagedResource T := mkManaged (Some r).

Definition inner (m : ManagedResource T) : option T := resource m.

(** Writing through [inner_mut]. *)
Definition inner_mut (f : T -> T) (m : ManagedResource T) : ManagedResource T :=
  mkManaged (f <$> resource m).

(** [Drop for ManagedResource]: a failed cleanup is only logged. *)
Definition managed_drop (m : ManagedResource T) : prog OsSig unit :=
  match resource m with
  | Some r => _ ⇐ sr_cleanup r; Ret tt
  | None => Ret tt
  end.

(** The drop of an [Option] of it. *)
Definition drop_option (m : option (ManagedResource T)) : prog OsSig unit :=
  match m with Some m => managed_drop m | None => Ret tt end.

End Managed.

(** ** Traces of commands *)

(** The command an event ran to its end. *)
Definition ran (e : event OsSig) : option Command :=
  match ev_op e with
  | RunOutput c | RunStatus c => Some c
  | _ => None
  end.

(** The directory an event removed, or tried to. *)
Definition removed_dir (e : event OsSig) : option string :=
  match ev_op e with RemoveDirAll p => Some p | _ => None end.
