(* ===== verification/Nftables.v ===== *)
(** * nftables tables ([src/jail/linux/nftables.rs])

    The rulesets the jail installs, as the text given to [nft], and the table
    that removes itself. *)

From S2P Require Import Prelude Effects Paths Process Os.

Record NFTable : Type := { nft_name : string; nft_namespace : option string; nft_created : bool }.

#[export] Instance nftable_eq_dec : EqDecision NFTable.
Proof. solve_decision. Defined.

Definition unlines (l : list string) : string := concat_strings ((fun s => s +:+ LF) <$> l).

Lemma unlines_cons x l : unlines (x :: l) = x +:+ LF +:+ unlines l.
Proof. unfold unlines. csimpl. by rewrite join_nil_cons, append_assoc. Qed.

Definition quoted (s : string) : string := dquote +:+ s +:+ dquote.

Definition host_ruleset (table_name veth_host jail_id subnet_cidr : string) (http_port https_port : Z)
    : string :=
  unlines
   ["";
    "table ip " +:+ table_name +:+ " {";
    "    chain prerouting {";
    "        type filter hook prerouting priority -150; policy accept;";
    "        iifname " +:+ quoted veth_host +:+ " accept comment " +:+
      quoted ("httpjail_" +:+ jail_id +:+ " prerouting");
    "    }";
    "    ";
    "    chain postrouting {";
    "        type nat hook postrouting priority 100; policy accept;";
    "        ip saddr " +:+ subnet_cidr +:+ " masquerade comment " +:+
      quoted ("httpjail_" +:+ jail_id);
    "    }";
    "    ";
    "    chain forward {";
    "        type filter hook forward priority -100; policy accept;";
    "        ip saddr " +:+ subnet_cidr +:+ " accept comment " +:+
      quoted ("httpjail_" +:+ jail_id +:+ " out");
    "        ip daddr " +:+ subnet_cidr +:+ " accept comment " +:+
      quoted ("httpjail_" +:+ jail_id +:+ " in");
    "    }";
    "    ";
    "    chain input {";
    "        type filter hook input priority -100; policy accept;";
    "        iifname " +:+ quoted veth_host +:+ " tcp dport { " +:+ dec http_port +:+ ", " +:+
      dec https_port +:+ " } accept comment " +:+ quoted ("httpjail_" +:+ jail_id +:+ " proxy");
    "        iifname " +:+ quoted veth_host +:+ " udp dport 53 accept comment " +:+
      quoted ("httpjail_" +:+ jail_id +:+ " dns");
    "        iifname " +:+ quoted veth_host +:+ " accept comment " +:+
      quoted ("httpjail_" +:+ jail_id +:+ " all");
    "    }";
    "    ";
    "    chain output {";
    "        type filter hook output priority -100; policy accept;";
    "        oifname " +:+ quoted veth_host +:+ " accept comment " +:+
      quoted ("httpjail_" +:+ jail_id +:+ " out");
    "    }";
    "}"].

Definition namespace_ruleset (table_name host_ip : string) (http_port https_port : Z) : string :=
  unlines
   ["";
    "table ip " +:+ table_name +:+ " {";
    "    # NAT output chain: redirect HTTP/HTTPS to host proxy";
    "    chain output {";
    "        type nat hook output priority -100; policy accept;";
    "";
    "        # Redirect HTTP to proxy running on host";
    "        tcp dport 80 dnat to " +:+ host_ip +:+ ":" +:+ dec http_port;
    "";
    "        # Redirect HTTPS to proxy running on host";
    "        tcp dport 443 dnat to " +:+ host_ip +:+ ":" +:+ dec https_port;
    "";
    "        # Note: DNS does not need DNAT - /etc/resolv.conf is mounted with nameserver=" +:+ host_ip;
    "        # so all DNS queries naturally go directly to the host DNS server";
    "    }";
    "";
    "    # FILTER output chain: block non-HTTP/HTTPS egress";
    "    chain outfilter {";
    "        type filter hook output priority 0; policy drop;";
    "";
    "        # Always allow established/related traffic";
    "        ct state established,related accept";
    "";
    "        # Allow DNS traffic to host IP (resolv.conf points directly to host_ip)";
    "        ip daddr " +:+ host_ip +:+ " udp dport 53 accept";
    "";
    "        # Allow traffic to the host proxy ports (after DNAT)";
    "        ip daddr " +:+ host_ip +:+ " tcp dport { " +:+ dec http_port +:+ ", " +:+
      dec https_port +:+ " } accept";
    "";
    "        # Explicitly block all other UDP (e.g., QUIC on 443)";
    "        # This must come AFTER allowing DNS traffic";
    "        ip protocol udp drop";
    "";
    "        # Explicitly block all other TCP traffic";
    "        # This must come AFTER allowing HTTP/HTTPS traffic";
    "        ip protocol tcp drop";
    "    }";
    "}"].

(** Feeds a ruleset to [nft] run by [c]. *)
Definition apply_ruleset (c : Command) (spawn_failed exec_failed failed ruleset : string)
    : prog OsSig (Result unit Error) :=
  spawned ⇐ os (SpawnPiped c);
  match spawned with
  | Err e => Ret (Err (WithContext spawn_failed e))
  | Ok _ =>
      written ⇐ os (WriteStdin ruleset);
      match written with
      | Err e => Ret (Err (WithContext "Failed to write ruleset to nft" e))
      | Ok _ =>
          output ⇐ os WaitOutput;
          match output with
          | Err e => Ret (Err (WithContext exec_failed e))
          | Ok out =>
              if negb (success (status out))
              then Ret (Err (Msg (failed +:+ from_utf8_lossy (stderr out))))
              else Ret (Ok tt)
          end
      end
  end.

Definition piped (c : Command) : Command := Command.with_stdio c Piped Piped Piped.

Definition new_host_table (jail_id subnet_cidr : string) (http_port https_port : Z)
    : prog OsSig (Result NFTable Error) :=
  let table_name := "httpjail_" +:+ jail_id in
  let veth_host := "vh_" +:+ jail_id in
  _ ⇐? apply_ruleset (piped (cmd "nft" ["-f"; "-"])) "Failed to spawn nft command"
         "Failed to execute nft command" "Failed to create nftables table: "
         (host_ruleset table_name veth_host jail_id subnet_cidr http_port https_port);
  Ret (Ok {| nft_name := table_name; nft_namespace := None; nft_created := true |}).

Definition new_namespace_table_with_dns (namespace host_ip : string)
    (http_port https_port dns_port : Z) : prog OsSig (Result NFTable Error) :=
  let table_name := "httpjail" in
  _ ⇐? apply_ruleset (piped (cmd "ip" ["netns"; "exec"; namespace; "nft"; "-f"; "-"]))
         "Failed to spawn nft command in namespace"
         "Failed to execute nft command in namespace"
         "Failed to create namespace nftables table: "
         (namespace_ruleset table_name host_ip http_port https_port);
  Ret (Ok {| nft_name := table_name; nft_namespace := Some namespace; nft_created := true |}).

Definition set_nft_created (b : bool) (t : NFTable) : NFTable :=
  {| nft_name := nft_name t; nft_namespace := nft_namespace t; nft_created := b |}.

Definition delete_table_command (t : NFTable) : Command :=
  match nft_namespace t with
  | Some namespace =>
      cmd "ip" ["netns"; "exec"; namespace; "nft"; "delete"; "table"; "ip"; nft_name t]
  | None => cmd "nft" ["delete"; "table"; "ip"; nft_name t]
  end.

(** [remove]: a table that cannot be deleted is only logged. *)
Definition nft_remove (t : NFTable) : prog OsSig (Result unit Error * NFTable) :=
  if negb (nft_created t) then Ret (Ok tt, t)
  else
    output ⇐ os (RunOutput (delete_table_command t));
    match output with
    | Err e =>
        Ret (Err (WithContext (match nft_namespace t with
                               | Some _ => "Failed to execute nft delete in namespace"
                               | None => "Failed to execute nft delete"
                               end) e), t)
    | Ok _ => Ret (Ok tt, set_nft_created false t)
    end.

Definition nft_for_existing (jail_id : string) (is_namespace : bool) : NFTable :=
  {| nft_name := if is_namespace then "httpjail" else "httpjail_" +:+ jail_id;
     nft_namespace := if is_namespace then Some ("httpjail_" +:+ jail_id) else None;
     nft_created := true |}.

(** [Drop for NFTable]. *)
Definition nft_drop (t : NFTable) : prog OsSig unit :=
  if nft_created t then _ ⇐ nft_remove t; Ret tt else Ret tt.
