(* ===== verification/Firewall.v ===== *)
(** * What the namespace's filter does

    [Nftables] has the text given to [nft].  Here is what that text means: the
    part of the nftables language it is written in, as syntax printed line by
    line, and the documented behaviour of such a table on the packets that
    leave a process of the namespace.  [egress_ruleset_shows] reads the text
    back as syntax; [egress_fate] computes the fate of every packet under it.

    A table of family [ip] sees IPv4 packets only. *)

From S2P Require Import Prelude Effects Paths Process Os Nftables Net.

(** ** Packets *)

Inductive Transport : Type := Tcp | Udp | OtherTransport.

#[export] Instance transport_eq_dec : EqDecision Transport.
Proof. solve_decision. Defined.

(** What the rules look at: whether the packet belongs to a connection that is
    already tracked, its transport, and its destination. *)
Record Packet : Type := {
  tracked : bool;
  transport : Transport;
  daddr : Ipv4Addr;
  dport : Z;
}.

(** ** The language *)

Inductive Match : Type :=
| Established                             (** [ct state established,related] *)
| ToAddr (a : Ipv4Addr)                   (** [ip daddr] *)
| ToPort (t : Transport) (port : Z)       (** [tcp dport] *)
| ToPorts (t : Transport) (ports : list Z)
| Protocol (t : Transport).               (** [ip protocol] *)

Inductive Verdict : Type := VAccept | VDrop | VDnat (a : Ipv4Addr) (port : Z).

(** What may stand on a line of a chain. *)
Inductive Line : Type :=
| Blank
| Comment (text : string)
| Rule (ms : list Match) (v : Verdict).

Inductive ChainType : Type := NatChain | FilterChain.

(** A base chain of the [output] hook; the policy is whether it accepts. *)
Record Chain : Type := {
  chain_name : string;
  chain_type : ChainType;
  priority : Z;
  accepts : bool;
  lines : list Line;
}.

(** A table, each chain with the comment above it. *)
Record Table : Type := { table_name : string; chains : list (string * Chain) }.

(** ** Its text *)

Definition show_transport (t : Transport) : string :=
  match t with Tcp => "tcp" | Udp => "udp" | OtherTransport => "other" end.

Definition show_match (m : Match) : string :=
  match m with
  | Established => "ct state established,related"
  | ToAddr a => "ip daddr " +:+ show_ipv4 a
  | ToPort t port => show_transport t +:+ " dport " +:+ dec port
  | ToPorts t ports => show_transport t +:+ " dport { " +:+ join ", " (dec <$> ports) +:+ " }"
  | Protocol t => "ip protocol " +:+ show_transport t
  end.

Definition show_verdict (v : Verdict) : string :=
  match v with
  | VAccept => "accept"
  | VDrop => "drop"
  | VDnat a port => "dnat to " +:+ show_ipv4 a +:+ ":" +:+ dec port
  end.

Definition indented (s : string) : string := "        " +:+ s.

Definition show_line (l : Line) : string :=
  match l with
  | Blank => ""
  | Comment text => indented ("# " +:+ text)
  | Rule ms v => indented (join " " ((show_match <$> ms) ++ [show_verdict v]))
  end.

Definition show_chain_type (t : ChainType) : string :=
  match t with NatChain => "nat" | FilterChain => "filter" end.

Definition show_chain (c : string * Chain) : list string :=
  let '(comment, c) := c in
  ["    # " +:+ comment; "    chain " +:+ chain_name c +:+ " {";
   indented ("type " +:+ show_chain_type (chain_type c) +:+ " hook output priority " +:+
     dec (priority c) +:+ "; policy " +:+ (if accepts c then "accept" else "drop") +:+ ";")] ++
  (show_line <$> lines c) ++ ["    }"].

(** The chains' texts, a blank line between two. *)
Fixpoint show_chains (l : list (string * Chain)) : list string :=
  match l with
  | [] => []
  | [c] => show_chain c
  | c :: l => show_chain c ++ [""] ++ show_chains l
  end.

Definition show_table (t : Table) : string :=
  unlines (["table ip " +:+ table_name t +:+ " {"] ++ show_chains (chains t) ++ ["}"]).

(** ** Its meaning *)

Definition matches (k : Packet) (m : Match) : bool :=
  match m with
  | Established => tracked k
  | ToAddr a => bool_decide (daddr k = a)
  | ToPort t port => bool_decide (transport k = t) && (dport k =? port)
  | ToPorts t ports => bool_decide (transport k = t) && bool_decide (dport k ∈ ports)
  | Protocol t => bool_decide (transport k = t)
  end.

Definition to (k : Packet) (a : Ipv4Addr) (port : Z) : Packet :=
  {| tracked := tracked k; transport := transport k; daddr := a; dport := port |}.

(** The first rule all of whose matches hold decides; without one, the policy
    does.  [None] is a packet that is dropped. *)
Fixpoint run_lines (policy : bool) (ls : list Line) (k : Packet) : option Packet :=
  match ls with
  | [] => if policy then Some k else None
  | Rule ms v :: ls =>
      if forallb (matches k) ms
      then match v with
           | VAccept => Some k
           | VDrop => None
           | VDnat a port => Some (to k a port)
           end
      else run_lines policy ls k
  | _ :: ls => run_lines policy ls k
  end.

(** Chains of type [nat] see the first packet of a connection only. *)
Definition run_chain (c : Chain) (k : Packet) : option Packet :=
  match chain_type c with
  | NatChain => if tracked k then Some k else run_lines (accepts c) (lines c) k
  | FilterChain => run_lines (accepts c) (lines c) k
  end.

(** The chains of a hook run by increasing priority, each on what the one
    before let through. *)
Fixpoint insert_chain (c : Chain) (l : list Chain) : list Chain :=
  match l with
  | [] => [c]
  | c' :: l' => if priority c <=? priority c' then c :: l else c' :: insert_chain c l'
  end.

Definition by_priority (l : list Chain) : list Chain := foldr insert_chain [] l.

Definition fate (t : Table) (k : Packet) : option Packet :=
  foldl (fun k c => k ≫= run_chain c) (Some k) (by_priority ((chains t).*2)).

(** ** The jail's filter *)

Definition egress_ruleset (host : Ipv4Addr) (http_port https_port : Z) : Table := {|
  table_name := "httpjail";
  chains :=
   [("NAT output chain: redirect HTTP/HTTPS to host proxy",
     {| chain_name := "output"; chain_type := NatChain; priority := -100; accepts := true; lines :=
       [Blank; Comment "Redirect HTTP to proxy running on host";
        Rule [ToPort Tcp 80] (VDnat host http_port);
        Blank; Comment "Redirect HTTPS to proxy running on host";
        Rule [ToPort Tcp 443] (VDnat host https_port);
        Blank;
        Comment ("Note: DNS does not need DNAT - /etc/resolv.conf is mounted with nameserver=" +:+ show_ipv4 host);
        Comment "so all DNS queries naturally go directly to the host DNS server"] |});
    ("FILTER output chain: block non-HTTP/HTTPS egress",
     {| chain_name := "outfilter"; chain_type := FilterChain; priority := 0; accepts := false; lines :=
       [Blank; Comment "Always allow established/related traffic";
        Rule [Established] VAccept;
        Blank; Comment "Allow DNS traffic to host IP (resolv.conf points directly to host_ip)";
        Rule [ToAddr host; ToPort Udp 53] VAccept;
        Blank; Comment "Allow traffic to the host proxy ports (after DNAT)";
        Rule [ToAddr host; ToPorts Tcp [http_port; https_port]] VAccept;
        Blank; Comment "Explicitly block all other UDP (e.g., QUIC on 443)";
        Comment "This must come AFTER allowing DNS traffic";
        Rule [Protocol Udp] VDrop;
        Blank; Comment "Explicitly block all other TCP traffic";
        Comment "This must come AFTER allowing HTTP/HTTPS traffic";
        Rule [Protocol Tcp] VDrop] |})];
|}.

(** The text the jail gives to [nft] is that ruleset. *)
Lemma egress_ruleset_shows (host : Ipv4Addr) (http_port https_port : Z) :
  namespace_ruleset "httpjail" (show_ipv4 host) http_port https_port =
  LF +:+ show_table (egress_ruleset host http_port https_port).
Proof.
  unfold namespace_ruleset, show_table, egress_ruleset.
  assert (dec 80 = "80") as E80 by reflexivity. assert (dec 443 = "443") as E443 by reflexivity.
  assert (dec 53 = "53") as E53 by reflexivity. assert (dec (-100) = "-100") as E100 by reflexivity.
  assert (dec 0 = "0") as E0 by reflexivity.
  cbn [app chains table_name show_chains show_chain fmap list_fmap lines chain_name chain_type
       priority accepts show_line show_match show_verdict show_transport show_chain_type join].
  rewrite E80, E443, E53, E100, E0. rewrite unlines_cons, append_nil_l. f_equal.
  generalize (show_ipv4 host) (dec http_port) (dec https_port). intros h p q.
  unfold indented. apply (f_equal unlines).
  repeat (apply (f_equal2 cons); [by rewrite ?append_assoc|]). reflexivity.
Qed.

(** What is promised of a packet: a new TCP connection to port 80 or 443,
    wherever it was to go, goes to the proxy's port for it on the host; one to
    those ports of the host passes, and so does a datagram to port 53 of the
    host; everything else that is not part of a connection already let through
    is dropped. *)
Definition egress (host : Ipv4Addr) (http_port https_port : Z) (k : Packet) : option Packet :=
  if tracked k then Some k
  else match transport k with
       | Tcp =>
           if dport k =? 80 then Some (to k host http_port)
           else if dport k =? 443 then Some (to k host https_port)
           else if decide (daddr k = host /\ (dport k = http_port \/ dport k = https_port)) then Some k
           else None
       | Udp => if decide (daddr k = host /\ dport k = 53) then Some k else None
       | OtherTransport => None
       end.

(** Decides the transports, which are known. *)
Ltac transports :=
  change (bool_decide (Tcp = Tcp)) with true; change (bool_decide (Tcp = Udp)) with false;
  change (bool_decide (Udp = Tcp)) with false; change (bool_decide (Udp = Udp)) with true;
  change (bool_decide (OtherTransport = Tcp)) with false;
  change (bool_decide (OtherTransport = Udp)) with false; cbn.

Lemma egress_fate (host : Ipv4Addr) (http_port https_port : Z) (k : Packet) :
  fate (egress_ruleset host http_port https_port) k = egress host http_port https_port k.
Proof.
  destruct k as [[] tr a n]; [done|]. unfold fate, egress, run_chain. cbn.
  destruct tr; cbn; transports.
  - destruct (n =? 80); cbn; transports; [by rewrite !bool_decide_eq_true_2 by set_solver|].
    destruct (n =? 443); cbn; transports; [by rewrite !bool_decide_eq_true_2 by set_solver|].
    rewrite !andb_false_r, andb_true_r. destruct (decide (_ /\ _)) as [[-> Hn]|Hn].
    + by rewrite !bool_decide_eq_true_2 by set_solver.
    + destruct (bool_decide (a = host)) eqn:Ea; [|done]. apply bool_decide_eq_true in Ea.
      rewrite bool_decide_eq_false_2; [done|]. rewrite !elem_of_cons, elem_of_nil. tauto.
  - destruct (n =? 53) eqn:E53; bools; [subst n|]; (destruct (bool_decide (a = host)) eqn:Ea;
      [apply bool_decide_eq_true in Ea|apply bool_decide_eq_false in Ea]; cbn; case_decide as Hd;
      try done; first [by destruct Hd | by destruct Hd; split]).
  - by rewrite !andb_false_r.
Qed.

(** What may leave is addressed to the host: nothing else is reached. *)
Corollary egress_reaches_host (host : Ipv4Addr) (http_port https_port : Z) (k k' : Packet) :
  tracked k = false -> fate (egress_ruleset host http_port https_port) k = Some k' ->
  daddr k' = host /\
  ((transport k' = Tcp /\ (dport k' = http_port \/ dport k' = https_port)) \/
   (transport k' = Udp /\ dport k' = 53)).
Proof.
  rewrite egress_fate. unfold egress. intros ->. destruct (transport k) eqn:Et; [| |done].
  - destruct (dport k =? 80); [intros [= <-]; cbn; auto|].
    destruct (dport k =? 443); [intros [= <-]; cbn; auto|]. case_decide as Hd; [|done].
    intros [= <-]. destruct Hd. auto.
  - case_decide as Hd; [|done]. intros [= <-]. destruct Hd. auto.
Qed.
