(* ===== verification/LinuxResources.v ===== *)
(** * The resources of a Linux jail ([src/jail/linux/resources.rs])

    A network namespace, a veth pair, the host's nftables table and the
    namespace's [resolv.conf], each an instance of [SystemResource] that is
    cleaned up at most once. *)

From S2P Require Import Prelude Effects Paths Process Os Nftables.

(** Runs a command that must succeed. *)
Definition run_checked (c : Command) (context failed : string) : prog OsSig (Result unit Error) :=
  output ⇐ os (RunOutput c);
  match output with
  | Err e => Ret (Err (WithContext context e))
  | Ok out =>
      if success (status out) then Ret (Ok tt)
      else Ret (Err (Msg (failed +:+ from_utf8_lossy (stderr out))))
  end.

(** ** The namespace *)

Record NetworkNamespace : Type := { ns_name : string; ns_created : bool }.

Definition netns_name (jail_id : string) : string := "httpjail_" +:+ jail_id.

Definition namespace_create (jail_id : string) : prog OsSig (Result NetworkNamespace Error) :=
  let name := netns_name jail_id in
  _ ⇐? run_checked (cmd "ip" ["netns"; "add"; name]) "Failed to execute ip netns add"
         ("Failed to create namespace " +:+ name +:+ ": ");
  Ret (Ok {| ns_name := name; ns_created := true |}).

Definition namespace_gone (n : NetworkNamespace) : NetworkNamespace :=
  {| ns_name := ns_name n; ns_created := false |}.

Definition namespace_cleanup (n : NetworkNamespace)
    : prog OsSig (Result unit Error * NetworkNamespace) :=
  if negb (ns_created n) then Ret (Ok tt, n)
  else
    output ⇐ os (RunOutput (cmd "ip" ["netns"; "del"; ns_name n]));
    match output with
    | Err e => Ret (Err (WithContext "Failed to execute ip netns del" e), n)
    | Ok out =>
        if success (status out) then Ret (Ok tt, namespace_gone n)
        else
          let stderr := from_utf8_lossy (stderr out) in
          if contains stderr "No such file" || contains stderr "Cannot find"
          then Ret (Ok tt, namespace_gone n)
          else Ret (Err (Msg ("Failed to delete namespace: " +:+ stderr)), n)
    end.

#[export] Instance namespace_resource : SystemResource NetworkNamespace := {|
  sr_create := namespace_create;
  sr_cleanup := namespace_cleanup;
  sr_for_existing jail_id := {| ns_name := netns_name jail_id; ns_created := true |};
|}.

(** ** The veth pair *)

Record VethPair : Type := { veth_host_name : string; veth_ns_name : string; veth_created : bool }.

Definition veth_host (jail_id : string) : string := "vh_" +:+ jail_id.
Definition veth_ns (jail_id : string) : string := "vn_" +:+ jail_id.

Definition veth_create (jail_id : string) : prog OsSig (Result VethPair Error) :=
  let host_name := veth_host jail_id in
  let ns_name := veth_ns jail_id in
  _ ⇐? run_checked (cmd "ip" ["link"; "add"; host_name; "type"; "veth"; "peer"; "name"; ns_name])
         "Failed to create veth pair" "Failed to create veth pair: ";
  Ret (Ok {| veth_host_name := host_name; veth_ns_name := ns_name; veth_created := true |}).

Definition veth_cleanup (v : VethPair) : prog OsSig (Result unit Error * VethPair) :=
  if negb (veth_created v) then Ret (Ok tt, v)
  else
    _ ⇐ os (RunOutput (cmd "ip" ["link"; "del"; veth_host_name v]));
    Ret (Ok tt, {| veth_host_name := veth_host_name v; veth_ns_name := veth_ns_name v;
                   veth_created := false |}).

#[export] Instance veth_resource : SystemResource VethPair := {|
  sr_create := veth_create;
  sr_cleanup := veth_cleanup;
  sr_for_existing jail_id :=
    {| veth_host_name := veth_host jail_id; veth_ns_name := veth_ns jail_id; veth_created := true |};
|}.

(** ** The host's table *)

Record NFTableResource : Type := { nfr_jail_id : string; nfr_table : option NFTable }.

Definition set_table (t : NFTable) (r : NFTableResource) : NFTableResource :=
  {| nfr_jail_id := nfr_jail_id r; nfr_table := Some t |}.

Definition nft_resource_cleanup (r : NFTableResource)
    : prog OsSig (Result unit Error * NFTableResource) :=
  _ ⇐ match nfr_table r with Some t => nft_drop t | None => Ret tt end;
  Ret (Ok tt, {| nfr_jail_id := nfr_jail_id r; nfr_table := None |}).

#[export] Instance nft_resource : SystemResource NFTableResource := {|
  sr_create jail_id := Ret (Ok {| nfr_jail_id := jail_id; nfr_table := None |});
  sr_cleanup := nft_resource_cleanup;
  sr_for_existing jail_id :=
    {| nfr_jail_id := jail_id; nfr_table := Some (nft_for_existing jail_id false) |};
|}.

(** ** The namespace's [resolv.conf] *)

Record NetnsResolv : Type := { netns_dir : string; resolv_created : bool }.

Definition resolv_dir (jail_id : string) : string := "/etc/netns/httpjail_" +:+ jail_id.

Definition resolve_resolv_conf_target : prog OsSig (option string) :=
  link ⇐ os (ReadLink "/etc/resolv.conf");
  match link with
  | Err _ => Ret None
  | Ok symlink_target =>
      let absolute_path :=
        if starts_with symlink_target "/" then symlink_target
        else path_join "/etc" symlink_target in
      target ⇐ os (Canonicalize absolute_path);
      Ret (Result.ok target)
  end.

Definition resolv_contents (nameserver_ip : string) : string :=
  "# httpjail managed" +:+ LF +:+ "nameserver " +:+ nameserver_ip +:+ LF.

Definition create_with_nameserver (jail_id nameserver_ip : string)
    : prog OsSig (Result NetnsResolv Error) :=
  let dir := resolv_dir jail_id in
  made ⇐ os (CreateDirAll dir);
  match made with
  | Err e => Ret (Err (WithContext ("Failed to create " +:+ dir) e))
  | Ok _ =>
      let resolv_path := path_join dir "resolv.conf" in
      written ⇐ os (WriteFile resolv_path (resolv_contents nameserver_ip));
      match written with
      | Err e => Ret (Err (WithContext ("Failed to write " +:+ resolv_path) e))
      | Ok _ =>
          _ ⇐ os (CreateDirAll "/run/systemd/resolve");
          _ ⇐ os (CreateNew "/run/systemd/resolve/stub-resolv.conf");
          Ret (Ok {| netns_dir := dir; resolv_created := true |})
      end
  end.

Definition resolv_cleanup (r : NetnsResolv) : prog OsSig (Result unit Error * NetnsResolv) :=
  if negb (resolv_created r) then Ret (Ok tt, r)
  else
    target ⇐ resolve_resolv_conf_target;
    _ ⇐ match target with
        | Some target_path => _ ⇐ os (RunOutput (cmd "umount" [target_path])); Ret tt
        | None => Ret tt
        end;
    _ ⇐ os (RemoveDirAll (netns_dir r));
    Ret (Ok tt, {| netns_dir := netns_dir r; resolv_created := false |}).

#[export] Instance resolv_resource : SystemResource NetnsResolv := {|
  sr_create _ := Ret (Err (Msg "Use create_with_nameserver instead of create"));
  sr_cleanup := resolv_cleanup;
  sr_for_existing jail_id := {| netns_dir := resolv_dir jail_id; resolv_created := true |};
|}.

(** ** The interface's law *)

#[export] Instance namespace_laws : SystemResourceLaws NetworkNamespace.
Proof.
  split. intros [name []]; simpl; [|done]. intros [out|e]; simpl; [|done].
  destruct (success (status out)); [done|]. by destruct (_ || _).
Qed.

#[export] Instance veth_laws : SystemResourceLaws VethPair.
Proof. split. by intros [h n []]. Qed.

#[export] Instance nft_laws : SystemResourceLaws NFTableResource.
Proof.
  split. intros [id [[n ns []]|]]; simpl; [|done|done]. intros [out|e]; simpl; done.
Qed.

#[export] Instance resolv_laws : SystemResourceLaws NetnsResolv.
Proof.
  split. intros [dir []]; simpl; [|done]. intros [link|e]; simpl; [|done].
  intros [target|e]; simpl; done.
Qed.
