(* ===== verification/Jail.v ===== *)
(** * Jails ([src/jail/mod.rs])

    [Jail] is the interface of a jail implementation: programs over the
    operating system that thread the jail's state.  [drop_jail] is what the
    language runs when a jail goes away. *)

From S2P Require Import Prelude Effects Paths Process Os.
From Stdlib Require Import Ascii.

Class Jail (J : Type) := {
  setup : J -> Z -> prog OsSig (Result unit Error * J);
  execute : J -> list string -> list (string * string) -> prog OsSig (Result ExitStatus Error);
  cleanup : J -> prog OsSig (Result unit Error);
  jail_id : J -> string;
  cleanup_orphaned : string -> prog OsSig (Result unit Error);
  drop_jail : J -> prog OsSig unit;
}.

Definition get_canary_dir : prog OsSig string :=
  data_dir ⇐ os DataDir;
  match data_dir with
  | Some data_dir => Ret (path_join (path_join data_dir "httpjail") "canaries")
  | None => Ret "/tmp/httpjail"
  end.

Definition get_temp_dir : string := "/tmp/httpjail".

(** ** Configuration *)

Record JailConfig : Type := {
  http_proxy_port : Z;
  https_proxy_port : Z;
  config_jail_id : string;
  enable_heartbeat : bool;
  heartbeat_interval_secs : Z;
  orphan_timeout_secs : Z;
}.

Definition CHARSET : string := "0123456789abcdefghijklmnopqrstuvwxyz".

Definition charset_char (idx : Z) : string :=
  match String.get (Z.to_nat idx) CHARSET with Some a => String a "" | None => "" end.

Fixpoint generate_base36_id (length : nat) : prog OsSig string :=
  match length with
  | O => Ret ""
  | S length' =>
      idx ⇐ os (GenIndex (len CHARSET));
      rest ⇐ generate_base36_id length';
      Ret (charset_char idx +:+ rest)
  end.

Definition config_new : prog OsSig JailConfig :=
  jail_id ⇐ generate_base36_id 8;
  Ret {| http_proxy_port := 8040; https_proxy_port := 8043; config_jail_id := jail_id;
         enable_heartbeat := true; heartbeat_interval_secs := 1; orphan_timeout_secs := 10 |}.

(** ** Which jail [create_jail] makes, on Linux *)

Inductive JailKind : Type := KindWeak | KindManagedDocker | KindManagedLinux.

Definition create_jail_kind (weak_mode docker_mode : bool) : JailKind :=
  if weak_mode then KindWeak else if docker_mode then KindManagedDocker else KindManagedLinux.

(** ** What cleaning up removes *)

Inductive Undo : Type :=
| UndoNamespace (name : string)
| UndoVeth (host_name : string)
| UndoTable (name : string)
| UndoDir (path : string)
| UndoNetwork (name : string)
| UndoFile (path : string).

#[export] Instance undo_eq_dec : EqDecision Undo.
Proof. solve_decision. Defined.

(** What an operation tries to remove. *)
Definition undoes (e : event OsSig) : option Undo :=
  match ev_op e with
  | RunOutput c =>
      match args c with
      | [a; b; n] =>
          if String.eqb (program c) "ip" && String.eqb a "netns" && String.eqb b "del"
          then Some (UndoNamespace n)
          else if String.eqb (program c) "ip" && String.eqb a "link" && String.eqb b "del"
          then Some (UndoVeth n)
          else if String.eqb (program c) "docker" && String.eqb a "network" && String.eqb b "rm"
          then Some (UndoNetwork n) else None
      | [a; b; _; t] =>
          if String.eqb (program c) "nft" && String.eqb a "delete" && String.eqb b "table"
          then Some (UndoTable t) else None
      | _ => None
      end
  | RemoveDirAll d => Some (UndoDir d)
  | _ => None
  end.

(** An operation on a jail's own resources: nothing about canary files, the
    heartbeat or the clock.  (A directory that is removed is one of
    [/etc/netns], where no canary is.) *)
Definition quiet_op (o : os_op) : bool :=
  match o with
  | RunOutput _ | SpawnPiped _ | WriteStdin _ | WaitOutput | GetUid | EnvVar _
  | DataDir | RemoveDirAll _ | ReadLink _ | Canonicalize _ | StartDns _ | StopDns => true
  | _ => false
  end.

Definition quiet (e : event OsSig) : Prop := quiet_op (ev_op e) = true.

(** What a jail promises [ManagedJail]: cleaning up by name touches only the
    jail's own resources, and when it reports success it went through all of
    [reclaims]. *)
Class JailLaws (J : Type) `{Jail J} := {
  reclaims : string -> list Undo;
  orphaned_reclaims id : wp (cleanup_orphaned (J := J) id) (fun t r =>
    Forall quiet t /\ (r = Ok tt -> omap undoes t = reclaims id));
  cleanup_quiet (j : J) : wp (cleanup j) (fun t _ => Forall quiet t);
}.

(** The generator's answers are in range. *)
Definition index_in_range (e : event OsSig) : Prop :=
  match e with
  | {| ev_op := GenIndex n; ev_ans := i |} => 0 <= i < n
  | _ => True
  end.

(** The documented behaviour of [gen_range] holds along the trace. *)
Definition indices_in_range (t : list (event OsSig)) : Prop := Forall index_in_range t.

Definition base36 (a : ascii) : bool := byte_in 48 57 a || byte_in 97 122 a.

Fixpoint all_ascii (f : ascii -> bool) (s : string) : bool :=
  match s with EmptyString => true | String a r => f a && all_ascii f r end.

Lemma charset_char_base36 i : 0 <= i < 36 -> exists a, charset_char i = String a "" /\ base36 a = true.
Proof.
  intros Hi. assert (Hall : forallb (fun k => match charset_char (Z.of_nat k) with
      | String a "" => base36 a | _ => false end) (seq 0 36) = true) by reflexivity.
  rewrite forallb_forall in Hall. specialize (Hall (Z.to_nat i)). rewrite Z2Nat.id in Hall by lia.
  destruct (charset_char i) as [|a [|]]; try (discriminate (Hall ltac:(apply in_seq; lia))).
  exists a. split; [done|]. apply Hall, in_seq. lia.
Qed.

Lemma generate_base36_id_spec n :
  wp (generate_base36_id n) (fun t id => indices_in_range t ->
    String.length id = n /\ all_ascii base36 id = true).
Proof.
  induction n as [|n IH]; cbn [generate_base36_id]; [done|].
  simpl. intros i. wp_step. eapply wp_mono; [|apply IH]. intros t id Hid Hr. simpl in Hr.
  apply Forall_cons in Hr as [Hi Hr]. rewrite app_nil_r in Hr.
  destruct (Hid Hr) as [Hl Ha]. destruct (charset_char_base36 i Hi) as (a & -> & Hb).
  rewrite append_cons, append_nil_l. simpl. unfold base36 in Hb |- *. rewrite Hl, Hb. by split.
Qed.
