(* ===== verification/Footprint.v ===== *)
(** * What a run puts on the host, and what it takes back

    The resources operations create and remove, and what is left standing
    after a trace of them. *)

From S2P Require Import Prelude Effects Paths Process Os Jail.
From Stdlib Require Import Ascii.

(** ** Creation *)

(** The name of the table a ruleset defines. *)
Definition table_of (ruleset : string) : option string :=
  rest ← match strip_prefix (LF +:+ "table ip ") ruleset with
         | Some rest => Some rest
         | None => strip_prefix "table ip " ruleset
         end;
  head (split_on " "%char rest).

(** What an operation may bring into being, whether or not it succeeded: an
    attempt counts, and so does one at something that was there before.  Every
    directory and every file counts. *)
Definition creates (e : event OsSig) : option Undo :=
  match ev_op e with
  | RunOutput c =>
      match args c with
      | [a; b; n] =>
          if String.eqb (program c) "ip" && String.eqb a "netns" && String.eqb b "add"
          then Some (UndoNamespace n) else None
      | [a; b; h; t; _; _; _; _] =>
          if String.eqb (program c) "ip" && String.eqb a "link" && String.eqb b "add" &&
             String.eqb t "type" then Some (UndoVeth h) else None
      | [a; b; _; _; _; _; _; _; n] =>
          if String.eqb (program c) "docker" && String.eqb a "network" && String.eqb b "create"
          then Some (UndoNetwork n) else None
      | _ => None
      end
  | WriteStdin ruleset => UndoTable <$> table_of ruleset
  | CreateDirAll d => Some (UndoDir d)
  | WriteFile p _ => Some (UndoFile p)
  | CreateNew p => Some (UndoFile p)
  | _ => None
  end.

(** ** Removal *)

(** What an operation tries to remove, files included. *)
Definition removal (e : event OsSig) : option Undo :=
  match ev_op e with
  | RemoveFile p => Some (UndoFile p)
  | _ => undoes e
  end.

(** Whether the answer says that it did. *)
Definition succeeded (e : event OsSig) : bool :=
  match e with
  | {| ev_op := RunOutput _; ev_ans := Ok out |} => success (status out)
  | {| ev_op := RemoveFile _; ev_ans := Ok _ |} => true
  | {| ev_op := RemoveDirAll _; ev_ans := Ok _ |} => true
  | _ => false
  end.

(** What goes with what: a directory's contents with the directory, and the
    table [httpjail], which is only ever loaded inside a namespace, with the
    namespace. *)
Definition covers (v u : Undo) : bool :=
  bool_decide (v = u) ||
  match v, u with
  | UndoDir d, UndoFile p => starts_with p (d +:+ "/")
  | UndoDir d, UndoDir p => starts_with p (d +:+ "/")
  | UndoNamespace _, UndoTable t => String.eqb t "httpjail"
  | _, _ => false
  end.

(** ** What stands *)

Definition gone (e : event OsSig) (u : Undo) : bool :=
  match removal e with Some v => succeeded e && covers v u | None => false end.

(** What stands after an operation. *)
Definition after (s : list Undo) (e : event OsSig) : list Undo :=
  List.filter (fun u => negb (gone e u)) s ++ option_list (creates e).

(** What of the things a trace created, or of [s], is there at its end. *)
Definition standing (s : list Undo) (t : list (event OsSig)) : list Undo := foldl after s t.

(** The system does as it is told: what is there and told to go, goes. *)
Fixpoint obeys (s : list Undo) (t : list (event OsSig)) : Prop :=
  match t with
  | [] => True
  | e :: t =>
      (forall v u, removal e = Some v -> u ∈ s -> covers v u = true -> succeeded e = true) /\
      obeys (after s e) t
  end.

(** So it does when every removal succeeds. *)
Definition removed (e : event OsSig) : bool :=
  match removal e with Some _ => succeeded e | None => true end.

Lemma obeys_removed s t : forallb removed t = true -> obeys s t.
Proof.
  revert s. induction t as [|e t IH]; intros s; csimpl; [done|]. intros [He Ht]%andb_prop.
  split; [|by apply IH]. intros v u Hv _ _. unfold removed in He. by rewrite Hv in He.
Qed.

Lemma elem_of_after u s e : u ∈ after s e <-> (u ∈ s /\ gone e u = false) \/ creates e = Some u.
Proof.
  unfold after. rewrite elem_of_app, list_elem_of_In, filter_In, <- list_elem_of_In, negb_true_iff.
  destruct (creates e) as [v|]; cbn.
  - rewrite list_elem_of_singleton. split; intros [?|?]; auto; right; congruence.
  - rewrite elem_of_nil. split; intros [?|?]; auto; try done.
Qed.

(** What stands was not told to go, or was created later. *)
Lemma standing_kept t s u : obeys s t -> u ∈ standing s t ->
  (u ∈ s /\ forall v, v ∈ omap removal t -> covers v u = false) \/ u ∈ omap creates t.
Proof.
  unfold standing. revert s. induction t as [|e t IH]; intros s; csimpl.
  { intros _ Hu. left. split; [done|]. by intros v ?%elem_of_nil. }
  intros [He Ht] Hu. destruct (IH _ Ht Hu) as [[Ha Hv]|Hc].
  - apply elem_of_after in Ha as [[Hs Hg]|Hc]; [left|right; rewrite Hc; by left].
    split; [done|]. intros v. destruct (removal e) as [w|] eqn:Er; [|apply Hv].
    intros [->|Hw]%elem_of_cons; [|by apply Hv]. destruct (covers w u) eqn:Ew; [|done].
    unfold gone in Hg. by rewrite Er, (He w u eq_refl Hs Ew), Ew in Hg.
  - right. destruct (creates e); [by right|done].
Qed.

Lemma undoes_removal (v : Undo) (t : list (event OsSig)) : v ∈ omap undoes t -> v ∈ omap removal t.
Proof.
  rewrite !list_elem_of_omap. intros (e & He & Hv). exists e. split; [done|].
  unfold removal, undoes in *. by destruct (ev_op e).
Qed.

Lemma obeys_app s t t' : obeys s (t ++ t') <-> obeys s t /\ obeys (standing s t) t'.
Proof.
  unfold standing. revert s. induction t as [|e t IH]; intros s; csimpl; [by split; [|intros [_ ?]]|].
  rewrite IH. tauto.
Qed.

(** What is left when a part that creates nothing has the last word. *)
Lemma standing_after t t' u : omap creates t' = [] -> obeys [] (t ++ t') -> u ∈ standing [] (t ++ t') ->
  u ∈ omap creates t /\ forall v, v ∈ omap undoes t' -> covers v u = false.
Proof.
  intros Hc [Ht Ht']%obeys_app Hu. unfold standing in Hu. rewrite foldl_app in Hu.
  destruct (standing_kept _ _ _ Ht' Hu) as [[Hs Hv]|Hn]; [|by rewrite Hc in Hn; apply not_elem_of_nil in Hn].
  split; [|intros v Hin; by apply Hv, undoes_removal].
  destruct (standing_kept _ _ _ Ht Hs) as [[Hn _]|]; [by apply not_elem_of_nil in Hn|done].
Qed.

(** ** Names *)

(** The alphabet of the ids a configuration makes ([fresh_names_fit]). *)
Definition valid_id (jail_id : string) : Prop := all_ascii base36 jail_id = true.

Lemma valid_id_no_space s : valid_id s -> contains_char " "%char s = false.
Proof.
  unfold valid_id. induction s as [|a s IH]; [done|]. simpl. intros Ha. apply andb_prop in Ha as [Ha Hs].
  destruct (Ascii.eqb a " ") eqn:E; [|by apply IH]. bools. subst a. by vm_compute in Ha.
Qed.

Lemma all_ascii_app f s t : all_ascii f (s +:+ t) = all_ascii f s && all_ascii f t.
Proof. induction s as [|a s IH]; [done|]. rewrite append_cons. simpl. by rewrite IH, andb_assoc. Qed.

Lemma all_ascii_rev f s : all_ascii f (String.rev s) = all_ascii f s.
Proof.
  induction s as [|a s IH]; [done|]. change (String a s) with (String a "" +:+ s).
  rewrite rev_append, !all_ascii_app, IH. apply andb_comm.
Qed.

(** Joining to a path that ends in an id. *)
Lemma path_join_id dir jail_id file : valid_id jail_id -> starts_with file "/" = false ->
  path_join (dir +:+ "_" +:+ jail_id) file = dir +:+ "_" +:+ jail_id +:+ "/" +:+ file.
Proof.
  intros Hid Hf. unfold path_join. rewrite Hf.
  assert (He : is_empty (dir +:+ "_" +:+ jail_id) = false) by (by destruct dir).
  rewrite He, !rev_append. cbn [orb].
  assert (Hz : forall s, String.substring 0 0 s = "") by (by intros []).
  assert (Hs : String.eqb (String.rev (String.substring 0 1
      ((String.rev jail_id +:+ String.rev "_") +:+ String.rev dir))) "/" = false).
  { unfold valid_id in Hid. rewrite <- all_ascii_rev in Hid.
    destruct (String.rev jail_id) as [|a r]; [change (String.rev "_") with "_"|];
      rewrite ?append_nil_l, !append_cons; cbn [String.substring]; rewrite Hz; [done|].
    simpl in Hid. apply andb_prop in Hid as [Ha _]. apply String.eqb_neq. intros [= ->]. by vm_compute in Ha. }
  by rewrite Hs, !append_assoc.
Qed.

(** The jail's resources by name, in the order they are removed. *)
Definition removals (jail_id : string) : list Undo :=
  [UndoDir ("/etc/netns/httpjail_" +:+ jail_id); UndoTable ("httpjail_" +:+ jail_id);
   UndoVeth ("vh_" +:+ jail_id); UndoNamespace ("httpjail_" +:+ jail_id)].

(** The table inside the namespace goes with the namespace. *)
Definition namespace_table : Undo := UndoTable "httpjail".

(** The file inside the directory goes with the directory. *)
Definition resolv_file (jail_id : string) : Undo :=
  UndoFile ("/etc/netns/httpjail_" +:+ jail_id +:+ "/resolv.conf").

(** All that is the jail's. *)
Definition jail_resources (jail_id : string) : list Undo :=
  removals jail_id ++ [namespace_table; resolv_file jail_id].

(** What a setup makes on the host for [systemd-resolved]'s name, and nothing
    removes. *)
Definition host_placeholder : list Undo :=
  [UndoDir "/run/systemd/resolve"; UndoFile "/run/systemd/resolve/stub-resolv.conf"].

Lemma jail_resources_covered jid u : u ∈ jail_resources jid ->
  exists v, v ∈ removals jid /\ covers v u = true.
Proof.
  unfold jail_resources. rewrite elem_of_app, !elem_of_cons, elem_of_nil. intros [Hu|[->|[->|[]]]].
  - exists u. split; [done|]. unfold covers. by rewrite bool_decide_eq_true_2.
  - exists (UndoNamespace ("httpjail_" +:+ jid)). split; [unfold removals; set_solver|done].
  - exists (UndoDir ("/etc/netns/httpjail_" +:+ jid)). split; [unfold removals; set_solver|].
    unfold covers, resolv_file, starts_with. apply orb_true_iff. right.
    rewrite <- append_assoc. replace ("/resolv.conf") with ("/" +:+ "resolv.conf") by done.
    rewrite <- append_assoc. rewrite append_assoc. apply prefix_append.
Qed.

(** A setup that created what is in [own] or [rest], followed by a cleanup that
    was told to remove what covers [own]. *)
Lemma cleanup_leaves (own removed : list Undo) (rest : Undo -> Prop) (t t' : list (event OsSig)) :
  (forall u, u ∈ own -> exists v, v ∈ removed /\ covers v u = true) ->
  (forall u, u ∈ omap creates t -> u ∈ own \/ rest u) ->
  omap creates t' = [] -> (forall v, v ∈ removed -> v ∈ omap undoes t') ->
  obeys [] (t ++ t') -> forall u, u ∈ standing [] (t ++ t') -> rest u.
Proof.
  intros Hcov Ht Hc Hr Ho u Hu. destruct (standing_after _ _ _ Hc Ho Hu) as [Hin Hv].
  destruct (Ht u Hin) as [Hown|]; [|done]. destruct (Hcov u Hown) as (v & Hv1 & Hv2).
  by rewrite (Hv v (Hr v Hv1)) in Hv2.
Qed.
