(* ===== verification/LinuxJail.v ===== *)
(** * The Linux jail ([src/jail/linux/mod.rs])

    A network namespace joined to the host by a veth pair in a /30 of its own,
    its web traffic redirected to the proxy. *)

From S2P Require Import Prelude Effects Paths Process Os Nftables Net Firewall LinuxResources Jail Footprint.
From Stdlib Require Import Ascii.

(** [DefaultHasher] on a string: some function to 64-bit integers. *)
Class DefaultHasher := { hash_str : string -> Z }.

Definition format_ip (a : Ipv4Addr) : string := show_ipv4 a.

(** ** The subnet *)

Definition saturating_octet (o n : Z) : Z := saturating_add_u8 o n.

Definition compute_subnet_for_jail `{DefaultHasher} (jail_id : string)
    : Ipv4Addr * string * string * string :=
  let h := hash_str jail_id in
  let idx := wrap_u32 (h mod 16384) in
  let base := wrap_u32 (idx * 4) in
  let third := Z.land (Z.shiftr base 8) 255 in
  let fourth := Z.land base 255 in
  let network := mkIpv4 10 99 third fourth in
  let host_ip := mkIpv4 10 99 third (saturating_octet fourth 1) in
  let guest_ip := mkIpv4 10 99 third (saturating_octet fourth 2) in
  (host_ip, format_ip host_ip +:+ "/30", format_ip guest_ip +:+ "/30", format_ip network +:+ "/30").

Definition compute_host_ip_for_jail_id `{DefaultHasher} (jail_id : string) : Ipv4Addr :=
  let '(host_ip, _, _, _) := compute_subnet_for_jail jail_id in host_ip.

(** ** The jail *)

Record LinuxJail : Type := {
  config : JailConfig;
  netns_resolv : option (ManagedResource NetnsResolv);
  nftables : option (ManagedResource NFTableResource);
  veth_pair : option (ManagedResource VethPair);
  namespace : option (ManagedResource NetworkNamespace);
  host_dns_server : bool;
  host_ip : Ipv4Addr;
  host_cidr : string;
  guest_cidr : string;
  subnet_cidr : string;
}.

Definition set_namespace r (j : LinuxJail) : LinuxJail :=
  {| config := config j; netns_resolv := netns_resolv j; nftables := nftables j;
     veth_pair := veth_pair j; namespace := r; host_dns_server := host_dns_server j;
     host_ip := host_ip j; host_cidr := host_cidr j; guest_cidr := guest_cidr j;
     subnet_cidr := subnet_cidr j |}.
Definition set_veth r (j : LinuxJail) : LinuxJail :=
  {| config := config j; netns_resolv := netns_resolv j; nftables := nftables j;
     veth_pair := r; namespace := namespace j; host_dns_server := host_dns_server j;
     host_ip := host_ip j; host_cidr := host_cidr j; guest_cidr := guest_cidr j;
     subnet_cidr := subnet_cidr j |}.
Definition set_nftables r (j : LinuxJail) : LinuxJail :=
  {| config := config j; netns_resolv := netns_resolv j; nftables := r;
     veth_pair := veth_pair j; namespace := namespace j; host_dns_server := host_dns_server j;
     host_ip := host_ip j; host_cidr := host_cidr j; guest_cidr := guest_cidr j;
     subnet_cidr := subnet_cidr j |}.
Definition set_resolv r (j : LinuxJail) : LinuxJail :=
  {| config := config j; netns_resolv := r; nftables := nftables j;
     veth_pair := veth_pair j; namespace := namespace j; host_dns_server := host_dns_server j;
     host_ip := host_ip j; host_cidr := host_cidr j; guest_cidr := guest_cidr j;
     subnet_cidr := subnet_cidr j |}.
Definition set_dns b (j : LinuxJail) : LinuxJail :=
  {| config := config j; netns_resolv := netns_resolv j; nftables := nftables j;
     veth_pair := veth_pair j; namespace := namespace j; host_dns_server := b;
     host_ip := host_ip j; host_cidr := host_cidr j; guest_cidr := guest_cidr j;
     subnet_cidr := subnet_cidr j |}.

Definition linux_new `{DefaultHasher} (c : JailConfig) : LinuxJail :=
  let '(host_ip, host_cidr, guest_cidr, subnet_cidr) := compute_subnet_for_jail (config_jail_id c) in
  {| config := c; netns_resolv := None; nftables := None; veth_pair := None; namespace := None;
     host_dns_server := false; host_ip := host_ip; host_cidr := host_cidr;
     guest_cidr := guest_cidr; subnet_cidr := subnet_cidr |}.

(** [Clone]: the resources are not shared with the copy. *)
Definition linux_clone (j : LinuxJail) : LinuxJail :=
  set_namespace None (set_veth None (set_nftables None (set_resolv None (set_dns false j)))).

Definition jail_name (j : LinuxJail) : string := config_jail_id (config j).
Definition namespace_name (j : LinuxJail) : string := netns_name (jail_name j).

(** A step of [setup] on the jail. *)
Definition Step : Type := method OsSig LinuxJail unit.

Definition check_root : prog OsSig (Result unit Error) :=
  uid ⇐ os GetUid;
  if negb (uid =? 0)
  then Ret (Err (Msg "Network namespace operations require root access. Please run with sudo."))
  else Ret (Ok tt).

Definition create_namespace : Step :=
  j ⟵ mget;
  r ⟵ mlift (managed_create (jail_name j));
  mmodify (set_namespace (Some r)).

Definition setup_veth_pair : Step :=
  j ⟵ mget;
  r ⟵ mlift (managed_create (jail_name j));
  mmodify (set_veth (Some r)) ⨾
  mlift (run_checked (cmd "ip" ["link"; "set"; veth_ns (jail_name j); "netns"; namespace_name j])
    "Failed to move veth to namespace" "Failed to move veth to namespace: ").

Definition namespace_commands (j : LinuxJail) : list (list string) :=
  [["ip"; "link"; "set"; "lo"; "up"];
   ["ip"; "addr"; "add"; guest_cidr j; "dev"; veth_ns (jail_name j)];
   ["ip"; "link"; "set"; veth_ns (jail_name j); "up"];
   ["ip"; "route"; "add"; "default"; "via"; format_ip (host_ip j)]].

Definition in_namespace (j : LinuxJail) (l : list string) : Command :=
  Command.add_args (cmd "ip" ["netns"; "exec"; namespace_name j]) l.

(** The [{:?}] of a command's words, for an error's context. *)
Definition debug_words (l : list string) : string :=
  "[" +:+ join ", " ((fun w => dquote +:+ w +:+ dquote) <$> l) +:+ "]".

Definition configure_namespace_networking (j : LinuxJail) : prog OsSig (Result unit Error) :=
  for_each (namespace_commands j) (fun cmd_args =>
    run_checked (in_namespace j cmd_args)
      ("Failed to execute: ip netns exec " +:+ namespace_name j +:+ " " +:+ debug_words cmd_args)
      ("Failed to configure namespace networking (" +:+ join " " cmd_args +:+ "): ")) ;;?
  _ ⇐ os (RunOutput (in_namespace j ["ip"; "route"; "show"]));   (* only logged *)
  Ret (Ok tt).

Definition host_commands (j : LinuxJail) : list (list string) :=
  [["addr"; "add"; host_cidr j; "dev"; veth_host (jail_name j)];
   ["link"; "set"; veth_host (jail_name j); "up"]].

Definition configure_host_networking (j : LinuxJail) : prog OsSig (Result unit Error) :=
  for_each (host_commands j) (fun cmd_args =>
    output ⇐ os (RunOutput (cmd "ip" cmd_args));
    match output with
    | Err e => Ret (Err (WithContext ("Failed to execute: ip " +:+ debug_words cmd_args) e))
    | Ok out =>
        if negb (success (status out)) then
          let stderr := from_utf8_lossy (stderr out) in
          if negb (contains stderr "File exists")
          then Ret (Err (Msg ("Failed to configure host networking (ip " +:+ join " " cmd_args +:+
                              "): " +:+ stderr)))
          else Ret (Ok tt)
        else Ret (Ok tt)
    end) ;;?
  output ⇐ os (RunOutput (cmd "sysctl" ["-w"; "net.ipv4.ip_forward=1"]));
  match output with
  | Err e => Ret (Err (WithContext "Failed to enable IP forwarding" e))
  | Ok _ => Ret (Ok tt)                      (* a failing sysctl is only logged *)
  end.

(** The table is forgotten on purpose: it goes with the namespace. *)
Definition setup_namespace_nftables (j : LinuxJail) : prog OsSig (Result unit Error) :=
  _ ⇐? new_namespace_table_with_dns (namespace_name j) (format_ip (host_ip j))
         (http_proxy_port (config j)) (https_proxy_port (config j)) 53;
  Ret (Ok tt).

Definition setup_host_nat : Step :=
  j ⟵ mget;
  nftable ⟵ mlift (managed_create (T := NFTableResource) (jail_name j));
  nftable ⟵ match inner nftable with
            | Some _ =>
                table ⟵ mlift (new_host_table (jail_name j) (subnet_cidr j) (http_proxy_port (config j))
                                 (https_proxy_port (config j)));
                mpure (inner_mut (set_table table) nftable)
            | None => mpure nftable
            end;
  mmodify (set_nftables (Some nftable)).

Definition start_dns_server : Step :=
  j ⟵ mget;
  let host_ip_str := format_ip (host_ip j) in
  r ⟵ mlift (r ⇐ create_with_nameserver (jail_name j) host_ip_str;
             Ret (Result.context "Failed to create /etc/netns resolv.conf" r));
  mmodify (set_resolv (Some (managed_from_resource r))) ⨾
  mlift (r ⇐ os (StartDns (host_ip_str +:+ ":53"));
         Ret (Result.context "Failed to start host DNS server" r)) ⨾
  mmodify (set_dns true).

Definition linux_setup_steps : Step :=
  mlift check_root ⨾
  create_namespace ⨾
  setup_veth_pair ⨾
  (j ⟵ mget; mlift (configure_host_networking j)) ⨾
  (j ⟵ mget; mlift (configure_namespace_networking j)) ⨾
  start_dns_server ⨾
  setup_host_nat ⨾
  (j ⟵ mget; mlift (setup_namespace_nftables j)).

Definition linux_setup (j : LinuxJail) (proxy_port : Z) : prog OsSig (Result unit Error * LinuxJail) :=
  '(j', r) ⇐ linux_setup_steps j;
  Ret (r, j').

(** ** Running a command *)

(** Root hands the command to the user who called [sudo]. *)
Definition drop_privs : prog OsSig (option (string * string)) :=
  current_uid ⇐ os GetUid;
  if current_uid =? 0 then
    uid ⇐ os (EnvVar "SUDO_UID");
    gid ⇐ os (EnvVar "SUDO_GID");
    match uid, gid with
    | Some uid, Some gid => Ret (Some (uid, gid))
    | _, _ => Ret None
    end
  else Ret None.

Definition setpriv_args (privs : option (string * string)) : list string :=
  match privs with
  | Some (uid, gid) =>
      ["setpriv"; "--reuid=" +:+ uid; "--regid=" +:+ gid; "--init-groups"; "--"]
  | None => []
  end.

(** Sets a variable of the child when the parent has it. *)
Definition inherit_env (name : string) (c : Command) : prog OsSig Command :=
  value ⇐ os (EnvVar name);
  Ret (match value with Some v => Command.add_envs c [(name, v)] | None => c end).

Definition linux_execute (j : LinuxJail) (command : list string) (extra_env : list (string * string))
    : prog OsSig (Result ExitStatus Error) :=
  match command with
  | [] => Ret (Err (Msg "No command specified"))
  | _ =>
      privs ⇐ drop_privs;
      let c := cmd "ip" ["netns"; "exec"; namespace_name j] in
      let c := Command.add_args c (setpriv_args privs) in
      let c := Command.add_args c command in
      let c := Command.add_envs c extra_env in
      c ⇐ inherit_env "SUDO_USER" c;
      c ⇐ inherit_env "SUDO_UID" c;
      c ⇐ inherit_env "SUDO_GID" c;
      status ⇐ os (RunStatus c);
      Ret (Result.context "Failed to execute command in namespace" status)
  end.

(** ** Cleanup *)

(** The handles are dropped in reverse order of their declaration. *)
Definition linux_cleanup_orphaned (jail_id : string) : prog OsSig (Result unit Error) :=
  let _namespace := managed_for_existing (T := NetworkNamespace) jail_id in
  let _veth := managed_for_existing (T := VethPair) jail_id in
  let _nftables := managed_for_existing (T := NFTableResource) jail_id in
  let _netns_resolv := managed_for_existing (T := NetnsResolv) jail_id in
  managed_drop _netns_resolv ;;
  managed_drop _nftables ;;
  managed_drop _veth ;;
  managed_drop _namespace ;;
  Ret (Ok tt).

Definition linux_cleanup (j : LinuxJail) : prog OsSig (Result unit Error) :=
  _ ⇐? linux_cleanup_orphaned (jail_name j);
  Ret (Ok tt).

Definition stop_dns_server (j : LinuxJail) : prog OsSig LinuxJail :=
  if host_dns_server j then _ ⇐ os StopDns; Ret (set_dns false j) else Ret j.

(** [Drop], then the fields in order of declaration. *)
Definition linux_drop (j : LinuxJail) : prog OsSig unit :=
  j ⇐ stop_dns_server j;
  drop_option (netns_resolv j) ;;
  drop_option (nftables j) ;;
  drop_option (veth_pair j) ;;
  drop_option (namespace j).

#[export] Instance linux_jail : Jail LinuxJail := {|
  setup := linux_setup;
  execute := linux_execute;
  cleanup := linux_cleanup;
  jail_id := jail_name;
  cleanup_orphaned := linux_cleanup_orphaned;
  drop_jail := linux_drop;
|}.

(** ** What setup creates and cleanup removes *)

(** The command an event runs with the terminal of its own. *)
Definition is_run (e : event OsSig) : option Command :=
  match ev_op e with RunStatus c => Some c | _ => None end.

(** What a setup may create: what is the jail's, and the placeholder. *)
Definition footprint (jail_id : string) : list Undo := jail_resources jail_id ++ host_placeholder.

(** Runs no such command, and creates what a setup may. *)
Definition accounted (jail_id : string) (e : event OsSig) : Prop :=
  is_run e = None /\ forall u, creates e = Some u -> u ∈ footprint jail_id.

Lemma table_of_ruleset name rest :
  contains_char " "%char name = false ->
  table_of (LF +:+ "table ip " +:+ name +:+ " {" +:+ rest) = Some name.
Proof.
  intros Hn. unfold table_of.
  assert (strip_prefix (LF +:+ "table ip ") (LF +:+ "table ip " +:+ name +:+ " {" +:+ rest) =
          Some (name +:+ String " "%char ("{" +:+ rest))) as ->.
  { apply strip_prefix_spec. by rewrite append_assoc. }
  simpl. by apply split_on_prefix.
Qed.

Lemma host_ruleset_table name v jid subnet p q :
  contains_char " "%char name = false -> table_of (host_ruleset name v jid subnet p q) = Some name.
Proof.
  intros Hn. unfold host_ruleset. rewrite !unlines_cons.
  rewrite append_nil_l, !append_assoc. by apply table_of_ruleset.
Qed.

Lemma namespace_ruleset_table name h p q :
  contains_char " "%char name = false -> table_of (namespace_ruleset name h p q) = Some name.
Proof.
  intros Hn. unfold namespace_ruleset. rewrite !unlines_cons.
  rewrite append_nil_l, !append_assoc. by apply table_of_ruleset.
Qed.

Lemma wp_Forall_run_checked (P : event OsSig -> Prop) c x y :
  (forall a, P (@Ev OsSig (RunOutput c) a)) ->
  wp (run_checked c x y) (fun t _ => Forall P t).
Proof.
  intros Ha. unfold run_checked. simpl. intros [out|e]; simpl; [|repeat (done || constructor)].
  destruct (success (status out)); simpl; repeat (done || constructor).
Qed.

Lemma wp_Forall_apply_ruleset (P : event OsSig -> Prop) c x y z rs :
  (forall a, P (@Ev OsSig (SpawnPiped c) a)) -> (forall a, P (@Ev OsSig (WriteStdin rs) a)) ->
  (forall a, P (@Ev OsSig WaitOutput a)) ->
  wp (apply_ruleset c x y z rs) (fun t _ => Forall P t).
Proof.
  intros H1 H2 H3. unfold apply_ruleset. simpl.
  intros [[]|e]; simpl; [|repeat (done || constructor)].
  intros [[]|e]; simpl; [|repeat (done || constructor)].
  intros [out|e]; simpl; [|repeat (done || constructor)].
  destruct (success (status out)); simpl; repeat (done || constructor).
Qed.

(** The path of the file, as the code joins it. *)
Lemma resolv_path jid : valid_id jid ->
  path_join (resolv_dir jid) "resolv.conf" = "/etc/netns/httpjail_" +:+ jid +:+ "/resolv.conf".
Proof. intros Hid. exact (path_join_id "/etc/netns/httpjail" jid "resolv.conf" Hid eq_refl). Qed.

Section Accounting.
Context (jid : string) (Hjid : valid_id jid).

Lemma creates_no_run e u : creates e = Some u -> is_run e = None.
Proof. destruct e as [[] a]; done. Qed.

Lemma accounted_removal e u : creates e = Some u -> u ∈ footprint jid -> accounted jid e.
Proof.
  intros He Hu. split; [by eapply creates_no_run|]. rewrite He. by intros v [= <-].
Qed.

Lemma accounted_none e : is_run e = None -> creates e = None -> accounted jid e.
Proof. intros Hr He. split; [done|]. by rewrite He. Qed.

(** Operations that make nothing. *)
Ltac accounts := cbn; repeat first
  [assumption | apply accounted_none; reflexivity | apply Forall_nil; exact I | apply Forall_cons; split].

(** Each thing a setup makes. *)
Lemma in_footprint u : u ∈ removals jid \/ u = namespace_table \/ u = resolv_file jid \/
  u ∈ host_placeholder -> u ∈ footprint jid.
Proof. unfold footprint, jail_resources. set_solver. Qed.

Definition uses (j : LinuxJail) : Prop := config_jail_id (config j) = jid.

Lemma create_namespace_accounted : upholds (accounted jid) uses create_namespace.
Proof.
  apply upholds_get. intros j Hj. apply upholds_bind; [|intros r; by apply upholds_modify].
  apply upholds_lift. unfold jail_name. rewrite Hj.
  apply wp_Forall_try; [|intros n; by accounts].
  apply wp_Forall_try; [|intros []; by accounts].
  apply wp_Forall_run_checked. intros a. eapply accounted_removal; [reflexivity|apply in_footprint; left; unfold removals; set_solver].
Qed.

Lemma setup_veth_pair_accounted : upholds (accounted jid) uses setup_veth_pair.
Proof.
  apply upholds_get. intros j Hj. unfold jail_name, namespace_name, jail_name. rewrite Hj.
  apply upholds_bind; [|intros r; apply upholds_bind; [by apply upholds_modify|intros _]];
    apply upholds_lift.
  - apply wp_Forall_try; [|intros n; by accounts].
    apply wp_Forall_try; [|intros []; by accounts].
    apply wp_Forall_run_checked. intros a. eapply accounted_removal; [reflexivity|apply in_footprint; left; unfold removals; set_solver].
  - apply wp_Forall_run_checked. intros a. by apply accounted_none.
Qed.

Lemma configure_host_networking_accounted j :
  wp (configure_host_networking j) (fun t _ => Forall (accounted jid) t).
Proof.
  apply wp_Forall_try.
  - apply wp_Forall_for_each. intros l Hl. simpl. intros a. assert (accounted jid
      (@Ev OsSig (RunOutput (cmd "ip" l)) a)).
    { apply accounted_none; [done|]. unfold host_commands in Hl.
      apply elem_of_cons in Hl as [->|Hl]; [done|]. by apply list_elem_of_singleton in Hl as ->. }
    destruct a as [out|e]; simpl; [|accounts].
    destruct (success (status out)); simpl; [accounts|].
    destruct (contains _ _); simpl; accounts.
  - intros _. simpl. intros [out|e]; simpl; accounts.
Qed.

Lemma configure_namespace_networking_accounted j :
  wp (configure_namespace_networking j) (fun t _ => Forall (accounted jid) t).
Proof.
  apply wp_Forall_try.
  - apply wp_Forall_for_each. intros l Hl. apply wp_Forall_run_checked. intros a.
    apply accounted_none; [done|]. unfold namespace_commands in Hl.
    repeat (apply elem_of_cons in Hl as [->|Hl]; [done|]). by apply not_elem_of_nil in Hl.
  - intros _. simpl. intros a. by accounts.
Qed.

Lemma start_dns_server_accounted : upholds (accounted jid) uses start_dns_server.
Proof.
  apply upholds_get. intros j Hj. unfold jail_name. rewrite Hj.
  apply upholds_bind; [apply upholds_lift|].
  - assert (Hd : forall a, accounted jid (@Ev OsSig (CreateDirAll (resolv_dir jid)) a)).
    { intros a. eapply accounted_removal; [reflexivity|apply in_footprint; left; unfold removals, resolv_dir; set_solver]. }
    assert (Hf : forall s a, accounted jid (@Ev OsSig (WriteFile (path_join (resolv_dir jid) "resolv.conf") s) a)).
    { intros s a. eapply accounted_removal; [reflexivity|apply in_footprint; right; right; left].
      unfold resolv_file. by rewrite resolv_path. }
    assert (Hp : forall u o a, u ∈ host_placeholder -> creates (@Ev OsSig o a) = Some u -> accounted jid (@Ev OsSig o a)).
    { intros u o a Hu He. eapply accounted_removal; [exact He|apply in_footprint; auto]. }
    unfold create_with_nameserver. simpl.
    intros [[]|e]; simpl; [|accounts; apply Hd].
    intros [[]|e]; simpl; [|accounts; [apply Hd|apply Hf]].
    intros a b. accounts; [apply Hd|apply Hf|..]; (eapply Hp; [|reflexivity]); unfold host_placeholder; set_solver.
  - intros r. apply upholds_bind; [by apply upholds_modify|intros _].
    apply upholds_bind; [|intros _; by apply upholds_modify].
    apply upholds_lift. simpl. intros a. accounts.
Qed.

Lemma setup_host_nat_accounted : upholds (accounted jid) uses setup_host_nat.
Proof.
  apply upholds_get. intros j Hj. unfold jail_name. rewrite Hj.
  apply upholds_bind; [by apply upholds_lift; accounts|]. intros m.
  apply upholds_bind; [|intros m'; by apply upholds_modify].
  destruct (inner m); [|apply upholds_pure].
  apply upholds_bind; [apply upholds_lift|intros t; apply upholds_pure].
  apply wp_Forall_try; [|intros []; by accounts].
  apply wp_Forall_apply_ruleset; intros a; [by apply accounted_none| |by apply accounted_none].
  eapply accounted_removal;
    [unfold creates; cbn [ev_op]; rewrite host_ruleset_table by exact (valid_id_no_space jid Hjid); reflexivity|].
  apply in_footprint. left. unfold removals. set_solver.
Qed.

Lemma setup_namespace_nftables_accounted j :
  wp (setup_namespace_nftables j) (fun t _ => Forall (accounted jid) t).
Proof.
  apply wp_Forall_try; [|intros []; by accounts].
  apply wp_Forall_try; [|intros []; by accounts].
  apply wp_Forall_apply_ruleset; intros a; [by apply accounted_none| |by apply accounted_none].
  eapply accounted_removal;
    [unfold creates; cbn [ev_op]; rewrite namespace_ruleset_table by done; reflexivity|].
  apply in_footprint. by right; left.
Qed.

Lemma linux_setup_accounted : upholds (accounted jid) uses linux_setup_steps.
Proof.
  unfold linux_setup_steps.
  apply upholds_bind; [apply upholds_lift; simpl; intros uid; destruct (negb _); by accounts|intros _].
  apply upholds_bind; [apply create_namespace_accounted|intros _].
  apply upholds_bind; [apply setup_veth_pair_accounted|intros _].
  apply upholds_bind;
    [apply upholds_get; intros j Hj; apply upholds_lift, configure_host_networking_accounted|intros _].
  apply upholds_bind;
    [apply upholds_get; intros j Hj; apply upholds_lift, configure_namespace_networking_accounted|intros _].
  apply upholds_bind; [apply start_dns_server_accounted|intros _].
  apply upholds_bind; [apply setup_host_nat_accounted|intros _].
  apply upholds_get. intros j Hj. apply upholds_lift, setup_namespace_nftables_accounted.
Qed.

End Accounting.

(** ** What a jail holds, and the order it lets go *)

Definition full_namespace (jid : string) : ManagedResource NetworkNamespace :=
  mkManaged (Some {| ns_name := netns_name jid; ns_created := true |}).
Definition full_veth (jid : string) : ManagedResource VethPair :=
  mkManaged (Some {| veth_host_name := veth_host jid; veth_ns_name := veth_ns jid;
                     veth_created := true |}).
Definition full_resolv (jid : string) : ManagedResource NetnsResolv :=
  mkManaged (Some {| netns_dir := resolv_dir jid; resolv_created := true |}).
Definition full_table (jid : string) : ManagedResource NFTableResource :=
  mkManaged (Some {| nfr_jail_id := jid; nfr_table := Some (nft_for_existing jid false) |}).

(** A jail that is set up. *)
Definition holds_all (jid : string) (j : LinuxJail) : Prop :=
  config_jail_id (config j) = jid /\ namespace j = Some (full_namespace jid) /\
  veth_pair j = Some (full_veth jid) /\ netns_resolv j = Some (full_resolv jid) /\
  nftables j = Some (full_table jid) /\ host_dns_server j = true.

Lemma run_checked_ok c x y {A} (a : A) (V : A -> Prop) :
  V a -> wp (_ ⇐? run_checked c x y; Ret (Ok a)) (fun _ r => forall b, r = Ok b -> V b).
Proof.
  intros Ha. unfold run_checked. simpl. intros [out|e]; simpl; [|done].
  destruct (success (status out)); simpl; [|done]. by intros b [= <-].
Qed.

Lemma apply_ruleset_ok c x y z rs {A} (a : A) (V : A -> Prop) :
  V a -> wp (_ ⇐? apply_ruleset c x y z rs; Ret (Ok a)) (fun _ r => forall b, r = Ok b -> V b).
Proof.
  intros Ha. unfold apply_ruleset. simpl.
  intros [[]|e]; simpl; [|done]. intros [[]|e]; simpl; [|done]. intros [out|e]; simpl; [|done].
  destruct (success (status out)); simpl; [|done]. by intros b [= <-].
Qed.

Lemma managed_create_ok {T} `{SystemResource T} jid (x : T) :
  wp (sr_create jid) (fun _ r => forall b, r = Ok b -> b = x) ->
  wp (managed_create jid) (fun _ r => forall m, r = Ok m -> m = mkManaged (Some x)).
Proof.
  intros Hx. apply wp_try. eapply wp_mono; [|exact Hx].
  intros t [b|e] Hb; simpl; [|done]. intros m [= <-]. by rewrite (Hb b eq_refl).
Qed.

Section Holding.
Context (jid : string).

Definition stage1 (j : LinuxJail) : Prop :=
  config_jail_id (config j) = jid /\ namespace j = Some (full_namespace jid).
Definition stage2 (j : LinuxJail) : Prop := stage1 j /\ veth_pair j = Some (full_veth jid).
Definition stage3 (j : LinuxJail) : Prop :=
  stage2 j /\ netns_resolv j = Some (full_resolv jid) /\ host_dns_server j = true.

Lemma establishes_check (I : LinuxJail -> Prop) p :
  establishes I (mlift (p : prog OsSig (Result unit Error))) (fun _ => I).
Proof.
  intros s Hs. eapply wp_mono;
    [|apply (establishes_lift I p (fun _ => True)); [by apply wp_true|exact Hs]].
  intros t x Hx a Ha. by apply (Hx a).
Qed.

Lemma create_namespace_holds : establishes (uses jid) create_namespace (fun _ => stage1).
Proof.
  apply establishes_get. intros j Hj. unfold jail_name. rewrite Hj.
  eapply establishes_bind.
  - apply establishes_lift with (V := fun m => m = full_namespace jid).
    apply managed_create_ok. by apply run_checked_ok.
  - intros m s [-> ->]. simpl. by intros _ _.
Qed.

Lemma setup_veth_pair_holds : establishes stage1 setup_veth_pair (fun _ => stage2).
Proof.
  apply establishes_get. intros j [Hj Hn]. unfold jail_name at 1. rewrite Hj.
  eapply establishes_bind.
  - apply establishes_lift with (V := fun m => m = full_veth jid).
    apply managed_create_ok. by apply run_checked_ok.
  - intros m. eapply (establishes_bind _ _ _ (fun _ => stage2)); [|intros _; apply establishes_check].
    apply establishes_modify. intros s [-> ->]. by repeat split.
Qed.

Lemma start_dns_server_holds : establishes stage2 start_dns_server (fun _ => stage3).
Proof.
  apply establishes_get. intros j [[Hj Hn] Hv]. unfold jail_name. rewrite Hj.
  eapply establishes_bind.
  - apply establishes_lift with (V := fun r => managed_from_resource r = full_resolv jid).
    simpl. intros [[]|e]; simpl; [|done]. intros [[]|e]; simpl; [|done].
    intros _ _ r [= <-]. done.
  - intros r. eapply establishes_bind;
      [apply establishes_modify with (K := fun s => stage2 s /\ netns_resolv s = Some (full_resolv jid))|].
    { intros s [-> Hr]. repeat split; simpl; [done..|]. by rewrite Hr. }
    intros []. eapply establishes_bind; [apply establishes_check|intros []].
    apply establishes_modify. intros s [[[H1 H2] H3] H4]. by repeat split.
Qed.

Lemma setup_host_nat_holds : establishes stage3 setup_host_nat (fun _ => holds_all jid).
Proof.
  apply establishes_get. intros j [[[Hj Hn] Hv] [Hr Hd]]. unfold jail_name. rewrite Hj.
  eapply establishes_bind.
  - apply establishes_lift with (V := fun m : ManagedResource NFTableResource =>
      m = mkManaged (Some {| nfr_jail_id := jid; nfr_table := None |})).
    by intros m [= <-].
  - intros m s [-> ->]. apply wp_mbind. apply wp_mbind. apply wp_mlift.
    eapply wp_mono; [|apply (apply_ruleset_ok _ _ _ _ _ (nft_for_existing jid false)
      (fun b => b = nft_for_existing jid false)); reflexivity].
    intros t [b|e] Hb; simpl; [|done]. rewrite (Hb b eq_refl). by repeat split.
Qed.

Lemma linux_setup_holds : establishes (uses jid) linux_setup_steps (fun _ => holds_all jid).
Proof.
  unfold linux_setup_steps.
  eapply establishes_bind; [apply establishes_check|intros []].
  eapply establishes_bind; [apply create_namespace_holds|intros []].
  eapply establishes_bind; [apply setup_veth_pair_holds|intros []].
  eapply (establishes_bind _ _ _ (fun _ => stage2)); [apply establishes_get; intros j Hj s Hs; rewrite Hs;
    by apply (establishes_check stage2)|intros []].
  eapply (establishes_bind _ _ _ (fun _ => stage2)); [apply establishes_get; intros j Hj s Hs; rewrite Hs;
    by apply (establishes_check stage2)|intros []].
  eapply establishes_bind; [apply start_dns_server_holds|intros []].
  eapply establishes_bind; [apply setup_host_nat_holds|intros []].
  apply establishes_get. intros j Hj s Hs. rewrite Hs. by apply (establishes_check (holds_all jid)).
Qed.

End Holding.

(** ** Removal *)

Lemma wp_omap_bind {A B} (f : event OsSig -> option Undo) (p : prog OsSig A) (q : prog OsSig B)
    (l l' : list Undo) (V : B -> Prop) :
  wp p (fun t _ => omap f t = l) -> wp q (fun t b => omap f t = l' /\ V b) ->
  wp (p ;; q) (fun t b => omap f t = l ++ l' /\ V b).
Proof.
  intros Hp Hq. wp_step. eapply wp_mono; [|exact Hp]. intros t a Ht.
  eapply wp_mono; [|exact Hq]. intros t' b [Ht' Hb]. by rewrite omap_app, Ht, Ht'.
Qed.

Lemma drop_namespace_removes jid :
  wp (managed_drop (full_namespace jid)) (fun t _ => omap undoes t = [UndoNamespace (netns_name jid)]).
Proof.
  simpl. intros [out|e]; simpl; [|done]. destruct (success (status out)); simpl; [done|].
  by destruct (_ || _).
Qed.

Lemma drop_veth_removes jid :
  wp (managed_drop (full_veth jid)) (fun t _ => omap undoes t = [UndoVeth (veth_host jid)]).
Proof. simpl. done. Qed.

Lemma drop_table_removes jid :
  wp (managed_drop (full_table jid)) (fun t _ => omap undoes t = [UndoTable ("httpjail_" +:+ jid)]).
Proof. simpl. by intros [out|e]; simpl. Qed.

Lemma drop_resolv_removes jid :
  wp (managed_drop (full_resolv jid)) (fun t _ => omap undoes t = [UndoDir (resolv_dir jid)]).
Proof.
  simpl. intros [link|e]; simpl; [|done]. intros [target|e]; simpl; done.
Qed.

Lemma linux_cleanup_orphaned_removes jid :
  wp (linux_cleanup_orphaned jid) (fun t r => omap undoes t = removals jid /\ r = Ok tt).
Proof.
  unfold linux_cleanup_orphaned.
  apply (wp_omap_bind _ _ _ [UndoDir _]); [apply (drop_resolv_removes jid)|].
  apply (wp_omap_bind _ _ _ [UndoTable _]); [apply (drop_table_removes jid)|].
  apply (wp_omap_bind _ _ _ [UndoVeth _]); [apply (drop_veth_removes jid)|].
  apply (wp_omap_bind _ _ _ [UndoNamespace _] []); [apply (drop_namespace_removes jid)|done].
Qed.

Lemma linux_drop_removes jid j : holds_all jid j ->
  wp (linux_drop j) (fun t _ => omap undoes t = removals jid /\ head t = Some (@Ev OsSig StopDns tt)).
Proof.
  intros (Hj & Hn & Hv & Hr & Ht & Hd). unfold linux_drop, stop_dns_server. rewrite Hd.
  simpl. intros []. cbn [set_dns netns_resolv nftables veth_pair namespace].
  rewrite Hr, Ht, Hv, Hn. unfold drop_option.
  apply (wp_mono _ (fun t _ => omap undoes t = removals jid /\ True));
    [intros t [] [Hu _]; split; [exact Hu|reflexivity]|].
  apply (wp_omap_bind _ _ _ [UndoDir _] _ (fun _ => True)); [apply (drop_resolv_removes jid)|].
  apply (wp_omap_bind _ _ _ [UndoTable _]); [apply (drop_table_removes jid)|].
  apply (wp_omap_bind _ _ _ [UndoVeth _]); [apply (drop_veth_removes jid)|].
  eapply wp_mono; [|apply (drop_namespace_removes jid)]. done.
Qed.

(** Cleaning up touches the jail's own resources only, and creates nothing. *)
Definition tidy (e : event OsSig) : Prop := quiet e /\ creates e = None.

Lemma tidy_drop_namespace (m : ManagedResource NetworkNamespace) :
  wp (managed_drop m) (fun t _ => Forall tidy t).
Proof.
  destruct m as [[[name []]|]]; simpl; [|by constructor..].
  intros [out|e]; simpl; [|by repeat constructor].
  destruct (success (status out)); simpl; [by repeat constructor|].
  destruct (_ || _); by repeat constructor.
Qed.

Lemma tidy_drop_veth (m : ManagedResource VethPair) : wp (managed_drop m) (fun t _ => Forall tidy t).
Proof. destruct m as [[[h n []]|]]; simpl; [intros a|..]; by repeat constructor. Qed.

Lemma tidy_drop_table (m : ManagedResource NFTableResource) :
  wp (managed_drop m) (fun t _ => Forall tidy t).
Proof.
  destruct m as [[[id [[n [ns|] []]|]]|]]; simpl; try (by constructor);
    intros [out|e]; simpl; by repeat constructor.
Qed.

Lemma tidy_drop_resolv (m : ManagedResource NetnsResolv) : wp (managed_drop m) (fun t _ => Forall tidy t).
Proof.
  destruct m as [[[dir []]|]]; simpl; [|by constructor..].
  intros [link|e]; simpl; [|by repeat constructor].
  intros [target|e]; simpl; by repeat constructor.
Qed.

Lemma linux_cleanup_orphaned_tidy jid :
  wp (linux_cleanup_orphaned jid) (fun t _ => Forall tidy t).
Proof.
  unfold linux_cleanup_orphaned.
  apply wp_Forall_seq; [apply tidy_drop_resolv|].
  apply wp_Forall_seq; [apply tidy_drop_table|].
  apply wp_Forall_seq; [apply tidy_drop_veth|].
  apply wp_Forall_seq; [apply tidy_drop_namespace|by repeat constructor].
Qed.

Lemma drop_option_tidy {T} `{SystemResource T} (m : option (ManagedResource T)) :
  (forall m, wp (managed_drop m) (fun t _ => Forall tidy t)) ->
  wp (drop_option m) (fun t _ => Forall tidy t).
Proof. intros Hm. destruct m; [apply Hm|by constructor]. Qed.

Lemma linux_drop_tidy j : wp (linux_drop j) (fun t _ => Forall tidy t).
Proof.
  unfold linux_drop. wp_step.
  assert (Hs : wp (stop_dns_server j) (fun t _ => Forall tidy t)).
  { unfold stop_dns_server. destruct (host_dns_server j); simpl; [intros []|]; by repeat constructor. }
  eapply wp_mono; [|exact Hs]. intros t j' Ht.
  eapply (wp_mono _ (fun t _ => Forall tidy t)); [intros t' [] Ht'; by apply Forall_app|].
  apply wp_Forall_seq; [apply drop_option_tidy, tidy_drop_resolv|].
  apply wp_Forall_seq; [apply drop_option_tidy, tidy_drop_table|].
  apply wp_Forall_seq; [apply drop_option_tidy, tidy_drop_veth|apply drop_option_tidy, tidy_drop_namespace].
Qed.

Lemma linux_cleanup_tidy j : wp (linux_cleanup j) (fun t _ => Forall tidy t).
Proof. apply wp_Forall_try; [apply linux_cleanup_orphaned_tidy|constructor]. Qed.

Lemma tidy_quiet t : Forall tidy t -> Forall quiet t.
Proof. intros Ht. apply (Forall_impl _ _ _ Ht). by intros e [He _]. Qed.

Lemma linux_cleanup_orphaned_quiet jid :
  wp (linux_cleanup_orphaned jid) (fun t _ => Forall quiet t).
Proof. eapply wp_mono; [|apply linux_cleanup_orphaned_tidy]. intros t r. apply tidy_quiet. Qed.

#[export] Instance linux_jail_laws : JailLaws LinuxJail.
Proof.
  refine {| reclaims := removals |}.
  - intros id. eapply wp_mono; [|apply wp_conj;
      [apply linux_cleanup_orphaned_quiet|apply linux_cleanup_orphaned_removes]].
    intros t r [Hq [Hu _]]. by split.
  - intros j. eapply wp_mono; [|apply linux_cleanup_tidy]. intros t r. apply tidy_quiet.
Defined.

Lemma linux_cleanup_tells j jid : jail_name j = jid ->
  wp (linux_cleanup j) (fun t r => omap undoes t = removals jid /\ r = Ok tt).
Proof.
  intros <-. apply wp_try. eapply wp_mono; [|apply linux_cleanup_orphaned_removes].
  intros t r [Hu ->]. apply wp_ret. by rewrite app_nil_r.
Qed.

(** ** The last step *)

(** [m] ends, when it succeeds, with events that satisfy [S]. *)
Definition ends_with {A} (S : LinuxJail -> list (event OsSig) -> Prop) (m : method OsSig LinuxJail A)
    : Prop :=
  forall s, wp (m s) (fun t x => forall a, x.2 = Ok a -> exists t0 t1, t = t0 ++ t1 /\ S x.1 t1).

Lemma ends_bind {A B} S (m : method OsSig LinuxJail A) (f : A -> method OsSig LinuxJail B) :
  (forall a, ends_with S (f a)) -> ends_with S (mbind' m f).
Proof.
  intros Hf s. apply wp_mbind. apply wp_true. intros t [s' [a|e]]; simpl; [|done].
  eapply wp_mono; [|apply Hf]. intros t' x Hx b Hb. destruct (Hx b Hb) as (t0 & t1 & -> & Ht1).
  exists (t ++ t0), t1. by rewrite <- app_assoc.
Qed.

(** The filter for the address and the ports was loaded, in the jail's namespace. *)
Definition egress_filtered (jail_id : string) (host : Ipv4Addr) (http_port https_port : Z)
    (t : list (event OsSig)) : Prop :=
  exists out, success (status out) = true /\
    t = [@Ev OsSig (SpawnPiped (piped (cmd "ip" ["netns"; "exec"; "httpjail_" +:+ jail_id; "nft"; "-f"; "-"]))) (Ok tt);
         @Ev OsSig (WriteStdin (LF +:+ show_table (egress_ruleset host http_port https_port))) (Ok tt);
         @Ev OsSig WaitOutput (Ok out)].

(** It is the jail's own. *)
Definition own_filter (j : LinuxJail) : list (event OsSig) -> Prop :=
  egress_filtered (jail_name j) (host_ip j) (http_proxy_port (config j)) (https_proxy_port (config j)).

Lemma setup_namespace_nftables_ends :
  ends_with own_filter (mbind' mget (fun j => mlift (setup_namespace_nftables j))).
Proof.
  intros s. apply wp_mlift. unfold setup_namespace_nftables, new_namespace_table_with_dns, apply_ruleset.
  unfold format_ip. rewrite egress_ruleset_shows.
  simpl. intros [[]|e]; simpl; [|done]. intros [[]|e]; simpl; [|done]. intros [out|e]; simpl; [|done].
  destruct (success (status out)) eqn:Es; simpl; [|done].
  intros a _. eexists [], _. split; [reflexivity|]. by exists out.
Qed.

Lemma linux_setup_ends : ends_with own_filter linux_setup_steps.
Proof.
  unfold linux_setup_steps. do 7 (apply ends_bind; intros []).
  apply setup_namespace_nftables_ends.
Qed.

Ltac upholds_step :=
  match goal with
  | |- upholds _ _ (mbind' mget _) => apply upholds_get; intros ? ?
  | |- upholds _ _ (mbind' _ _) => apply upholds_bind; [|intros ?]
  | |- upholds _ _ (mlift _) => apply upholds_lift, wp_true; intros ? ?; by apply Forall_true
  | |- upholds _ _ (mmodify _) => apply upholds_modify; by intros ? [? ?]
  | |- upholds _ _ (mpure _) => apply upholds_pure
  | |- upholds _ _ (match ?x with _ => _ end) => destruct x
  end.

Lemma linux_setup_keeps c ip :
  upholds (fun _ => True) (fun s => config s = c /\ host_ip s = ip) linux_setup_steps.
Proof.
  unfold linux_setup_steps, create_namespace, setup_veth_pair, start_dns_server, setup_host_nat.
  repeat upholds_step.
Qed.

(** ** The command that is run *)

(** The variables [inherit_env] adds for the parent's answers. *)
Definition sudo_envs (user uid gid : option string) : list (string * string) :=
  match user with Some v => [("SUDO_USER", v)] | None => [] end ++
  match uid with Some v => [("SUDO_UID", v)] | None => [] end ++
  match gid with Some v => [("SUDO_GID", v)] | None => [] end.

Lemma add_envs_app c l l' : Command.add_envs (Command.add_envs c l) l' = Command.add_envs c (l ++ l').
Proof. unfold Command.add_envs. simpl. by rewrite app_assoc. Qed.

(** The one command an execution runs. *)
Definition executed (j : LinuxJail) (command : list string) (extra_env : list (string * string))
    (c : Command) : Prop :=
  exists privs user uid gid,
    program c = "ip" /\
    args c = ["netns"; "exec"; namespace_name j] ++ setpriv_args privs ++ command /\
    envs c = extra_env ++ sudo_envs user uid gid.

(** ** Subnets *)

(** The address that is a 32-bit number. *)
Definition ipv4_of (n : Z) : Ipv4Addr :=
  mkIpv4 (n / 2 ^ 24) (n / 2 ^ 16 mod 256) (n / 2 ^ 8 mod 256) (n mod 256).

Definition NETWORK : Z := 10 * 2 ^ 24 + 99 * 2 ^ 16.

(** Solves equations with quotients and remainders by constants. *)
Ltac norm_pow :=
  repeat match goal with
  | |- context [2 ^ ?n] => let x := eval vm_compute in (2 ^ n) in change (2 ^ n) with x
  | H : context [2 ^ ?n] |- _ => let x := eval vm_compute in (2 ^ n) in change (2 ^ n) with x in H
  end.
Ltac divmod := norm_pow; Z.to_euclidean_division_equations; lia.

Lemma ipv4_of_offset k o : 0 <= k < 16384 -> 0 <= o <= 2 ->
  ipv4_of (NETWORK + 4 * k + o) =
  mkIpv4 10 99 (Z.land (Z.shiftr (wrap_u32 (k * 4)) 8) 255)
    (saturating_octet (Z.land (wrap_u32 (k * 4)) 255) o).
Proof.
  intros Hk Ho. unfold wrap_u32, saturating_octet, saturating_add_u8.
  rewrite Z.mod_small by lia.
  assert (Hland : forall a, Z.land a 255 = a mod 256) by (intros a; by apply (Z.land_ones a 8)).
  rewrite !Hland, Z.shiftr_div_pow2 by lia. unfold ipv4_of, NETWORK, u8_max. norm_pow.
  f_equal; divmod.
Qed.

Section Properties.
Context `{DefaultHasher}.

(** C29: the addresses of a jail.  For every jail id the subnet is one of the
    16384 aligned /30 blocks of 10.99.0.0/16; the host and the guest get its
    first and second usable address, no octet saturates, and two jails share an
    address only when they share the block, that is, when their ids hash alike
    modulo 16384. *)
Theorem jail_subnet_is_a_block (jid : string) :
  let k := hash_str jid mod 16384 in
  let network := NETWORK + 4 * k in
  0 <= k < 16384 /\
  compute_subnet_for_jail jid =
    (ipv4_of (network + 1), format_ip (ipv4_of (network + 1)) +:+ "/30",
     format_ip (ipv4_of (network + 2)) +:+ "/30", format_ip (ipv4_of network) +:+ "/30") /\
  compute_host_ip_for_jail_id jid = ipv4_of (network + 1) /\
  valid_ipv4 (ipv4_of (network + 1)) /\ valid_ipv4 (ipv4_of (network + 2)) /\
  forall jid', compute_host_ip_for_jail_id jid' = compute_host_ip_for_jail_id jid ->
    hash_str jid' mod 16384 = k.
Proof.
  intros k network. assert (Hk : forall j, 0 <= hash_str j mod 16384 < 16384)
    by (intros j; apply Z.mod_pos_bound; lia).
  assert (Hsub : forall j, let n := NETWORK + 4 * (hash_str j mod 16384) in
    compute_subnet_for_jail j =
    (ipv4_of (n + 1), format_ip (ipv4_of (n + 1)) +:+ "/30",
     format_ip (ipv4_of (n + 2)) +:+ "/30", format_ip (ipv4_of n) +:+ "/30")).
  { intros j n. specialize (Hk j). subst n.
    rewrite <- (Z.add_0_r (NETWORK + 4 * (hash_str j mod 16384))) at 4.
    rewrite !ipv4_of_offset by lia. unfold compute_subnet_for_jail.
    assert (wrap_u32 (hash_str j mod 16384) = hash_str j mod 16384) as ->
      by (unfold wrap_u32; apply Z.mod_small; lia).
    assert (Hz : forall x, saturating_octet (Z.land x 255) 0 = Z.land x 255).
    { intros x. unfold saturating_octet, saturating_add_u8, u8_max.
      replace (Z.land x 255) with (x mod 2 ^ 8) by (symmetry; by apply (Z.land_ones x 8)).
      pose proof (Z.mod_pos_bound x (2 ^ 8) ltac:(lia)). lia. }
    by rewrite Hz. }
  assert (Hhost : forall j, compute_host_ip_for_jail_id j =
    ipv4_of (NETWORK + 4 * (hash_str j mod 16384) + 1)).
  { intros j. unfold compute_host_ip_for_jail_id. by rewrite Hsub. }
  assert (Hval : forall o, 0 <= o <= 2 -> valid_ipv4 (ipv4_of (network + o))).
  { intros o Ho. specialize (Hk jid). fold k in Hk. subst network.
    unfold valid_ipv4, ipv4_of, NETWORK, is_u8, u8_max. cbn [oct1 oct2 oct3 oct4].
    repeat split; divmod. }
  split; [apply Hk|]. split; [apply Hsub|]. split; [apply Hhost|].
  split; [by apply Hval|]. split; [by apply Hval|].
  intros jid' E. rewrite !Hhost in E. pose proof (Hk jid). pose proof (Hk jid').
  subst k. unfold ipv4_of, NETWORK in E. injection E as E1 E2 E3 E4. divmod.
Qed.

(** What a cleanup by name does after a setup that created [t1]. *)
Definition cleans_up (jail_id : string) (t1 t2 : list (event OsSig)) (r : Result unit Error) : Prop :=
  r = Ok tt /\ omap undoes t2 = removals jail_id /\ omap creates t2 = [] /\
  (obeys [] (t1 ++ t2) -> forall u, u ∈ standing [] (t1 ++ t2) -> u ∈ host_placeholder).

Lemma accounted_creates jid t : Forall (accounted jid) t ->
  forall u, u ∈ omap creates t -> u ∈ jail_resources jid \/ u ∈ host_placeholder.
Proof.
  intros Ht u (e & He & Hu)%list_elem_of_omap. rewrite Forall_forall in Ht.
  destruct (Ht e He) as [_ Hf]. by apply elem_of_app, Hf.
Qed.

Lemma tidy_creates t : Forall tidy t -> omap creates t = [].
Proof. induction 1 as [|e t [_ He] Ht IH]; csimpl; [done|]. by rewrite He. Qed.

Lemma orphaned_cleans_up jid t1 :
  (forall u, u ∈ omap creates t1 -> u ∈ jail_resources jid \/ u ∈ host_placeholder) ->
  wp (linux_cleanup_orphaned jid) (fun t2 r => cleans_up jid t1 t2 r).
Proof.
  intros H1. eapply wp_mono; [|apply wp_conj;
    [apply linux_cleanup_orphaned_removes|apply linux_cleanup_orphaned_tidy]].
  intros t2 r [[Hu ->] Hc%tidy_creates]. do 3 (split; [done|]).
  apply (cleanup_leaves (jail_resources jid) (removals jid) (fun u => u ∈ host_placeholder)); try done; [apply jail_resources_covered|].
  by rewrite Hu.
Qed.

(** C10: nothing outlives a jail.  In every environment and however far it
    gets, all that a setup of a jail tries to create, every directory and file
    counted, is one of the jail's four resources, the table inside its
    namespace, the [resolv.conf] inside its directory, or the placeholder of
    [systemd-resolved]'s name.  The cleanup by name, which a failed setup, a
    stale canary and a normal end all reach, creates nothing, tells the system to
    remove all four, innermost first, whatever fails on the way, and reports
    success; and when the system removes what is there and it is told to, all
    that is left of the setup is the placeholder: the directory
    [/run/systemd/resolve] and its [stub-resolv.conf], which nothing removes. *)
Theorem linux_jail_leaks_nothing (j : LinuxJail) (port : Z) (Hid : valid_id (jail_id j)) :
  wp (setup j port) (fun t1 '(_, j') => jail_id j' = jail_id j /\
    (forall u, u ∈ omap creates t1 -> u ∈ jail_resources (jail_id j) \/ u ∈ host_placeholder) /\
    wp (cleanup j') (fun t2 r => cleans_up (jail_id j) t1 t2 r) /\
    wp (cleanup_orphaned (J := LinuxJail) (jail_id j)) (fun t2 r => cleans_up (jail_id j) t1 t2 r)).
Proof.
  apply wp_bind_2. eapply wp_mono; [|by apply (linux_setup_accounted (jail_id j) Hid)].
  intros t [j' r] [Ht Hj']. cbn [fst snd] in Ht, Hj'. apply wp_ret. rewrite app_nil_r. split; [exact Hj'|].
  pose proof (accounted_creates _ _ Ht) as Hc. split; [exact Hc|].
  split; [|by apply orphaned_cleans_up]. cbn [cleanup linux_jail]. unfold linux_cleanup.
  apply wp_try. unfold jail_name. rewrite Hj'.
  eapply wp_mono; [|by apply orphaned_cleans_up].
  intros t2 r2 Hr. assert (r2 = Ok tt) as -> by apply Hr. simpl. by rewrite app_nil_r.
Qed.

Lemma linux_new_host_ip c :
  config (linux_new c) = c /\ host_ip (linux_new c) = compute_host_ip_for_jail_id (config_jail_id c).
Proof.
  unfold linux_new, compute_host_ip_for_jail_id.
  by destruct (compute_subnet_for_jail _) as [[[? ?] ?] ?].
Qed.

(** The filter a setup ends with is the one for the jail's own address and ports. *)
Lemma linux_setup_filters c port :
  wp (setup (linux_new c) port) (fun t '(r, j') => r = Ok tt ->
    config j' = c /\ exists t0 t1, t = t0 ++ t1 /\
      egress_filtered (config_jail_id c) (compute_host_ip_for_jail_id (config_jail_id c))
        (http_proxy_port c) (https_proxy_port c) t1).
Proof.
  destruct (linux_new_host_ip c) as [Hc Hip]. apply wp_bind_2.
  pose proof (linux_setup_keeps _ _ _ (conj Hc Hip)) as H1. pose proof (linux_setup_ends (linux_new c)) as H2.
  eapply wp_mono; [|exact (wp_conj _ _ _ H1 H2)].
  intros t [j' r] [[_ [Hcj Hij]] He]. cbn [fst snd] in *. apply wp_ret. rewrite app_nil_r. intros ->.
  split; [done|].
  destruct (He tt eq_refl) as (t0 & t1 & -> & Hf). exists t0, t1. split; [done|].
  unfold own_filter, jail_name in Hf. by rewrite Hcj, Hij in Hf.
Qed.

(** C20: a setup that succeeds was started by root, holds all four resources,
    and has as its last act loaded the egress filter into the jail's
    namespace: the text written is the ruleset for the address of the
    jail's host end and the configured ports.  Under that ruleset a new
    connection to port 80 or 443, wherever it goes, is sent to the proxy's port
    on that address; what is addressed to the proxy's ports there, or to the DNS
    port there, passes; every other new packet is dropped.  Dropping such a jail
    stops its DNS server and then tells the four resources to go, innermost
    first. *)
Theorem linux_setup_success (c : JailConfig) (port : Z) :
  let host := compute_host_ip_for_jail_id (config_jail_id c) in
  let p := http_proxy_port c in
  let q := https_proxy_port c in
  wp (setup (linux_new c) port) (fun t '(r, j') => r = Ok tt ->
    config j' = c /\ host_ip j' = host /\
    head t = Some (@Ev OsSig GetUid 0) /\
    (exists t0 t1, t = t0 ++ t1 /\ egress_filtered (config_jail_id c) host p q t1) /\
    holds_all (config_jail_id c) j' /\
    wp (drop_jail j') (fun t _ => omap undoes t = removals (config_jail_id c) /\
                                  head t = Some (@Ev OsSig StopDns tt))) /\
  (forall k, fate (egress_ruleset host p q) k = egress host p q k).
Proof.
  intros host p q. split; [|intros k; apply egress_fate]. subst host p q.
  set (j := linux_new c). destruct (linux_new_host_ip c : config j = c /\ _) as [Hc Hip].
  apply wp_bind_2.
  pose proof (linux_setup_keeps _ _ j (conj Hc Hip)) as H1.
  pose proof (establishes_wp _ _ _ j (linux_setup_holds (config_jail_id c))
    (f_equal config_jail_id Hc)) as H2.
  pose proof (linux_setup_ends j) as H3.
  assert (H4 : wp (linux_setup_steps j) (fun t x => x.2 = Ok tt -> head t = Some (@Ev OsSig GetUid 0))).
  { unfold linux_setup_steps. apply wp_mbind, wp_mlift.
    unfold check_root, os, perform. intros uid. cbn [bind].
    destruct (uid =? 0) eqn:E; bools; [subst uid|done]. cbn [negb].
    apply wp_ret. cbn [snd fst]. by apply wp_true. }
  eapply wp_mono; [|exact (wp_conj _ _ _ (wp_conj _ _ _ H1 H2) (wp_conj _ _ _ H3 H4))].
  intros t [j' r] [[[_ [Hcj Hij]] Hh] [He Hu]]. simpl in *. rewrite app_nil_r. intros ->.
  split; [done|]. split; [by rewrite Hij|]. split; [by apply Hu|].
  split.
  { destruct (He tt eq_refl) as (t0 & t1 & -> & Hf). exists t0, t1. split; [done|].
    unfold own_filter, jail_name in Hf. by rewrite Hcj, Hij in Hf. }
  split; [by eapply Hh|]. apply linux_drop_removes. by eapply Hh.
Qed.

(** A command is run as it is: nothing is run for an empty one, and
    otherwise exactly one process is started, [ip netns exec] in the jail's
    namespace, with the user's words last and unchanged, after [setpriv] back
    to the user who called [sudo] exactly when the jail runs as root and
    [sudo]'s variables are there; its variables are those asked for and
    [sudo]'s, so no proxy variable is added. *)
Theorem linux_execute_runs (j : LinuxJail) (command : list string) (extra_env : list (string * string)) :
  wp (execute j command extra_env) (fun t r =>
    (command = [] -> t = [] /\ Result.is_err r = true) /\
    (command <> [] -> exists c, omap is_run t = [c] /\ executed j command extra_env c) /\
    (forall c, c ∈ omap is_run t -> "setpriv" ∈ args c -> "setpriv" ∉ command ->
       "setpriv" <> namespace_name j -> @Ev OsSig GetUid 0 ∈ t)).
Proof.
  destruct command as [|w ws]; [simpl; split; [done|split; [done|set_solver]]|].
  cbn [execute linux_jail]. unfold linux_execute. wp_step.
  assert (Hprivs : wp drop_privs (fun t p => omap is_run t = [] /\
    (p = None \/ @Ev OsSig GetUid 0 ∈ t))).
  { simpl. intros uid. destruct (uid =? 0) eqn:E; bools; simpl; [|split; [done|by left]].
    subst uid. intros [u|] [g|]; simpl; (split; [done|]); [right; by left|by left..]. }
  eapply wp_mono; [|exact Hprivs]. intros t p [Ht Hp]. simpl.
  intros user uid gid status. split; [done|]. split.
  - intros _. rewrite omap_app, Ht. eexists. split; [reflexivity|].
    exists p, user, uid, gid. split; [by destruct user, uid, gid|].
    split; [destruct user, uid, gid; simpl; rewrite <- ?app_assoc; done|].
    unfold sudo_envs. destruct user, uid, gid; simpl; rewrite ?app_nil_r, <- ?app_assoc; done.
  - intros c Hc Hin Hnot Hns. rewrite omap_app, Ht in Hc. simpl in Hc.
    apply list_elem_of_singleton in Hc. subst c. apply elem_of_app.
    destruct Hp as [->|Hp]; [|by left]. exfalso.
    assert (Ha : "setpriv" ∈ ["netns"; "exec"; namespace_name j] ++ w :: ws).
    { destruct user, uid, gid; simpl in Hin; exact Hin. }
    set_solver.
Qed.

End Properties.

(** C36: a fresh configuration's id is eight characters of 0-9a-z, as long as
    the random generator keeps to its range; so the names made from it are ones
    the system accepts (an interface name has at most 15 bytes), hold no
    separator, and are different for different ids. *)
Theorem fresh_names_fit `{DefaultHasher} :
  wp config_new (fun t c => indices_in_range t ->
    let jid := config_jail_id c in
    namespace_name (linux_new c) = netns_name jid /\
    String.length jid = 8%nat /\ all_ascii base36 jid = true /\
    len (veth_host jid) <= 15 /\ len (veth_ns jid) <= 15 /\ veth_host jid <> veth_ns jid /\
    contains_char " "%char jid = false /\
    forall jid', netns_name jid' = netns_name jid \/ veth_host jid' = veth_host jid \/
                 resolv_dir jid' = resolv_dir jid -> jid' = jid).
Proof.
  unfold config_new. wp_step. eapply wp_mono; [|apply generate_base36_id_spec].
  intros t jid Hid. simpl. rewrite app_nil_r. intros Hr. destruct (Hid Hr) as [Hl Ha].
  do 3 (split; [done|]). unfold veth_host, veth_ns. rewrite !len_append.
  unfold len at 2 4. rewrite Hl. split; [by vm_compute|]. split; [by vm_compute|].
  split; [by intros [=]|]. split; [by apply valid_id_no_space|].
  intros jid' [E|[E|E]]; by simplify_eq/=.
Qed.

(** ** Examples *)

#[export] Instance toy_hasher : DefaultHasher := {| hash_str s := len s |}.

Definition example_config : JailConfig :=
  {| http_proxy_port := 8040; https_proxy_port := 8043; config_jail_id := "abcd1234";
     enable_heartbeat := true; heartbeat_interval_secs := 1; orphan_timeout_secs := 10 |}.

Lemma linux_jail_leaks_nothing_witness :
  wp (setup (linux_new example_config) 8040) (fun t1 '(_, j') => jail_id j' = "abcd1234" /\
    (forall u, u ∈ omap creates t1 -> u ∈ jail_resources "abcd1234" \/ u ∈ host_placeholder) /\
    wp (cleanup j') (fun t2 r => cleans_up "abcd1234" t1 t2 r) /\
    wp (cleanup_orphaned (J := LinuxJail) "abcd1234") (fun t2 r => cleans_up "abcd1234" t1 t2 r)).
Proof. exact (linux_jail_leaks_nothing (linux_new example_config) 8040 eq_refl). Defined.

Example example_subnet :
  compute_subnet_for_jail "abcd1234" =
    (mkIpv4 10 99 0 33, "10.99.0.33/30", "10.99.0.34/30", "10.99.0.32/30").
Proof. by vm_compute. Qed.
