(* ===== verification/ManagedJail.v ===== *)
(** * Jail lifecycle ([src/jail/managed.rs])

    A jail with a canary file that its heartbeat keeps fresh.  A canary that
    goes stale tells the next jail that its owner is gone. *)

From S2P Require Import Prelude Effects Paths Process Os Nftables LinuxResources Jail Footprint LinuxJail.
From Stdlib Require Import Ascii.

(** ** Times *)

(** [Duration::from_secs], in nanoseconds. *)
Definition from_secs (n : Z) : Z := n * 1000000000.

(** [duration_since], zero when the time lies in the future. *)
Definition age_since (now modified : Z) : Z := Z.max 0 (now - modified).

Definition touch_file_mtime (path : string) : prog OsSig (Result unit Error) :=
  exists_ ⇐ os (PathExists path);
  if exists_ then
    accessed ⇐? os (Accessed path);
    atime ⇐ match accessed with Ok t => Ret t | Err _ => os Now end;
    mtime ⇐ os Now;
    _ ⇐? os (SetMtime path atime mtime);
    Ret (Ok tt)
  else
    _ ⇐? os (WriteFile path "");
    Ret (Ok tt).

(** One turn of the heartbeat thread's loop: whether it goes on. *)
Definition heartbeat_turn (canary_path : string) (interval : Z) : prog OsSig bool :=
  stop ⇐ os LoadStop;
  if (stop : bool) then Ret false
  else
    touch_file_mtime canary_path ;;          (* a failure is only logged *)
    os (Sleep interval) ;;
    Ret true.

(** ** The managed jail *)

Record ManagedJail (J : Type) : Type := {
  jail : J;
  canary_dir : string;
  canary_path : string;
  heartbeat_interval : Z;
  orphan_timeout : Z;
  managed_heartbeat : bool;                  (** [enable_heartbeat] *)
  heartbeat_handle : bool;                   (** a thread that was not joined yet *)
}.
Arguments jail {J} _.
Arguments canary_dir {J} _.
Arguments canary_path {J} _.
Arguments heartbeat_interval {J} _.
Arguments orphan_timeout {J} _.
Arguments managed_heartbeat {J} _.
Arguments heartbeat_handle {J} _.

Section Managed.
Context {J : Type} `{Jail J}.

Definition set_jail (j : J) (m : ManagedJail J) : ManagedJail J :=
  {| jail := j; canary_dir := canary_dir m; canary_path := canary_path m;
     heartbeat_interval := heartbeat_interval m; orphan_timeout := orphan_timeout m;
     managed_heartbeat := managed_heartbeat m; heartbeat_handle := heartbeat_handle m |}.
Definition set_handle (b : bool) (m : ManagedJail J) : ManagedJail J :=
  {| jail := jail m; canary_dir := canary_dir m; canary_path := canary_path m;
     heartbeat_interval := heartbeat_interval m; orphan_timeout := orphan_timeout m;
     managed_heartbeat := managed_heartbeat m; heartbeat_handle := b |}.

Definition managed_new (j : J) (config : JailConfig) : prog OsSig (ManagedJail J) :=
  canary_dir ⇐ get_canary_dir;
  Ret {| jail := j; canary_dir := canary_dir;
         canary_path := path_join canary_dir (config_jail_id config);
         heartbeat_interval := from_secs (heartbeat_interval_secs config);
         orphan_timeout := from_secs (orphan_timeout_secs config);
         managed_heartbeat := enable_heartbeat config; heartbeat_handle := false |}.

Definition canary_jail_id (path : string) : string :=
  match (n ← file_name path; from_utf8 n) with Some id => id | None => "unknown" end.

Definition sweep_entry (timeout : Z) (entry : Result string Error) : prog OsSig (Result unit Error) :=
  path ⇐? Ret entry;
  is_file ⇐ os (IsFile path);
  if negb is_file then Ret (Ok tt)
  else
    metadata ⇐? os (Modified path);
    modified ⇐? Ret (Result.context "Failed to get file modification time" metadata);
    now ⇐ os Now;
    if timeout <? age_since now modified then
      let jail_id := canary_jail_id path in
      (r ⇐ cleanup_orphaned (J := J) jail_id;
       Ret (Result.context ("Failed to cleanup orphaned jail '" +:+ jail_id +:+ "'") r)) ;;?
      _ ⇐ os (RemoveFile path);              (* a failure is only logged *)
      Ret (Ok tt)
    else Ret (Ok tt).

Definition cleanup_orphans (m : ManagedJail J) : prog OsSig (Result unit Error) :=
  exists_ ⇐ os (PathExists (canary_dir m));
  if negb exists_ then
    r ⇐ os (CreateDirAll (canary_dir m));
    Ret (Result.context "Failed to create canary directory" r)
  else
    entries ⇐? os (ReadDir (canary_dir m));
    for_each entries (sweep_entry (orphan_timeout m)).

Definition create_canary (m : ManagedJail J) : prog OsSig (Result unit Error) :=
  exists_ ⇐ os (PathExists (canary_dir m));
  (if negb exists_ then
     r ⇐ os (CreateDirAll (canary_dir m));
     Ret (Result.context "Failed to create canary directory" r)
   else Ret (Ok tt)) ;;?
  r ⇐ os (WriteFile (canary_path m) "");
  Ret (Result.context "Failed to create canary file" r).

Definition delete_canary (m : ManagedJail J) : prog OsSig (Result unit Error) :=
  exists_ ⇐ os (PathExists (canary_path m));
  if (exists_ : bool) then
    r ⇐ os (RemoveFile (canary_path m));
    Ret (Result.context "Failed to remove canary file" r)
  else Ret (Ok tt).

Definition start_heartbeat (m : ManagedJail J) : prog OsSig (Result unit Error * ManagedJail J) :=
  if negb (managed_heartbeat m) then Ret (Ok tt, m)
  else
    created ⇐ create_canary m;
    match created with
    | Err e => Ret (Err e, m)
    | Ok _ =>
        _ ⇐ os (SpawnHeartbeat (canary_path m) (heartbeat_interval m));
        Ret (Ok tt, set_handle true m)
    end.

Definition stop_heartbeat (m : ManagedJail J) : prog OsSig (Result unit Error * ManagedJail J) :=
  if negb (managed_heartbeat m) then Ret (Ok tt, m)
  else
    _ ⇐ os StoreStop;
    if heartbeat_handle m then
      joined ⇐ os JoinHeartbeat;
      Ret (Result.map_err (fun _ => Msg "Failed to join heartbeat thread") joined, set_handle false m)
    else Ret (Ok tt, m).

Definition signal_stop_heartbeat (m : ManagedJail J) : prog OsSig unit :=
  if managed_heartbeat m then os StoreStop else Ret tt.

Definition managed_setup (m : ManagedJail J) (proxy_port : Z)
    : prog OsSig (Result unit Error * ManagedJail J) :=
  before ⇐ (if managed_heartbeat m
            then cleanup_orphans m ;;? create_canary m
            else Ret (Ok tt));
  match before with
  | Err e => Ret (Err e, m)
  | Ok _ =>
      '(setup_result, j) ⇐ setup (jail m) proxy_port;
      let m := set_jail j m in
      if Result.is_err setup_result && managed_heartbeat m then
        _ ⇐ delete_canary m;
        Ret (setup_result, m)
      else
        start_heartbeat m
  end.

Definition managed_execute (m : ManagedJail J) (command : list string)
    (extra_env : list (string * string)) : prog OsSig (Result ExitStatus Error) :=
  execute (jail m) command extra_env.

Definition managed_cleanup (m : ManagedJail J) : prog OsSig (Result unit Error) :=
  signal_stop_heartbeat m ;;
  result ⇐ cleanup (jail m);
  (if managed_heartbeat m then delete_canary m else Ret (Ok tt)) ;;?
  Ret result.

(** [Drop], which ends with the drop of the inner jail. *)
Definition managed_release (m : ManagedJail J) : prog OsSig (Result unit Error * ManagedJail J) :=
  '(_, m) ⇐ stop_heartbeat m;
  cleanup_result ⇐ cleanup (jail m);
  _ ⇐ (if managed_heartbeat m && Result.is_ok cleanup_result
       then delete_canary m else Ret (Ok tt));
  Ret (cleanup_result, m).

Definition managed_drop_jail (m : ManagedJail J) : prog OsSig unit :=
  '(_, m) ⇐ managed_release m;
  drop_jail (jail m).

#[export] Instance managed_jail : Jail (ManagedJail J) := {|
  setup := managed_setup;
  execute := managed_execute;
  cleanup := managed_cleanup;
  jail_id m := Jail.jail_id (jail m);
  cleanup_orphaned := cleanup_orphaned (J := J);
  drop_jail := managed_drop_jail;
|}.

End Managed.

(** ** What happens to canaries and resources *)

Inductive Act : Type :=
| Reclaimed (u : Undo)
| Deleted (path : string).

Definition act (e : event OsSig) : option Act :=
  match ev_op e with
  | RemoveFile p => Some (Deleted p)
  | _ => Reclaimed <$> undoes e
  end.

(** The canaries a trace found stale, in order: those last touched more than
    [timeout] before the clock was read. *)
Fixpoint stale_canaries (timeout : Z) (t : list (event OsSig)) : list string :=
  match t with
  | [] => []
  | {| ev_op := Modified p; ev_ans := Ok (Ok modified) |} :: t' =>
      match t' with
      | {| ev_op := Now; ev_ans := now |} :: _ =>
          if modified + timeout <? now then p :: stale_canaries timeout t'
          else stale_canaries timeout t'
      | _ => stale_canaries timeout t'
      end
  | _ :: t' => stale_canaries timeout t'
  end.

Lemma age_since_stale timeout now modified : 0 <= timeout ->
  (timeout <? age_since now modified) = (modified + timeout <? now).
Proof. intros Ht. unfold age_since. apply Bool.eq_iff_eq_true. rewrite !Z.ltb_lt. lia. Qed.

Lemma quiet_act t : Forall quiet t -> omap act t = Reclaimed <$> omap undoes t.
Proof.
  induction 1 as [|e t He Ht IH]; csimpl; [done|]. unfold act at 1.
  unfold quiet in He. destruct (ev_op e) eqn:E; try done; rewrite IH;
    by destruct (undoes e).
Qed.

Lemma quiet_stale timeout t t' :
  Forall quiet t -> stale_canaries timeout (t ++ t') = stale_canaries timeout t'.
Proof.
  induction 1 as [|[o a] t He Ht IH]; csimpl; [done|]. unfold quiet in He. simpl in He.
  by destruct o.
Qed.

(** The entries the sweep was given, once it saw that the directory exists. *)
Definition listed (t : list (event OsSig)) : option (list (Result string Error)) :=
  match t with
  | _ :: {| ev_op := ReadDir _; ev_ans := Ok entries |} :: _ => Some entries
  | _ => None
  end.

Section Sweep.
Context {J : Type} `{JailLaws J}.

(** What the sweep does about a stale canary. *)
Definition swept (path : string) : list Act :=
  (Reclaimed <$> reclaims (canary_jail_id path)) ++ [Deleted path].

(** The stale canaries are dealt with one after the other; only an error stops
    it, before the canary at hand is deleted. *)
Definition sweep_result (timeout : Z) (t : list (event OsSig)) (r : Result unit Error) : Prop :=
  exists swept_paths,
    (stale_canaries timeout t = swept_paths /\ omap act t = flat_map swept swept_paths) \/
    (exists path partial, stale_canaries timeout t = swept_paths ++ [path] /\
       omap act t = flat_map swept swept_paths ++ (Reclaimed <$> partial) /\ Result.is_err r = true).

Definition examined (t : list (event OsSig)) (entry : Result string Error) : Prop :=
  exists path is_file, entry = Ok path /\ @Ev OsSig (IsFile path) is_file ∈ t.

(** One entry's part, as it composes with what follows. *)
Definition entry_result (timeout : Z) (t : list (event OsSig)) (r : Result unit Error) : Prop :=
  match r with
  | Ok _ => exists l, (forall t', stale_canaries timeout (t ++ t') = l ++ stale_canaries timeout t') /\
              omap act t = flat_map swept l
  | Err _ => (stale_canaries timeout t = [] /\ omap act t = []) \/
             exists path partial, stale_canaries timeout t = [path] /\
               omap act t = Reclaimed <$> partial
  end.

Lemma sweep_result_cons timeout t t' r :
  entry_result timeout t (Ok tt) -> sweep_result timeout t' r -> sweep_result timeout (t ++ t') r.
Proof.
  intros (l & Hl & Ha) (ps & [[Hs Hp]|(p & pt & Hs & Hp & Hr)]); exists (l ++ ps);
    rewrite Hl, omap_app, Ha, Hs, Hp, flat_map_app; [by left|right].
  exists p, pt. by rewrite !app_assoc.
Qed.

Lemma sweep_result_err timeout t e : entry_result timeout t (Err e) -> sweep_result timeout t (Err e).
Proof.
  intros [[Hs Ha]|(p & pt & Hs & Ha)]; exists []; [by left|right]. by exists p, pt.
Qed.

Lemma sweep_entry_spec timeout entry : 0 <= timeout ->
  wp (sweep_entry (J := J) timeout entry) (fun t r =>
    entry_result timeout t r /\ (r = Ok tt -> examined t entry)).
Proof.
  intros Htimeout. destruct entry as [path|e]; [|split; [by left|done]].
  assert (Hex : forall b t, examined (@Ev OsSig (IsFile path) b :: t) (Ok path)).
  { intros b t. exists path, b. split; [done|by left]. }
  simpl. intros [|]; cbn [negb]; [|split; [by exists []|intros _; apply Hex]]. simpl.
  intros [[modified|e]|e]; simpl; [|by split; [left|]..].
  intros now. rewrite age_since_stale by done. destruct (modified + timeout <? now) eqn:Et; simpl;
    [|split; [exists []; simpl; rewrite Et; by split|intros _; apply Hex]].
  wp_step. apply wp_bind. eapply wp_mono; [|apply orphaned_reclaims].
  intros tc [[]|e] [Hq Hr]; simpl.
  - intros rm. split; [|intros _; apply Hex]. exists [path]. simpl. rewrite Et. split.
    + intros t'. rewrite <- !app_assoc, quiet_stale by done. done.
    + etrans; [apply (omap_app act)|]. by rewrite !app_nil_r, (quiet_act tc Hq), (Hr eq_refl).
  - split; [|done]. right. exists path, (omap undoes tc). rewrite Et, !app_nil_r.
    split; [|by apply quiet_act]. rewrite <- (app_nil_r tc), quiet_stale; done.
Qed.

Lemma sweep_spec timeout entries : 0 <= timeout ->
  wp (for_each entries (sweep_entry (J := J) timeout)) (fun t r =>
    sweep_result timeout t r /\ (r = Ok tt -> forall e, e ∈ entries -> examined t e)).
Proof.
  intros Htimeout. apply (wp_for_each entries _ (fun l t r =>
    sweep_result timeout t r /\ (r = Ok tt -> forall e, e ∈ l -> examined t e))).
  - split; [exists []; by left|]. intros _ e He. by apply not_elem_of_nil in He.
  - intros e l _. eapply wp_mono; [|by apply sweep_entry_spec].
    intros t [[]|err] [Ht He]; [|by split; [apply sweep_result_err|]].
    intros t' r [Ht' Hl]. split; [by apply sweep_result_cons|]. intros Hr e' He'.
    apply elem_of_cons in He' as [->|He'].
    + destruct (He eq_refl) as (p & b & -> & Hb). exists p, b. split; [done|]. apply elem_of_app. by left.
    + destruct (Hl Hr e' He') as (p & b & -> & Hb). exists p, b. split; [done|]. apply elem_of_app. by right.
Qed.


End Sweep.

(** ** The heartbeat thread next to its owner

    The owner's operations interleave with the thread's; both act on the
    canary file and on the stop flag. *)

Record Canary : Type := { present : bool; stopped : bool }.

(** What an operation does to the canary file [path] and the flag, and which
    answers it may have; a removal may fail, and any other answer is free. *)
Definition canary_rel (path : string) (o : os_op) : Canary -> ans OsSig o -> Canary -> Prop :=
  match o return Canary -> ans OsSig o -> Canary -> Prop with
  | PathExists p => fun w r w' => w' = w /\ (p = path -> r = present w)
  | WriteFile p _ => fun w r w' =>
      w' = if bool_decide (p = path) && Result.is_ok r
           then {| present := true; stopped := stopped w |} else w
  | RemoveFile p => fun w r w' =>
      if bool_decide (p = path) && Result.is_ok r
      then present w = true /\ w' = {| present := false; stopped := stopped w |} else w' = w
  | LoadStop => fun w r w' => w' = w /\ r = stopped w
  | StoreStop => fun w _ w' => w' = {| present := present w; stopped := true |}
  | _ => fun w _ w' => w' = w
  end.

(** The world and the thread, [None] once it has ended. *)
Definition Conc : Type := Canary * option (prog OsSig bool).

Section Concurrent.
Context (path : string) (interval : Z).

Inductive hb_step : Conc -> Conc -> Prop :=
| hb_do (o : op OsSig) k r w w' :
    canary_rel path o w r w' -> hb_step (w, Some (Do o k)) (w', Some (k r))
| hb_again w : hb_step (w, Some (Ret true)) (w, Some (heartbeat_turn path interval))
| hb_end w : hb_step (w, Some (Ret false)) (w, None).

Lemma hb_step_inv s s' : hb_step s s' ->
  match s.2 with
  | Some (Do o k) => exists r w', canary_rel path o s.1 r w' /\ s' = (w', Some (k r))
  | Some (Ret true) => s' = (s.1, Some (heartbeat_turn path interval))
  | Some (Ret false) => s' = (s.1, None)
  | None => False
  end.
Proof. destruct 1; simpl; eauto. Qed.

(** [join] waits for the end of the thread. *)
Inductive owner_step : forall o : os_op, Conc -> ans OsSig o -> Conc -> Prop :=
| owner_join w : owner_step JoinHeartbeat (w, None) (Ok tt) (w, None)
| owner_do o r w w' h : o <> JoinHeartbeat -> canary_rel path o w r w' -> owner_step o (w, h) r (w', h).

Lemma owner_step_inv o s r s' : owner_step o s r s' ->
  (o = JoinHeartbeat /\ s.2 = None /\ s' = s) \/
  (o <> JoinHeartbeat /\ canary_rel path o s.1 r s'.1 /\ s'.2 = s.2).
Proof. destruct 1; simpl; auto. Qed.

(** Executions of the owner next to the thread, with the owner's trace. *)
Inductive exec {A} : Conc -> prog OsSig A -> list (event OsSig) -> Conc -> prog OsSig A -> Prop :=
| exec_refl s p : exec s p [] s p
| exec_hb s s1 s' p p' t : hb_step s s1 -> exec s1 p t s' p' -> exec s p t s' p'
| exec_owner s s1 s' (o : op OsSig) k r p' t : owner_step o s r s1 -> exec s1 (k r) t s' p' ->
    exec s (Do o k) (@Ev OsSig o r :: t) s' p'.

(** [iwp s p Q]: [Q] holds at the end of every such execution of [p] from [s]. *)
Fixpoint iwp {A} (p : prog OsSig A) (s : Conc) (Q : Conc -> list (event OsSig) -> A -> Prop) : Prop :=
  match p with
  | Ret a => forall s', rtc hb_step s s' -> Q s' [] a
  | Do o k => forall s1 r s2, rtc hb_step s s1 -> owner_step o s1 r s2 ->
                iwp (k r) s2 (fun s' t a => Q s' (@Ev OsSig o r :: t) a)
  end.

Lemma iwp_exec {A} (p : prog OsSig A) s t s' a Q :
  exec s p t s' (Ret a) -> iwp p s Q -> Q s' t a.
Proof.
  intros Hex. remember (Ret a) as e eqn:He. revert Q. induction Hex; intros Q Hi; subst.
  - apply Hi, rtc_refl.
  - apply IHHex; [done|]. destruct p; simpl in *.
    + intros s2 Hs. apply Hi. by eapply rtc_l.
    + intros s2 r s3 Hs Ho. eapply Hi; [by eapply rtc_l|done].
  - apply (IHHex eq_refl (fun s' t a => Q s' (@Ev OsSig o r :: t) a)).
    simpl in Hi. eapply Hi; [apply rtc_refl|done].
Qed.

Lemma iwp_mono {A} (p : prog OsSig A) s Q R :
  (forall s' t a, Q s' t a -> R s' t a) -> iwp p s Q -> iwp p s R.
Proof.
  revert s Q R. induction p as [a|o k IH]; intros s Q R HQR Hi; simpl in *; [auto|].
  intros s1 r s2 H1 H2. eapply IH; [|by eapply Hi]. auto.
Qed.

Lemma iwp_bind {A B} (p : prog OsSig A) (f : A -> prog OsSig B) s Q :
  iwp p s (fun s' t a => iwp (f a) s' (fun s'' t' b => Q s'' (t ++ t') b)) -> iwp (bind p f) s Q.
Proof.
  revert s Q. induction p as [a|o k IH]; intros s Q Hi; simpl in *; [apply Hi, rtc_refl|].
  intros s1 r s2 H1 H2. apply IH. by apply Hi with s1.
Qed.

(** What holds in every environment holds next to the thread. *)
Lemma iwp_wp {A} (p : prog OsSig A) s (Q : list (event OsSig) -> A -> Prop) :
  wp p Q -> iwp p s (fun _ t a => Q t a).
Proof.
  revert s Q. induction p as [a|o k IH]; intros s Q Hp; cbn [iwp wp] in *; [done|].
  intros s1 r s2 _ _. by apply (IH r s2 (fun t a => Q (@Ev OsSig o r :: t) a)).
Qed.

(** Quiet operations leave the canary to the thread. *)
Lemma quiet_rel o w r w' : quiet_op o = true -> canary_rel path o w r w' -> w' = w.
Proof. by destruct o. Qed.

Lemma hb_ended w s : rtc hb_step (w, None) s -> s = (w, None).
Proof. intros Hs. by inversion Hs as [|? s1 ? Hst]; subst; [|inversion Hst]. Qed.

(** With the thread gone, a quiet program changes nothing. *)
Lemma iwp_quiet {A} (p : prog OsSig A) w (Q : list (event OsSig) -> A -> Prop) :
  wp p (fun t a => Forall quiet t /\ Q t a) ->
  iwp p (w, None) (fun s t a => s = (w, None) /\ Q t a).
Proof.
  revert Q. induction p as [a|o k IH]; intros Q Hp; cbn [iwp wp] in *.
  - intros s Hs. split; [by apply hb_ended|apply Hp].
  - intros s1 r s2 Hs Ho. apply hb_ended in Hs as ->. destruct (quiet_op o) eqn:Eq.
    + assert (s2 = (w, None)) as ->.
      { inversion Ho; subst; [done|]. f_equal. by eapply quiet_rel. }
      apply (IH r (fun t a => Q (@Ev OsSig o r :: t) a)). eapply wp_mono; [|apply Hp].
      intros t a [Hq Ht]. split; [by inversion Hq|done].
    + eapply iwp_mono; [|apply (iwp_wp _ _ (fun _ _ => False))]; [by intros ? ? ? []|].
      eapply wp_mono; [|apply Hp]. intros t a [Hq _]. inversion Hq as [|? ? Hq']; subst.
      unfold quiet in Hq'. simpl in Hq'. congruence.
Qed.

Lemma stays_stopped o w r w' : canary_rel path o w r w' -> stopped w = true -> stopped w' = true.
Proof.
  destruct o; cbn; intros Hr Hs; subst; try done; try (by destruct Hr; subst).
  - destruct (_ && _); [done|exact Hs].
  - destruct (_ && _); [by destruct Hr as [_ ->]|by subst].
Qed.

Lemma can_answer o w : exists r w', canary_rel path o w r w'.
Proof.
  destruct o; cbn; try (by eexists (Err (Msg "")), _); try (by eexists tt, _);
    try (by eexists None, _); try (by eexists 0, _); try (by eexists false, _).
  - by exists (present w), w.
  - exists (Err (Msg "")), w. by rewrite andb_false_r.
  - by exists (stopped w), w.
Qed.

(** C28: once the stop flag is set, the heartbeat thread ends, wherever it is
    and whatever its operations are answered: it has no infinite execution, and
    until its end it can always go on, so the owner's [join] returns. *)
Theorem heartbeat_stops (w : Canary) (h : option (prog OsSig bool)) (Hstop : stopped w = true) :
  Acc (fun s' s => hb_step s s') (w, h) /\
  forall s', rtc hb_step (w, h) s' -> s'.2 = None \/ exists s'', hb_step s' s''.
Proof.
  split.
  - assert (Hnone : forall w, Acc (fun s' s => hb_step s s') (w, None)).
    { intros v. constructor. intros s' Hs. inversion Hs. }
    assert (Hret : forall w, Acc (fun s' s => hb_step s s') (w, Some (Ret false))).
    { intros v. constructor. intros s' Hs. inversion Hs; subst. apply Hnone. }
    destruct h as [p|]; [|apply Hnone]. revert w Hstop.
    induction p as [[]|o k IH]; intros w Hw; constructor; intros s' Hs.
    + apply hb_step_inv in Hs. simpl in Hs. subst. constructor. intros s2 Hs2.
      apply hb_step_inv in Hs2. simpl in Hs2. destruct Hs2 as (r & w' & [-> ->] & ->).
      rewrite Hw. apply Hret.
    + apply hb_step_inv in Hs. simpl in Hs. subst. apply Hnone.
    + apply hb_step_inv in Hs as (r & w' & Hr & ->). apply IH. by eapply stays_stopped.
  - intros [w' [p|]] _; [right|by left]. destruct p as [[]|o k].
    + eexists. apply hb_again.
    + eexists. apply hb_end.
    + destruct (can_answer o w') as (r & w'' & Hr). eexists. by apply hb_do.
Qed.

End Concurrent.

Section Release.
Context {J : Type} `{JailLaws J}.

(** The attempts to delete a file, by their outcomes. *)
Definition deletion (path : string) (e : event OsSig) : option (Result unit Error) :=
  match e with
  | {| ev_op := RemoveFile p; ev_ans := a |} => if String.eqb p path then Some a else None
  | _ => None
  end.

Definition deletions (path : string) (t : list (event OsSig)) : list (Result unit Error) :=
  omap (deletion path) t.

Lemma quiet_deletions path t : Forall quiet t -> deletions path t = [].
Proof.
  unfold deletions. induction 1 as [|[o a] t He Ht IH]; csimpl; [done|].
  unfold quiet in He. simpl in He. rewrite IH. by destruct o.
Qed.

Lemma delete_canary_alone (m : ManagedJail J) interval w :
  iwp (canary_path m) interval (delete_canary m) (w, None) (fun s t _ =>
    s.2 = None /\ ((present s.1 = false /\ (deletions (canary_path m) t = [] \/
                                          deletions (canary_path m) t = [Ok tt])) \/
                  exists e, deletions (canary_path m) t = [Err e])).
Proof.
  simpl. intros s1 r s2 Hs Ho. apply hb_ended in Hs as ->.
  apply owner_step_inv in Ho as [[[=] _]|(_ & Hr & Hn)]. destruct s2 as [w2 h2]. simpl in *. subst h2.
  destruct Hr as [-> Hp]. specialize (Hp eq_refl). subst r. destruct (present w) eqn:Ew; simpl.
  - intros s1 r s2 Hs Ho. apply hb_ended in Hs as ->.
    apply owner_step_inv in Ho as [[[=] _]|(_ & Hr & Hn)]. destruct s2 as [w2 h2]. simpl in *. subst h2.
    rewrite bool_decide_true in Hr by done. intros s' Hs. apply hb_ended in Hs as ->.
    split; [done|]. unfold deletions. csimpl. rewrite String.eqb_refl.
    destruct r as [[]|e]; simpl in Hr; [left|right; by exists e].
    destruct Hr as [_ ->]. split; [done|by right].
  - intros s' Hs. apply hb_ended in Hs as ->. split; [done|]. left. split; [done|by left].
Qed.

(** Stopping the heartbeat leaves the owner alone. *)
Lemma stop_heartbeat_alone (m : ManagedJail J) interval w h :
  managed_heartbeat m = true -> h = None \/ heartbeat_handle m = true ->
  iwp (canary_path m) interval (stop_heartbeat m) (w, h) (fun s t x =>
    s.2 = None /\ deletions (canary_path m) t = [] /\ jail x.2 = jail m /\
    canary_path x.2 = canary_path m /\ managed_heartbeat x.2 = true).
Proof.
  intros Hon Hh. unfold stop_heartbeat. rewrite Hon. simpl.
  intros s1 r s2 Hs1 Ho. apply owner_step_inv in Ho as [[[=] _]|(_ & _ & Hn)].
  destruct (heartbeat_handle m) eqn:Eh; simpl.
  - intros s3 j s4 Hs3 Ho. apply owner_step_inv in Ho as [(_ & He & ->)|[[] _]]; [|done].
    intros s5 Hs5. destruct s3 as [w3 h3]. simpl in He. subst h3. by apply hb_ended in Hs5 as ->.
  - destruct Hh as [->|]; [|done]. apply hb_ended in Hs1 as ->. simpl in Hn.
    destruct s2 as [w2 h2]. simpl in Hn. subst h2. intros s5 Hs5. by apply hb_ended in Hs5 as ->.
Qed.

(** C13: the end of a jail next to its heartbeat, in every interleaving with the
    thread and from any point of the thread's loop: the thread has ended before
    the inner jail is cleaned up, the canary is not touched until that cleanup
    is over, and it is deleted exactly when the cleanup succeeded, after which
    nothing brings it back (unless the deletion itself fails); after a failed
    cleanup it is left for the orphan sweep. *)
Theorem release_keeps_canary_until_clean (m : ManagedJail J) (w : Canary) (h : option (prog OsSig bool))
    (t : list (event OsSig)) (s' : Conc) (r : Result unit Error) (m' : ManagedJail J)
    (Hon : managed_heartbeat m = true) (Hh : h = None \/ heartbeat_handle m = true)
    (Hex : exec (canary_path m) (heartbeat_interval m) (w, h) (managed_release m) t s' (Ret (r, m'))) :
  s'.2 = None /\
  exists t1 tc t2, t = t1 ++ tc ++ t2 /\ deletions (canary_path m) (t1 ++ tc) = [] /\
    possible (cleanup (jail m)) tc r /\
    match r with
    | Ok _ => present s'.1 = false \/ exists e, deletions (canary_path m) t2 = [Err e]
    | Err _ => t2 = []
    end.
Proof.
  revert Hex. generalize (heartbeat_interval m). intros interval Hex.
  assert (Hi : iwp (canary_path m) interval (managed_release m) (w, h) (fun s t x => s.2 = None /\
    exists t1 tc t2, t = t1 ++ tc ++ t2 /\ deletions (canary_path m) (t1 ++ tc) = [] /\
    possible (cleanup (jail m)) tc x.1 /\
    match x.1 with
    | Ok _ => present s.1 = false \/ exists e, deletions (canary_path m) t2 = [Err e]
    | Err _ => t2 = []
    end)).
  2: { exact (iwp_exec _ _ _ _ _ _ _ _ Hex Hi). }
  apply iwp_bind. eapply iwp_mono; [|by apply stop_heartbeat_alone].
  intros [w1 h1] t1 [r1 m1] (Hn & Hd1 & Hj & Hp & Hb). cbn [fst snd] in *. subst h1. rewrite Hb, Hj. simpl.
  apply iwp_bind. eapply iwp_mono;
    [|apply (iwp_quiet _ _ _ _ (fun t a => Forall quiet t /\ possible (cleanup (jail m)) t a));
      repeat apply wp_conj; [apply cleanup_quiet..|apply wp_self]].
  intros s tc rc [-> [Hq Htc]]. apply iwp_bind.
  assert (Hd : deletions (canary_path m) (t1 ++ tc) = []).
  { unfold deletions in *. rewrite omap_app, Hd1. by apply quiet_deletions. }
  destruct rc as [[]|e]; cbn [Result.is_ok].
  - eapply (iwp_mono _ _ _ _ (fun s t _ => s.2 = None /\ ((present s.1 = false /\
      (deletions (canary_path m) t = [] \/ deletions (canary_path m) t = [Ok tt])) \/
      exists e, deletions (canary_path m) t = [Err e]))).
    + intros [w2 h2] t2 x [Hh2 Hc] s'' Hs. cbn [fst snd] in *. subst h2. apply hb_ended in Hs as ->.
      split; [done|]. exists t1, tc, t2. rewrite app_nil_r. split; [done|]. split; [done|].
      split; [done|]. destruct Hc as [[Hc _]|Hc]; [by left|by right].
    + rewrite <- Hp. apply delete_canary_alone.
  - cbn [iwp]. intros s1 Hs1. apply hb_ended in Hs1 as ->. intros s2 Hs2. apply hb_ended in Hs2 as ->.
    split; [done|]. exists t1, tc, []. by rewrite !app_nil_r.
Qed.

(** A quiet program of the owner runs in one go. *)
Lemma exec_quiet {A B} path interval (p : prog OsSig A) (f : A -> prog OsSig B) w h t a t' s' q :
  possible p t a -> Forall quiet t -> exec path interval (w, h) (f a) t' s' q ->
  exec path interval (w, h) (bind p f) (t ++ t') s' q.
Proof.
  intros Hp Hq Hex. induction Hp as [a|o k r t a Hp IH]; simpl; [done|].
  inversion Hq as [|? ? Ho Ht]; subst. apply exec_owner with (w, h); [|by apply IH].
  unfold quiet in Ho. simpl in Ho. apply owner_do; [by intros ->|]. by destruct o.
Qed.

(** C37: [cleanup], which only signals the thread, does not keep the promise its
    comment makes: there is an interleaving in which the heartbeat was past its
    look at the flag, the owner then cleaned up and deleted the canary with
    success, and the thread creates the canary again. *)
Theorem cleanup_may_revive_canary (m : ManagedJail J) (tc : list (event OsSig))
    (Hon : managed_heartbeat m = true) (Hc : possible (cleanup (jail m)) tc (Ok tt)) :
  let path := canary_path m in
  exists t s',
    exec path (heartbeat_interval m)
      ({| present := true; stopped := false |}, Some (heartbeat_turn path (heartbeat_interval m)))
      (cleanup m) t s' (Ret (Ok tt)) /\
    deletions path t = [Ok tt] /\ present s'.1 = true.
Proof.
  intros path.
  assert (Hq : Forall quiet tc).
  { exact (proj1 (wp_possible _ (fun t _ => Forall quiet t)) (cleanup_quiet (jail m)) tc _ Hc). }
  eexists (@Ev OsSig StoreStop tt :: tc ++ [@Ev OsSig (PathExists path) true;
    @Ev OsSig (RemoveFile path) (Ok tt)]), (_, _).
  split; [|split].
  - eapply exec_hb; [by apply (hb_do _ _ LoadStop _ false)|]. cbn [cleanup managed_jail].
    unfold managed_cleanup, signal_stop_heartbeat. rewrite Hon.
    eapply exec_owner; [by apply owner_do|].
    eapply exec_quiet; [exact Hc|exact Hq|].
    eapply exec_owner; [by apply owner_do|].
    eapply (exec_owner _ _ _ _ _ (RemoveFile path) _ (Ok tt)); [apply owner_do; [done|]; cbn; rewrite bool_decide_true by done; by split|].
    eapply exec_hb; [by apply (hb_do _ _ (PathExists path) _ false)|].
    eapply exec_hb; [apply (hb_do _ _ (WriteFile path "") _ (Ok tt)); cbn; rewrite bool_decide_true by done; reflexivity|].
    apply exec_refl.
  - change (deletions path (tc ++ [@Ev OsSig (PathExists path) true;
      @Ev OsSig (RemoveFile path) (Ok tt)]) = [Ok tt]).
    unfold deletions. rewrite omap_app. etrans; [apply f_equal2; [by apply quiet_deletions|reflexivity]|].
    csimpl. by rewrite String.eqb_refl.
  - done.
Qed.

End Release.

Section Setup.
Context {J : Type} `{Jail J}.

Definition canary_written (m : ManagedJail J) (t : list (event OsSig)) : Prop :=
  last t = Some (@Ev OsSig (WriteFile (canary_path m) "") (Ok tt)).

Lemma create_canary_spec (m : ManagedJail J) :
  wp (create_canary m) (fun t r => r = Ok tt -> canary_written m t).
Proof.
  unfold canary_written. simpl. intros [|]; simpl.
  - by intros [[]|e].
  - intros [[]|e]; simpl; [|done]. by intros [[]|e].
Qed.

Lemma canary_written_app m t t' : canary_written m t' -> canary_written m (t ++ t').
Proof. unfold canary_written. rewrite last_app. by intros ->. Qed.

Lemma before_setup_spec (m : ManagedJail J) :
  wp (cleanup_orphans m ;;? create_canary m) (fun t r => r = Ok tt -> canary_written m t).
Proof.
  apply wp_try. apply wp_true. intros t [[]|e]; [|done].
  eapply wp_mono; [|apply create_canary_spec]. intros t' r Hr Hok. by apply canary_written_app, Hr.
Qed.

(** The canary is looked for, and removed if it is there. *)
Definition canary_removal (m : ManagedJail J) (t : list (event OsSig)) : Prop :=
  t = [@Ev OsSig (PathExists (canary_path m)) false] \/
  exists a, t = [@Ev OsSig (PathExists (canary_path m)) true;
                 @Ev OsSig (RemoveFile (canary_path m)) a].

Lemma delete_canary_spec (m : ManagedJail J) :
  wp (delete_canary m) (fun t _ => canary_removal m t).
Proof. simpl. intros [|]; simpl; [|by left]. intros a. right. by exists a. Qed.

Lemma start_heartbeat_spec (m : ManagedJail J) : managed_heartbeat m = true ->
  wp (start_heartbeat m) (fun t '(r, m') => jail m' = jail m /\
    (r = Ok tt /\ heartbeat_handle m' = true /\
       last t = Some (@Ev OsSig (SpawnHeartbeat (canary_path m) (heartbeat_interval m)) tt) \/
     Result.is_err r = true /\ m' = m)).
Proof.
  intros Hon. unfold start_heartbeat. rewrite Hon. cbn [negb]. wp_step. apply wp_true.
  intros t [[]|e]; simpl; [|by split; [|right]]. intros []. split; [done|]. left.
  split; [done|]. split; [done|]. apply last_snoc.
Qed.

(** Setting up a managed jail.  With the heartbeat, the inner jail is set
    up only once this jail's canary was written, so another jail's sweep does
    not take it for an orphan; if the inner setup fails its error is returned,
    the canary is removed and no thread is started; if it succeeds the thread is
    started, or the error of writing the canary again is returned.  Without the
    heartbeat the inner setup is all there is, and its outcome is dropped: the
    result is [Ok] even when it failed. *)
Theorem managed_setup_outcome (m : ManagedJail J) (proxy_port : Z) :
  wp (setup m proxy_port) (fun t '(r, m') =>
    (managed_heartbeat m = true /\ Result.is_err r = true /\ m' = m /\
       possible (cleanup_orphans m ;;? create_canary m) t r) \/
    exists t1 ts t2 rs, t = t1 ++ ts ++ t2 /\
      possible (setup (jail m) proxy_port) ts (rs, jail m') /\
      if managed_heartbeat m then
        canary_written m t1 /\
        match rs with
        | Err e => r = Err e /\ heartbeat_handle m' = heartbeat_handle m /\ canary_removal m t2
        | Ok _ =>
            r = Ok tt /\ heartbeat_handle m' = true /\
              last t2 = Some (@Ev OsSig (SpawnHeartbeat (canary_path m) (heartbeat_interval m)) tt) \/
            Result.is_err r = true /\ heartbeat_handle m' = heartbeat_handle m
        end
      else t1 = [] /\ t2 = [] /\ r = Ok tt).
Proof.
  cbn [setup managed_jail]. unfold managed_setup. destruct (managed_heartbeat m) eqn:Hon.
  - wp_step. eapply wp_mono; [|apply wp_conj; [apply before_setup_spec|apply wp_self]].
    intros t1 [[]|e] [Hw Hp]; [|left; by rewrite app_nil_r].
    specialize (Hw eq_refl). wp_step. eapply wp_mono; [|apply wp_self].
    intros ts [rs j] Hs. destruct rs as [[]|e]; cbn [Result.is_err Result.is_ok negb andb].
    + eapply wp_mono; [|by apply start_heartbeat_spec].
      intros t2 [r m'] [Hj Hr]. right. exists t1, ts, t2, (Ok tt). rewrite Hj.
      do 3 (split; [done|]). destruct Hr as [Hr|[Hr ->]]; [by left|by right].
    + cbn [set_jail managed_heartbeat]. rewrite Hon. wp_step.
      eapply wp_mono; [|apply delete_canary_spec]. intros t2 r2 Hd.
      right. exists t1, ts, t2, (Err e). rewrite app_nil_r. by repeat split.
  - cbn [bind]. wp_step. eapply wp_mono; [|apply wp_self].
    intros ts [rs j] Hs. unfold start_heartbeat. rewrite andb_comm. cbn [set_jail managed_heartbeat].
    rewrite Hon. cbn [andb negb]. right. exists [], ts, [], rs. by repeat split.
Qed.

End Setup.

(** ** A Linux jail, managed *)

Section Examples.

Definition example_managed : ManagedJail LinuxJail :=
  {| jail := linux_new example_config; canary_dir := "/d"; canary_path := "/d/abcd1234";
     heartbeat_interval := from_secs 1; orphan_timeout := from_secs 10; managed_heartbeat := true;
     heartbeat_handle := true |}.

(** An environment in which everything goes well. *)
Definition calm : handler OsSig unit := fun o w =>
  let out := {| status := {| code := Some 0 |}; stdout := ""; stderr := "" |} in
  (match o return ans OsSig o with
   | RunOutput _ | WaitOutput => Ok out
   | RunStatus _ | WaitStatus => Ok {| code := Some 0 |}
   | GetUid | GenIndex _ | Now => 0
   | EnvVar _ | DataDir => None
   | PathExists _ | IsFile _ | LoadStop => true
   | ReadDir _ => Ok []
   | Modified _ | Accessed _ => Ok (Ok 0)
   | ReadLink p | Canonicalize p => Ok p
   | StopDns | SpawnHeartbeat _ _ | StoreStop | Sleep _ => tt
   | SpawnPiped _ | WriteStdin _ | CreateDirAll _ | WriteFile _ _ | CreateNew _ | RemoveFile _
   | RemoveDirAll _ | SetMtime _ _ _ | StartDns _ | JoinHeartbeat => Ok tt
   end, w).

(** What a sweep may find: a canary last touched at 0, which reads as stale at
    20 seconds, and one of the future, which does not. *)
Example stale_by_the_clock :
  let look p modified := [@Ev OsSig (Modified p) (Ok (Ok modified)); @Ev OsSig Now (from_secs 20)] in
  stale_canaries (from_secs 10) (look "/d/old" 0 ++ look "/d/fresh" (from_secs 15) ++
    look "/d/later" (from_secs 90)) = ["/d/old"].
Proof. reflexivity. Qed.


Definition calm_cleanup : list (event OsSig) :=
  run_events calm tt (cleanup (linux_new example_config)).

(** A setup and a cleanup in which everything goes well: the system obeys, and
    what is left is the placeholder. *)
Example calm_leaves_placeholder :
  let t := run_events calm tt (setup (linux_new example_config) 8040) ++ calm_cleanup in
  obeys [] t /\ standing [] t = host_placeholder.
Proof. split; [by apply obeys_removed; vm_compute|by vm_compute]. Qed.

Lemma calm_cleanup_possible : possible (cleanup (jail example_managed)) calm_cleanup (Ok tt).
Proof.
  assert (Hr : run_result calm tt (cleanup (linux_new example_config)) = Ok tt) by reflexivity.
  rewrite <- Hr. apply run_possible.
Qed.

Definition touching : Conc :=
  ({| present := true; stopped := false |}, Some (heartbeat_turn "/d/abcd1234" (from_secs 1))).

Lemma heartbeat_stops_witness :
  let w := {| present := true; stopped := true |} in
  let h := Some (touch_file_mtime "/d/abcd1234" ;; Ret true) in
  stopped w = true /\
  (Acc (fun s' s => hb_step "/d/abcd1234" 1 s s') (w, h) /\
   forall s', rtc (hb_step "/d/abcd1234" 1) (w, h) s' ->
     s'.2 = None \/ exists s'', hb_step "/d/abcd1234" 1 s' s'').
Proof.
  split; [reflexivity|].
  exact (heartbeat_stops "/d/abcd1234" 1 {| present := true; stopped := true |}
           (Some (touch_file_mtime "/d/abcd1234" ;; Ret true)) eq_refl).
Defined.

Lemma cleanup_may_revive_canary_witness :
  exists t s', exec "/d/abcd1234" (from_secs 1) touching (cleanup example_managed) t s' (Ret (Ok tt)) /\
    deletions "/d/abcd1234" t = [Ok tt] /\ present s'.1 = true.
Proof.
  exact (cleanup_may_revive_canary example_managed calm_cleanup eq_refl calm_cleanup_possible).
Defined.

Lemma example_release : exists t s' m',
  exec "/d/abcd1234" (from_secs 1) touching (managed_release example_managed) t s' (Ret (Ok tt, m')).
Proof.
  eexists _, _, _.
  eapply exec_owner; [by apply owner_do|].
  eapply exec_hb; [by apply (hb_do _ _ LoadStop _ true)|].
  eapply exec_hb; [by apply hb_end|].
  eapply (exec_owner _ _ _ _ _ JoinHeartbeat); [apply owner_join|]. cbn [bind].
  eapply exec_quiet; [exact calm_cleanup_possible| |].
  { exact (proj1 (wp_possible _ (fun t _ => Forall quiet t)) (cleanup_quiet (linux_new example_config))
             _ _ calm_cleanup_possible). }
  eapply exec_owner; [by apply owner_do|].
  eapply (exec_owner _ _ _ _ _ (RemoveFile _) _ (Ok tt)); [apply owner_do; [done|]; by split|].
  apply exec_refl. Unshelve. exact tt.
Qed.

Lemma release_keeps_canary_until_clean_witness : exists t s' m',
  exec "/d/abcd1234" (from_secs 1) touching (managed_release example_managed) t s' (Ret (Ok tt, m')) /\
  s'.2 = None /\
  exists t1 tc t2, t = t1 ++ tc ++ t2 /\ deletions "/d/abcd1234" (t1 ++ tc) = [] /\
    possible (cleanup (jail example_managed)) tc (Ok tt) /\
    (present s'.1 = false \/ exists e, deletions "/d/abcd1234" t2 = [Err e]).
Proof.
  destruct example_release as (t & s' & m' & Hex). exists t, s', m'. split; [exact Hex|].
  exact (release_keeps_canary_until_clean example_managed _ _ t s' (Ok tt) m' eq_refl
           (or_intror eq_refl) Hex).
Defined.

End Examples.
