(* ===== verification/OrphanScan.v ===== *)
(** * The orphan cleanup command ([cleanup_orphans] of [src/main.rs])

    [httpjail --cleanup] looks for stale canaries, as the sweep of the managed
    jail does but with a timeout of five seconds, and then for the resolver
    directories of namespaces without a canary. *)

From stdpp Require Import gmap.
From S2P Require Import Prelude Effects Paths Process Os LinuxResources Jail Footprint LinuxJail ManagedJail.

(** ** The command *)

(** The jails cleaned up so far. *)
Abbreviation Cleaned := (gset string).

Definition short_timeout : Z := from_secs 5.

Section Scan.
Context `{DefaultHasher}.

Definition scan_canary (cleaned_jails : Cleaned) (entry : Result string Error)
    : prog OsSig (Result Cleaned Error) :=
  path ⇐? Ret entry;
  is_file ⇐ os (IsFile path);
  if negb is_file then Ret (Ok cleaned_jails)
  else
    metadata ⇐? os (Modified path);
    modified ⇐? Ret (Result.context "Failed to get file modification time" metadata);
    now ⇐ os Now;
    if short_timeout <? age_since now modified then
      let jail_id := canary_jail_id path in
      cleanup_orphaned (J := LinuxJail) jail_id ;;?
      _ ⇐ os (RemoveFile path);              (* a failure is only logged *)
      Ret (Ok ({[jail_id]} ∪ cleaned_jails))
    else Ret (Ok cleaned_jails).

Definition scan_canaries : prog OsSig (Result Cleaned Error) :=
  canary_dir ⇐ get_canary_dir;
  exists_ ⇐ os (PathExists canary_dir);
  if (exists_ : bool) then
    entries ⇐? os (ReadDir canary_dir);
    fold_each entries ∅ scan_canary
  else Ret (Ok ∅).

Definition entry_name (path : string) : string :=
  default "" (n ← file_name path; from_utf8 n).

Definition scan_namespace (cleaned_jails : Cleaned) (entry : Result string Error)
    : prog OsSig (Result Cleaned Error) :=
  path ⇐? Ret entry;
  let name := entry_name path in
  if starts_with name "httpjail_" && negb (bool_decide (name ∈ cleaned_jails)) then
    cleanup_orphaned (J := LinuxJail) name ;;?
    Ret (Ok ({[name]} ∪ cleaned_jails))
  else Ret (Ok cleaned_jails).

Definition scan_namespaces (cleaned_jails : Cleaned) : prog OsSig (Result Cleaned Error) :=
  let netns_dir := "/etc/netns" in
  exists_ ⇐ os (PathExists netns_dir);
  if (exists_ : bool) then
    entries ⇐? os (ReadDir netns_dir);
    fold_each entries cleaned_jails scan_namespace
  else Ret (Ok cleaned_jails).

Definition cleanup_orphans : prog OsSig (Result unit Error) :=
  cleaned_jails ⇐? scan_canaries;
  cleaned_jails ⇐? scan_namespaces cleaned_jails;
  Ret (Ok tt).

End Scan.

(** ** The canary scan is a sweep *)

Section Scanned.
Context `{DefaultHasher}.

Definition same_outcome {A B} (r : Result A Error) (r' : Result B Error) : Prop :=
  Result.is_err r = Result.is_err r'.

(** An entry of the scan does what an entry of the managed jail's sweep does,
    and remembers the jail. *)
Lemma scan_canary_sweeps (cleaned : Cleaned) entry (Q : list (event OsSig) -> Result unit Error -> Prop) :
  wp (sweep_entry (J := LinuxJail) short_timeout entry) Q ->
  wp (scan_canary cleaned entry) (fun t r => exists r', same_outcome r r' /\ Q t r').
Proof.
  destruct entry as [path|e]; [|intros HQ; by exists (Err e)]. unfold sweep_entry, scan_canary, os, perform.
  cbn [try bind wp]. intros HQ is_file. specialize (HQ is_file).
  destruct is_file; cbn [negb wp] in *; [|by exists (Ok tt)].
  cbn [bind wp] in *. intros metadata. specialize (HQ metadata).
  destruct metadata as [[modified|e]|e]; cbn [Result.context try bind wp] in *; [|by eexists (Err _); split; [|exact HQ]..].
  intros now. specialize (HQ now). cbn beta in HQ.
  fold (@wp OsSig (Result unit Error)) in HQ.
  destruct (short_timeout <? age_since now modified); [|by exists (Ok tt)].
  unfold try in HQ |- *. apply wp_bind_2. apply wp_bind in HQ. apply wp_bind in HQ.
  eapply wp_mono; [|exact HQ]. intros t [u|e] Ht; cbn [Result.context bind wp] in *.
  - intros rm. specialize (Ht rm). cbn in Ht. rewrite app_nil_r in Ht. by exists (Ok tt).
  - rewrite !app_nil_r in Ht. eexists (Err _). by split; [|exact Ht].
Qed.

Lemma scan_entries_sweep entries (cleaned : Cleaned) (Q : list (event OsSig) -> Result unit Error -> Prop) :
  wp (for_each entries (sweep_entry (J := LinuxJail) short_timeout)) Q ->
  wp (fold_each entries cleaned scan_canary) (fun t r => exists r', same_outcome r r' /\ Q t r').
Proof.
  revert cleaned Q. induction entries as [|entry entries IH]; intros cleaned Q HQ; [by exists (Ok tt)|].
  cbn [for_each fold_each] in *. unfold try at 1 in HQ. apply wp_bind in HQ. wp_step.
  eapply wp_mono; [|exact (scan_canary_sweeps cleaned _ _ HQ)].
  intros t [cleaned'|e] (r' & Ho & Hr); destruct r' as [[]|e']; try done.
  - exact (IH cleaned' _ Hr).
  - exists (Err e'). split; [done|]. cbn [wp] in Hr. by rewrite app_nil_r in Hr.
Qed.

Lemma short_timeout_pos : 0 <= short_timeout.
Proof. discriminate. Qed.

(** Events that say nothing of canaries' ages and remove nothing. *)
Lemma sweep_result_skip timeout (e : event OsSig) t r :
  match ev_op e with
  | DataDir | PathExists _ | ReadDir _ => true
  | _ => false
  end = true ->
  sweep_result (J := LinuxJail) timeout t r -> sweep_result (J := LinuxJail) timeout (e :: t) r.
Proof.
  destruct e as [o a]. cbn [ev_op]. intros Ho (ps & Hs). exists ps.
  by destruct o.
Qed.

Lemma scan_canaries_sweep : wp scan_canaries (fun t r => exists r', same_outcome r r' /\
  sweep_result (J := LinuxJail) short_timeout t r').
Proof.
  assert (H0 : forall r, sweep_result (J := LinuxJail) short_timeout [] r) by (intros r; exists []; by left).
  unfold scan_canaries, get_canary_dir, os, perform. cbn [bind wp]. intros data.
  assert (Hd : forall dir, wp (exists_ ⇐ os (PathExists dir);
      if (exists_ : bool) then entries ⇐? os (ReadDir dir); fold_each entries ∅ scan_canary
      else Ret (Ok ∅)) (fun t r => exists r', same_outcome r r' /\
        sweep_result (J := LinuxJail) short_timeout t r')).
  { intros dir. unfold os, perform. cbn [bind wp]. intros [|].
    - cbn [try bind wp]. intros [entries|e].
      + eapply wp_mono; [|exact (scan_entries_sweep entries ∅ _ (sweep_spec short_timeout entries short_timeout_pos))].
        intros t r (r' & Ho & Hr & _). exists r'. split; [done|]. by do 2 (apply sweep_result_skip; [done|]).
      + exists (Err e). split; [done|]. by do 2 (apply sweep_result_skip; [done|]).
    - exists (Ok tt). split; [done|]. by apply sweep_result_skip. }
  destruct data as [dir|]; cbn [bind]; (eapply wp_mono; [|apply Hd]); intros t r (r' & Ho & Hr);
    exists r'; (split; [done|]); by apply sweep_result_skip.
Qed.

(** ** The scan of the namespaces *)

(** What the scan removes are the resources of the names it lists, each once. *)
Definition scanned (cleaned : Cleaned) (t : list (event OsSig)) : Prop :=
  exists names, NoDup names /\ Forall (fun n => starts_with n "httpjail_" = true /\ n ∉ cleaned) names /\
    omap undoes t = flat_map removals names.

Lemma scan_namespaces_scanned (cleaned : Cleaned) :
  wp (scan_namespaces cleaned) (fun t _ => scanned cleaned t).
Proof.
  assert (H0 : forall c t, omap undoes t = [] -> scanned c t)
    by (intros c t Ht; exists []; split; [constructor|]; by split; [constructor|]).
  assert (Hl : forall entries c, wp (fold_each entries c scan_namespace) (fun t _ => scanned c t)).
  { intros entries c. apply (wp_fold_each scan_namespace (fun c _ t _ => scanned c t)); clear entries c;
      [by intros; apply H0|].
    intros c [path|e] _; cbn [scan_namespace try bind]; [|by apply H0]. cbn zeta.
    destruct (starts_with _ _ && _) eqn:Ec; [|by cbn [wp]; intros t' _].
    apply andb_true_iff in Ec as [Hs Hn%negb_true_iff%bool_decide_eq_false].
    wp_step. eapply wp_mono; [|apply linux_cleanup_orphaned_removes].
    intros t r [Hu ->]. apply wp_ret. rewrite app_nil_r. intros t' _ (names & Hnd & Hf & Hu').
    exists (entry_name path :: names). split; [|split].
    - apply NoDup_cons. split; [|done]. intros Hin. rewrite Forall_forall in Hf.
      destruct (Hf _ Hin) as [_ Hf']. apply Hf'. set_solver.
    - constructor; [done|]. apply (Forall_impl _ _ _ Hf). intros n [? ?]. split; [done|set_solver].
    - by rewrite omap_app, Hu, Hu'. }
  unfold scan_namespaces, os, perform. cbn [bind wp]. intros [|]; [|by apply H0]. cbn [try bind wp].
  intros [entries|e]; [|by apply H0]. eapply wp_mono; [|apply Hl]. intros t _ (names & Hs). by exists names.
Qed.

Lemma removals_inj a b u : u ∈ removals a -> u ∈ removals b -> a = b.
Proof.
  unfold removals, resolv_dir, veth_host, netns_name.
  rewrite !elem_of_cons, elem_of_nil. intros Ha Hb.
  destruct Ha as [->|[->|[->|[->|[]]]]]; destruct Hb as [E|[E|[E|[E|[]]]]]; try discriminate E;
    injection E; auto.
Qed.


End Scanned.
