(* ===== verification/Docker.v ===== *)
(** * Docker jails ([src/jail/linux/docker.rs])

    A container on a Docker network of its own, whose web traffic the host
    sends to the proxy of the Linux jail inside. *)

From S2P Require Import Prelude Effects Paths Process Os Nftables LinuxResources Jail Footprint Net LinuxJail.
From Stdlib Require Import Ascii.

(** ** The Docker network *)

Record DockerNetwork : Type := { network_name : string }.

Definition NETWORK_PREFIX : string := "httpjail_".

Definition network_name_from_jail_id (jail_id : string) : string := NETWORK_PREFIX +:+ jail_id.

Definition jail_id_from_network_name (network_name : string) : option string :=
  strip_prefix NETWORK_PREFIX network_name.

Definition is_not_found_error (stderr : string) : bool :=
  contains stderr "not found" || contains stderr "No such" || contains stderr "does not exist".

Definition is_already_exists_error (stderr : string) : bool := contains stderr "already exists".

Definition compute_docker_subnet `{DefaultHasher} (jail_id : string) : string :=
  let third_octet := Z.max (wrap_u8 (hash_str jail_id mod 256)) 1 in
  "172.20." +:+ dec third_octet +:+ ".0/24".

Definition docker_network_create `{DefaultHasher} (jail_id : string)
    : prog OsSig (Result DockerNetwork Error) :=
  let network_name := network_name_from_jail_id jail_id in
  let subnet := compute_docker_subnet jail_id in
  output ⇐ os (RunOutput (cmd "docker"
    ["network"; "create"; "--driver"; "bridge"; "--subnet"; subnet; "--opt";
     "com.docker.network.bridge.enable_ip_masquerade=false"; network_name]));
  match output with
  | Err e => Ret (Err (WithContext "Failed to create Docker network" e))
  | Ok out =>
      if negb (success (status out)) then
        let stderr := from_utf8_lossy (stderr out) in
        if is_already_exists_error stderr then Ret (Ok {| network_name := network_name |})
        else Ret (Err (Msg ("Failed to create Docker network: " +:+ stderr)))
      else Ret (Ok {| network_name := network_name |})
  end.

(** A command that fails is only logged. *)
Definition docker_network_cleanup (n : DockerNetwork) : prog OsSig (Result unit Error * DockerNetwork) :=
  output ⇐ os (RunOutput (cmd "docker" ["network"; "rm"; network_name n]));
  match output with
  | Err e => Ret (Err (WithContext "Failed to remove Docker network" e), n)
  | Ok _ => Ret (Ok tt, n)
  end.

#[export] Instance docker_network_resource `{DefaultHasher} : SystemResource DockerNetwork := {|
  sr_create := docker_network_create;
  sr_cleanup := docker_network_cleanup;
  sr_for_existing jail_id := {| network_name := network_name_from_jail_id jail_id |};
|}.



Definition get_bridge_name (n : DockerNetwork) : prog OsSig (Result string Error) :=
  output ⇐ os (RunOutput (cmd "docker" ["network"; "inspect"; network_name n; "-f"; "{{.Id}}"]));
  match output with
  | Err e => Ret (Err (WithContext "Failed to inspect Docker network" e))
  | Ok out =>
      if negb (success (status out)) then Ret (Err (Msg "Failed to get Docker network ID"))
      else
        let network_id := chars_take 12 (trim (from_utf8_lossy (stdout out))) in
        Ret (Ok ("br-" +:+ network_id))
  end.

(** ** The routing table *)

Record DockerRoutingTable : Type := { drt_jail_id : string; table_name : string }.

Definition table_name_from_jail_id (jail_id : string) : string := "httpjail_docker_" +:+ jail_id.

Definition routing_table (jail_id : string) : DockerRoutingTable :=
  {| drt_jail_id := jail_id; table_name := table_name_from_jail_id jail_id |}.

(** A command that fails is only logged. *)
Definition routing_cleanup (t : DockerRoutingTable)
    : prog OsSig (Result unit Error * DockerRoutingTable) :=
  output ⇐ os (RunOutput (cmd "nft" ["delete"; "table"; "ip"; table_name t]));
  match output with
  | Err e => Ret (Err (WithContext "Failed to delete Docker routing table" e), t)
  | Ok _ => Ret (Ok tt, t)
  end.

#[export] Instance routing_resource : SystemResource DockerRoutingTable := {|
  sr_create jail_id := Ret (Ok (routing_table jail_id));
  sr_cleanup := routing_cleanup;
  sr_for_existing := routing_table;
|}.

(** ** The jail *)

Record DockerLinux : Type := {
  inner_jail : LinuxJail;
  docker_config : JailConfig;
  docker_network : option (ManagedResource DockerNetwork);
  docker_routing : option (ManagedResource DockerRoutingTable);
}.

Definition set_inner j (d : DockerLinux) : DockerLinux :=
  {| inner_jail := j; docker_config := docker_config d; docker_network := docker_network d;
     docker_routing := docker_routing d |}.
Definition set_network n (d : DockerLinux) : DockerLinux :=
  {| inner_jail := inner_jail d; docker_config := docker_config d; docker_network := n;
     docker_routing := docker_routing d |}.
Definition set_routing r (d : DockerLinux) : DockerLinux :=
  {| inner_jail := inner_jail d; docker_config := docker_config d;
     docker_network := docker_network d; docker_routing := r |}.

Section DockerLinux.
Context `{DefaultHasher}.

Definition docker_new (config : JailConfig) : DockerLinux :=
  {| inner_jail := linux_new config; docker_config := config; docker_network := None;
     docker_routing := None |}.

Definition docker_clone (d : DockerLinux) : DockerLinux :=
  {| inner_jail := linux_clone (inner_jail d); docker_config := docker_config d;
     docker_network := None; docker_routing := None |}.

(** One line of [docker network ls]. *)
Definition orphan_network (canary_dir network_name : string) : prog OsSig (Result unit Error) :=
  match jail_id_from_network_name network_name with
  | None => Ret (Ok tt)
  | Some jail_id =>
      exists_ ⇐ os (PathExists (path_join canary_dir jail_id));
      if negb exists_ then
        rm_output ⇐ os (RunOutput (cmd "docker" ["network"; "rm"; network_name]));
        match rm_output with
        | Err e => Ret (Err (WithContext "Failed to remove orphaned Docker network" e))
        | Ok _ => Ret (Ok tt)                (* a failing command is only logged *)
        end
      else Ret (Ok tt)
  end.

Definition cleanup_all_orphaned_docker_networks : prog OsSig (Result unit Error) :=
  output ⇐ os (RunOutput (cmd "docker" ["network"; "ls"; "--format"; "{{.Name}}"]));
  match output with
  | Err e => Ret (Err (WithContext "Failed to list Docker networks" e))
  | Ok out =>
      if negb (success (status out)) then Ret (Ok tt)
      else
        let networks := from_utf8_lossy (stdout out) in
        canary_dir ⇐ get_canary_dir;
        for_each (lines networks) (orphan_network canary_dir)
  end.

(** ** The command line *)

Definition FLAGS_WITH_VALUES : list string :=
  ["-e"; "-v"; "-p"; "--name"; "--entrypoint"; "-w"; "--user"].

Fixpoint find_image_from (i : nat) (skip_next : bool) (args : list string) : option nat :=
  match args with
  | [] => None
  | arg :: rest =>
      if skip_next then find_image_from (S i) false rest
      else if bool_decide (arg ∈ FLAGS_WITH_VALUES) then find_image_from (S i) true rest
      else if negb (starts_with arg "-") then Some i
      else find_image_from (S i) false rest
  end.

Definition find_image_index (args : list string) : option nat := find_image_from 0 false args.

Fixpoint filter_network_args (docker_args : list string) : list string :=
  match docker_args with
  | [] => []
  | arg :: rest =>
      if String.eqb arg "--network" then
        match rest with [] => [] | _ :: rest' => filter_network_args rest' end
      else if starts_with arg "--network=" then filter_network_args rest
      else arg :: filter_network_args rest
  end.

Definition env_args (extra_env : list (string * string)) : list string :=
  flat_map (fun '(key, value) => ["-e"; key +:+ "=" +:+ value]) extra_env.

(** The first [SSL_CERT_FILE]. *)
Definition ca_cert_path (extra_env : list (string * string)) : option string :=
  head (omap (fun '(key, value) => if String.eqb key "SSL_CERT_FILE" then Some value else None) extra_env).

Definition read_only_mount (path : string) : list string := ["-v"; path +:+ ":" +:+ path +:+ ":ro"].

Definition ca_mounts (cert_path : option string) : prog OsSig (list string) :=
  match cert_path with
  | None => Ret []
  | Some cert_path =>
      match path_parent cert_path with
      | None => Ret (read_only_mount cert_path)
      | Some parent =>
          exists_ ⇐ os (PathExists parent);
          Ret (read_only_mount cert_path ++
               if (exists_ : bool) then read_only_mount (from_utf8_lossy parent) else [])
      end
  end.

Definition build_docker_command (d : DockerLinux) (docker_args : list string)
    (extra_env : list (string * string)) : prog OsSig (Result Command Error) :=
  let network_name := network_name_from_jail_id (config_jail_id (docker_config d)) in
  let modified_args := filter_network_args docker_args in
  image_idx ⇐? Ret (Result.ok_or (find_image_index modified_args)
                      (Msg "Could not find Docker image in arguments"));
  let docker_opts := take image_idx modified_args in
  match modified_args !! image_idx with
  | None => Ret (Err (Msg "index out of bounds"))        (* a panic *)
  | Some image =>
      let user_command :=
        if (image_idx + 1 <? length modified_args)%nat then drop (image_idx + 1) modified_args else [] in
      let c := cmd "docker" ["run"] in
      let c := Command.add_args c ["--network"; network_name] in
      let c := Command.add_args c (env_args extra_env) in
      mounts ⇐ ca_mounts (ca_cert_path extra_env);
      let c := Command.add_args c mounts in
      let c := Command.add_args c docker_opts in
      let c := Command.add_args c [image] in
      let c := Command.add_args c user_command in
      Ret (Ok c)
  end.

(** ** Routing *)

Definition nft_rules (table_name bridge_name host_ip_str jail_id : string) (http_port https_port : Z)
    : string :=
  join LF
   ["table ip " +:+ table_name +:+ " {";
    "                    chain prerouting {";
    "                        type nat hook prerouting priority -100;";
    "                        iifname " +:+ quoted bridge_name +:+ " tcp dport 80 dnat to " +:+
      host_ip_str +:+ ":" +:+ dec http_port +:+ ";";
    "                        iifname " +:+ quoted bridge_name +:+ " tcp dport 443 dnat to " +:+
      host_ip_str +:+ ":" +:+ dec https_port +:+ ";";
    "                    }";
    "                    ";
    "                    chain forward {";
    "                        type filter hook forward priority 0;";
    "                        iifname " +:+ quoted bridge_name +:+ " oifname " +:+
      quoted ("vh_" +:+ jail_id) +:+ " accept;";
    "                        iifname " +:+ quoted ("vh_" +:+ jail_id) +:+ " oifname " +:+
      quoted bridge_name +:+ " ct state established,related accept;";
    "                    }";
    "                }"].

Definition apply_nft_rules (rules : string) : prog OsSig (Result unit Error) :=
  _ ⇐? (r ⇐ os (SpawnPiped (Command.with_stdio (cmd "nft" ["-f"; "-"]) Piped Inherit Inherit));
         Ret (Result.context "Failed to spawn nft command" r));
  _ ⇐? (r ⇐ os (WriteStdin rules); Ret (Result.context "Failed to write nftables rules" r));
  status ⇐? (r ⇐ os WaitStatus; Ret (Result.context "Failed to wait for nft command" r));
  if negb (success status) then Ret (Err (Msg "Failed to apply nftables rules for Docker routing"))
  else Ret (Ok tt).

Definition setup_docker_routing : method OsSig DockerLinux unit :=
  d ⟵ mget;
  match docker_network d with
  | None => mfail (Msg "Docker network not created")
  | Some managed =>
      match inner managed with
      | None => mpure tt
      | Some network =>
          let jail_id := config_jail_id (docker_config d) in
          bridge_name ⟵ mlift (get_bridge_name network);
          let host_ip_str := format_ip (compute_host_ip_for_jail_id jail_id) in
          let table_name := table_name_from_jail_id jail_id in
          mlift (apply_nft_rules (nft_rules table_name bridge_name host_ip_str jail_id
            (http_proxy_port (docker_config d)) (https_proxy_port (docker_config d)))) ⨾
          routing ⟵ mlift (managed_create (T := DockerRoutingTable) jail_id);
          mmodify (set_routing (Some routing))
      end
  end.

(** ** The [Jail] implementation *)

(** A step on the jail inside. *)
Definition on_inner (m : LinuxJail -> prog OsSig (Result unit Error * LinuxJail))
    : method OsSig DockerLinux unit :=
  fun d => '(r, j) ⇐ m (inner_jail d); Ret (set_inner j d, r).

Definition docker_setup_steps (proxy_port : Z) : method OsSig DockerLinux unit :=
  mlift cleanup_all_orphaned_docker_networks ⨾
  on_inner (fun j => setup j proxy_port) ⨾
  (d ⟵ mget;
   network ⟵ mlift (managed_create (T := DockerNetwork) (config_jail_id (docker_config d)));
   mmodify (set_network (Some network))) ⨾
  setup_docker_routing.

Definition docker_setup (d : DockerLinux) (proxy_port : Z) : prog OsSig (Result unit Error * DockerLinux) :=
  '(d', r) ⇐ docker_setup_steps proxy_port d;
  Ret (r, d').

Definition docker_execute (d : DockerLinux) (command : list string)
    (extra_env : list (string * string)) : prog OsSig (Result ExitStatus Error) :=
  c ⇐? build_docker_command d command extra_env;
  status ⇐ os (RunStatus c);
  Ret (Result.context "Failed to execute docker run command" status).

Definition docker_cleanup (d : DockerLinux) : prog OsSig (Result unit Error) :=
  cleanup (inner_jail d).

(** The handles are dropped, in reverse order, once the result is known. *)
Definition docker_cleanup_orphaned (jail_id : string) : prog OsSig (Result unit Error) :=
  let _docker_network := managed_for_existing (T := DockerNetwork) jail_id in
  let _docker_routing := managed_for_existing (T := DockerRoutingTable) jail_id in
  result ⇐ cleanup_orphaned (J := LinuxJail) jail_id;
  managed_drop _docker_routing ;;
  managed_drop _docker_network ;;
  Ret result.

(** The fields, in order of declaration. *)
Definition docker_drop (d : DockerLinux) : prog OsSig unit :=
  drop_jail (inner_jail d) ;;
  drop_option (docker_network d) ;;
  drop_option (docker_routing d).

#[export] Instance docker_jail : Jail DockerLinux := {|
  setup := docker_setup;
  execute := docker_execute;
  cleanup := docker_cleanup;
  jail_id d := Jail.jail_id (inner_jail d);
  cleanup_orphaned := docker_cleanup_orphaned;
  drop_jail := docker_drop;
|}.

End DockerLinux.

(** ** The command line *)

(** A word that is the option [--network], alone or with its value. *)
Definition network_option (word : string) : Prop :=
  word = "--network" \/ exists value, word = "--network=" +:+ value.

(** The words without [--network] and its value, in one word or in two. *)
Inductive network_removed : list string -> list string -> Prop :=
| RemovedNil : network_removed [] []
| RemovedLast : network_removed ["--network"] []
| RemovedTwo value l l' : network_removed l l' -> network_removed ("--network" :: value :: l) l'
| RemovedOne value l l' : network_removed l l' -> network_removed (("--network=" +:+ value) :: l) l'
| KeptWord w l l' : ~ network_option w -> network_removed l l' -> network_removed (w :: l) (w :: l').

Lemma filter_network_ind (P : list string -> Prop) :
  P [] -> P ["--network"] ->
  (forall v l, P l -> P ("--network" :: v :: l)) ->
  (forall a l, a <> "--network" -> P l -> P (a :: l)) ->
  forall l, P l.
Proof.
  intros H0 H1 H2 H3 l. remember (length l) as n eqn:Hn. assert (Hle : (length l <= n)%nat) by lia.
  clear Hn. revert l Hle. induction n as [|n IH]; intros [|a l] Hl; simpl in Hl; try done; [lia|].
  destruct (decide (a = "--network")) as [->|Ha]; [|apply H3; [done|]; apply IH; lia].
  destruct l as [|v l]; [done|]. apply H2, IH. simpl in Hl. lia.
Qed.

Lemma filter_network_removes l : network_removed l (filter_network_args l).
Proof.
  induction l as [| |v l IH|a l Ha IH] using filter_network_ind; [constructor|constructor|by constructor|].
  cbn [filter_network_args]. destruct (String.eqb a "--network") eqn:E; [by bools|].
  destruct (starts_with a "--network=") eqn:E2.
  - apply prefix_spec in E2 as [v ->]. by constructor.
  - constructor; [|done]. intros [?|[v ->]]; [done|]. unfold starts_with in E2.
    by rewrite prefix_append in E2.
Qed.

Lemma network_removed_none l l' : network_removed l l' -> Forall (fun w => ~ network_option w) l'.
Proof. induction 1; by try constructor. Qed.

Lemma network_removed_id l l' : network_removed l l' -> Forall (fun w => ~ network_option w) l -> l' = l.
Proof.
  induction 1 as [| |v l l' _ _|v l l' _ _|w l l' Hw _ IH]; intros Hl; try done.
  - apply Forall_cons in Hl as [Hn _]. destruct Hn. by left.
  - apply Forall_cons in Hl as [Hn _]. destruct Hn. by left.
  - apply Forall_cons in Hl as [Hn _]. destruct Hn. right. by exists v.
  - apply Forall_cons in Hl as [_ Hl]. by rewrite IH.
Qed.

Lemma find_image_from_lookup args : forall i skip k,
  find_image_from i skip args = Some k -> exists j x, k = (i + j)%nat /\ args !! j = Some x /\
    starts_with x "-" = false.
Proof.
  induction args as [|a l IH]; intros i skip k; simpl; [done|]. intros Hk.
  assert (Hrec : forall s, find_image_from (S i) s l = Some k ->
    exists j x, k = (i + j)%nat /\ (a :: l) !! j = Some x /\ starts_with x "-" = false).
  { intros s Hs. destruct (IH _ _ _ Hs) as (j & x & -> & Hj & Hx). exists (S j), x. by split; [lia|]. }
  destruct skip; [exact (Hrec _ Hk)|]. destruct (bool_decide _); [exact (Hrec _ Hk)|].
  destruct (starts_with a "-") eqn:Ea; cbn [negb] in Hk; [exact (Hrec _ Hk)|].
  exists 0%nat, a. injection Hk as <-. by split; [lia|].
Qed.

(** Splitting at the image and putting the pieces back changes nothing. *)
Lemma split_at_image (l : list string) (i : nat) (image : string) : l !! i = Some image ->
  take i l ++ [image] ++ (if (i + 1 <? length l)%nat then drop (i + 1) l else []) = l.
Proof.
  intros Hi. destruct (Nat.ltb_spec (i + 1) (length l)) as [Hl|Hl].
  - replace (i + 1)%nat with (S i) by lia. by apply take_drop_middle.
  - rewrite app_nil_r.
    rewrite <- (take_drop_middle l i image Hi) at 2. by rewrite (drop_ge l (S i)) by lia.
Qed.

(** The paths mounted for a certificate: it, and its directory if it exists. *)
Definition mounted_paths (cert : option string) (paths : list string) : Prop :=
  match cert with
  | None => paths = []
  | Some c => paths = [c] \/
              exists parent, path_parent c = Some parent /\ paths = [c; from_utf8_lossy parent]
  end.

Lemma ca_mounts_spec cert :
  wp (ca_mounts cert) (fun t mounts => omap ran t = [] /\
    exists paths, mounted_paths cert paths /\ mounts = flat_map read_only_mount paths).
Proof.
  destruct cert as [c|]; [|by split; [|exists []]]. simpl.
  destruct (path_parent c) as [parent|] eqn:Ep; simpl.
  - intros [|]; (split; [done|]).
    + exists [c; from_utf8_lossy parent]. split; [right; by exists parent|done].
    + exists [c]. split; [by left|]. done.
  - split; [done|]. exists [c]. split; [by left|]. done.
Qed.

(** ** What a Docker jail creates and removes *)

(** The Linux jail's four, then the routing table and the network. *)
Definition docker_removals (jail_id : string) : list Undo :=
  removals jail_id ++
  [UndoTable ("httpjail_docker_" +:+ jail_id); UndoNetwork ("httpjail_" +:+ jail_id)].

(** All that is the jail's. *)
Definition docker_resources (jail_id : string) : list Undo :=
  jail_resources jail_id ++
  [UndoTable ("httpjail_docker_" +:+ jail_id); UndoNetwork ("httpjail_" +:+ jail_id)].

Definition docker_accounted (jail_id : string) (e : event OsSig) : Prop :=
  forall u, creates e = Some u -> u ∈ docker_resources jail_id \/ u ∈ host_placeholder.

Lemma accounted_docker jid t : Forall (accounted jid) t -> Forall (docker_accounted jid) t.
Proof.
  intros Ht. apply (Forall_impl _ _ _ Ht). intros e [_ He] u [Hu|Hu]%He%elem_of_app; [left|by right].
  apply elem_of_app. by left.
Qed.

Lemma docker_resources_covered jid u : u ∈ docker_resources jid ->
  exists v, v ∈ docker_removals jid /\ covers v u = true.
Proof.
  unfold docker_resources, docker_removals. rewrite elem_of_app. intros [Hu|Hu].
  - destruct (jail_resources_covered jid u Hu) as (v & Hv & Hc). exists v.
    by split; [apply elem_of_app; left|].
  - exists u. split; [apply elem_of_app; by right|]. unfold covers. by rewrite bool_decide_eq_true_2.
Qed.

Lemma nft_rules_table name b h jid p q :
  contains_char " "%char name = false -> table_of (nft_rules name b h jid p q) = Some name.
Proof.
  intros Hn. unfold nft_rules. cbn [join]. rewrite !append_assoc. unfold table_of.
  rewrite (proj2 (strip_prefix_spec "table ip " _ _) eq_refl). by apply split_on_prefix.
Qed.

Section Accounting.
Context `{DefaultHasher} (jid : string) (Hjid : valid_id jid).

Definition docker_uses (d : DockerLinux) : Prop :=
  uses jid (inner_jail d) /\ config_jail_id (docker_config d) = jid.

Lemma docker_accounted_none e : creates e = None -> docker_accounted jid e.
Proof. intros He u. by rewrite He. Qed.

Lemma docker_accounted_own e u :
  creates e = Some u -> u ∈ docker_resources jid -> docker_accounted jid e.
Proof. intros He Hu v. rewrite He. intros [= <-]. by left. Qed.

(** Operations that make nothing. *)
Ltac docker_accounts := cbn; repeat first
  [assumption | apply docker_accounted_none; reflexivity | apply Forall_nil; exact I | apply Forall_cons; split].

Lemma get_canary_dir_accounted : wp get_canary_dir (fun t _ => Forall (docker_accounted jid) t).
Proof. simpl. intros [d|]; by docker_accounts. Qed.

Lemma orphans_accounted :
  wp cleanup_all_orphaned_docker_networks (fun t _ => Forall (docker_accounted jid) t).
Proof.
  simpl. intros [out|e]; simpl; [|by docker_accounts].
  destruct (success (status out)); simpl; [|by docker_accounts].
  intros dd. assert (forall cd l, wp (for_each l (orphan_network cd))
    (fun t _ => Forall (docker_accounted jid) t)) as Hl.
  { intros cd l. apply wp_Forall_for_each. intros n _. unfold orphan_network.
    destruct (jail_id_from_network_name n); [|constructor]. simpl.
    intros [|]; simpl; [by docker_accounts|]. intros [o|e]; by docker_accounts. }
  destruct dd; simpl; (eapply wp_mono; [|apply Hl]); intros t r Ht; by docker_accounts.
Qed.

Lemma inner_setup_accounted port :
  upholds (docker_accounted jid) docker_uses (on_inner (fun j => setup j port)).
Proof.
  intros d [Hu Hd]. unfold on_inner. wp_step. apply wp_bind.
  eapply wp_mono; [|by apply (linux_setup_accounted jid Hjid)].
  intros t [j r] [Ht Hj]. simpl in *. rewrite !app_nil_r. split; [by apply accounted_docker|done].
Qed.

Lemma setup_docker_routing_accounted : upholds (docker_accounted jid) docker_uses setup_docker_routing.
Proof.
  apply upholds_get. intros d [Hu Hd]. destruct (docker_network d) as [m|]; [|by intros s Hs; split].
  destruct (inner m) as [n|]; [|apply upholds_pure].
  apply upholds_bind; [apply upholds_lift|intros b; apply upholds_bind].
  - simpl. intros [out|e]; simpl; [|by docker_accounts].
    destruct (success (status out)); simpl; by docker_accounts.
  - rewrite Hd. apply upholds_lift. simpl. intros [[]|e]; simpl; [|by docker_accounts].
    set (rules := nft_rules _ _ _ _ _ _).
    assert (Hr : forall a, docker_accounted jid (@Ev OsSig (WriteStdin rules) a)).
    { intros a. eapply docker_accounted_own.
      - unfold creates. cbn [ev_op]. unfold rules. rewrite nft_rules_table; [reflexivity|].
        unfold table_name_from_jail_id. exact (valid_id_no_space jid Hjid).
      - unfold docker_resources. set_solver. }
    intros [[]|e]; simpl; [|by docker_accounts].
    intros [st|e]; simpl; [|by docker_accounts].
    destruct (success st); simpl; by docker_accounts.
  - intros []. apply upholds_bind; [apply upholds_lift; by constructor|].
    intros r. by apply upholds_modify.
Qed.

Lemma docker_setup_accounted port :
  upholds (docker_accounted jid) docker_uses (docker_setup_steps port).
Proof.
  apply upholds_bind; [apply upholds_lift, orphans_accounted|intros []].
  apply upholds_bind; [apply inner_setup_accounted|intros []].
  apply upholds_bind; [|intros []; apply setup_docker_routing_accounted].
  apply upholds_get. intros d [Hu Hd].
  apply upholds_bind; [apply upholds_lift|intros n; by apply upholds_modify].
  apply wp_Forall_try; [|intros n; by constructor]. rewrite Hd. simpl.
  assert (Hn : forall a, docker_accounted jid (@Ev OsSig (RunOutput (cmd "docker"
    ["network"; "create"; "--driver"; "bridge"; "--subnet"; compute_docker_subnet jid; "--opt";
     "com.docker.network.bridge.enable_ip_masquerade=false"; network_name_from_jail_id jid])) a)).
  { intros a. eapply docker_accounted_own; [reflexivity|]. unfold docker_resources. set_solver. }
  intros [out|e]; simpl; [|by docker_accounts].
  destruct (success (status out)); simpl; [by docker_accounts|].
  destruct (is_already_exists_error _); by docker_accounts.
Qed.

End Accounting.

Section Properties.
Context `{DefaultHasher}.


(** What a cleanup of the jail told to go, and what it leaves, when the system
    does as it is told, after a setup that created [t1]. *)
Definition docker_cleans_up (told left : list Undo) (t1 t2 : list (event OsSig)) (r : Result unit Error) : Prop :=
  r = Ok tt /\ omap undoes t2 = told /\ omap creates t2 = [] /\
  (obeys [] (t1 ++ t2) -> forall u, u ∈ standing [] (t1 ++ t2) -> u ∈ left).

(** The cleanup of a stale jail. *)
Lemma docker_orphaned_cleans_up jid t1 :
  (forall u, u ∈ omap creates t1 -> u ∈ docker_resources jid \/ u ∈ host_placeholder) ->
  wp (cleanup_orphaned (J := DockerLinux) jid)
    (docker_cleans_up (docker_removals jid) host_placeholder t1).
Proof.
  intros H1. cbn [cleanup_orphaned docker_jail]. unfold docker_cleanup_orphaned. wp_step.
  eapply wp_mono; [|apply wp_conj;
    [apply linux_cleanup_orphaned_removes|apply linux_cleanup_orphaned_tidy]].
  intros t r [[Hu ->] Hc%tidy_creates].
  assert (Hd : forall t2 (r2 : Result unit Error), r2 = Ok tt -> omap undoes t2 = docker_removals jid -> omap creates t2 = [] ->
    docker_cleans_up (docker_removals jid) host_placeholder t1 t2 r2).
  { intros t2 r2 -> Hu2 Hc2. do 3 (split; [done|]).
    apply (cleanup_leaves (docker_resources jid) (docker_removals jid) (fun u => u ∈ host_placeholder)); try done;
      [apply docker_resources_covered|by rewrite Hu2]. }
  simpl. intros [o1|e1]; simpl; intros [o2|e2]; simpl; apply Hd; try done;
    rewrite omap_app, ?Hu, ?Hc; done.
Qed.

(** C35: the resources of a Docker jail.  In every environment, all that its
    setup tries to create, every directory and file counted, is what a Linux
    jail creates, the routing table, the Docker network, or the placeholder of
    [systemd-resolved]'s name.  The cleanup of a stale jail creates nothing,
    tells all six resources to go, whatever fails on the way, and reports
    success; when the system removes what is there and it is told to, only the
    placeholder is left.  The cleanup of a live jail, at the end of a run or at a
    signal, tells the Linux jail's four only: the routing table and the network
    are left too, until the jail is dropped. *)
Theorem docker_jail_reclaims (c : JailConfig) (port : Z) (Hid : valid_id (config_jail_id c)) :
  let jid := config_jail_id c in
  wp (setup (docker_new c) port) (fun t1 '(_, d) =>
    (forall u, u ∈ omap creates t1 -> u ∈ docker_resources jid \/ u ∈ host_placeholder) /\
    wp (cleanup_orphaned (J := DockerLinux) jid)
      (docker_cleans_up (docker_removals jid) host_placeholder t1) /\
    wp (cleanup d) (docker_cleans_up (removals jid)
      (host_placeholder ++ [UndoTable ("httpjail_docker_" +:+ jid); UndoNetwork ("httpjail_" +:+ jid)]) t1)).
Proof.
  intros jid. apply wp_bind_2.
  assert (Hu : docker_uses jid (docker_new c)).
  { split; [|done]. cbn [inner_jail docker_new]. unfold uses. by destruct (linux_new_host_ip c) as [-> _]. }
  eapply wp_mono; [|exact (docker_setup_accounted jid Hid port _ Hu)].
  intros t1 [d r] [Ht [Hd _]]. cbn [fst snd] in Ht, Hd. apply wp_ret. rewrite app_nil_r.
  assert (Hc : forall u, u ∈ omap creates t1 -> u ∈ docker_resources jid \/ u ∈ host_placeholder).
  { intros u (e & He & Hue)%list_elem_of_omap. rewrite Forall_forall in Ht. by apply (Ht e). }
  split; [exact Hc|]. split; [by apply docker_orphaned_cleans_up|].
  cbn [cleanup docker_jail]. unfold docker_cleanup.
  assert (Hj : jail_name (inner_jail d) = jid) by exact Hd.
  eapply wp_mono; [|apply wp_conj; [exact (linux_cleanup_tells _ _ Hj)|apply linux_cleanup_tidy]].
  intros t2 r2 [[Hu2 ->] Hc2%tidy_creates]. do 3 (split; [done|]).
  apply (cleanup_leaves (jail_resources jid) (removals jid)); try done; [apply jail_resources_covered| |by rewrite Hu2].
  intros u Hin. destruct (Hc u Hin) as [[Hr|Hr]%elem_of_app|Hr]; [by left|right..]; apply elem_of_app; auto.
Qed.

(** The canaries a trace found missing. *)
Definition missing (e : event OsSig) : option string :=
  match e with {| ev_op := PathExists p; ev_ans := false |} => Some p | _ => None end.

Lemma orphan_network_spec cd n :
  wp (orphan_network cd n) (fun t _ =>
    (omap undoes t = [] /\ omap missing t = []) \/
    exists id, n = "httpjail_" +:+ id /\ omap undoes t = [UndoNetwork n] /\
               omap missing t = [path_join cd id]).
Proof.
  unfold orphan_network. destruct (jail_id_from_network_name n) as [id|] eqn:En; [|by left].
  apply strip_prefix_spec in En. simpl. intros [|]; simpl; [by left|].
  intros [o|e]; right; exists id; (split; [exact En|]); by split.
Qed.

(** The sweep of Docker networks before a setup removes, in order, exactly
    the httpjail networks it saw to be without a canary: other networks, and
    those of jails whose canary is there, are kept. *)
Theorem orphan_networks_have_no_canary :
  wp cleanup_all_orphaned_docker_networks (fun t _ => exists canary_dir ids,
    omap undoes t = (fun id => UndoNetwork ("httpjail_" +:+ id)) <$> ids /\
    omap missing t = path_join canary_dir <$> ids).
Proof.
  assert (Hl : forall cd l, wp (for_each l (orphan_network cd)) (fun t _ => exists ids,
    omap undoes t = (fun id => UndoNetwork ("httpjail_" +:+ id)) <$> ids /\
    omap missing t = path_join cd <$> ids)).
  { intros cd l. apply (wp_for_each l _ (fun _ t _ => exists ids,
      omap undoes t = (fun id => UndoNetwork ("httpjail_" +:+ id)) <$> ids /\
      omap missing t = path_join cd <$> ids)); [by exists []|].
    intros n l' _. eapply wp_mono; [|apply orphan_network_spec].
    intros t r Ht. assert (exists ids, omap undoes t = (fun id => UndoNetwork ("httpjail_" +:+ id)) <$> ids /\
      omap missing t = path_join cd <$> ids) as (ids & Hu & Hm).
    { destruct Ht as [[-> ->]|(id & -> & -> & ->)]; [by exists []|by exists [id]]. }
    destruct r as [[]|e]; [|by exists ids]. intros t' r' (ids' & Hu' & Hm').
    exists (ids ++ ids'). by rewrite !omap_app, Hu, Hm, Hu', Hm', !fmap_app. }
  simpl. intros [out|e]; simpl; [|by exists "", []].
  destruct (success (status out)); simpl; [|by exists "", []].
  intros [d|]; simpl; (eapply wp_mono; [|apply Hl]); intros t r (ids & Hu & Hm); by eexists _, ids.
Qed.

End Properties.

#[export] Instance docker_jail_laws `{DefaultHasher} : JailLaws DockerLinux.
Proof.
  refine {| reclaims := docker_removals |}.
  - intros id. cbn [cleanup_orphaned docker_jail]. unfold docker_cleanup_orphaned. wp_step.
    eapply wp_mono; [|apply wp_conj;
      [apply linux_cleanup_orphaned_quiet|apply linux_cleanup_orphaned_removes]].
    intros t r [Hq [Hu ->]]. simpl. intros [o1|e1]; simpl; intros [o2|e2]; simpl;
      (split; [apply Forall_app; split; [done|by repeat constructor]|]); intros _; by rewrite omap_app, Hu.
  - intros d. apply (cleanup_quiet (inner_jail d)).
Defined.

(** ** Examples *)

Lemma docker_jail_reclaims_witness :
  wp (setup (docker_new example_config) 8040) (fun t1 '(_, d) =>
    (forall u, u ∈ omap creates t1 -> u ∈ docker_resources "abcd1234" \/ u ∈ host_placeholder) /\
    wp (cleanup_orphaned (J := DockerLinux) "abcd1234")
      (docker_cleans_up (docker_removals "abcd1234") host_placeholder t1) /\
    wp (cleanup d) (docker_cleans_up (removals "abcd1234")
      (host_placeholder ++ [UndoTable "httpjail_docker_abcd1234"; UndoNetwork "httpjail_abcd1234"]) t1)).
Proof. exact (docker_jail_reclaims example_config 8040 eq_refl). Defined.

(** The words after the image, which are the container's, are filtered too, and
    the short form of the option is not. *)
Example container_words_are_filtered :
  filter_network_args ["--rm"; "alpine"; "tool"; "--network"; "x"; "y"] = ["--rm"; "alpine"; "tool"; "y"].
Proof. reflexivity. Qed.

Example short_network_option_passes :
  filter_network_args ["--net"; "host"; "alpine"] = ["--net"; "host"; "alpine"].
Proof. reflexivity. Qed.

(** Every hash that is 0 or 1 modulo 256 gives the same subnet. *)
Example docker_subnets_collide :
  compute_docker_subnet (H := {| hash_str _ := 0 |}) "a" =
  compute_docker_subnet (H := {| hash_str _ := 1 |}) "b".
Proof. by vm_compute. Qed.

(** The resources do not remember that they were cleaned up. *)
Example docker_cleanup_repeats : ~ SystemResourceLaws DockerRoutingTable.
Proof.
  intros [Hl]. specialize (Hl (routing_table "a")
    (Ok {| status := {| code := Some 0 |}; stdout := ""; stderr := "" |}) eq_refl). by simpl in Hl.
Qed.
