(* ===== verification/WeakJail.v ===== *)
(** * The weak jail ([src/jail/weak.rs])

    No isolation: the child is pointed at the proxy by environment variables. *)

From S2P Require Import Prelude Effects Paths Process Os Jail.

Record WeakJail : Type := { weak_config : JailConfig }.

Definition weak_new (config : JailConfig) : WeakJail := {| weak_config := config |}.

(** [std::env::var(a).or_else(|_| std::env::var(b))]. *)
Definition env_var_or (a b : string) : prog OsSig (option string) :=
  x ⇐ os (EnvVar a);
  match x with Some v => Ret (Some v) | None => os (EnvVar b) end.

Definition proxy_url (port : Z) : string := "http://127.0.0.1:" +:+ dec port.

Definition LOCAL_HOSTS : string := "localhost,127.0.0.1,::1".

Definition no_proxy_hosts (existing : option string) : string :=
  match existing with
  | Some existing => if negb (is_empty existing) then existing +:+ "," +:+ LOCAL_HOSTS else LOCAL_HOSTS
  | None => LOCAL_HOSTS
  end.

(** The variables the jail sets, in order. *)
Definition proxy_envs (config : JailConfig) (existing : option string) : list (string * string) :=
  let http_proxy := proxy_url (http_proxy_port config) in
  let https_proxy := proxy_url (https_proxy_port config) in
  [("HTTP_PROXY", http_proxy); ("HTTPS_PROXY", https_proxy);
   ("http_proxy", http_proxy); ("https_proxy", https_proxy);
   ("NO_PROXY", no_proxy_hosts existing); ("no_proxy", no_proxy_hosts existing)].

Definition weak_execute (j : WeakJail) (command : list string) (extra_env : list (string * string))
    : prog OsSig (Result ExitStatus Error) :=
  match command with
  | [] => Ret (Err (Msg "No command specified"))
  | p :: words =>
      let c := Command.add_args (Command.new p) words in
      existing ⇐ env_var_or "NO_PROXY" "no_proxy";
      let c := Command.add_envs c (proxy_envs (weak_config j) existing) in
      let c := Command.add_envs c extra_env in
      status ⇐ os (RunStatus c);
      Ret (Result.map_err (fun e => Msg ("Failed to execute command: " +:+ error_to_string e)) status)
  end.

#[export] Instance weak_jail : Jail WeakJail := {|
  setup j _ := Ret (Ok tt, j);
  execute := weak_execute;
  cleanup _ := Ret (Ok tt);
  jail_id j := config_jail_id (weak_config j);
  cleanup_orphaned _ := Ret (Ok tt);
  drop_jail _ := Ret tt;
|}.

#[export] Instance weak_jail_laws : JailLaws WeakJail.
Proof.
  refine {| reclaims _ := [] |}; [intros id; by split; [constructor|]|by constructor].
Defined.

(** ** What the child sees *)

(** The last value given to a variable. *)
Definition last_value (l : list (string * string)) (k : string) : option string :=
  foldl (fun acc '(k', v) => if String.eqb k' k then Some v else acc) None l.

Lemma foldl_last_value l k acc :
  foldl (fun acc '(k', v) => if String.eqb k' k then Some v else acc) acc l =
  match last_value l k with Some v => Some v | None => acc end.
Proof.
  unfold last_value. revert acc. induction l as [|[k' v] l IH]; intros acc; simpl; [done|].
  destruct (String.eqb k' k); [|apply IH]. rewrite !(IH (Some v)).
  by destruct (foldl _ None l).
Qed.

(** The proxy variables, by name. *)
Definition proxy_value (config : JailConfig) (existing : option string) (k : string) : option string :=
  if bool_decide (k ∈ ["HTTP_PROXY"; "http_proxy"]) then Some (proxy_url (http_proxy_port config))
  else if bool_decide (k ∈ ["HTTPS_PROXY"; "https_proxy"])
  then Some (proxy_url (https_proxy_port config))
  else if bool_decide (k ∈ ["NO_PROXY"; "no_proxy"]) then Some (no_proxy_hosts existing)
  else None.

Lemma proxy_envs_value config existing k :
  last_value (proxy_envs config existing) k = proxy_value config existing k.
Proof.
  unfold last_value, proxy_value, proxy_envs. cbn [foldl].
  repeat match goal with |- context [String.eqb ?a k] => destruct (String.eqb_spec a k); [by subst|] end.
  repeat (rewrite bool_decide_false by set_solver). done.
Qed.

(** What [NO_PROXY], or else [no_proxy], holds according to the trace. *)
Fixpoint inherited (names : list string) (t : list (event OsSig)) : option string :=
  match names, t with
  | n :: names', {| ev_op := EnvVar n'; ev_ans := a |} :: t' =>
      if String.eqb n n' then match a with Some v => Some v | None => inherited names' t' end else None
  | _, _ => None
  end.

(** The weak jail runs exactly the command it was given, once, and nothing
    for an empty one; the child sees both spellings of the proxy variables
    point at the proxy's ports on the loopback, and both spellings of the
    exclusion list hold the loopback names after what the parent's list had;
    a variable the caller asks for overrides these, and no other variable is
    set. *)
Theorem weak_child_uses_proxy (j : WeakJail) (command : list string)
    (extra_env : list (string * string)) :
  wp (execute j command extra_env) (fun t r =>
    match command with
    | [] => t = [] /\ Result.is_err r = true
    | p :: words => exists c, omap ran t = [c] /\ program c = p /\ args c = words /\
        forall k, Command.env_value c k =
          match last_value extra_env k with
          | Some v => Some v
          | None => proxy_value (weak_config j) (inherited ["NO_PROXY"; "no_proxy"] t) k
          end
    end).
Proof.
  destruct command as [|p words]; [done|]. cbn [execute weak_jail]. unfold weak_execute.
  assert (Hc : forall existing k, Command.env_value (Command.add_envs (Command.add_envs
      (Command.add_args (Command.new p) words) (proxy_envs (weak_config j) existing)) extra_env) k =
    match last_value extra_env k with Some v => Some v | None => proxy_value (weak_config j) existing k end).
  { intros existing k. unfold Command.env_value, Command.add_envs, Command.add_args, Command.new.
    cbn [envs]. rewrite app_nil_l, foldl_app, foldl_last_value, foldl_last_value, proxy_envs_value.
    destruct (last_value extra_env k); [done|]. by destruct (proxy_value _ _ _). }
  wp_step. unfold env_var_or, os, perform. cbn [bind wp]. intros [v|]; cbn [bind wp].
  - intros s. eexists. split; [reflexivity|]. split; [done|]. split; [done|]. apply Hc.
  - intros v s. eexists. split; [reflexivity|]. split; [done|]. split; [done|].
    intros k. simpl. rewrite Hc. by destruct v.
Qed.
