(* ===== verification/Keychain.v ===== *)
(** * The keychain of macOS ([src/macos_keychain.rs])

    Trusting the CA, and taking the trust back, with the [security] and
    [openssl] tools.  The trees are over the tools' runs, the files looked at
    and the lines printed; on other systems the operations are constants. *)

From S2P Require Import Prelude Effects Paths Process Os.
From Stdlib Require Import Ascii.

Definition CA_NAME : string := "httpjail CA".

Inductive keychain_op : Type :=
| KcRun (c : Command)                        (** [output] *)
| KcConfigDir                                (** [dirs::config_dir] *)
| KcExists (path : string)
| KcRead (path : string)                     (** [fs::read_to_string] *)
| KcSpawn (c : Command)
| KcWriteStdin (data : string)
| KcWaitOutput
| KcPrint (line : string).

Definition KcSig : Sig :=
  {| op := keychain_op;
     ans o := match o with
              | KcRun _ | KcWaitOutput => Result Output Error
              | KcConfigDir => option string
              | KcExists _ => bool
              | KcRead _ => Result string Error
              | KcSpawn _ | KcWriteStdin _ => Result unit Error
              | KcPrint _ => unit
              end |}.

Definition kc (o : op KcSig) : prog KcSig (ans KcSig o) := perform o.
Definition println (line : string) : prog KcSig unit := kc (KcPrint line).

Definition security (l : list string) : Command := cmd "security" l.

Definition run_context (c : string) (command : Command) : prog KcSig (Result Output Error) :=
  r ⇐ kc (KcRun command); Ret (Result.context c r).

(** ** The keychain's path *)

(** [trim_matches] of one character. *)
Fixpoint trim_start_char (c : ascii) (s : string) : string :=
  match s with
  | String a s' => if Ascii.eqb a c then trim_start_char c s' else s
  | EmptyString => EmptyString
  end.

Definition trim_matches (c : ascii) (s : string) : string :=
  String.rev (trim_start_char c (String.rev (trim_start_char c s))).

Definition get_user_keychain : prog KcSig (Result string Error) :=
  output ⇐? run_context "Failed to get default keychain" (security ["default-keychain"; "-d"; "user"]);
  if negb (success (status output)) then Ret (Err (Msg "Failed to determine default keychain"))
  else
    let keychain_path := trim_matches (ascii_of_nat 34) (trim (from_utf8_lossy (stdout output))) in
    Ret (if is_empty keychain_path then Err (Msg "Could not determine user keychain path")
         else Ok keychain_path).

(** [security] on the user's keychain, whose path is its last argument. *)
Definition on_keychain (c : string) (l : list string) : prog KcSig (Result Output Error) :=
  keychain ⇐? get_user_keychain;
  run_context c (security (l ++ [keychain])).

(** ** What the tools print *)

(** The hash a line of [security] names: what follows its last colon. *)
Definition hash_of_line (line : string) : option string :=
  if contains line "SHA-256 hash:" || contains line "SHA-1 hash:"
  then trim <$> last (split_on ":"%char line) else None.

(** The text around the first occurrence of [p]. *)
Fixpoint split_once (p s : string) : option (string * string) :=
  match strip_prefix p s, s with
  | Some rest, _ => Some ("", rest)
  | None, EmptyString => None
  | None, String a s' => '(before, after) ← split_once p s'; Some (String a before, after)
  end.

(** The second piece of a split at [p]. *)
Definition second_piece (p s : string) : option string :=
  '(_, rest) ← split_once p s;
  Some (match split_once p rest with Some (piece, _) => piece | None => rest end).

Fixpoint without_char (c : ascii) (s : string) : string :=
  match s with
  | String a s' => if Ascii.eqb a c then without_char c s' else String a (without_char c s')
  | EmptyString => EmptyString
  end.

(** What a line of [openssl x509] adds to the description. *)
Definition info_part (line : string) : option string :=
  if starts_with line "subject=" then
    cn ← second_piece "CN=" line;
    cn_value ← head (split_on "," cn);
    Some ("CN=" +:+ trim cn_value)
  else if starts_with line "notAfter=" then
    Some ("expires " +:+ default "" (strip_prefix "notAfter=" line))
  else if starts_with line "SHA256 Fingerprint=" then
    fp ← second_piece "=" line;
    Some ("SHA256:" +:+ chars_take 16 (without_char ":" fp))
  else None.

Definition cert_info_of (info_str : string) : string :=
  match omap info_part (lines info_str) with
  | [] => "certificate"
  | info_parts => join ", " info_parts
  end.

Definition openssl : Command :=
  Command.with_stdio
    (cmd "openssl" ["x509"; "-noout"; "-subject"; "-issuer"; "-dates"; "-fingerprint"; "-sha256"])
    Piped Piped Piped.

Definition get_cert_info (cert_pem : string) : prog KcSig (Result string Error) :=
  _ ⇐? (r ⇐ kc (KcSpawn openssl); Ret (Result.context "Failed to spawn openssl" r));
  _ ⇐? (r ⇐ kc (KcWriteStdin cert_pem); Ret (Result.context "Failed to write to openssl" r));
  output ⇐? (r ⇐ kc KcWaitOutput; Ret (Result.context "Failed to read openssl output" r));
  if negb (success (status output)) then Ret (Ok "unknown certificate")
  else Ret (Ok (cert_info_of (from_utf8_lossy (stdout output)))).

(** ** The operations *)

(** [None] is a panic, of a path that is not UTF-8. *)
Definition is_ca_trusted : prog KcSig (option (Result bool Error)) :=
  found ⇐ on_keychain "Failed to check for CA certificate" ["find-certificate"; "-c"; CA_NAME; "-p"];
  match found with
  | Err e => Ret (Some (Err e))
  | Ok find_output =>
      if negb (success (status find_output)) then Ret (Some (Ok false))
      else
        dir ⇐ kc KcConfigDir;
        match dir with
        | None => Ret (Some (Err (Msg "Could not find user config directory")))
        | Some dir =>
            let ca_cert_path := path_join (path_join dir "httpjail") "ca-cert.pem" in
            exists_ ⇐ kc (KcExists ca_cert_path);
            if negb exists_ then Ret (Some (Ok false))
            else match from_utf8 ca_cert_path with
                 | None => Ret None
                 | Some ca_cert_path =>
                     verified ⇐ run_context "Failed to verify certificate trust"
                       (security ["verify-cert"; "-c"; ca_cert_path; "-p"; "ssl"]);
                     Ret (Some (Result.map (fun verify_output => success (status verify_output)) verified))
                 end
        end
  end.

Fixpoint delete_hashes (hashes : list string) : prog KcSig (Result unit Error) :=
  match hashes with
  | [] => Ret (Ok tt)
  | hash :: rest =>
      keychain ⇐? get_user_keychain;
      _ ⇐ kc (KcRun (security ["delete-certificate"; "-Z"; hash; keychain]));
      delete_hashes rest                     (* a failure is dropped *)
  end.

Definition cleanup_old_certificates : prog KcSig (Result unit Error) :=
  sha1_output ⇐? on_keychain "Failed to find existing certificates"
                   ["find-certificate"; "-a"; "-c"; CA_NAME; "-Z"];
  if negb (success (status sha1_output)) then Ret (Ok tt)
  else delete_hashes (omap hash_of_line (lines (from_utf8_lossy (stdout sha1_output)))).

Definition install_error (stderr : string) : Error :=
  Msg (if contains stderr "User canceled" then "Installation canceled by user"
       else if contains stderr "authorization" || contains stderr "MDM"
       then "Installation blocked by system policy or MDM restrictions"
       else "Failed to install certificate: " +:+ stderr).

(** What is printed before the installation. *)
Definition security_notice : list string :=
  [LF +:+ "⚠️  Security Notice:";
   "You are about to install the " +:+ CA_NAME +:+ " certificate to your user keychain.";
   "This allows httpjail to inspect HTTPS traffic for allowed domains.";
   "The certificate will only be trusted for SSL connections.";
   LF +:+ "You may be prompted for your password to authorize this change.";
   "To uninstall later, run: httpjail trust --remove" +:+ LF].

Fixpoint print_all (l : list string) : prog KcSig unit :=
  match l with
  | [] => Ret tt
  | line :: l' => println line ;; print_all l'
  end.

Definition install_ca (cert_path : string) : prog KcSig (Result unit Error) :=
  find_output ⇐? on_keychain "Failed to check for existing certificates"
                   ["find-certificate"; "-c"; CA_NAME];
  (if success (status find_output) then
     print_all ["⚠️  Warning: Existing " +:+ CA_NAME +:+ " certificate(s) found in keychain";
                "   These will be removed and replaced with the new certificate."]
   else Ret tt) ;;
  _ ⇐? cleanup_old_certificates;
  print_all security_notice ;;
  keychain ⇐? get_user_keychain;
  output ⇐? run_context "Failed to add certificate to keychain"
              (security ["add-trusted-cert"; "-d"; "-r"; "trustRoot"; "-p"; "ssl"; "-k"; keychain;
                         cert_path]);
  if negb (success (status output)) then Ret (Err (install_error (from_utf8_lossy (stderr output))))
  else
    cert_content ⇐ kc (KcRead cert_path);
    match cert_content with
    | Err _ => Ret (Ok tt)
    | Ok cert_content =>
        info ⇐ get_cert_info cert_content;
        match info with
        | Err _ => Ret (Ok tt)
        | Ok info => println ("✓ Installed certificate: " +:+ info) ;; Ret (Ok tt)
        end
    end.

(** The loop over the listing: the certificates removed so far, their
    descriptions, and the PEM text being read. *)
Record Listing : Type := {
  removed_count : nat;
  cert_info : list string;
  current_cert_pem : string;
  in_cert : bool;
}.

Definition listing_start : Listing :=
  {| removed_count := 0; cert_info := []; current_cert_pem := ""; in_cert := false |}.

Definition set_pem (pem : string) (b : bool) (s : Listing) : Listing :=
  {| removed_count := removed_count s; cert_info := cert_info s; current_cert_pem := pem; in_cert := b |}.
Definition push_info (info : string) (s : Listing) : Listing :=
  {| removed_count := removed_count s; cert_info := cert_info s ++ [info];
     current_cert_pem := current_cert_pem s; in_cert := in_cert s |}.
Definition set_removed (n : nat) (s : Listing) : Listing :=
  {| removed_count := n; cert_info := cert_info s; current_cert_pem := current_cert_pem s;
     in_cert := in_cert s |}.

Definition remove_hash (s : Listing) (hash : string) : prog KcSig (Result Listing Error) :=
  delete_output ⇐? on_keychain "Failed to delete certificate" ["delete-certificate"; "-Z"; hash];
  if success (status delete_output) then
    let n := S (removed_count s) in
    println (match cert_info s !! (n - 1)%nat with
             | Some info => "✓ Removed certificate: " +:+ info
             | None => "✓ Removed certificate with hash: " +:+ hash
             end) ;;
    Ret (Ok (set_removed n s))
  else Ret (Ok s).

Definition uninstall_line (s : Listing) (line : string) : prog KcSig (Result Listing Error) :=
  if String.eqb line "-----BEGIN CERTIFICATE-----" then Ret (Ok (set_pem (line +:+ LF) true s))
  else if String.eqb line "-----END CERTIFICATE-----" then
    let s := set_pem (current_cert_pem s +:+ line) false s in
    info ⇐ get_cert_info (current_cert_pem s);
    Ret (Ok (match info with Ok info => push_info info s | Err _ => s end))
  else if in_cert s then Ret (Ok (set_pem (current_cert_pem s +:+ line +:+ LF) true s))
  else match hash_of_line line with
       | Some hash => remove_hash s hash
       | None => Ret (Ok s)
       end.

Definition uninstall_ca : prog KcSig (Result unit Error) :=
  find_output ⇐? on_keychain "Failed to find certificates"
                   ["find-certificate"; "-a"; "-c"; CA_NAME; "-p"; "-Z"];
  if negb (success (status find_output)) || is_empty (stdout find_output) then
    println ("No " +:+ CA_NAME +:+ " certificates found in keychain") ;; Ret (Ok tt)
  else
    let output_str := from_utf8_lossy (stdout find_output) in
    s ⇐? fold_each (lines output_str) listing_start uninstall_line;
    println (if (0 <? removed_count s)%nat
             then "Successfully removed " +:+ dec (Z.of_nat (removed_count s)) +:+ " " +:+ CA_NAME +:+
                  " certificate(s) from keychain"
             else "No " +:+ CA_NAME +:+
                  " certificates were removed (may have already been removed)") ;;
    Ret (Ok tt).

Definition check_keychain_unlocked : prog KcSig (Result bool Error) :=
  output ⇐? on_keychain "Failed to check keychain status" ["show-keychain-info"];
  Ret (Ok (success (status output))).

(** ** On other systems *)

Module Other.

Definition is_ca_trusted : Result bool Error := Ok false.
Definition install_ca (_cert_path : string) : Result unit Error :=
  Err (Msg "Keychain integration is only available on macOS").
Definition uninstall_ca : Result unit Error :=
  Err (Msg "Keychain integration is only available on macOS").
Definition check_keychain_unlocked : Result bool Error := Ok false.

End Other.

(** ** What changes in the keychain *)

Definition kc_args (e : event KcSig) : list string :=
  match ev_op e with KcRun c => args c | _ => [] end.

Definition kc_stdout (e : event KcSig) : option string :=
  match e with
  | {| ev_op := KcRun _; ev_ans := Ok out |} =>
      if success (status out) then Some (from_utf8_lossy (stdout out)) else None
  | _ => None
  end.

(** The hash a run deletes, and the words of a run that adds. *)
Definition deleted (e : event KcSig) : option string :=
  match kc_args e with
  | [a; b; hash; _] => if String.eqb a "delete-certificate" && String.eqb b "-Z" then Some hash else None
  | _ => None
  end.

Definition added (e : event KcSig) : option (list string) :=
  match kc_args e with
  | a :: rest => if String.eqb a "add-trusted-cert" then Some rest else None
  | [] => None
  end.

(** The listing of all certificates of the CA's name, when one was given. *)
Definition listed (e : event KcSig) : option string :=
  match kc_args e with
  | "find-certificate" :: "-a" :: "-c" :: "httpjail CA" :: _ => kc_stdout e
  | _ => None
  end.

(** The hashes of a listing that are not inside a certificate's text. *)
Fixpoint hashes_outside (b : bool) (l : list string) : list string :=
  match l with
  | [] => []
  | line :: l' =>
      if String.eqb line "-----BEGIN CERTIFICATE-----" then hashes_outside true l'
      else if String.eqb line "-----END CERTIFICATE-----" then hashes_outside false l'
      else if b then hashes_outside b l'
      else match hash_of_line line with
           | Some hash => hash :: hashes_outside b l'
           | None => hashes_outside b l'
           end
  end.

Definition neutral (e : event KcSig) : Prop := deleted e = None /\ added e = None /\ listed e = None.

Definition nothing (t : list (event KcSig)) : Prop :=
  omap deleted t = [] /\ omap added t = [] /\ omap listed t = [].

Lemma neutral_nothing t : Forall neutral t -> nothing t.
Proof.
  induction 1 as [|e t (Hd & Ha & Hl) Ht (IHd & IHa & IHl)]; [done|]. unfold nothing. csimpl.
  by rewrite Hd, Ha, Hl.
Qed.

Lemma nothing_app t t' : nothing t -> nothing t' -> nothing (t ++ t').
Proof.
  intros (Hd & Ha & Hl) (Hd' & Ha' & Hl'). unfold nothing. by rewrite !omap_app, Hd, Ha, Hl, Hd', Ha', Hl'.
Qed.

Lemma keychain_neutral : wp get_user_keychain (fun t _ => nothing t).
Proof.
  unfold get_user_keychain, run_context. apply wp_try. unfold kc, perform. cbn [bind wp].
  intros [out|e]; cbn [Result.context Result.map_err]; [|by repeat split].
  by destruct (negb (success (status out))); repeat split.
Qed.

Lemma info_neutral pem : wp (get_cert_info pem) (fun t _ => nothing t).
Proof.
  unfold get_cert_info, kc, perform, try. cbn [bind wp]. intros [[]|]; cbn; [|by repeat split].
  intros [[]|]; cbn; [|by repeat split]. intros [out|]; cbn; [|by repeat split].
  by destruct (negb (success (status out))); repeat split.
Qed.

Lemma print_neutral l : wp (print_all l) (fun t _ => nothing t).
Proof.
  induction l as [|line l IH]; [done|]. cbn. intros []. eapply wp_mono; [|exact IH].
  intros t [] Ht. by apply (nothing_app [_]).
Qed.

(** One run on the keychain. *)
Lemma on_keychain_spec c l (Q : list (event KcSig) -> Result Output Error -> Prop) :
  (forall t e, nothing t -> Q t (Err e)) ->
  (forall t k r, nothing t -> Q (t ++ [@Ev KcSig (KcRun (security (l ++ [k]))) r]) (Result.context c r)) ->
  wp (on_keychain c l) Q.
Proof.
  intros He Ho. unfold on_keychain. apply wp_try. eapply wp_mono; [|apply keychain_neutral].
  intros t [k|e] Ht; [|by apply He]. unfold run_context, kc, perform. cbn [bind wp]. intros r. by apply Ho.
Qed.

(** Deletions and nothing else, of the hashes in their order; all of them when
    there was no error. *)
Definition deletes (hashes : list string) (ok : bool) (t : list (event KcSig)) : Prop :=
  omap deleted t `prefix_of` hashes /\ (ok = true -> omap deleted t = hashes) /\
  omap added t = [] /\ omap listed t = [].

Lemma deletes_nothing ok t : nothing t -> deletes [] ok t.
Proof. intros (Hd & Ha & Hl). unfold deletes. by rewrite Hd. Qed.

Lemma deletes_failed hashes t : nothing t -> deletes hashes false t.
Proof. intros (Hd & Ha & Hl). unfold deletes. rewrite Hd. split; [apply prefix_nil|done]. Qed.

Lemma deletes_skip hashes ok t t' : nothing t -> deletes hashes ok t' -> deletes hashes ok (t ++ t').
Proof.
  intros (Hd & Ha & Hl) (Hd' & Ho & Ha' & Hl'). unfold deletes. by rewrite !omap_app, Hd, Ha, Hl.
Qed.

Lemma deletes_cons hash hashes ok t k r t' : nothing t -> deletes hashes ok t' ->
  deletes (hash :: hashes) ok (t ++ @Ev KcSig (KcRun (security ["delete-certificate"; "-Z"; hash; k])) r :: t').
Proof.
  intros Ht (Hd' & Ho & Ha' & Hl'). apply deletes_skip; [done|]. unfold deletes. csimpl.
  split; [by apply prefix_cons|]. split; [|done]. intros H. by rewrite Ho.
Qed.

Lemma delete_hashes_spec hashes : wp (delete_hashes hashes) (fun t r => deletes hashes (Result.is_ok r) t).
Proof.
  induction hashes as [|hash hashes IH]; [by apply deletes_nothing|]. cbn [delete_hashes]. apply wp_try.
  eapply wp_mono; [|apply keychain_neutral]. intros t [k|e] Ht; [|by apply deletes_failed].
  unfold kc, perform. cbn [bind wp]. intros r. eapply wp_mono; [|exact IH]. intros t' r' Ht'.
  by apply deletes_cons.
Qed.

(** One listing, whose hashes are deleted. *)
Definition lists_and_deletes (hashes_of : string -> list string) (ok : bool) (t : list (event KcSig)) : Prop :=
  exists t0 t1 hashes, t = t0 ++ t1 /\ omap deleted t0 = [] /\ omap added t0 = [] /\
    hashes = flat_map hashes_of (omap listed t0) /\ deletes hashes ok t1.

Lemma lists_nothing f ok t : nothing t -> lists_and_deletes f ok t.
Proof.
  intros (Hd & Ha & Hl). exists t, [], []. rewrite app_nil_r, Hl. do 4 (split; [done|]).
  by apply deletes_nothing.
Qed.

Lemma omap_single {A B} (f : A -> option B) a : omap f [a] = match f a with Some b => [b] | None => [] end.
Proof. csimpl. by destruct (f a). Qed.

(** The listing and what follows from its answer. *)
Lemma lists_spec {A} c flags (f : string -> list string) (rest : Output -> prog KcSig (Result A Error)) :
  (forall k r, listed (@Ev KcSig (KcRun (security (("find-certificate" :: "-a" :: "-c" :: CA_NAME :: flags)
     ++ [k]))) r) = kc_stdout (@Ev KcSig (KcRun (security [])) r)) ->
  (forall k r, nothing [@Ev KcSig (KcRun (security (("find-certificate" :: "-a" :: "-c" :: CA_NAME :: flags)
     ++ [k]))) (Err r)]) ->
  (forall k r, deleted (@Ev KcSig (KcRun (security (("find-certificate" :: "-a" :: "-c" :: CA_NAME :: flags)
     ++ [k]))) r) = None) ->
  (forall k r, added (@Ev KcSig (KcRun (security (("find-certificate" :: "-a" :: "-c" :: CA_NAME :: flags)
     ++ [k]))) r) = None) ->
  (forall out, if success (status out)
     then wp (rest out) (fun t r => deletes (f (from_utf8_lossy (stdout out))) (Result.is_ok r) t)
     else wp (rest out) (fun t r => nothing t)) ->
  wp (out ⇐? on_keychain c ("find-certificate" :: "-a" :: "-c" :: CA_NAME :: flags); rest out)
    (fun t r => lists_and_deletes f (Result.is_ok r) t).
Proof.
  intros Hl He Hd Hadd Hr. apply wp_try, on_keychain_spec; [intros t e Ht; by apply lists_nothing|].
  intros t k [out|e] Ht; cbn [Result.context Result.map_err]; [|by apply lists_nothing, nothing_app].
  specialize (Hr out). specialize (Hl k (Ok out)). specialize (Hd k (Ok out)). specialize (Hadd k (Ok out)).
  cbn [kc_stdout] in Hl. destruct (success (status out)) eqn:Es.
  - eapply wp_mono; [|exact Hr]. intros t' r Ht'. destruct Ht as (Htd & Hta & Htl).
    eexists _, t', _. split; [done|]. rewrite !omap_app, Htd, Hta, Htl, !omap_single, Hd, Hadd, Hl.
    do 3 (split; [done|]). cbn. by rewrite app_nil_r.
  - eapply wp_mono; [|exact Hr]. intros t' r Ht'. apply lists_nothing, nothing_app; [|done].
    apply nothing_app; [done|]. unfold nothing. by rewrite !omap_single, Hd, Hadd, Hl.
Qed.

Lemma cleanup_spec : wp cleanup_old_certificates (fun t r =>
  lists_and_deletes (fun out => omap hash_of_line (lines out)) (Result.is_ok r) t).
Proof.
  apply lists_spec; [by intros k [out|e]|done..|]. intros out.
  destruct (success (status out)) eqn:Es; [apply delete_hashes_spec|by repeat split].
Qed.

Lemma remove_hash_spec s hash hashes (k : Listing -> prog KcSig (Result Listing Error))  :
  (forall s', in_cert s' = in_cert s -> wp (k s') (fun t r => deletes hashes (Result.is_ok r) t)) ->
  wp (s' ⇐? remove_hash s hash; k s') (fun t r => deletes (hash :: hashes) (Result.is_ok r) t).
Proof.
  intros Hk. apply wp_try. unfold remove_hash. apply wp_try, on_keychain_spec.
  - intros t e Ht. by apply deletes_failed.
  - intros t kc [out|e] Ht; cbn [Result.context Result.map_err].
    + destruct (success (status out)); [unfold println, Keychain.kc, perform; cbn [bind wp]; intros []|];
        cbn [wp]; (eapply wp_mono; [|by apply Hk]); intros t' r Ht'; rewrite <- !app_assoc;
        by apply deletes_cons.
    + destruct (deletes_cons hash [] false t kc (Err e) []) as (Hp & _ & Ha & Hl); [done|by apply deletes_nothing|].
      split; [|done]. etrans; [exact Hp|]. by exists hashes.
Qed.

Lemma uninstall_loop_spec l b s : in_cert s = b -> wp (fold_each l s uninstall_line) (fun t r =>
  deletes (hashes_outside b l) (Result.is_ok r) t).
Proof.
  revert b s. induction l as [|line l IH]; intros b s Hb; [by apply deletes_nothing|].
  cbn [fold_each hashes_outside]. unfold uninstall_line at 1.
  destruct (String.eqb _ _); [by apply (IH true (set_pem _ true s))|].
  destruct (String.eqb _ _).
  - cbn zeta. wp_step. wp_step. eapply wp_mono; [|apply info_neutral]. intros t info Ht. apply wp_ret.
    assert (Hs : forall s', in_cert s' = false -> wp (fold_each l s' uninstall_line) (fun t' r =>
      deletes (hashes_outside false l) (Result.is_ok r) ((t ++ []) ++ t'))).
    { intros s' E. eapply wp_mono; [|by apply (IH false)]. intros t' r Ht'. rewrite app_nil_r.
      by apply deletes_skip. }
    destruct info as [info|e]; by apply Hs.
  - rewrite Hb. destruct b; [by apply (IH true (set_pem _ true s))|].
    destruct (hash_of_line line) as [hash|]; [|by apply (IH false)].
    apply remove_hash_spec. intros s' E. apply IH. by rewrite E.
Qed.

(** What an installation adds. *)
Definition installs (cert_path : string) (t : list (event KcSig)) (r : Result unit Error) : Prop :=
  exists t1 t2 ok, t = t1 ++ t2 /\
    lists_and_deletes (fun out => omap hash_of_line (lines out)) ok t1 /\
    omap deleted t2 = [] /\ omap listed t2 = [] /\
    (omap added t2 = [] /\ Result.is_err r = true \/
     ok = true /\ exists keychain,
       omap added t2 = [["-d"; "-r"; "trustRoot"; "-p"; "ssl"; "-k"; keychain; cert_path]]).

Lemma lists_skip f ok t t' : nothing t -> lists_and_deletes f ok t' -> lists_and_deletes f ok (t ++ t').
Proof.
  intros (Hd & Ha & Hl) (t0 & t1 & hs & -> & Hd0 & Ha0 & Hh & Ht1). exists (t ++ t0), t1, hs.
  rewrite app_assoc, !omap_app, Hd, Ha, Hl, Hd0, Ha0. by repeat (split; [done|]).
Qed.

Lemma installs_err cert_path ok t t' e :
  lists_and_deletes (fun out => omap hash_of_line (lines out)) ok t -> nothing t' ->
  installs cert_path (t ++ t') (Err e).
Proof. intros Ht (Hd & Ha & Hl). exists t, t', ok. repeat (split; [done|]). by left. Qed.

(** After the addition. *)
Lemma installs_added cert_path k r t t' t'' res :
  lists_and_deletes (fun out => omap hash_of_line (lines out)) true t -> nothing t' -> nothing t'' ->
  installs cert_path (t ++ t' ++ @Ev KcSig (KcRun (security
    ["add-trusted-cert"; "-d"; "-r"; "trustRoot"; "-p"; "ssl"; "-k"; k; cert_path])) r :: t'') res.
Proof.
  intros Ht (Hd & Ha & Hl) (Hd' & Ha' & Hl'). eexists t, _, true. split; [done|]. split; [done|].
  rewrite !omap_app, Hd, Ha, Hl. csimpl. rewrite Hd', Ha', Hl'. split; [done|]. split; [done|].
  right. split; [done|]. by exists k.
Qed.

Lemma shown_neutral cert_path : wp (cert_content ⇐ kc (KcRead cert_path);
    match cert_content with
    | Err _ => Ret (Ok tt)
    | Ok cert_content =>
        info ⇐ get_cert_info cert_content;
        match info with
        | Err _ => Ret (Ok tt)
        | Ok info => println ("✓ Installed certificate: " +:+ info) ;; Ret (Ok tt)
        end
    end) (fun t (_ : Result unit Error) => nothing t).
Proof.
  unfold kc, perform. cbn [bind wp]. intros [pem|e]; [|done]. wp_step.
  eapply wp_mono; [|apply info_neutral]. intros t [info|e] Ht.
  - unfold println, kc, perform. cbn [bind wp]. intros []. by apply (nothing_app [_]), nothing_app.
  - apply wp_ret. by apply (nothing_app [_]), nothing_app.
Qed.

Lemma installs_skip cert_path t t' r : nothing t -> installs cert_path t' r -> installs cert_path (t ++ t') r.
Proof.
  intros Ht (t1 & t2 & ok & -> & Hl & Hr). exists (t ++ t1), t2, ok. rewrite app_assoc.
  split; [done|]. split; [by apply lists_skip|exact Hr].
Qed.

Lemma installs_failed cert_path t e : nothing t -> installs cert_path t (Err e).
Proof.
  intros Ht. rewrite <- (app_nil_r t).
  apply (installs_err cert_path false t []); [by apply lists_nothing|by repeat split].
Qed.

Lemma install_ca_spec cert_path : wp (install_ca cert_path) (installs cert_path).
Proof.
  unfold install_ca. wp_step. apply on_keychain_spec; [intros t e Ht; by apply installs_failed|].
  intros t k r Ht.
  assert (He : nothing [@Ev KcSig (KcRun (security (["find-certificate"; "-c"; CA_NAME] ++ [k]))) r])
    by (by repeat split).
  destruct r as [out|e]; cbn [Result.context Result.map_err]; [|by apply installs_failed, nothing_app].
  wp_step. assert (Hw : wp (if success (status out) then print_all
      ["⚠️  Warning: Existing " +:+ CA_NAME +:+ " certificate(s) found in keychain";
       "   These will be removed and replaced with the new certificate."] else Ret tt) (fun t _ => nothing t))
    by (destruct (success (status out)); [apply print_neutral|by repeat split]).
  eapply wp_mono; [|exact Hw]. intros t1 [] H1. wp_step. eapply wp_mono; [|apply cleanup_spec].
  intros t2 [[]|e] H2; [|rewrite <- (app_nil_r t2); do 2 (apply installs_skip; [by try apply nothing_app|]);
    by apply (installs_err _ _ t2 [] e H2)].
  wp_step. eapply wp_mono; [|apply print_neutral]. intros t3 [] H3. wp_step.
  eapply wp_mono; [|apply keychain_neutral]. intros t4 [kc|e] H4;
    [|do 2 (apply installs_skip; [by try apply nothing_app|]);
      by apply (installs_err _ _ t2 _ e H2), nothing_app].
  wp_step. unfold run_context, Keychain.kc, perform. cbn [bind wp]. intros r.
  assert (Hadd : forall t' res, nothing t' -> installs cert_path ((t ++ [@Ev KcSig (KcRun (security
      (["find-certificate"; "-c"; CA_NAME] ++ [k]))) (Ok out)]) ++ t1 ++ t2 ++ t3 ++ t4 ++
      @Ev KcSig (KcRun (security ["add-trusted-cert"; "-d"; "-r"; "trustRoot"; "-p"; "ssl"; "-k"; kc;
      cert_path])) r :: t') res).
  { intros t' res Ht'. do 2 (apply installs_skip; [by try apply nothing_app|]).
    rewrite (app_assoc t3). by apply installs_added; [|apply nothing_app|]. }
  destruct r as [out'|e]; cbn [Result.context Result.map_err]; [|by apply Hadd].
  destruct (success (status out')); cbn [negb]; [|by apply Hadd].
  eapply wp_mono; [|apply shown_neutral]. intros t' res Ht'. by apply Hadd.
Qed.

(** What the keychain commands change.  Both ask once for the certificates
    of the CA's name, and delete exactly the hashes of that answer, in order,
    those of the answer's hash lines (outside of a certificate's text, when
    uninstalling), as long as there is no error.  Installing then adds exactly
    one certificate, the given file, to the user's keychain, trusted as a root
    for SSL only; it never adds before it deleted, and when it did not add it
    returns an error.  Uninstalling adds none. *)
Theorem keychain_changes (cert_path : string) :
  wp (install_ca cert_path) (installs cert_path) /\
  wp uninstall_ca (fun t r =>
    lists_and_deletes (fun out => hashes_outside false (lines out)) (Result.is_ok r) t).
Proof.
  split.
  - apply install_ca_spec.
  - apply lists_spec; [by intros k [out|e]|done..|]. intros out.
    destruct (success (status out)) eqn:Es; cbn [negb orb].
    + destruct (is_empty (stdout out)) eqn:Ee.
      * unfold println, kc, perform. cbn [bind wp]. intros []. destruct (stdout out); [|done].
        by apply (deletes_nothing true [_]).
      * cbn zeta. wp_step. eapply wp_mono; [|by apply (uninstall_loop_spec _ false)]. intros t [s|e] Ht; [|done].
        unfold println, kc, perform. cbn [bind wp]. intros [].
        destruct Ht as (Hp & Ho & Ha & Hl). unfold deletes. rewrite !omap_app, Ha, Hl.
        cbn [omap list_omap]. cbn. by rewrite app_nil_r.
    + unfold println, kc, perform. cbn [bind wp]. by intros [].
Qed.

(** ** Examples *)

Example keychain_lines :
  hash_of_line "SHA-1 hash: 0A1B2C" = Some "0A1B2C" /\
  hash_of_line "keychain: login" = None /\
  trim_matches (ascii_of_nat 34) (trim ("    " +:+ dquote +:+ "/k" +:+ dquote +:+ LF)) = "/k" /\
  cert_info_of ("subject=C = US, O = httpjail, CN=httpjail CA" +:+ LF +:+ "notAfter=Jan 1 2030" +:+ LF +:+
                "SHA256 Fingerprint=AA:BB:CC") = "CN=httpjail CA, expires Jan 1 2030, SHA256:AABBCC" /\
  hashes_outside false ["SHA-1 hash: A"; "-----BEGIN CERTIFICATE-----"; "SHA-1 hash: B";
                        "-----END CERTIFICATE-----"; "SHA-256 hash: C"] = ["A"; "C"].
Proof. by vm_compute. Qed.
