(* ===== verification/Dns.v ===== *)
(** * The dummy DNS server ([src/jail/linux/dns.rs])

    Every question is answered with one fixed address, and nothing is looked
    up anywhere.  DNS messages are those of the [simple_dns] library, a class
    of operations with the documented laws the server relies on. *)

From S2P Require Import Prelude Effects Net.

Definition DUMMY_IPV4 : Ipv4Addr := mkIpv4 6 6 6 6.

Definition MAX_DNS_PACKET_SIZE : Z := 512.

(** ** [simple_dns] *)

Inductive CLASS : Type := IN | CS | CH | HS.

Inductive PacketFlag : Type := RESPONSE | RECURSION_AVAILABLE.

(** The record data the server makes. *)
Inductive RData : Type := A (address : Ipv4Addr).

Record ResourceRecord (Name : Type) : Type := newRecord {
  rr_name : Name;
  rr_class : CLASS;
  rr_ttl : Z;
  rr_rdata : RData;
}.
Arguments newRecord {Name} _ _ _ _.
Arguments rr_name {Name} _.
Arguments rr_class {Name} _.
Arguments rr_ttl {Name} _.
Arguments rr_rdata {Name} _.

Class SimpleDns := {
  Name : Type;
  Question : Type;
  qname : Question -> Name;
  Packet : Type;
  packet_id : Packet -> Z;
  questions : Packet -> list Question;
  answers : Packet -> list (ResourceRecord Name);
  has_flag : Packet -> PacketFlag -> bool;
  new_reply : Z -> Packet;
  set_flags : list PacketFlag -> Packet -> Packet;
  push_question : Question -> Packet -> Packet;
  push_answer : ResourceRecord Name -> Packet -> Packet;
  parse : string -> Result Packet Error;
  build_bytes_vec : Packet -> Result string Error;
}.

(** The fields are independent, and pushing appends. *)
Class SimpleDnsLaws (L : SimpleDns) : Prop := {
  new_reply_fields i : packet_id (new_reply i) = i /\ questions (new_reply i) = [] /\
    answers (new_reply i) = [];
  set_flags_fields fs p : packet_id (set_flags fs p) = packet_id p /\
    questions (set_flags fs p) = questions p /\ answers (set_flags fs p) = answers p /\
    forall f, f ∈ fs -> has_flag (set_flags fs p) f = true;
  push_question_fields q p : packet_id (push_question q p) = packet_id p /\
    questions (push_question q p) = questions p ++ [q] /\ answers (push_question q p) = answers p /\
    forall f, has_flag (push_question q p) f = has_flag p f;
  push_answer_fields a p : packet_id (push_answer a p) = packet_id p /\
    questions (push_answer a p) = questions p /\ answers (push_answer a p) = answers p ++ [a] /\
    forall f, has_flag (push_answer a p) f = has_flag p f;
}.

(** ** The server *)

Inductive RecvError : Type := WouldBlock | TimedOut | OtherError (e : Error).

(** Sockets, the shutdown flag and the server thread. *)
Inductive dns_op : Type :=
| Bind (addr : string)
| SetReadTimeout (nanos : Z)
| TryClone
| SpawnServer
| LoadShutdown
| StoreShutdown
| JoinServer
| RecvFrom (size : Z)
| SendTo (bytes dst : string).

Definition DnsSig : Sig :=
  {| op := dns_op;
     ans o := match o with
              | Bind _ | SetReadTimeout _ | TryClone | JoinServer => Result unit Error
              | SpawnServer | StoreShutdown => unit
              | LoadShutdown => bool
              | RecvFrom _ => Result (string * string) RecvError
              | SendTo _ _ => Result Z Error
              end |}.

Definition dns (o : op DnsSig) : prog DnsSig (ans DnsSig o) := perform o.

(** [socket] and [thread_handle] are [Some]. *)
Record DummyDnsServer : Type := { socket : bool; thread_handle : bool }.

Definition dns_new : DummyDnsServer := {| socket := false; thread_handle := false |}.

Definition dns_start (bind_addr : string) : method DnsSig DummyDnsServer unit :=
  mlift (r ⇐ dns (Bind bind_addr);
         Ret (Result.context ("Failed to bind DNS server to " +:+ bind_addr) r)) ⨾
  mlift (dns (SetReadTimeout 100000000)) ⨾
  mlift (dns TryClone) ⨾
  mlift (_ ⇐ dns SpawnServer; Ret (Ok tt)) ⨾
  mmodify (fun _ => {| socket := true; thread_handle := true |}).

Definition dns_stop (s : DummyDnsServer) : prog DnsSig DummyDnsServer :=
  dns StoreShutdown ;;
  (if thread_handle s then _ ⇐ dns JoinServer; Ret tt else Ret tt) ;;
  Ret {| socket := false; thread_handle := false |}.

Definition dns_drop (s : DummyDnsServer) : prog DnsSig unit := _ ⇐ dns_stop s; Ret tt.

Section Server.
Context `{L : SimpleDns}.

Definition dummy_answer (q : Question) : ResourceRecord Name :=
  newRecord (qname q) IN 60 (A DUMMY_IPV4).

Definition dummy_reply (query : Packet) : Packet :=
  let response := new_reply (packet_id query) in
  let response := set_flags [RESPONSE; RECURSION_AVAILABLE] response in
  let response := foldl (fun r q => push_question q r) response (questions query) in
  foldl (fun r q => push_answer (dummy_answer q) r) response (questions query).

Definition build_dummy_response (query : Packet) : Result string Error :=
  Result.map_err (fun e => Msg ("Failed to build DNS response: " +:+ error_to_string e))
    (build_bytes_vec (dummy_reply query)).

Definition answer_datagram (data src : string) : prog DnsSig unit :=
  match parse data with
  | Ok query =>
      match build_dummy_response query with
      | Ok response => _ ⇐ dns (SendTo response src); Ret tt   (* a failure is only logged *)
      | Err _ => Ret tt
      end
  | Err _ => Ret tt
  end.

(** One turn of the server's loop: whether it goes on. *)
Definition dns_turn : prog DnsSig bool :=
  shutdown ⇐ dns LoadShutdown;
  if (shutdown : bool) then Ret false
  else
    received ⇐ dns (RecvFrom MAX_DNS_PACKET_SIZE);
    match received with
    | Ok (data, src) => answer_datagram data src ;; Ret true
    | Err WouldBlock => Ret true
    | Err TimedOut => Ret true
    | Err (OtherError e) =>
        _ ⇐ dns LoadShutdown;                (* to log the error, or not *)
        Ret false
    end.

(** The loop, for [fuel] turns: whether it came to its end. *)
Fixpoint run_dns_server (fuel : nat) : prog DnsSig bool :=
  match fuel with
  | O => Ret false
  | S fuel' =>
      go_on ⇐ dns_turn;
      if (go_on : bool) then run_dns_server fuel' else Ret true
  end.

(** ** What is answered *)

Context `{!SimpleDnsLaws L}.

Lemma push_questions_fields qs p :
  let r := foldl (fun r q => push_question q r) p qs in
  packet_id r = packet_id p /\ questions r = questions p ++ qs /\ answers r = answers p /\
  forall f, has_flag r f = has_flag p f.
Proof.
  revert p. induction qs as [|q qs IH]; intros p; simpl; [by rewrite app_nil_r|].
  destruct (IH (push_question q p)) as (-> & -> & -> & Hf).
  destruct (push_question_fields q p) as (-> & -> & -> & Hf').
  split; [done|]. split; [by rewrite <- app_assoc|]. split; [done|]. intros f. by rewrite Hf.
Qed.

Lemma push_answers_fields qs p :
  let r := foldl (fun r q => push_answer (dummy_answer q) r) p qs in
  packet_id r = packet_id p /\ questions r = questions p /\
  answers r = answers p ++ (dummy_answer <$> qs) /\ forall f, has_flag r f = has_flag p f.
Proof.
  revert p. induction qs as [|q qs IH]; intros p; simpl; [by rewrite app_nil_r|].
  destruct (IH (push_answer (dummy_answer q) p)) as (-> & -> & -> & Hf).
  destruct (push_answer_fields (dummy_answer q) p) as (-> & -> & -> & Hf').
  split; [done|]. split; [done|]. split; [csimpl; by rewrite <- app_assoc|].
  intros f. by rewrite Hf.
Qed.

(** A reply that gives every question of the query the dummy address. *)
Definition dummy_reply_to (query reply : Packet) : Prop :=
  packet_id reply = packet_id query /\ questions reply = questions query /\
  answers reply = dummy_answer <$> questions query /\
  has_flag reply RESPONSE = true /\ has_flag reply RECURSION_AVAILABLE = true.

Lemma dummy_reply_correct query : dummy_reply_to query (dummy_reply query).
Proof.
  unfold dummy_reply, dummy_reply_to.
  set (fl := [RESPONSE; RECURSION_AVAILABLE]).
  set (p := set_flags fl (new_reply (packet_id query))).
  destruct (push_answers_fields (questions query) (foldl (fun r q => push_question q r) p (questions query)))
    as (-> & -> & -> & Hf).
  destruct (push_questions_fields (questions query) p) as (-> & -> & -> & Hf'). subst p.
  destruct (set_flags_fields fl (new_reply (packet_id query))) as (-> & -> & -> & Hf'').
  destruct (new_reply_fields (packet_id query)) as (-> & -> & ->).
  rewrite !Hf, !Hf'. do 3 (split; [done|]). split; apply Hf''; subst fl; set_solver.
Qed.

(** The datagrams a trace received and sent. *)
Inductive Datagram : Type := In (data src : string) | Out (data dst : string).

Definition datagram (e : event DnsSig) : option Datagram :=
  match e with
  | {| ev_op := RecvFrom _; ev_ans := Ok (data, src) |} => Some (In data src)
  | {| ev_op := SendTo data dst |} => Some (Out data dst)
  | _ => None
  end.

(** Each datagram received is answered at most once, at once, to its sender
    and only with a dummy reply; nothing else is sent. *)
Inductive answered : list Datagram -> Prop :=
| answered_nil : answered []
| answered_none data src l : answered l -> answered (In data src :: l)
| answered_reply data src query reply bytes l :
    parse data = Ok query -> dummy_reply_to query reply -> build_bytes_vec reply = Ok bytes ->
    answered l -> answered (In data src :: Out bytes src :: l).

Lemma answered_app l l' : answered l -> answered l' -> answered (l ++ l').
Proof.
  induction 1; intros Hl'; simpl; [done|constructor; auto|eapply answered_reply; eauto].
Qed.

(** A look at the shutdown flag that found it set. *)
Definition saw_shutdown (e : event DnsSig) : bool :=
  match e with {| ev_op := LoadShutdown; ev_ans := true |} => true | _ => false end.

Lemma dns_turn_shutdown : wp dns_turn (fun t go_on => existsb saw_shutdown t = true -> go_on = false).
Proof.
  simpl. intros [|]; simpl; [done|]. intros [[data src]|[]]; simpl; try done.
  unfold answer_datagram. destruct (parse data) as [query|e]; simpl; [|done].
  by destruct (build_dummy_response query).
Qed.

Lemma dns_turn_answered : wp dns_turn (fun t _ => answered (omap datagram t)).
Proof.
  simpl. intros [|]; simpl; [by constructor|].
  intros [[data src]|[]]; simpl; try by (intros; constructor).
  unfold answer_datagram, build_dummy_response. destruct (parse data) as [query|e] eqn:Ep; simpl.
  - destruct (build_bytes_vec (dummy_reply query)) as [bytes|e] eqn:Eb; simpl.
    + intros _. eapply answered_reply; [done|apply dummy_reply_correct|done|constructor].
    + repeat constructor.
  - repeat constructor.
Qed.

(** C25: the DNS server leaks nothing.  However long it runs and whatever it
    receives, every datagram it sends answers the one it just received, goes
    back to its sender, and is a reply with the query's id and questions and
    one A record of 6.6.6.6 per question, whatever the question asked for; no
    query goes anywhere else.  A packet that does not parse is not answered.
    Once the shutdown flag is seen the loop ends at that turn. *)
Theorem dns_answers_are_dummy (fuel : nat) :
  wp (run_dns_server fuel) (fun t ended => answered (omap datagram t) /\
    (existsb saw_shutdown t = true -> ended = true)).
Proof.
  induction fuel as [|fuel IH]; cbn [run_dns_server]; [by split; [constructor|]|].
  wp_step. eapply wp_mono; [|apply wp_conj; [apply dns_turn_answered|apply dns_turn_shutdown]].
  intros t [] [Ha Hs].
  - eapply wp_mono; [|apply IH]. intros t' ended [Ha' He]. split.
    + rewrite omap_app. by apply answered_app.
    + rewrite existsb_app. destruct (existsb saw_shutdown t); [by specialize (Hs eq_refl)|exact He].
  - apply wp_ret. rewrite app_nil_r. by split.
Qed.

End Server.

(** ** An instance *)

(** Messages as plain records, one byte on the wire. *)
Record ToyPacket : Type := {
  toy_id : Z; toy_flags : list PacketFlag; toy_questions : list string;
  toy_answers : list (ResourceRecord string) }.

#[export] Instance packet_flag_eq_dec : EqDecision PacketFlag.
Proof. solve_decision. Defined.

Definition toy_dns : SimpleDns := {|
  Name := string; Question := string; qname q := q; Packet := ToyPacket;
  packet_id := toy_id; questions := toy_questions; answers := toy_answers;
  has_flag p f := bool_decide (f ∈ toy_flags p);
  new_reply i := {| toy_id := i; toy_flags := []; toy_questions := []; toy_answers := [] |};
  set_flags fs p := {| toy_id := toy_id p; toy_flags := fs ++ toy_flags p;
                       toy_questions := toy_questions p; toy_answers := toy_answers p |};
  push_question q p := {| toy_id := toy_id p; toy_flags := toy_flags p;
                          toy_questions := toy_questions p ++ [q]; toy_answers := toy_answers p |};
  push_answer a p := {| toy_id := toy_id p; toy_flags := toy_flags p;
                        toy_questions := toy_questions p; toy_answers := toy_answers p ++ [a] |};
  parse s := if is_empty s then Err (Msg "empty")
             else Ok {| toy_id := 4660; toy_flags := []; toy_questions := [s]; toy_answers := [] |};
  build_bytes_vec p := Ok (concat_strings (toy_questions p));
|}.

#[export] Instance toy_dns_laws : SimpleDnsLaws toy_dns.
Proof.
  split.
  - done.
  - intros fs p. do 3 (split; [done|]). intros f Hf. apply bool_decide_true. simpl. set_solver.
  - done.
  - done.
Qed.

Lemma dns_answers_are_dummy_witness :
  wp (run_dns_server (L := toy_dns) 3) (fun t ended => answered (L := toy_dns) (omap datagram t) /\
    (existsb saw_shutdown t = true -> ended = true)).
Proof. exact (dns_answers_are_dummy (L := toy_dns) 3). Defined.

Example example_reply :
  answers (SimpleDns := toy_dns) (dummy_reply (L := toy_dns)
    {| toy_id := 7; toy_flags := []; toy_questions := ["a.com"; "b.com"]; toy_answers := [] |}) =
  [newRecord "a.com" IN 60 (A (mkIpv4 6 6 6 6)); newRecord "b.com" IN 60 (A (mkIpv4 6 6 6 6))].
Proof. reflexivity. Qed.
