(* ===== verification/Bind.v ===== *)
(** * Where the proxy listens ([src/main.rs], the bind configuration)

    The two addresses the proxy is given, from the environment and the mode. *)

From S2P Require Import Prelude Effects Net NetParse Paths Process Os LinuxJail.
From Stdlib Require Import Ascii.

(** ** A variable's value *)

Definition unspecified (port : Z) : SocketAddr := mkSocketAddr (V4 UNSPECIFIED4) port.

(** [ip:port], [:port] or [port]. *)
Definition parse_bind_value (val : string) : option SocketAddr :=
  let val := trim val in
  match parse_socket_addr val with
  | Some addr => Some addr
  | None =>
      match (port_str ← strip_prefix ":" val; parse_u16 port_str) with
      | Some port => Some (unspecified port)
      | None =>
          match parse_u16 val with
          | Some port => Some (unspecified port)
          | None => None
          end
      end
  end.

Definition parse_bind_config (env_var : string) : prog OsSig (option SocketAddr) :=
  val ⇐ os (EnvVar env_var);
  Ret (val ← val; parse_bind_value val).

Definition parse_ip_from_env (env_var : string) : prog OsSig (option IpAddr) :=
  val ⇐ os (EnvVar env_var);
  Ret (val ← val; parse_ip val).

Definition resolve_bind_with_default (parsed : option SocketAddr) (env_var : string)
    (default_ip : IpAddr) (default_port : Z) : prog OsSig (option SocketAddr) :=
  match parsed with
  | Some addr => Ret (Some addr)
  | None =>
      ip ⇐ parse_ip_from_env env_var;
      Ret (Some match ip with
                | Some ip => mkSocketAddr ip default_port
                | None => mkSocketAddr default_ip default_port
                end)
  end.

(** ** The mode *)

Inductive Mode : Type := Server | Weak | Strong.

(** [--server] is looked at before [--weak]. *)
Definition mode_of (server weak : bool) : Mode :=
  if server then Server else if weak then Weak else Strong.

(** An address given without a port gets any. *)
Definition or_ip_any_port (parsed : option SocketAddr) (env_var : string)
    : prog OsSig (option SocketAddr) :=
  match parsed with
  | Some addr => Ret (Some addr)
  | None =>
      ip ⇐ parse_ip_from_env env_var;
      Ret (ip ← ip; Some (mkSocketAddr ip 0))
  end.

(** The jail's address, with the configured port or any. *)
Definition on_jail_ip (jail_ip : Ipv4Addr) (parsed : option SocketAddr) : SocketAddr :=
  match parsed with
  | Some addr => mkSocketAddr (V4 jail_ip) (addr_port addr)
  | None => mkSocketAddr (V4 jail_ip) 0
  end.

Definition HTTP_BIND : string := "HTTPJAIL_HTTP_BIND".
Definition HTTPS_BIND : string := "HTTPJAIL_HTTPS_BIND".

Definition bind_addresses `{DefaultHasher} (mode : Mode) (jail_id : string)
    : prog OsSig (option SocketAddr * option SocketAddr) :=
  http_bind ⇐ parse_bind_config HTTP_BIND;
  https_bind ⇐ parse_bind_config HTTPS_BIND;
  match mode with
  | Server =>
      let localhost := V4 LOCALHOST4 in
      http ⇐ resolve_bind_with_default http_bind HTTP_BIND localhost 8080;
      https ⇐ resolve_bind_with_default https_bind HTTPS_BIND localhost 8443;
      Ret (http, https)
  | Weak =>
      http ⇐ or_ip_any_port http_bind HTTP_BIND;
      https ⇐ or_ip_any_port https_bind HTTPS_BIND;
      Ret (http, https)
  | Strong =>
      let jail_ip := compute_host_ip_for_jail_id jail_id in
      Ret (Some (on_jail_ip jail_ip http_bind), Some (on_jail_ip jail_ip https_bind))
  end.

(** ** Printed addresses are read back *)

Definition addr_char (a : ascii) : bool := byte_in 33 126 a.

Fixpoint all_addr (s : string) : bool :=
  match s with EmptyString => true | String a r => addr_char a && all_addr r end.

Lemma all_addr_app s t : all_addr (s +:+ t) = all_addr s && all_addr t.
Proof.
  induction s as [|a s IH]; [done|]. rewrite append_cons. cbn [all_addr]. rewrite IH.
  by rewrite andb_assoc.
Qed.

Lemma all_addr_rev s : all_addr (String.rev s) = all_addr s.
Proof.
  induction s as [|a s IH]; [done|]. change (String a s) with (String a "" +:+ s).
  rewrite rev_append, !all_addr_app, IH. apply andb_comm.
Qed.

(** An ASCII character other than whitespace starts none. *)
Lemma trim_with_addr w2 w3 s :
  (forall a b, addr_char a = true -> w2 a b = false) ->
  (forall a b c, addr_char a = true -> w3 a b c = false) ->
  all_addr s = true -> trim_with w2 w3 s = s.
Proof.
  intros H2 H3 Hs. destruct s as [|a r]; [done|]. cbn [all_addr] in Hs.
  apply andb_prop in Hs as [Ha _]. cbn [trim_with].
  assert (ws1 a = false) as -> by (by destruct a as [[] [] [] [] [] [] [] []]).
  destruct r as [|b [|c r]]; [done|by rewrite H2|by rewrite H2, H3].
Qed.

Lemma addr_no_ws2 a b : addr_char a = true -> ws2 a b = false /\ ws2 b a = false.
Proof.
  intros Ha. assert (byte_eq 194 a = false /\ byte_eq 133 a = false /\ byte_eq 160 a = false) as (H1 & H2 & H3)
    by (by destruct a as [[] [] [] [] [] [] [] []]).
  unfold ws2. rewrite H1, H2, H3. by rewrite andb_false_r.
Qed.

Lemma addr_no_ws3 a b c : addr_char a = true -> ws3 a b c = false /\ ws3 c b a = false.
Proof.
  intros Ha. assert (byte_eq 225 a = false /\ byte_eq 226 a = false /\ byte_eq 227 a = false /\
    byte_eq 128 a = false /\ byte_in 128 138 a = false /\ byte_eq 168 a = false /\
    byte_eq 169 a = false /\ byte_eq 175 a = false /\ byte_eq 159 a = false)
    as (H1 & H2 & H3 & H4 & H5 & H6 & H7 & H8 & H9) by (by destruct a as [[] [] [] [] [] [] [] []]).
  unfold ws3. rewrite H1, H2, H3, H4, H5, H6, H7, H8, H9.
  split; [done|]. cbn [orb]. by rewrite !andb_false_r.
Qed.

Lemma trim_addr s : all_addr s = true -> trim s = s.
Proof.
  intros Hs. unfold trim, trim_start. rewrite (trim_with_addr ws2 ws3 s); [| | |done].
  - unfold trim_end. rewrite trim_with_addr; [apply rev_rev| | |by rewrite all_addr_rev].
    + intros a b Ha. exact (proj2 (addr_no_ws2 a b Ha)).
    + intros a b c Ha. exact (proj2 (addr_no_ws3 a b c Ha)).
  - intros a b Ha. exact (proj1 (addr_no_ws2 a b Ha)).
  - intros a b c Ha. exact (proj1 (addr_no_ws3 a b c Ha)).
Qed.

Lemma digit_addr a : is_Some (digit a) -> addr_char a = true.
Proof. intros [d Hd]. by destruct a as [[] [] [] [] [] [] [] []]. Qed.

Lemma parse_digits_addr max s : forall acc n, parse_digits max acc s = Some n -> all_addr s = true.
Proof.
  induction s as [|a s IH]; intros acc n; [done|]. cbn [parse_digits all_addr].
  destruct (digit a) as [d|] eqn:Ed; [|done]. simpl. destruct (_ <? _); [done|]. intros Hs.
  rewrite digit_addr by (by eexists). by eapply IH.
Qed.

Lemma dec_addr n : 0 <= n -> all_addr (dec n) = true.
Proof. intros Hn. apply (parse_digits_addr n _ 0 n), parse_digits_dec. lia. Qed.

Lemma show_ipv4_addr a : valid_ipv4 a -> all_addr (show_ipv4 a) = true.
Proof.
  intros (H1 & H2 & H3 & H4). unfold is_u8 in *. unfold show_ipv4.
  rewrite !all_addr_app, !dec_addr by lia. done.
Qed.

(** The first character of a printed number is a digit. *)
Lemma dec_digit n : 0 <= n -> exists c r, dec n = String c r /\ is_Some (digit c).
Proof.
  intros Hn. destruct (dec_cons n Hn) as (c & r & E & _). exists c, r. split; [done|].
  pose proof (parse_digits_dec n n ltac:(lia)) as Hp. rewrite E in Hp. cbn [parse_digits] in Hp.
  destruct (digit c); [by eexists|done].
Qed.

Lemma digit_not c d : is_Some (digit c) -> digit d = None -> Ascii.eqb d c = false.
Proof.
  intros Hc Hd. destruct (Ascii.eqb_spec d c) as [->|]; [|done]. rewrite Hd in Hc. by destruct Hc.
Qed.

Lemma strip_prefix_digit d p s c : is_Some (digit c) -> digit d = None ->
  strip_prefix (String d p) (String c s) = None.
Proof. intros Hc Hd. cbn [strip_prefix]. by rewrite digit_not. Qed.

Lemma read_number_rest m z mx n v t :
  0 <= n -> read_number 10 m z mx (dec n) = Some (v, t) -> t = "".
Proof.
  intros Hn. destruct (dec_digits n Hn) as (c & Hd & _). unfold read_number. rewrite Hd.
  repeat case_match; by intros [= _ <-].
Qed.

(** A number alone, with or without a colon, is no address and port. *)
Lemma number_no_socket_addr n : 0 <= n -> parse_socket_addr (dec n) = None.
Proof.
  intros Hn. destruct (dec_digit n Hn) as (c & r & E & Hc).
  assert (H4 : read_socket_addr_v4 (dec n) = None).
  { unfold read_socket_addr_v4, read_ipv4_addr. change (read_octet 0 (dec n)) with
      (read_number 10 (Some 3%nat) false u8_max (dec n)).
    destruct (read_number 10 (Some 3%nat) false u8_max (dec n)) as [[v t]|] eqn:En; [|reflexivity].
    apply read_number_rest in En; [|done]. subst t. reflexivity. }
  assert (H6 : read_socket_addr_v6 (dec n) = None).
  { unfold read_socket_addr_v6, read_given_char. rewrite E. by rewrite strip_prefix_digit. }
  unfold parse_socket_addr, parse_with, read_socket_addr, or_else. by rewrite H4, H6.
Qed.

Lemma colon_no_socket_addr s : parse_socket_addr (":" +:+ s) = None.
Proof. done. Qed.

Lemma parse_digits_no_dot max s : forall acc n,
  parse_digits max acc s = Some n -> contains_char "." s = false.
Proof.
  induction s as [|a s IH]; intros acc n; [done|]. cbn [parse_digits contains_char].
  destruct (digit a) as [d|] eqn:Ed; [|done]. simpl. destruct (_ <? _); [done|]. intros Hs.
  destruct (Ascii.eqb_spec a "."); [by subst|]. by eapply IH.
Qed.

Lemma parse_u16_no_dot s n : parse_u16 s = Some n -> contains_char "." s = false.
Proof.
  unfold parse_u16, parse_uint. destruct s as [|a s]; [done|].
  destruct (byte_eq 43 a) eqn:Ea; [|by apply parse_digits_no_dot].
  destruct (is_empty s); [done|]. intros Hs. cbn [contains_char].
  destruct (Ascii.eqb_spec a "."); [by subst|]. by eapply parse_digits_no_dot.
Qed.

Lemma show_ipv4_head a : valid_ipv4 a -> exists c r, show_ipv4 a = String c r /\ is_Some (digit c).
Proof.
  intros (H1 & _). unfold is_u8 in H1. destruct (dec_digit (oct1 a) ltac:(lia)) as (c & r & E & Hc).
  unfold show_ipv4. rewrite E. by eexists _, _.
Qed.

Lemma ipv4_no_bind_value a : valid_ipv4 a -> parse_bind_value (show_ipv4 a) = None.
Proof.
  intros Ha. destruct (show_ipv4_head a Ha) as (c & r & E & Hc). unfold parse_bind_value.
  rewrite trim_addr by (by apply show_ipv4_addr).
  assert (parse_socket_addr (show_ipv4 a) = None) as ->.
  { unfold parse_socket_addr, parse_with, read_socket_addr, or_else, read_socket_addr_v4.
    rewrite <- (append_nil_r (show_ipv4 a)), read_ipv4_show by done. cbn [mbind option_bind].
    unfold read_socket_addr_v6, read_given_char. rewrite append_nil_r, E. by rewrite strip_prefix_digit. }
  assert (strip_prefix ":" (show_ipv4 a) = None) as -> by (rewrite E; by apply strip_prefix_digit).
  cbn [mbind option_bind]. destruct (parse_u16 (show_ipv4 a)) as [n|] eqn:Ep; [|done].
  apply parse_u16_no_dot in Ep. unfold show_ipv4 in Ep.
  change ("." +:+ dec (oct2 a) +:+ "." +:+ dec (oct3 a) +:+ "." +:+ dec (oct4 a))
    with (String "." (dec (oct2 a) +:+ "." +:+ dec (oct3 a) +:+ "." +:+ dec (oct4 a))) in Ep.
  by rewrite contains_char_append in Ep.
Qed.

(** *** IPv6 *)

Lemma all_hex_addr s : all_hex s = true -> all_addr s = true.
Proof.
  induction s as [|a s IH]; [done|]. cbn [all_hex all_addr]. intros [Ha Hs]%andb_prop.
  rewrite (IH Hs), andb_true_r. by destruct a as [[] [] [] [] [] [] [] []].
Qed.

Lemma groups_text_addr segs : Forall is_u16 segs -> forall i, all_addr (groups_text i segs) = true.
Proof.
  induction 1 as [|n segs Hn Hs IH]; intros i; [done|]. cbn [groups_text].
  rewrite !all_addr_app, IH, (all_hex_addr (hex_u64 n)) by (apply hex_all_hex; destruct Hn; lia).
  by destruct (Nat.ltb 0 i).
Qed.

Lemma show_ipv6_addr segs : valid_ipv6 segs -> all_addr (show_ipv6 segs) = true.
Proof.
  intros [_ Hs]. destruct (show_ipv6_printed segs) as [hi lo|a n b Hn|segs].
  - rewrite all_addr_app. apply andb_true_intro. split; [done|].
    repeat (apply Forall_cons in Hs as [? Hs]). unfold is_u16, u16_max in *. unfold show_ipv4.
    cbn [oct1 oct2 oct3 oct4].
    rewrite !all_addr_app, !dec_addr by first [apply Z.div_pos; lia|apply Z.mod_pos_bound; lia]. done.
  - apply Forall_app in Hs as [Ha [_ Hb]%Forall_app]. by rewrite !all_addr_app, !groups_text_addr.
  - by apply groups_text_addr.
Qed.

Lemma parse_u16_no_colon s t : parse_u16 (s +:+ ":" +:+ t) = None.
Proof.
  assert (Hd : forall s acc, parse_digits u16_max acc (s +:+ ":" +:+ t) = None).
  { clear s. intros s. induction s as [|a s IH]; intros acc; [done|]. rewrite append_cons. cbn [parse_digits].
    destruct (digit a) as [d|]; [|done]. simpl. destruct (_ <? _); [done|]. apply IH. }
  unfold parse_u16, parse_uint. destruct s as [|a s]; [done|]. rewrite append_cons.
  destruct (byte_eq 43 a); [|apply (Hd (String a s))].
  destruct (is_empty _) eqn:E; [by destruct s|apply Hd].
Qed.

Lemma ipv6_no_bind_value segs : valid_ipv6 segs -> parse_bind_value (show_ipv6 segs) = None.
Proof.
  intros Hv. unfold parse_bind_value. rewrite trim_addr by (by apply show_ipv6_addr).
  assert (H4 : read_socket_addr_v4 (show_ipv6 segs) = None).
  { unfold read_socket_addr_v4. rewrite <- (append_nil_r (show_ipv6 segs)). by rewrite show_ipv6_no_ipv4. }
  unfold parse_socket_addr, parse_with, read_socket_addr, or_else. rewrite H4.
  destruct (show_ipv6_shape segs Hv) as [(x & ->)|(a & s & x & Hs & ->)].
  - change ("::" +:+ x) with (":" +:+ ":" +:+ x) at 2 3.
    rewrite (proj2 (strip_prefix_spec ":" _ _) eq_refl). cbn [mbind option_bind].
    assert (parse_u16 (":" +:+ x) = None) as -> by apply (parse_u16_no_colon "" x).
    by assert (parse_u16 (":" +:+ ":" +:+ x) = None) as -> by apply (parse_u16_no_colon "" (":" +:+ x)).
  - cbn [all_hex] in Hs. apply andb_prop in Hs as [Ha _].
    assert (Hne : Ascii.eqb "[" a = false /\ Ascii.eqb ":" a = false)
      by (by destruct a as [[] [] [] [] [] [] [] []]).
    destruct Hne as [Hb Hc]. unfold read_socket_addr_v6, read_given_char.
    assert (parse_u16 (String a s +:+ ":" +:+ x) = None) as -> by apply (parse_u16_no_colon (String a s) x).
    rewrite append_cons. cbn [strip_prefix]. by rewrite Hb, Hc.
Qed.

(** ** What a variable may hold *)

(** The forms documented, with the address and the port each means. *)
Inductive bind_form : string -> IpAddr -> option Z -> Prop :=
| FormAddress ip port : valid_ip ip -> is_u16 port ->
    bind_form (show_socket_addr (mkSocketAddr ip port)) ip (Some port)
| FormColonPort port : is_u16 port -> bind_form (":" +:+ dec port) (V4 (mkIpv4 0 0 0 0)) (Some port)
| FormPort port : is_u16 port -> bind_form (dec port) (V4 (mkIpv4 0 0 0 0)) (Some port)
| FormIp ip : valid_ip ip -> bind_form (show_ip ip) ip None.

Lemma bind_form_value v ip port : bind_form v ip port ->
  parse_bind_value v = (port ← port; Some (mkSocketAddr ip port)) /\
  (port = None -> parse_ip v = Some ip).
Proof.
  intros [ip' p Hip Hp|p Hp|p Hp|ip' Hip]; (split; [|try done]).
  - unfold parse_bind_value. rewrite trim_addr; [by rewrite parse_show_socket|].
    assert (Hd : all_addr (dec p) = true) by (apply dec_addr; unfold is_u16 in Hp; lia).
    destruct ip' as [a|segs]; unfold show_socket_addr, show_socket_addr_v4; cbn [addr_ip addr_port];
      rewrite !all_addr_app; [by rewrite show_ipv4_addr|by rewrite show_ipv6_addr].
  - unfold parse_bind_value.
    assert (Hd : all_addr (dec p) = true) by (apply dec_addr; unfold is_u16 in Hp; lia).
    rewrite trim_addr by (by rewrite all_addr_app). rewrite colon_no_socket_addr.
    rewrite (proj2 (strip_prefix_spec ":" _ _) eq_refl). cbn [mbind option_bind].
    unfold parse_u16. by rewrite (parse_uint_dec u16_max p Hp).
  - unfold parse_bind_value. rewrite trim_addr by (apply dec_addr; unfold is_u16 in Hp; lia).
    rewrite number_no_socket_addr by (unfold is_u16 in Hp; lia).
    destruct (dec_digit p ltac:(unfold is_u16 in Hp; lia)) as (c & r & E & Hc).
    assert (strip_prefix ":" (dec p) = None) as -> by (rewrite E; by apply strip_prefix_digit).
    cbn [mbind option_bind]. unfold parse_u16. by rewrite (parse_uint_dec u16_max p Hp).
  - destruct ip' as [a|segs]; [by apply ipv4_no_bind_value|by apply ipv6_no_bind_value].
  - intros _. by apply parse_show_ip.
Qed.

(** The environment's variables, which do not change. *)
Definition env_rel (env : string -> option string) (o : op OsSig) : unit -> ans OsSig o -> unit -> Prop :=
  match o as o return unit -> ans OsSig o -> unit -> Prop with
  | EnvVar name => fun _ r _ => r = env name
  | _ => fun _ _ _ => True
  end.

(** Where the proxy is to listen, for an address and a port asked for. *)
Definition listens (mode : Mode) (jail_ip : Ipv4Addr) (ip : IpAddr) (port : option Z) (server_port : Z)
    : SocketAddr :=
  match mode with
  | Server => mkSocketAddr ip (default server_port port)
  | Weak => mkSocketAddr ip (default 0 port)
  | Strong => mkSocketAddr (V4 jail_ip) (default 0 port)
  end.

(** C26: the bind configuration means what it documents.  Each variable may
    hold, for every address of either kind and every port, the address and the
    port as the standard library prints them ([a.b.c.d:p], [[v6]:p]), a port
    with or without a colon, which is that port on every IPv4 interface, or an
    address alone.  The proxy then gets that address and that port, 0 included;
    an address alone gets port 8080 (HTTP) or 8443 (HTTPS) in server mode and
    any in weak mode; a strong jail takes the port, or any, and listens on the
    jail's own address.  A variable's value is as printed, without spaces. *)
Theorem bind_value_roundtrip `{DefaultHasher} (mode : Mode) (jail_id : string)
    (env : string -> option string) (http https : string) (ip ip' : IpAddr) (port port' : option Z)
    (Hhttp : env "HTTPJAIL_HTTP_BIND" = Some http) (Hhttps : env "HTTPJAIL_HTTPS_BIND" = Some https)
    (Hform : bind_form http ip port) (Hform' : bind_form https ip' port') :
  wpr (env_rel env) (bind_addresses mode jail_id) tt (fun r _ =>
    r = (Some (listens mode (compute_host_ip_for_jail_id jail_id) ip port 8080),
         Some (listens mode (compute_host_ip_for_jail_id jail_id) ip' port' 8443))).
Proof.
  destruct (bind_form_value _ _ _ Hform) as [Hv Hip].
  destruct (bind_form_value _ _ _ Hform') as [Hv' Hip'].
  unfold bind_addresses, parse_bind_config, parse_ip_from_env. simpl.
  intros r1 [] ->. intros r2 [] ->. unfold HTTP_BIND, HTTPS_BIND.
  rewrite Hhttp, Hhttps. cbn [mbind option_bind]. rewrite Hv, Hv'.
  destruct mode, port as [p|], port' as [p'|]; simpl; try done.
  all: intros; subst; unfold HTTP_BIND, HTTPS_BIND; rewrite ?Hhttp, ?Hhttps; cbn [mbind option_bind];
    rewrite ?Hip, ?Hip' by done; simpl; try done.
  all: intros; subst; unfold HTTP_BIND, HTTPS_BIND; rewrite ?Hhttp, ?Hhttps; cbn [mbind option_bind];
    by rewrite ?Hip, ?Hip'.
Qed.

(** A variable an event found set. *)
Definition variable (e : event OsSig) : option string :=
  match e with {| ev_op := EnvVar _; ev_ans := Some v |} => Some v | _ => None end.

Section Modes.
Context `{DefaultHasher}.

(** Where the proxy listens.  For a strong jail it is the jail's own host
    address, whatever the environment asks for, with the port asked for or any;
    a server always has two addresses, and with nothing configured they are on
    the loopback, at 8080 and 8443; the weak mode has an address exactly when
    one is configured (it is the proxy that then picks a loopback port). *)
Theorem proxy_listens_where_expected (mode : Mode) (jail_id : string) :
  wp (bind_addresses mode jail_id) (fun t '(http, https) =>
    match mode with
    | Strong => exists p q, http = Some (mkSocketAddr (V4 (compute_host_ip_for_jail_id jail_id)) p) /\
                            https = Some (mkSocketAddr (V4 (compute_host_ip_for_jail_id jail_id)) q)
    | Server => is_Some http /\ is_Some https /\
        (omap variable t = [] -> http = Some (mkSocketAddr (V4 LOCALHOST4) 8080) /\
                                 https = Some (mkSocketAddr (V4 LOCALHOST4) 8443))
    | Weak => omap variable t = [] -> http = None /\ https = None
    end).
Proof.
  unfold bind_addresses, parse_bind_config. simpl. intros v1 v2.
  destruct mode; simpl.
  - destruct (v1 ≫= parse_bind_value) as [a1|] eqn:E1, (v2 ≫= parse_bind_value) as [a2|] eqn:E2; simpl.
    all: intros; (split; [by eexists|split; [by eexists|]]); intros Hn.
    all: repeat match goal with x : option string |- _ => destruct x; simplify_eq/= end; done.
  - destruct (v1 ≫= parse_bind_value) as [a1|] eqn:E1, (v2 ≫= parse_bind_value) as [a2|] eqn:E2; simpl.
    all: intros; repeat match goal with x : option string |- _ => destruct x; simplify_eq/= end; done.
  - unfold on_jail_ip. repeat case_match; by eexists _, _.
Qed.

End Modes.

(** An address alone is read without trimming, so one with a space around it
    is lost. *)
Example spaced_address_is_lost :
  parse_bind_value " 10.0.0.1:80 " = Some (mkSocketAddr (V4 (mkIpv4 10 0 0 1)) 80) /\
  parse_bind_value " 10.0.0.1 " = None /\ parse_ip " 10.0.0.1 " = None.
Proof. by vm_compute. Qed.

(** Every host address from a zero hash. *)
Definition flat_hasher : DefaultHasher := {| hash_str _ := 0 |}.

Lemma bind_value_roundtrip_witness :
  wpr (env_rel (fun name => Some (if String.eqb name "HTTPJAIL_HTTP_BIND" then "[2001:db8::1]:0" else "10.99.0.1")))
    (bind_addresses (H := flat_hasher) Server "j") tt (fun r _ =>
    r = (Some (mkSocketAddr (V6 [8193; 3512; 0; 0; 0; 0; 0; 1]) 0),
         Some (mkSocketAddr (V4 (mkIpv4 10 99 0 1)) 8443))).
Proof.
  apply (bind_value_roundtrip (H := flat_hasher) Server "j" _ "[2001:db8::1]:0" "10.99.0.1"
    (V6 [8193; 3512; 0; 0; 0; 0; 0; 1]) (V4 (mkIpv4 10 99 0 1)) (Some 0) None); [done|done| |].
  - assert ("[2001:db8::1]:0" = show_socket_addr (mkSocketAddr (V6 [8193; 3512; 0; 0; 0; 0; 0; 1]) 0)) as ->
      by (by vm_compute).
    apply FormAddress; [|by split]. split; [done|]. unfold is_u16, u16_max. repeat constructor; lia.
  - assert ("10.99.0.1" = show_ip (V4 (mkIpv4 10 99 0 1))) as -> by (by vm_compute).
    apply FormIp. unfold valid_ip, valid_ipv4, is_u8, u8_max. simpl. lia.
Defined.
