(* ===== verification/Main.v ===== *)
(** * The command line program ([src/main.rs])

    The life of a jail around one command. *)

From stdpp Require Import gmap.
From S2P Require Import Prelude Effects Http Rules Paths Process Os Nftables LinuxResources Jail Footprint Net LinuxJail ManagedJail Tls.
From Stdlib Require Import Ascii.

(** How the process ends: with what it printed and its exit code, with an error
    that [main] returns, with a panic, or not at all. *)
Inductive Outcome : Type :=
| Exit (printed : list string) (exit_code : Z)
| Failed (e : Error)
| Panicked
| Serving.

(** ** A command in a jail *)

(** What became of the race of the command against its timeout. *)
Inductive Raced : Type := Finished | JoinFailed (e : Error) | Elapsed.

(** [SetHandler] is [false] when setting the handler panics.  The race's outcome
    comes after the command's operations in a trace: when the timeout elapses
    the command was started and goes on in its thread, and the answer of its
    operation, which then nobody reads, stands for an end at any later time. *)
Inductive sched_op : Type := SetHandler | RaceTimeout (secs : Z).

Definition SchedSig : Sig :=
  {| op := sched_op;
     ans o := match o with SetHandler => bool | RaceTimeout _ => Raced end |}.

Section Life.
Context `{R : Rcgen}.

Definition MainSig : Sig := sig_sum OsSig (sig_sum TlsSig SchedSig).

Definition on_os {A} (p : prog OsSig A) : prog MainSig A := lift_l p.
Definition on_tls {A} (p : prog TlsSig A) : prog MainSig A := lift_r (lift_l p).
Definition sched (o : op SchedSig) : prog MainSig (ans SchedSig o) := lift_r (lift_r (perform o)).

(** The arguments of a run. *)
Record RunArgs : Type := {
  timeout : option Z;
  no_jail_cleanup : bool;
  exec_command : list string;
}.

Definition with_res_options (extra_env : list (string * string))
    : prog OsSig (list (string * string)) :=
  set ⇐ os (EnvVar "RES_OPTIONS");
  Ret (match set with
       | None =>
           if existsb (fun '(k, _) => String.eqb k "RES_OPTIONS") extra_env then extra_env
           else extra_env ++ [("RES_OPTIONS", "timeout:2 attempts:1")]
       | Some _ => extra_env
       end).

Definition exit_code (status : ExitStatus) : Z :=
  if success status then 0 else match code status with Some n => n | None => 1 end.

Context {J : Type} `{Jail J}.

Definition run_command (j : J) (a : RunArgs) (extra_env : list (string * string))
    : prog MainSig (Result ExitStatus Error) :=
  match timeout a with
  | None => on_os (execute j (exec_command a) extra_env)
  | Some secs =>
      result ⇐ on_os (execute j (exec_command a) extra_env);
      raced ⇐ sched (RaceTimeout secs);
      match (raced : Raced) with
      | Finished => Ret result
      | JoinFailed e => Ret (Err (Msg ("Task execution failed: " +:+ error_to_string e)))
      | Elapsed => Ret (Ok {| code := Some 124 |})
      end
  end.

Definition child_env : prog MainSig (list (string * string)) :=
  ca_env_vars ⇐ on_tls get_ca_env_vars;
  let extra_env := match ca_env_vars with Ok vars => vars | Err _ => [] end in
  on_os (with_res_options extra_env).

(** From a jail's setup to the exit code.  The jail is dropped when its setup
    fails; after that the signal handler keeps it alive, so it is not. *)
Definition in_jail (j : J) (a : RunArgs) : prog MainSig (Result Z Error) :=
  '(ready, j) ⇐ on_os (setup j 0);
  match ready with
  | Err e => on_os (drop_jail j) ;; Ret (Err e)
  | Ok _ =>
      handler ⇐ sched SetHandler;
      if negb handler then on_os (drop_jail j) ;; Ret (Err (Msg "Error setting signal handler"))
      else
        extra_env ⇐ child_env;
        status ⇐? run_command j a extra_env;
        _ ⇐? (if no_jail_cleanup a then Ret (Ok tt) else on_os (cleanup j));
        Ret (Ok (exit_code status))
  end.

(** The directory of the canaries is made before the jail is, by [create]. *)
Definition run_in_jail (create : prog OsSig J) (a : RunArgs) : prog MainSig (Result Z Error) :=
  canary_dir ⇐ on_os get_canary_dir;
  _ ⇐ on_os (os (CreateDirAll canary_dir));
  j ⇐ on_os create;
  in_jail j a.

(** The signal handler, at its first signal: the process exits with 130. *)
Definition on_signal (j : J) (no_cleanup : bool) : prog OsSig Z :=
  (if negb no_cleanup then _ ⇐ cleanup j; Ret tt else Ret tt) ;;
  Ret 130.

End Life.

(** ** What a run leaves behind *)

Section Leaves.
Context `{R : Rcgen} `{DefaultHasher}.

(** The operating-system part of a run's trace. *)
Definition os_event (e : event OsSig) : event MainSig := @Ev MainSig (inl (ev_op e)) (ev_ans e).

Definition os_part (e : event MainSig) : option (event OsSig) :=
  match e with
  | {| ev_op := inl o; ev_ans := a |} => Some (@Ev OsSig o a)
  | _ => None
  end.

Definition os_trace (t : list (event MainSig)) : list (event OsSig) := omap os_part t.

Lemma os_trace_app t t' : os_trace (t ++ t') = os_trace t ++ os_trace t'.
Proof. apply omap_app. Qed.

Lemma os_trace_os t : os_trace (os_event <$> t) = t.
Proof. unfold os_trace. induction t as [|[o a] t IH]; [done|]. csimpl. by f_equal. Qed.

Lemma wp_on_os {A} (p : prog OsSig A) Q :
  wp p (fun t a => Q (os_event <$> t) a) -> wp (on_os p) Q.
Proof. apply wp_lift_l. Qed.

Lemma wp_no_os {A} (p : prog (sig_sum TlsSig SchedSig) A) Q :
  (forall t a, os_trace t = [] -> Q t a) -> wp (lift_r (Σ1 := OsSig) p) Q.
Proof.
  intros HQ. apply wp_lift_r, wp_true. intros t a. apply HQ. unfold os_trace.
  induction t as [|[o r] t IH]; [done|exact IH].
Qed.

(** ** A managed Linux jail *)

Definition is_canary_dir (d : string) : Prop :=
  d = "/tmp/httpjail" \/ exists data, d = path_join (path_join data "httpjail") "canaries".

(** The directory of the canaries, and the jail's canary in it. *)
Definition canary_of (jid : string) (u : Undo) : Prop :=
  exists d, is_canary_dir d /\ (u = UndoDir d \/ u = UndoFile (path_join d jid)).

(** What a run may leave when it is over. *)
Definition may_stay (jid : string) (u : Undo) : Prop := u ∈ host_placeholder \/ canary_of jid u.

(** What a run may create: the jail's resources, and that. *)
Definition allowed (jid : string) (e : event OsSig) : Prop :=
  forall u, creates e = Some u -> u ∈ jail_resources jid \/ may_stay jid u.

(** The canary of a managed jail. *)
Definition canary_ok {J} (m : ManagedJail J) (jid : string) : Prop :=
  is_canary_dir (canary_dir m) /\ canary_path m = path_join (canary_dir m) jid.

Definition inert (e : event OsSig) : Prop := is_run e = None /\ creates e = None.

(** What a setup may do: create what is allowed, and run no command. *)
Definition prepares (jid : string) (e : event OsSig) : Prop := is_run e = None /\ allowed jid e.

Lemma inert_prepares jid t : Forall inert t -> Forall (prepares jid) t.
Proof.
  intros Ht. apply (Forall_impl _ _ _ Ht). intros e [Hr He]. split; [done|]. intros u. by rewrite He.
Qed.

Lemma quiet_no_run e : quiet e -> is_run e = None.
Proof. by destruct e as [[] a]. Qed.

Lemma tidy_inert t : Forall tidy t -> Forall inert t.
Proof.
  intros Ht. apply (Forall_impl _ _ _ Ht). intros e [Hq He]. split; [by apply quiet_no_run|done].
Qed.

Lemma inert_creates t : Forall inert t -> omap creates t = [].
Proof. induction 1 as [|e t [_ He] Ht IH]; csimpl; [done|]. by rewrite He. Qed.

Lemma prepares_allowed jid t : Forall (prepares jid) t -> Forall (allowed jid) t.
Proof. intros Ht. apply (Forall_impl _ _ _ Ht). by intros e [_ He]. Qed.

Lemma canary_dir_allowed jid d a : is_canary_dir d -> prepares jid (@Ev OsSig (CreateDirAll d) a).
Proof. intros Hd. split; [done|]. intros u [= <-]. right. right. exists d. auto. Qed.

Lemma canary_file_allowed jid d s a : is_canary_dir d ->
  prepares jid (@Ev OsSig (WriteFile (path_join d jid) s) a).
Proof. intros Hd. split; [done|]. intros u [= <-]. right. right. exists d. auto. Qed.

Lemma prepares_none jid e : is_run e = None -> creates e = None -> prepares jid e.
Proof. intros Hr He. split; [done|]. intros u. by rewrite He. Qed.

(** Operations that make nothing. *)
Ltac prepared := cbn; repeat first
  [assumption | apply prepares_none; reflexivity | apply Forall_nil; exact I | apply Forall_cons; split].

Lemma create_canary_allowed (m : ManagedJail LinuxJail) jid : canary_ok m jid ->
  wp (create_canary m) (fun t _ => Forall (prepares jid) t).
Proof.
  intros [Hd Hp]. pose proof (fun a => canary_dir_allowed jid _ a Hd) as Hc.
  pose proof (fun a => canary_file_allowed jid _ "" a Hd) as Hf. unfold create_canary. rewrite Hp. simpl.
  intros [|]; simpl; [intros a; prepared; apply Hf|].
  intros [[]|e]; simpl; [intros a|]; prepared; (apply Hc || apply Hf).
Qed.

Lemma sweep_entry_inert {J} `{Jail J} timeout entry :
  (forall id, wp (cleanup_orphaned (J := J) id) (fun t _ => Forall inert t)) ->
  wp (sweep_entry (J := J) timeout entry) (fun t _ => Forall inert t).
Proof.
  intros Hc. destruct entry as [path|e]; [|by constructor]. simpl.
  intros [|]; simpl; [|by repeat constructor].
  intros [[modified|e]|e]; simpl; [|by repeat constructor..].
  intros now. destruct (_ <? _); simpl; [|by repeat constructor].
  wp_step. apply wp_bind. eapply wp_mono; [|apply Hc]. intros t r Ht.
  destruct r as [[]|e]; simpl; [intros a|]; rewrite ?app_nil_r;
    repeat (constructor; [done|]); [apply Forall_app; split; [done|by repeat constructor]|done].
Qed.

Lemma cleanup_orphans_allowed (m : ManagedJail LinuxJail) jid : canary_ok m jid ->
  wp (cleanup_orphans m) (fun t _ => Forall (prepares jid) t).
Proof.
  intros [Hd _]. pose proof (fun a => canary_dir_allowed jid _ a Hd) as Hc.
  assert (He : forall entries, wp (for_each entries (sweep_entry (J := LinuxJail) (orphan_timeout m)))
    (fun t _ => Forall inert t)).
  { intros entries. apply wp_Forall_for_each. intros entry _. apply sweep_entry_inert. intros id.
    eapply wp_mono; [|apply linux_cleanup_orphaned_tidy]. intros t r. apply tidy_inert. }
  unfold cleanup_orphans, os, perform. cbn [bind wp]. intros [|]; cbn [negb bind wp try].
  - intros [entries|e]; [|by prepared].
    eapply wp_mono; [|apply He]. intros t r Ht.
    do 2 (constructor; [by apply prepares_none|]). by apply inert_prepares.
  - intros a. prepared. apply Hc.
Qed.

(** The setup of the managed jail keeps its name, and creates what is allowed. *)
Lemma managed_setup_allowed (m : ManagedJail LinuxJail) jid port :
  canary_ok m jid -> valid_id jid -> uses jid (jail m) ->
  wp (setup m port) (fun t '(r, m') => Forall (prepares jid) t /\ uses jid (jail m')).
Proof.
  intros Hd Hid Hu. cbn [setup managed_jail]. unfold managed_setup. wp_step.
  assert (Hb : wp (if managed_heartbeat m then cleanup_orphans m ;;? create_canary m else Ret (Ok tt))
    (fun t _ => Forall (prepares jid) t)).
  { destruct (managed_heartbeat m); [|by constructor].
    apply wp_Forall_try; [by apply cleanup_orphans_allowed|intros _; by apply create_canary_allowed]. }
  eapply wp_mono; [|exact Hb]. intros t1 [[]|e] Ht1; [|apply wp_ret; by rewrite app_nil_r].
  wp_step. cbn [setup linux_jail]. unfold linux_setup. wp_step.
  eapply wp_mono; [|by apply (linux_setup_accounted jid Hid)].
  intros t2 [j r] [Ht2 Hj]. cbn [fst snd] in *. apply wp_ret. rewrite app_nil_r.
  assert (Ht12 : Forall (prepares jid) (t1 ++ t2)).
  { apply Forall_app. split; [done|]. apply (Forall_impl _ _ _ Ht2). intros e [Hr He]. split; [exact Hr|].
    intros u [Hf|Hf]%He%elem_of_app; [by left|by right; left]. }
  destruct (Result.is_err r && _).
  - wp_step. eapply wp_mono; [|apply delete_canary_spec]. intros t3 x Ht3. apply wp_ret.
    rewrite app_nil_r, app_assoc. split; [|done]. apply Forall_app. split; [done|].
    destruct Ht3 as [->|[a ->]]; prepared.
  - unfold start_heartbeat. destruct (managed_heartbeat _); cbn [negb].
    + wp_step. eapply wp_mono; [|by apply (create_canary_allowed _ jid)].
      intros t3 [[]|e] Ht3; [|apply wp_ret; rewrite app_nil_r, app_assoc; split; [by apply Forall_app|done]].
      simpl. intros []. rewrite app_assoc. split; [|done]. apply Forall_app. split; [exact Ht12|].
      apply Forall_app. split; [done|prepared].
    + apply wp_ret. rewrite app_nil_r. by split.
Qed.

(** Everything of the jail was told to go, nothing was made, and no command ran. *)
Definition reclaimed (jid : string) (t : list (event OsSig)) : Prop :=
  Forall inert t /\ forall u, u ∈ removals jid -> u ∈ omap undoes t.

Lemma linux_cleanup_reclaims (j : LinuxJail) jid : uses jid j ->
  wp (linux_cleanup j) (fun t _ => reclaimed jid t).
Proof.
  intros <-. eapply wp_mono; [|apply wp_conj; [apply linux_cleanup_tidy|apply wp_try;
    eapply wp_mono; [|apply linux_cleanup_orphaned_removes]]].
  - intros t r [Ht Hu]. split; [by apply tidy_inert|exact Hu].
  - intros t r [Hu ->]. simpl. by rewrite app_nil_r, Hu.
Qed.

Lemma reclaimed_app jid t1 t t2 :
  Forall inert t1 -> Forall inert t2 -> reclaimed jid t -> reclaimed jid (t1 ++ t ++ t2).
Proof.
  intros H1 H2 [Hc Hu]. split; [by repeat apply Forall_app_2|]. intros u Hin.
  rewrite !omap_app. apply elem_of_app. right. apply elem_of_app. left. by apply Hu.
Qed.

Lemma delete_canary_inert (m : ManagedJail LinuxJail) :
  wp (delete_canary m) (fun t _ => Forall inert t).
Proof. eapply wp_mono; [|apply delete_canary_spec]. intros t r [->|[a ->]]; by repeat constructor. Qed.

Lemma managed_cleanup_reclaims (m : ManagedJail LinuxJail) jid : uses jid (jail m) ->
  wp (cleanup m) (fun t _ => reclaimed jid t).
Proof.
  intros Hu. cbn [cleanup managed_jail]. unfold managed_cleanup. wp_step.
  assert (Hs : wp (signal_stop_heartbeat m) (fun t _ => Forall inert t))
    by (unfold signal_stop_heartbeat; destruct (managed_heartbeat m); by repeat constructor).
  eapply wp_mono; [|exact Hs]. intros t1 [] H1. wp_step.
  eapply wp_mono; [|by apply (linux_cleanup_reclaims _ jid)]. intros t2 r H2. wp_step.
  assert (Hd : wp (if managed_heartbeat m then delete_canary m else Ret (Ok tt))
    (fun t _ => Forall inert t)) by (destruct (managed_heartbeat m); [apply delete_canary_inert|constructor]).
  eapply wp_mono; [|exact Hd]. intros t3 [[]|e] H3; [apply wp_ret; rewrite app_nil_r|];
    by apply reclaimed_app.
Qed.

Lemma managed_drop_reclaims (m : ManagedJail LinuxJail) jid : uses jid (jail m) ->
  wp (drop_jail m) (fun t _ => reclaimed jid t).
Proof.
  intros Hu. cbn [drop_jail managed_jail]. unfold managed_drop_jail, managed_release. wp_step. wp_step.
  assert (Hs : wp (stop_heartbeat m) (fun t x => Forall inert t /\ jail x.2 = jail m)).
  { unfold stop_heartbeat. destruct (managed_heartbeat m), (heartbeat_handle m); simpl; intros; by repeat constructor. }
  eapply wp_mono; [|exact Hs]. intros t1 [r1 m1] [H1 Hj]. cbn [fst snd] in *. wp_step. rewrite Hj.
  eapply wp_mono; [|by apply (linux_cleanup_reclaims _ jid)]. intros t2 r H2. wp_step.
  assert (Hd : wp (if managed_heartbeat m1 && Result.is_ok r then delete_canary m1 else Ret (Ok tt))
    (fun t _ => Forall inert t)) by (destruct (_ && _); [apply delete_canary_inert|constructor]).
  eapply wp_mono; [|exact Hd]. intros t3 r3 H3. apply wp_ret. rewrite app_nil_r, Hj.
  eapply wp_mono; [|apply linux_drop_tidy]. intros t4 [] H4. rewrite <- !app_assoc.
  apply reclaimed_app; [done| |done]. apply Forall_app_2; [done|by apply tidy_inert].
Qed.

(** The command could not be started, or its task failed. *)
Definition command_lost (e : event MainSig) : bool :=
  match e with
  | {| ev_op := inl (RunStatus _); ev_ans := Err _ |} => true
  | {| ev_op := inr (inr (RaceTimeout _)); ev_ans := JoinFailed _ |} => true
  | _ => false
  end.

Lemma run_command_inert (m : ManagedJail LinuxJail) a env : exec_command a <> [] ->
  wp (run_command m a env) (fun t r => omap creates (os_trace t) = [] /\
    (Result.is_err r = true -> existsb command_lost t = true)).
Proof.
  intros Hne. assert (Hx : wp (on_os (execute m (exec_command a) env)) (fun t r =>
    omap creates (os_trace t) = [] /\ (Result.is_err r = true -> existsb command_lost t = true))).
  { apply wp_on_os. cbn [execute managed_jail]. unfold managed_execute. cbn [execute linux_jail].
    unfold linux_execute. destruct (exec_command a) as [|w ws]; [done|]. wp_step.
    assert (Hp : wp drop_privs (fun t _ => omap creates t = [])).
    { simpl. intros uid. destruct (_ =? _); simpl; [by intros [u|] [g|]|done]. }
    eapply wp_mono; [|exact Hp]. intros t p Ht. simpl. intros u1 u2 u3 st.
    rewrite os_trace_os, omap_app, Ht. split; [done|]. rewrite fmap_app, existsb_app.
    destruct st as [st|e]; [done|]. intros _. apply orb_true_r. }
  unfold run_command. destruct (timeout a) as [secs|]; [|exact Hx].
  wp_step. eapply wp_mono; [|exact Hx]. intros t r [Hc Hl]. unfold sched. cbn [perform lift_r bind wp]. intros x.
  assert (Ho : forall x, os_trace (t ++ [@Ev MainSig (inr (inr (RaceTimeout secs))) x]) = os_trace t)
    by (intros y; rewrite os_trace_app; apply app_nil_r).
  destruct x as [|e|]; cbn [wp]; (split; [by rewrite Ho|]); rewrite existsb_app; [intros He; by rewrite (Hl He)|intros _; apply orb_true_r|done].
Qed.

Lemma wp_canary_dir jid :
  wp get_canary_dir (fun t d => Forall (prepares jid) t /\ is_canary_dir d).
Proof.
  simpl. unfold is_canary_dir. intros [d|]; simpl; (split; [by repeat constructor|]); [right|by left].
  by exists d.
Qed.

Lemma child_env_inert : wp child_env (fun t _ => omap creates (os_trace t) = []).
Proof.
  unfold child_env. wp_step. apply wp_no_os. intros t vars Ht.
  apply wp_on_os. simpl. intros x. by rewrite os_trace_app, Ht.
Qed.

Lemma creates_allowed jid t : omap creates t = [] -> Forall (allowed jid) t.
Proof.
  intros Ht. apply Forall_forall. intros e He. unfold allowed. destruct (creates e) as [u|] eqn:Eu; [|done].
  assert (Hu : u ∈ omap creates t) by (apply list_elem_of_omap; by exists e).
  rewrite Ht in Hu. by apply not_elem_of_nil in Hu.
Qed.

(** All a trace creates is allowed, and it ends with the jail reclaimed unless
    the command could not be started. *)
Definition leaves_nothing (jid : string) (t : list (event MainSig)) : Prop :=
  Forall (allowed jid) (os_trace t) /\
  (existsb command_lost t = false -> exists t1 t2, os_trace t = t1 ++ t2 /\ reclaimed jid t2).

Lemma leaves_nothing_app jid t t' :
  Forall (allowed jid) (os_trace t) -> leaves_nothing jid t' -> leaves_nothing jid (t ++ t').
Proof.
  intros Ht [Ha Hr]. split; [rewrite os_trace_app; by apply Forall_app|].
  rewrite existsb_app. intros [_ Hl]%orb_false_iff. destruct (Hr Hl) as (t1 & t2 & Et & H2).
  exists (os_trace t ++ t1), t2. by rewrite os_trace_app, Et, app_assoc.
Qed.

Lemma leaves_nothing_os jid t t' :
  Forall (allowed jid) t -> leaves_nothing jid t' -> leaves_nothing jid ((os_event <$> t) ++ t').
Proof. intros Ht. apply leaves_nothing_app. by rewrite os_trace_os. Qed.

Lemma leaves_nothing_reclaimed jid t : reclaimed jid t -> leaves_nothing jid (os_event <$> t).
Proof.
  intros Ht. rewrite <- (app_nil_r (os_event <$> t)), app_nil_r. unfold leaves_nothing.
  rewrite os_trace_os. split; [apply creates_allowed, inert_creates, Ht|]. intros _. by exists [], t.
Qed.

Lemma dropped_leaves_nothing {A} (m' : ManagedJail LinuxJail) jid (a : A) : uses jid (jail m') ->
  wp (on_os (drop_jail m') ;; Ret a) (fun t _ => leaves_nothing jid t).
Proof.
  intros Hu. wp_step. apply wp_on_os. eapply wp_mono; [|by apply (managed_drop_reclaims m' jid)].
  intros t [] Ht. apply wp_ret. rewrite app_nil_r. by apply leaves_nothing_reclaimed.
Qed.

Lemma ran_leaves_nothing (m' : ManagedJail LinuxJail) jid (a : RunArgs) :
  uses jid (jail m') -> exec_command a <> [] -> no_jail_cleanup a = false ->
  wp (extra_env ⇐ child_env;
      status ⇐? run_command m' a extra_env;
      _ ⇐? (if no_jail_cleanup a then Ret (Ok tt) else on_os (cleanup m'));
      Ret (Ok (exit_code status))) (fun t _ => leaves_nothing jid t).
Proof.
  intros Hu Hne ->. wp_step. eapply wp_mono; [|apply child_env_inert]. intros t1 env H1.
  wp_step. eapply wp_mono; [|by apply run_command_inert]. intros t2 r [H2 Hr].
  apply creates_allowed with (jid := jid) in H1, H2.
  destruct r as [status|e].
  - wp_step. apply wp_on_os. eapply wp_mono; [|by apply (managed_cleanup_reclaims m' jid)].
    intros t3 r3 H3. assert (Hl : leaves_nothing jid (t1 ++ t2 ++ (os_event <$> t3))).
    { do 2 (apply leaves_nothing_app; [done|]). by apply leaves_nothing_reclaimed. }
    destruct r3 as [[]|e]; [apply wp_ret; by rewrite app_nil_r|done].
  - split; [rewrite os_trace_app; by apply Forall_app|]. rewrite existsb_app, (Hr eq_refl), orb_true_r. done.
Qed.

Lemma in_jail_leaves_nothing (m : ManagedJail LinuxJail) jid (a : RunArgs) :
  canary_ok m jid -> valid_id jid -> uses jid (jail m) ->
  exec_command a <> [] -> no_jail_cleanup a = false ->
  wp (in_jail m a) (fun t _ => leaves_nothing jid t).
Proof.
  intros Hd Hid Hu Hne Hcl. unfold in_jail. wp_step. apply wp_on_os.
  eapply wp_mono; [|by apply (managed_setup_allowed m jid 0)]. intros t2 [ready m'] [H2%prepares_allowed Hu'].
  assert (Hpre : forall t, leaves_nothing jid t -> leaves_nothing jid ((os_event <$> t2) ++ t))
    by (intros t; by apply leaves_nothing_os).
  destruct ready as [[]|e].
  - wp_step. unfold sched. apply wp_no_os. intros t3 ok H3.
    assert (Hsch : forall t, leaves_nothing jid t -> leaves_nothing jid (t3 ++ t))
      by (intros t Ht; apply leaves_nothing_app; [by rewrite H3|done]).
    destruct ok; cbn [negb].
    + eapply wp_mono; [|by apply ran_leaves_nothing]. intros t r Ht. apply Hpre, Hsch, Ht.
    + eapply wp_mono; [|by apply dropped_leaves_nothing]. intros t r Ht. apply Hpre, Hsch, Ht.
  - eapply wp_mono; [|by apply dropped_leaves_nothing]. intros t r Ht. apply Hpre, Ht.
Qed.

Lemma linux_new_uses c : uses (config_jail_id c) (linux_new c).
Proof. unfold linux_new. by destruct (compute_subnet_for_jail _) as [[[? ?] ?] ?]. Qed.

(** What [leaves_nothing] comes to on the host. *)
Lemma leaves_nothing_standing jid t : leaves_nothing jid t ->
  (forall u, u ∈ omap creates (os_trace t) -> u ∈ jail_resources jid \/ may_stay jid u) /\
  (existsb command_lost t = false ->
     (exists t1 t2, os_trace t = t1 ++ t2 /\ reclaimed jid t2) /\
     (obeys [] (os_trace t) -> forall u, u ∈ standing [] (os_trace t) -> may_stay jid u)).
Proof.
  intros [Ha Hr]. rewrite Forall_forall in Ha.
  assert (Hc : forall u, u ∈ omap creates (os_trace t) -> u ∈ jail_resources jid \/ may_stay jid u)
    by (intros u (e & He & Hu)%list_elem_of_omap; by apply (Ha e)).
  split; [done|]. intros Hl. destruct (Hr Hl) as (t1 & t2 & Et & Hi & Hu). split; [by exists t1, t2|].
  rewrite Et in Hc |- *. apply (cleanup_leaves (jail_resources jid) (removals jid)).
  - apply jail_resources_covered.
  - intros u Hin. apply Hc. rewrite omap_app. by apply elem_of_app; left.
  - by apply inert_creates.
  - exact Hu.
Qed.

(** C5: a run of a command in a Linux jail, from the jail's setup to the exit
    code, in every environment.  All it ever tries to create, every directory
    and file counted, are the jail's resources, the directory of the canaries
    with the jail's canary, and the placeholder of [systemd-resolved]'s name.
    However it ends, the last thing it does, after which it creates and runs
    nothing, is to tell the system to remove all of the jail's resources; and
    when the system removes what is there and it is told to, nothing that the
    run created is left but the placeholder, the canaries' directory and maybe
    the canary (whose end is [release_keeps_canary_until_clean]'s matter).  The
    one exception is a command that could not be started at all, or whose task
    failed: its error is returned with the canary left to tell the next run. *)
Theorem linux_run_leaves_nothing (c : JailConfig) (a : RunArgs)
    (Hid : valid_id (config_jail_id c)) (Hne : exec_command a <> [])
    (Hcl : no_jail_cleanup a = false) :
  let jid := config_jail_id c in
  wp (run_in_jail (managed_new (linux_new c) c) a) (fun t _ =>
    (forall u, u ∈ omap creates (os_trace t) -> u ∈ jail_resources jid \/ may_stay jid u) /\
    (existsb command_lost t = false ->
       (exists t1 t2, os_trace t = t1 ++ t2 /\ reclaimed jid t2) /\
       (obeys [] (os_trace t) -> forall u, u ∈ standing [] (os_trace t) -> may_stay jid u))).
Proof.
  cbn zeta.
  apply (wp_mono _ (fun t _ => leaves_nothing (config_jail_id c) t)); [intros t r; apply leaves_nothing_standing|].
  unfold run_in_jail. wp_step. apply wp_on_os.
  eapply wp_mono; [|apply (wp_canary_dir (config_jail_id c))]. intros t1 d [H1%prepares_allowed Hd].
  wp_step. apply wp_on_os. unfold os, perform. cbn [wp]. intros made.
  wp_step. apply wp_on_os. unfold managed_new. wp_step.
  eapply wp_mono; [|apply (wp_canary_dir (config_jail_id c))]. intros t2 d' [H2%prepares_allowed Hd']. apply wp_ret.
  rewrite app_nil_r. eapply wp_mono; [|by apply in_jail_leaves_nothing; [|done|by apply linux_new_uses|..]].
  intros t r Ht. apply leaves_nothing_os; [done|].
  apply (leaves_nothing_os _ [_]); [|by apply leaves_nothing_os].
  constructor; [by apply canary_dir_allowed|constructor].
Qed.

End Leaves.

Section Examples.

Definition example_args : RunArgs := {| timeout := None; no_jail_cleanup := false; exec_command := ["true"] |}.

Lemma linux_run_leaves_nothing_witness :
  wp (run_in_jail (R := toy_rcgen) (managed_new (linux_new example_config) example_config) example_args)
    (fun t _ =>
      (forall u, u ∈ omap creates (os_trace t) -> u ∈ jail_resources "abcd1234" \/ may_stay "abcd1234" u) /\
      (existsb command_lost t = false ->
         (exists t1 t2, os_trace t = t1 ++ t2 /\ reclaimed "abcd1234" t2) /\
         (obeys [] (os_trace t) -> forall u, u ∈ standing [] (os_trace t) -> may_stay "abcd1234" u))).
Proof.
  exact (linux_run_leaves_nothing (R := toy_rcgen) example_config example_args eq_refl
           ltac:(discriminate) eq_refl).
Defined.

End Examples.
