(* ===== verification/Program.v ===== *)
(** * The whole program on Linux ([src/main.rs], [main])

    The order in which the parts are put together: the cleanup command, the
    jail's configuration, the rule engine, the dry run, the proxy, and the jail
    the command runs in. *)

From S2P Require Import Prelude Effects Http Rules RuleCommon Process ShellRules ProcRules V8 JsRules Engines Net Paths Tls Proxy Server Os Nftables Firewall LinuxResources Jail Footprint LinuxJail ManagedJail OrphanScan Docker WeakJail Bind Main.
From Stdlib Require Import Ascii.

(** ** The arguments *)

Record Args : Type := {
  rule_args : RuleArgs;
  run_args : RunArgs;
  arg_weak : bool;
  arg_cleanup : bool;
  arg_server : bool;
  arg_test : option (list string);
  arg_docker_run : bool;
}.

Section Program.
Context `{R : Rcgen} `{WebPki} `{V8} `{UrlLib} `{SerdeJson} `{MethodParser} `{DefaultHasher}.

(** The operations of its parts: the jail's, the engine's construction, the
    server's creation, its sockets, and the engine's own. *)
Definition ProgSig : Sig :=
  sig_sum MainSig (sig_sum BuildSig (sig_sum NewSig (sig_sum NetSig (sig_sum AnySig LogSig)))).

Definition on_main {A} (p : prog MainSig A) : prog ProgSig A := lift_l p.
Definition on_build {A} (p : prog BuildSig A) : prog ProgSig A := lift_r (lift_l p).
Definition on_new {A} (p : prog NewSig A) : prog ProgSig A := lift_r (lift_r (lift_l p)).
Definition on_net {A} (p : prog NetSig A) : prog ProgSig A := lift_r (lift_r (lift_r (lift_l p))).
Definition on_rules {A} (p : prog (sig_sum AnySig LogSig) A) : prog ProgSig A :=
  lift_r (lift_r (lift_r (lift_r p))).

Definition with_ports (http_port https_port : Z) (c : JailConfig) : JailConfig :=
  {| http_proxy_port := http_port; https_proxy_port := https_port;
     config_jail_id := config_jail_id c; enable_heartbeat := enable_heartbeat c;
     heartbeat_interval_secs := heartbeat_interval_secs c;
     orphan_timeout_secs := orphan_timeout_secs c |}.

(** The jail [create_jail] makes, run to its end. *)
Definition run_jail (kind : JailKind) (c : JailConfig) (a : RunArgs) : prog MainSig (Result Z Error) :=
  match kind with
  | KindWeak => run_in_jail (Ret (weak_new c)) a
  | KindManagedDocker => run_in_jail (managed_new (docker_new c) c) a
  | KindManagedLinux => run_in_jail (managed_new (linux_new c) c) a
  end.

(** From the bind addresses on. *)
Definition launch (rule_engine : RuleEngine AnyEngine) (jail_config : JailConfig) (a : Args)
    : prog ProgSig Outcome :=
  '(http_bind, https_bind) ⇐ on_main (on_os
     (bind_addresses (mode_of (arg_server a) (arg_weak a)) (config_jail_id jail_config)));
  proxy ⇐ on_new (new None http_bind https_bind rule_engine);
  match proxy with
  | None => Ret Panicked
  | Some (proxy, _) =>
      ports ⇐ on_net (start proxy);
      match ports with
      | Err e => Ret (Failed e)
      | Ok (http_port, https_port) =>
          if arg_server a then Ret Serving           (* [future::pending] *)
          else
            ended ⇐ on_main (run_jail (create_jail_kind (arg_weak a) (arg_docker_run a))
                               (with_ports http_port https_port jail_config) (run_args a));
            Ret (match ended with Ok code => Exit [] code | Err e => Failed e end)
      end
  end.

Definition main (a : Args) : prog ProgSig Outcome :=
  if arg_cleanup a then
    cleaned ⇐ on_main (on_os OrphanScan.cleanup_orphans);
    Ret (match cleaned with Ok _ => Exit [] 0 | Err e => Failed e end)
  else
    jail_config ⇐ on_main (on_os config_new);
    built ⇐ on_build (build_rule_engine (rule_args a));
    match built with
    | Err (Engines.Failed e) => Ret (Failed e)
    | Err (Exit1 stderr) => Ret (Exit [stderr] 1)
    | Ok (rule_engine, _) =>
        match arg_test a with
        | Some test_vals =>
            match test_request test_vals with
            | Some (method, url) =>
                '(out, exit_code) ⇐ on_rules (dry_run rule_engine method url);
                Ret (Exit out exit_code)
            | None => Ret Panicked                   (* no value: the index is out of range *)
            end
        | None => launch rule_engine jail_config a
        end
    end.

End Program.

(** ** The command behind the proxy *)

Section Behind.
Context `{R : Rcgen} `{WebPki} `{V8} `{UrlLib} `{SerdeJson} `{MethodParser} `{DefaultHasher}.

(** The command an event of a run starts. *)
Definition main_runs (e : event MainSig) : option Command := e' ← os_part e; is_run e'.

Lemma main_runs_app (t t' : list (event MainSig)) : omap main_runs (t ++ t') = omap main_runs t ++ omap main_runs t'.
Proof. apply omap_app. Qed.

Lemma main_runs_os (t : list (event OsSig)) : omap main_runs (os_event <$> t) = omap is_run t.
Proof. induction t as [|[o a] t IH]; [done|]. csimpl. by rewrite IH. Qed.

Lemma no_runs (P : event OsSig -> Prop) t : (forall e, P e -> is_run e = None) ->
  Forall P t -> omap main_runs (os_event <$> t) = [].
Proof.
  intros HP Ht. rewrite main_runs_os. induction Ht as [|e t He Ht IH]; [done|].
  csimpl. by rewrite (HP e He).
Qed.

Lemma inert_no_runs t : Forall inert t -> omap main_runs (os_event <$> t) = [].
Proof. apply no_runs. by intros e [He _]. Qed.

Lemma main_runs_other (t : list (event (sig_sum TlsSig SchedSig))) :
  omap main_runs ((fun e => @Ev MainSig (inr (ev_op e)) (ev_ans e)) <$> t) = [].
Proof. induction t as [|[o a] t IH]; [done|exact IH]. Qed.

Lemma child_env_runs_none : wp child_env (fun t _ => omap main_runs t = []).
Proof.
  unfold child_env. wp_step. apply wp_lift_r, wp_true. intros t vars.
  apply wp_on_os. simpl. intros x. by rewrite main_runs_app, main_runs_other.
Qed.

(** The filter of the namespace was loaded by a setup that succeeded. *)
Definition filtered (c : JailConfig) (t : list (event OsSig)) : Prop :=
  exists t1, occurs t1 t /\
    egress_filtered (config_jail_id c) (compute_host_ip_for_jail_id (config_jail_id c))
      (http_proxy_port c) (https_proxy_port c) t1.

Lemma managed_setup_filtered (m : ManagedJail LinuxJail) (c : JailConfig) port :
  managed_heartbeat m = true -> jail m = linux_new c ->
  wp (setup m port) (fun t '(r, m') => r = Ok tt ->
    filtered c t /\ config (jail m') = c).
Proof.
  intros Hh Hj. cbn [setup managed_jail]. unfold managed_setup. wp_step. apply wp_true.
  intros t1 [[]|e]; [|done]. wp_step. rewrite Hj.
  eapply wp_mono; [|apply (linux_setup_filters c)]. intros t2 [[[]|e] j] Hf; cbn [managed_heartbeat set_jail Result.is_err].
  - destruct (Hf eq_refl) as (Hc & t0 & t3 & -> & Ht3). cbn [andb negb Result.is_ok].
    unfold start_heartbeat. cbn [managed_heartbeat set_jail]. rewrite Hh. cbn [negb].
    assert (Hfl : forall t, filtered c (t1 ++ (t0 ++ t3) ++ t)).
    { intros t. exists t3. split; [|done]. apply occurs_r, occurs_l, occurs_r, occurs_refl. }
    change (Result.is_err (Ok tt) && true) with false. cbn iota.
    wp_step. apply wp_true. intros t4 [[]|e]; [|done]. intros [] _. by split.
  - cbn [managed_heartbeat set_jail]. rewrite Hh. change (Result.is_err (Err e) && true) with true. cbn iota.
    wp_step. by apply wp_true.
Qed.

(** Whatever runs in a started jail is the command, in the jail's namespace. *)
Definition executes (jail_id : string) (a : RunArgs) (command : Command) : Prop :=
  exists privs, program command = "ip" /\
    args command = ["netns"; "exec"; "httpjail_" +:+ jail_id] ++ setpriv_args privs ++ exec_command a.

Lemma linux_execute_executes (j : LinuxJail) command env :
  wp (execute j command env) (fun t _ => forall c, c ∈ omap is_run t -> executed j command env c).
Proof.
  destruct command as [|w ws].
  - cbn [execute linux_jail]. unfold linux_execute. intros c Hc. by apply not_elem_of_nil in Hc.
  - eapply wp_mono; [|apply linux_execute_runs]. intros t r (_ & Hx & _).
    destruct (Hx ltac:(discriminate)) as (c & -> & He). by intros c' ->%list_elem_of_singleton.
Qed.

(** Whatever command runs satisfies [P]. *)
Definition all_run (P : Command -> Prop) (t : list (event MainSig)) : Prop :=
  forall x, x ∈ omap main_runs t -> P x.

Lemma all_run_none P t : omap main_runs t = [] -> all_run P t.
Proof. intros Ht x. rewrite Ht. by intros ?%not_elem_of_nil. Qed.

(** After the setup of any jail: the command, and the end of the jail. *)
Section AnyJail.
Context {J : Type} `{Jail J} (j : J) (a : RunArgs) (P : Command -> Prop).

Lemma run_command_all env :
  wp (execute j (exec_command a) env) (fun t _ => forall x, x ∈ omap is_run t -> P x) ->
  wp (run_command j a env) (fun t _ => all_run P t).
Proof.
  intros Hx.
  assert (Hx' : wp (on_os (execute j (exec_command a) env)) (fun t _ => all_run P t)).
  { apply wp_on_os. eapply wp_mono; [|exact Hx]. intros t r Ht x. rewrite main_runs_os. apply Ht. }
  unfold run_command. destruct (timeout a) as [secs|]; [|exact Hx'].
  wp_step. eapply wp_mono; [|exact Hx']. intros t r Ht. unfold sched. cbn [perform lift_r bind wp].
  intros o. assert (Ho : all_run P (t ++ [@Ev MainSig (inr (inr (RaceTimeout secs))) o])).
  { intros x. rewrite main_runs_app. cbn. rewrite app_nil_r. apply Ht. }
  by destruct o.
Qed.

Lemma ran_all (K : list (string * string) -> Prop) :
  wp child_env (fun t env => omap main_runs t = [] /\ K env) ->
  (forall env, K env ->
     wp (execute j (exec_command a) env) (fun t _ => forall x, x ∈ omap is_run t -> P x)) ->
  wp (cleanup j) (fun t _ => omap is_run t = []) ->
  wp (extra_env ⇐ child_env;
      status ⇐? run_command j a extra_env;
      _ ⇐? (if no_jail_cleanup a then Ret (Ok tt) else on_os (cleanup j));
      Ret (Ok (exit_code status))) (fun t _ => all_run P t).
Proof.
  intros Henv Hx Hcl. wp_step. eapply wp_mono; [|exact Henv]. intros t1 env [Ht1 He].
  wp_step. eapply wp_mono; [|by apply run_command_all, Hx]. intros t2 r Ht2.
  assert (Hall : forall t, omap main_runs t = [] -> all_run P (t1 ++ t2 ++ t)).
  { intros t Ht x. rewrite !main_runs_app, Ht1, Ht, app_nil_r. apply Ht2. }
  destruct r as [status|e]; [|specialize (Hall [] eq_refl); by rewrite app_nil_r in Hall].
  wp_step. apply (wp_mono _ (fun t _ => omap main_runs t = [])).
  - intros t3 [[]|e] Ht3; [apply wp_ret; rewrite app_nil_r|]; by apply Hall.
  - destruct (no_jail_cleanup a); [done|]. apply wp_on_os. eapply wp_mono; [|exact Hcl].
    intros t r Ht. by rewrite main_runs_os.
Qed.

End AnyJail.

Lemma linux_ran_runs (m : ManagedJail LinuxJail) (c : JailConfig) (a : RunArgs) :
  config (jail m) = c ->
  wp (extra_env ⇐ child_env;
      status ⇐? run_command m a extra_env;
      _ ⇐? (if no_jail_cleanup a then Ret (Ok tt) else on_os (cleanup m));
      Ret (Ok (exit_code status)))
    (fun t _ => all_run (executes (config_jail_id c) a) t).
Proof.
  intros Hc. apply (ran_all m a _ (fun _ => True)).
  - eapply wp_mono; [|apply child_env_runs_none]. by intros t env Ht.
  - intros env _. cbn [execute managed_jail]. unfold managed_execute.
    eapply wp_mono; [|apply linux_execute_executes]. intros t r Ht x Hin.
    destruct (Ht x Hin) as (p & u1 & u2 & u3 & Hp & Ha & He).
    exists p. split; [done|]. rewrite Ha. unfold namespace_name, jail_name. by rewrite Hc.
  - eapply wp_mono; [|by apply (managed_cleanup_reclaims m (config_jail_id c)), (f_equal config_jail_id)].
    intros t r [Hi _]. rewrite <- main_runs_os. by apply inert_no_runs.
Qed.

Lemma in_jail_runs (m : ManagedJail LinuxJail) (c : JailConfig) (a : RunArgs) :
  canary_ok m (config_jail_id c) -> valid_id (config_jail_id c) ->
  managed_heartbeat m = true -> jail m = linux_new c ->
  wp (in_jail m a) (fun t _ => omap main_runs t = [] \/
    exists t1 t2, t = (os_event <$> t1) ++ t2 /\ omap is_run t1 = [] /\ filtered c t1 /\
      all_run (executes (config_jail_id c) a) t2).
Proof.
  intros Hd Hid Hh Hj. unfold in_jail. wp_step. apply wp_on_os.
  assert (Hu : uses (config_jail_id c) (jail m)) by (rewrite Hj; apply linux_new_uses).
  eapply wp_mono; [|exact (wp_conj _ _ _ (managed_setup_allowed m _ 0 Hd Hid Hu)
                                         (managed_setup_filtered m c 0 Hh Hj))].
  intros t1 [ready m'] [[Hp Hu'] Hf].
  assert (Hr1 : omap is_run t1 = []) by (rewrite <- main_runs_os; by apply (no_runs (prepares (config_jail_id c))); [intros e []|]).
  assert (Hdrop : forall r t0, omap main_runs t0 = [] -> wp (on_os (drop_jail m') ;; Ret (Err r) : prog MainSig (Result Z Error))
    (fun t _ => omap main_runs ((os_event <$> t1) ++ t0 ++ t) = [])).
  { intros r t0 Ht0. wp_step. apply wp_on_os.
    eapply wp_mono; [|by apply (managed_drop_reclaims m' (config_jail_id c))]. intros t [] [Hi _].
    apply wp_ret. by rewrite !main_runs_app, main_runs_os, Hr1, Ht0, app_nil_r, inert_no_runs. }
  destruct ready as [[]|e].
  - destruct (Hf eq_refl) as [Hfl Hc]. wp_step. unfold sched. apply wp_lift_r, wp_true. intros t2 handler.
    destruct handler; cbn [negb].
    + eapply wp_mono; [|by apply linux_ran_runs]. intros t r Ht. right. eexists t1, _.
      split; [done|]. split; [done|]. split; [done|]. intros x. rewrite main_runs_app, main_runs_other. apply Ht.
    + eapply wp_mono; [|apply Hdrop, main_runs_other]. intros t r Ht. left. exact Ht.
  - eapply wp_mono; [|by apply (Hdrop e [])]. intros t r Ht. left. exact Ht.
Qed.

Definition prog_main (e : event MainSig) : event ProgSig := @Ev ProgSig (inl (ev_op e)) (ev_ans e).
Definition prog_net (e : event NetSig) : event ProgSig :=
  @Ev ProgSig (inr (inr (inr (inl (ev_op e))))) (ev_ans e).

(** The command an event of the program starts. *)
Definition runs (e : event ProgSig) : option Command :=
  match e with
  | {| ev_op := inl o; ev_ans := a |} => main_runs (@Ev MainSig o a)
  | _ => None
  end.

Lemma runs_main (t : list (event MainSig)) : omap runs (prog_main <$> t) = omap main_runs t.
Proof. induction t as [|[o a] t IH]; [done|]. csimpl. by rewrite IH. Qed.

Lemma runs_os (t : list (event OsSig)) : omap runs (prog_main <$> (os_event <$> t)) = omap is_run t.
Proof. by rewrite runs_main, main_runs_os. Qed.

(** Operations that are not of the jail's part run no command. *)
Definition elsewhere (e : event (sig_sum BuildSig (sig_sum NewSig (sig_sum NetSig (sig_sum AnySig LogSig))))) :
    event ProgSig := @Ev ProgSig (inr (ev_op e)) (ev_ans e).

Lemma runs_elsewhere t : omap runs (elsewhere <$> t) = [].
Proof. induction t as [|e t IH]; [done|exact IH]. Qed.

(** The command's only way out: a proxy that listens for HTTP and for HTTPS on
    the jail's host address, on the ports the namespace's filter was loaded
    for. *)
Definition behind_proxy (c : JailConfig) (a : RunArgs) (pre : list (event ProgSig)) (command : Command) : Prop :=
  exists p q hp sp t1 t2 t3,
    let jid := config_jail_id c in
    let host := compute_host_ip_for_jail_id jid in
    occurs (prog_net <$> t1) pre /\ listening (mkSocketAddr (V4 host) hp) "HTTP" p t1 /\
    occurs (prog_net <$> t2) pre /\ listening (mkSocketAddr (V4 host) sp) "HTTPS" q t2 /\
    occurs (prog_main <$> (os_event <$> t3)) pre /\ egress_filtered jid host p q t3 /\
    (forall k, fate (egress_ruleset host p q) k = egress host p q k) /\
    executes jid a command.

Lemma jail_ip_specific jid : is_specific_non_loopback (V4 (compute_host_ip_for_jail_id jid)) = true.
Proof.
  unfold compute_host_ip_for_jail_id, compute_subnet_for_jail. cbn.
  by rewrite !bool_decide_eq_true_2 by discriminate.
Qed.

(** The addresses of a strong jail's proxy. *)
Lemma strong_addresses jid :
  wp (bind_addresses Strong jid) (fun t '(http, https) => omap is_run t = [] /\ exists hp sp,
    let ip := V4 (compute_host_ip_for_jail_id jid) in
    http = Some (mkSocketAddr ip hp) /\ https = Some (mkSocketAddr ip sp)).
Proof.
  simpl. intros v1 v2. split; [done|]. unfold on_jail_ip.
  destruct (v1 ≫= _) as [?|], (v2 ≫= _) as [?|]; by eexists _, _.
Qed.

Lemma run_jail_runs (c : JailConfig) (a : RunArgs) :
  valid_id (config_jail_id c) -> enable_heartbeat c = true ->
  wp (run_jail KindManagedLinux c a) (fun t _ => omap main_runs t = [] \/
    exists t1 t2, t = (os_event <$> t1) ++ t2 /\ omap is_run t1 = [] /\ filtered c t1 /\
      all_run (executes (config_jail_id c) a) t2).
Proof.
  intros Hid Hhb. unfold run_jail, run_in_jail. wp_step. apply wp_on_os.
  assert (Hno : forall t, Forall (prepares (config_jail_id c)) t -> omap is_run t = []).
  { intros t Ht. rewrite <- main_runs_os. by apply (no_runs (prepares (config_jail_id c))); [intros e []|]. }
  eapply wp_mono; [|apply (wp_canary_dir (config_jail_id c))]. intros t1 d [Ht1%Hno Hd].
  wp_step. apply wp_on_os. unfold os, perform. cbn [wp]. intros made.
  wp_step. apply wp_on_os. unfold managed_new. wp_step.
  eapply wp_mono; [|apply (wp_canary_dir (config_jail_id c))]. intros t2 d' [Ht2%Hno Hd']. apply wp_ret.
  rewrite app_nil_r. eapply wp_mono; [|by apply (in_jail_runs _ c); [by split|done|exact Hhb|reflexivity]].
  intros t r Ht. set (t0 := t1 ++ @Ev OsSig (CreateDirAll d) made :: t2).
  assert (Ht0 : omap is_run t0 = []) by (unfold t0; rewrite omap_app; csimpl; by rewrite Ht1, Ht2).
  assert (Heq : forall t', (os_event <$> t1) ++ (os_event <$> [@Ev OsSig (CreateDirAll d) made]) ++
    (os_event <$> t2) ++ t' = (os_event <$> t0) ++ t') by (intros t'; unfold t0; rewrite fmap_app; csimpl; by rewrite <- app_assoc).
  rewrite Heq. destruct Ht as [Ht|(t3 & t4 & -> & Ht3 & (t5 & Ho & Hf) & Hx)].
  - left. by rewrite main_runs_app, main_runs_os, Ht0, Ht.
  - right. exists (t0 ++ t3), t4. split; [by rewrite fmap_app, app_assoc|].
    split; [by rewrite omap_app, Ht0, Ht3|]. split; [|done]. exists t5. split; [by apply occurs_r|done].
Qed.

(** What the launch of a Linux jail did before the jail, and in it. *)
Lemma launched_behind (c : JailConfig) (a : RunArgs) p q hp sp tn tb l1 l2 (t0 : list (event OsSig)) t1 t2 :
  let ip := V4 (compute_host_ip_for_jail_id (config_jail_id c)) in
  listening (mkSocketAddr ip hp) "HTTP" p l1 -> listening (mkSocketAddr ip sp) "HTTPS" q l2 ->
  tb = prog_net <$> (l1 ++ l2) -> tb = elsewhere <$> tn ->
  omap is_run t0 = [] -> omap is_run t1 = [] -> filtered (with_ports p q c) t1 ->
  all_run (executes (config_jail_id c) a) t2 -> forall tm,
  precedes runs (behind_proxy c a) ((prog_main <$> (os_event <$> t0)) ++ (elsewhere <$> tm) ++ tb ++
    (prog_main <$> ((os_event <$> t1) ++ t2))).
Proof.
  intros ip H1' H2' Htb Hel H0' Ht1 (t3 & Ho & Hf) Hx tm. rewrite fmap_app, !app_assoc.
  apply precedes_app.
  - apply precedes_none. by rewrite !omap_app, !runs_os, runs_elsewhere, Hel, runs_elsewhere, H0', Ht1.
  - apply precedes_in. intros pre x Hin. rewrite runs_main in Hin.
    exists p, q, hp, sp, l1, l2, t3. split_and!; [|done| |done| |done|intros k; apply egress_fate|by apply Hx].
    + apply occurs_l, occurs_l, occurs_r. rewrite Htb, fmap_app. apply occurs_l, occurs_refl.
    + apply occurs_l, occurs_l, occurs_r. rewrite Htb, fmap_app. apply occurs_r, occurs_refl.
    + apply occurs_l, occurs_r. by do 2 apply occurs_fmap.
Qed.

Lemma launch_behind_proxy (re : RuleEngine AnyEngine) (c : JailConfig) (a : Args)
    (Hmode : arg_server a = false /\ arg_weak a = false /\ arg_docker_run a = false)
    (Hid : valid_id (config_jail_id c)) (Hhb : enable_heartbeat c = true) :
  wp (launch re c a) (fun t _ => precedes runs (behind_proxy c (run_args a)) t).
Proof.
  destruct Hmode as (Hs & Hw & Hd). unfold launch. rewrite Hs, Hw, Hd. cbn [mode_of create_jail_kind].
  wp_step. apply wp_lift_l, wp_lift_l. eapply wp_mono; [|apply strong_addresses].
  intros t0 [hb sb] (Ht0 & hp & sp & -> & ->). wp_step. apply wp_lift_r, wp_lift_r, wp_lift_l.
  eapply wp_mono; [|apply new_keeps]. intros tn [[s cell]|] Hk; cycle 1.
  { apply wp_ret, precedes_none. by rewrite !omap_app, runs_os, runs_elsewhere, Ht0. }
  destruct (Hk _ _ eq_refl) as (Hh & Hsb & _).
  wp_step. do 3 apply wp_lift_r. apply wp_lift_l.
  eapply wp_mono; [|apply (start_listens s _ _ Hh Hsb); apply jail_ip_specific].
  intros tp [[p q]|e] Hl; cycle 1.
  { apply wp_ret, precedes_none. by rewrite !omap_app, runs_os, !runs_elsewhere, Ht0. }
  destruct (Hl _ _ eq_refl) as (l1 & l2 & -> & Hl1 & Hl2). wp_step. apply wp_lift_l.
  eapply wp_mono; [|exact (run_jail_runs (with_ports p q c) _ Hid Hhb)]. intros t r Ht. apply wp_ret.
  rewrite app_nil_r.
  destruct Ht as [Ht|(t1 & t2 & -> & Ht1 & Hf & Hx)].
  - apply precedes_none. by rewrite !omap_app, runs_os, !runs_elsewhere, runs_main, Ht0, Ht.
  - eapply (launched_behind c (run_args a) p q hp sp); try done. by rewrite <- !list_fmap_compose.
Qed.

Lemma behind_proxy_later c a t pre command :
  behind_proxy c a pre command -> behind_proxy c a (t ++ pre) command.
Proof.
  intros (p & q & hp & sp & t1 & t2 & t3 & Ho1 & Hl1 & Ho2 & Hl2 & Ho3 & Hf & Hk & Hx).
  exists p, q, hp, sp, t1, t2, t3. split_and!; try done; by apply occurs_r.
Qed.

(** An answer of the random generator is in range. *)
Definition index_ok (e : event ProgSig) : Prop :=
  match e with
  | {| ev_op := inl (inl (GenIndex n)); ev_ans := i |} => 0 <= i < n
  | _ => True
  end.

Lemma index_ok_os t : Forall index_ok (prog_main <$> (os_event <$> t)) -> indices_in_range t.
Proof.
  unfold indices_in_range. induction t as [|[o a] t IH]; [by constructor|].
  intros [He Ht]%Forall_cons. constructor; [|by apply IH]. by destruct o.
Qed.

(** A fresh configuration. *)
Lemma config_new_fresh : wp config_new (fun t c => omap is_run t = [] /\ enable_heartbeat c = true /\
  (indices_in_range t -> valid_id (config_jail_id c))).
Proof.
  unfold config_new. wp_step.
  assert (Hn : wp (generate_base36_id 8) (fun t _ => omap is_run t = [])).
  { generalize 8%nat. intros n. induction n as [|n IH]; cbn [generate_base36_id]; [done|].
    simpl. intros i. wp_step. eapply wp_mono; [|exact IH]. intros t r Ht. simpl. by rewrite app_nil_r. }
  eapply wp_mono; [|exact (wp_conj _ _ _ (generate_base36_id_spec 8) Hn)]. intros t jid [Hs Ht].
  apply wp_ret. rewrite app_nil_r. split; [done|split; [done|]]. intros Hi.
  by apply Hs.
Qed.

(** What comes after the fresh configuration and the rule engine. *)
Lemma after_config c (a : RunArgs) t0 tb t : omap is_run t0 = [] ->
  (indices_in_range t0 -> valid_id (config_jail_id c)) ->
  (valid_id (config_jail_id c) -> precedes runs (behind_proxy c a) t) ->
  let all := (prog_main <$> (os_event <$> t0)) ++ (elsewhere <$> tb) ++ t in
  Forall index_ok all -> precedes runs (fun pre command => exists c, behind_proxy c a pre command) all.
Proof.
  intros Ht0 Hid Ht all Hok. unfold all in Hok. rewrite app_assoc in Hok.
  pose proof Hok as [[Hi%index_ok_os%Hid _]%Forall_app _]%Forall_app.
  unfold all. rewrite app_assoc. apply precedes_app.
  - apply precedes_none. by rewrite omap_app, runs_os, runs_elsewhere, Ht0.
  - eapply precedes_mono; [|by apply Ht]. intros pre x Hx. exists c. by apply behind_proxy_later.
Qed.

(** C4: the command runs behind the proxy.  Whatever rules and command the
    program is given, for a Linux jail, and in every environment in which the
    random generator keeps to its range, a command is started only after three
    things succeeded: a socket was bound to the jail's own host
    address and its connections are served as HTTP, another one was bound
    there and its connections are served as HTTPS, and the namespace's filter
    was loaded, for that address and for the very ports these two sockets got;
    under it every new packet to another place, and to another port there but
    the DNS one, is dropped, and web traffic goes to these two ports ([egress]).
    What is started is the user's command inside that namespace. *)
Theorem command_runs_behind_proxy (a : Args)
    (Hmode : arg_cleanup a = false /\ arg_server a = false /\ arg_weak a = false /\
             arg_docker_run a = false) :
  wp (main a) (fun t _ => Forall index_ok t ->
    precedes runs (fun pre command => exists c, behind_proxy c (run_args a) pre command) t).
Proof.
  destruct Hmode as (Hc & Hmode). unfold main. rewrite Hc. wp_step. apply wp_lift_l, wp_lift_l.
  eapply wp_mono; [|apply config_new_fresh]. intros t0 c (Ht0 & Hhb & Hid).
  wp_step. apply wp_lift_r, wp_lift_l, wp_true. intros tb built.
  apply (wp_mono _ (fun t _ => valid_id (config_jail_id c) ->
                               precedes runs (behind_proxy c (run_args a)) t)).
  { intros t r Ht. by apply (after_config c (run_args a) t0 _ t Ht0 Hid). }
  destruct (decide (all_ascii base36 (config_jail_id c) = true)) as [Ec|Ec]; [|by apply wp_true].
  assert (Hend : forall r : Outcome, wp (Ret r : prog ProgSig Outcome)
    (fun t _ => valid_id (config_jail_id c) -> precedes runs (behind_proxy c (run_args a)) t))
    by (intros r; apply wp_ret; intros _; by apply precedes_none).
  destruct built as [[re cell]|[e|stderr]]; [|apply Hend..].
  destruct (arg_test a) as [vals|].
  - destruct (test_request vals) as [[m url]|]; [|apply Hend].
    wp_step. do 4 apply wp_lift_r. apply wp_true. intros t [out code]. apply wp_ret. intros _.
    apply precedes_none. by rewrite app_nil_r, runs_elsewhere.
  - eapply wp_mono; [|exact (launch_behind_proxy re c a Hmode Ec Hhb)]. by intros t r Ht _.
Qed.

(** The operation on sockets an event is. *)
Definition socket_op (e : event ProgSig) : option net_op :=
  match ev_op e with inr (inr (inr (inl o))) => Some o | _ => None end.

Definition nothing_started (t : list (event ProgSig)) : Prop :=
  omap socket_op t = [] /\ omap runs t = [].

Lemma no_socket_main (t : list (event MainSig)) : omap socket_op (prog_main <$> t) = [].
Proof. induction t as [|e t IH]; [done|exact IH]. Qed.

Definition build_event (e : event BuildSig) : event (sig_sum BuildSig (sig_sum NewSig (sig_sum NetSig
    (sig_sum AnySig LogSig)))) := @Ev (sig_sum BuildSig _) (inl (ev_op e)) (ev_ans e).

Lemma no_socket_build t : omap socket_op (elsewhere <$> (build_event <$> t)) = [].
Proof. induction t as [|e t IH]; [done|exact IH]. Qed.

Lemma no_socket_rules (t : list (event (sig_sum AnySig LogSig))) :
  omap socket_op ((fun e => @Ev ProgSig (inr (inr (inr (inr (ev_op e))))) (ev_ans e)) <$> t) = [] /\
  omap runs ((fun e => @Ev ProgSig (inr (inr (inr (inr (ev_op e))))) (ev_ans e)) <$> t) = [].
Proof. induction t as [|e t [IH1 IH2]]; by split. Qed.

(** What a dry run tells: the decision of the engine on the request of the
    arguments, asked once for a loopback client. *)
Definition dry_run_outcome (re : RuleEngine AnyEngine) (vals : list string) (r : Outcome) : Prop :=
  match test_request vals with
  | None => r = Panicked
  | Some (method, url) => exists t0 x re' out,
      possible (evaluate_with_context_and_ip re method url "127.0.0.1") t0 (x, re') /\
      r = Exit out (match action x with Allow => 0 | Deny => 1 end)
  end.

(** C37: the program fails closed.  It has a rule engine only when the log it is
    given was opened, the rule file it is given was read and its code compiles,
    and then it is the engine of that very log, script, program or code; there
    is no other to fall back on.  Without one nothing is started: no socket is
    touched and no command runs, and the program returns the error, or exits
    with 1 and the engine's message.  A dry run starts nothing either: it exits
    with 0 when the engine allows the request and with 1 when it denies it. *)
Theorem main_fails_closed (a : Args) (Hc : arg_cleanup a = false) :
  wp (main a) (fun t r => exists tb built, possible (build_rule_engine (rule_args a)) tb built /\
    (existsb refused tb = true -> Result.is_err built = true) /\
    match built with
    | Err stop => nothing_started t /\
        r = match stop with
            | Engines.Failed e => Failed e
            | Exit1 stderr => Exit [stderr] 1
            end
    | Ok (re, cell) =>
        (exists e, re = from_trait e (is_some (request_log_path (rule_args a))) /\
                   built_for (choose_engine (rule_args a)) tb e cell) /\
        forall vals, arg_test a = Some vals -> nothing_started t /\ dry_run_outcome re vals r
    end).
Proof.
  unfold main. rewrite Hc. wp_step. apply wp_lift_l, wp_lift_l.
  eapply wp_mono; [|apply config_new_fresh]. intros t0 c (Ht0 & _ & _).
  assert (Hcfg : nothing_started (prog_main <$> (os_event <$> t0)))
    by (split; [apply no_socket_main|by rewrite runs_os]).
  wp_step. apply wp_lift_r, wp_lift_l.
  eapply wp_mono; [|apply wp_conj; [apply wp_self|apply wp_conj;
    [apply build_rule_engine_spec|apply refused_no_engine]]].
  intros tb built (Hp & Hb & Href).
  assert (Hall : forall t, nothing_started t ->
    nothing_started ((prog_main <$> (os_event <$> t0)) ++ (elsewhere <$> (build_event <$> tb)) ++ t)).
  { intros t [Hs Hr]. destruct Hcfg as [Hs0 Hr0].
    split; by rewrite !omap_app, ?Hs0, ?Hr0, ?no_socket_build, ?runs_elsewhere, ?Hs, ?Hr. }
  destruct built as [[re cell]|[e|stderr]]; cycle 1.
  { apply wp_ret. exists tb, (Err (Engines.Failed e)). do 2 (split; [done|]). split; [by apply Hall|done]. }
  { apply wp_ret. exists tb, (Err (Exit1 stderr)). do 2 (split; [done|]). split; [by apply Hall|done]. }
  destruct (arg_test a) as [vals|];
    [|apply wp_true; intros t r; exists tb, (Ok (re, cell)); do 3 (split; [done|]); done].
  apply (wp_mono _ (fun t r => nothing_started t /\ dry_run_outcome re vals r)).
  { intros t r [Ht Hr]. exists tb, (Ok (re, cell)). do 3 (split; [done|]). intros v [= <-].
    split; [by apply Hall|done]. }
  unfold dry_run_outcome. destruct (test_request vals) as [[m url]|]; [|by apply wp_ret].
  wp_step. do 4 apply wp_lift_r. unfold dry_run. wp_step.
  eapply wp_mono; [|apply wp_self]. intros t [x re'] Hx. apply wp_ret. rewrite app_nil_r.
  destruct (action x) eqn:Ea; apply wp_ret; rewrite app_nil_r, <- !list_fmap_compose;
    (split; [split; apply (no_socket_rules t)|]); eexists t, x, re', _; rewrite Ea;
    (split; [exact Hx|reflexivity]).
Qed.

End Behind.

(** ** Examples *)

#[export] Instance toy_methods : MethodParser :=
  {| parse_method s := if bool_decide (s ∈ ["GET"; "POST"]) then Some s else None |}.

Definition example_run : Args := {|
  rule_args := {| sh := Some "./rules.sh"; proc := None; js := None; js_file := None; request_log_path := None |};
  run_args := example_args;
  arg_weak := false; arg_cleanup := false; arg_server := false; arg_test := None; arg_docker_run := false;
|}.

Lemma command_runs_behind_proxy_witness :
  wp (main (R := toy_rcgen) (H0 := toy_v8) (H1 := any_url) (H2 := table_json) example_run)
    (fun t _ => Forall index_ok t ->
      precedes runs (fun pre command => exists c, behind_proxy c example_args pre command) t).
Proof. exact (command_runs_behind_proxy example_run (conj eq_refl (conj eq_refl (conj eq_refl eq_refl)))). Defined.

Definition example_test : Args := {|
  rule_args := {| sh := None; proc := None; js := None; js_file := Some "rules.js"; request_log_path := None |};
  run_args := example_args;
  arg_weak := false; arg_cleanup := false; arg_server := false; arg_test := Some ["https://a.com/"];
  arg_docker_run := false;
|}.

Lemma main_fails_closed_witness :
  wp (main (R := toy_rcgen) (H0 := toy_v8) (H1 := any_url) (H2 := table_json) example_test)
    (fun t r => exists tb built,
      possible (build_rule_engine (H := toy_v8) (rule_args example_test)) tb built /\
      (existsb refused tb = true -> Result.is_err built = true) /\
      match built with
      | Err stop => nothing_started t /\
          r = match stop with Engines.Failed e => Failed e | Exit1 stderr => Exit [stderr] 1 end
      | Ok (re, cell) =>
          (exists e, re = from_trait e false /\
             built_for (H := toy_v8) (UseJsFile "rules.js") tb e cell) /\
          forall vals, Some ["https://a.com/"] = Some vals -> nothing_started t /\
            dry_run_outcome (H0 := toy_v8) (H1 := any_url) (H2 := table_json) re vals r
      end).
Proof. exact (main_fails_closed example_test eq_refl). Defined.
