(* ===== verification/WeakRun.v ===== *)
(** * A run in weak mode ([src/main.rs], [src/jail/weak.rs], [src/proxy.rs])

    Nothing isolates the command here: the variables it is given must lead to
    the sockets the proxy listens on.  This file composes the two. *)

From S2P Require Import Prelude Effects Http Rules RuleCommon Process ShellRules ProcRules V8 JsRules Engines Net Paths Tls Proxy Server Os Jail LinuxJail WeakJail Bind Main Program.
From Stdlib Require Import Ascii.

(** ** The proxy's sockets *)

Definition bound_at (addr : SocketAddr) (listener : Z) (t : list (event NetSig)) : Prop :=
  bound addr listener t \/ exists t0, t = t0 ++ [@Ev NetSig (TcpBind addr) (Ok listener)].

(** A socket bound to an address, the port it got, and the task that accepts
    its connections. *)
Definition serves (addr : SocketAddr) (protocol : string) (port : Z) (t : list (event NetSig)) : Prop :=
  exists t0 listener, bound_at addr listener t0 /\
    t = t0 ++ [@Ev NetSig (LocalPort listener) (Ok port); @Ev NetSig (SpawnListener protocol listener) tt].

(** The address that is asked for, or some port of the loopback. *)
Definition asked_for (bind : option SocketAddr) (addr : SocketAddr) : Prop :=
  match bind with Some a => addr = a | None => addr_ip addr = V4 LOCALHOST4 end.

Lemma bind_or_pick_bound bind :
  wp (bind_or_pick bind) (fun t r => forall l, r = Ok l -> exists addr, bound_at addr l t /\ asked_for bind addr).
Proof.
  destruct bind as [a|].
  - destruct (is_specific_non_loopback (addr_ip a)) eqn:Ea.
    + eapply wp_mono; [|by apply bind_listener_bound]. intros t r Hb l Hr. exists a. split; [|done].
      left. by apply Hb.
    + unfold bind_or_pick, bind_listener. rewrite Ea. intros r l ->. exists a. split; [|done]. by right; exists [].
  - cbn [bind_or_pick]. unfold bind_to_available_port.
    eapply wp_mono; [|by apply bind_attempts_spec]. intros t r (fs & Hr) l ->.
    destruct Hr as (port & _ & ->). exists (mkSocketAddr (V4 LOCALHOST4) port). split; [|done]. right.
    eexists (_ ++ [_]). by rewrite <- app_assoc.
Qed.

Section Starts.
Context `{R : Rcgen} {E : Type}.

Lemma start_serves (s : ProxyServer (E := E)) :
  wp (start s) (fun t r => forall p q, r = Ok (p, q) -> exists a1 a2 t1 t2,
    t = t1 ++ t2 /\ serves a1 "HTTP" p t1 /\ serves a2 "HTTPS" q t2 /\
    asked_for (http_bind s) a1 /\ asked_for (https_bind s) a2).
Proof.
  unfold start.
  apply wp_try. eapply wp_mono; [|apply bind_or_pick_bound]. intros t1 [l1|e] Hb1; [|done].
  cbn. intros [p|e]; [|done]. cbn. intros [].
  apply wp_try. eapply wp_mono; [|apply bind_or_pick_bound]. intros t2 [l2|e] Hb2; [|done].
  cbn. intros [q|e]; [|done]. cbn. intros [] p' q' [= <- <-].
  destruct (Hb1 _ eq_refl) as (a1 & Ha1 & Hh), (Hb2 _ eq_refl) as (a2 & Ha2 & Hs).
  exists a1, a2. eexists _, _. split; [|split; [by exists t1, l1|split; [by exists t2, l2|done]]].
  by rewrite <- app_assoc.
Qed.

End Starts.

(** ** The command *)

Section WeakRun.
Context `{R : Rcgen} `{WebPki} `{DefaultHasher}.

Definition PROXY_VARIABLES : list string := ["HTTP_PROXY"; "http_proxy"; "HTTPS_PROXY"; "https_proxy"].

(** None of the variables is among those of the certificates. *)
Lemma ca_env_vars_other path k : k ∈ PROXY_VARIABLES -> last_value (ca_env_vars path) k = None.
Proof. unfold PROXY_VARIABLES. rewrite !elem_of_cons, elem_of_nil. by intros [->|[->|[->|[->|[]]]]]. Qed.

Lemma get_ca_env_vars_shape :
  wp get_ca_env_vars (fun _ r => forall vars, r = Ok vars -> exists path, vars = ca_env_vars path).
Proof.
  unfold get_ca_env_vars. wp_step. apply wp_true. intros t [path|e]; [|done].
  wp_step. apply wp_true. intros t' found. wp_step. apply wp_true. intros t'' [path'|e]; [|done].
  apply wp_ret. intros vars [= <-]. by exists path'.
Qed.

Lemma last_value_app l l' k : last_value (l ++ l') k =
  match last_value l' k with Some v => Some v | None => last_value l k end.
Proof. unfold last_value at 1. rewrite foldl_app. apply foldl_last_value. Qed.

Definition other (env : list (string * string)) : Prop :=
  forall k, k ∈ PROXY_VARIABLES -> last_value env k = None.

Lemma with_res_options_other env : other env ->
  wp (with_res_options env) (fun t env' => omap is_run t = [] /\ other env').
Proof.
  intros He. unfold with_res_options. intros [v|]; [by split|]. split; [done|].
  destruct (existsb _ _); [done|]. intros k Hk. rewrite last_value_app, (He k Hk).
  revert Hk. unfold PROXY_VARIABLES. rewrite !elem_of_cons, elem_of_nil. by intros [->|[->|[->|[->|[]]]]].
Qed.

Lemma child_env_other : wp child_env (fun t env => omap main_runs t = [] /\ other env).
Proof.
  unfold child_env. wp_step. apply wp_lift_r, wp_lift_l.
  eapply wp_mono; [|apply get_ca_env_vars_shape]. intros t1 vars Hv. apply wp_on_os.
  eapply wp_mono; [|apply with_res_options_other].
  - intros t2 env [Ht2 He]. split; [|done].
    rewrite main_runs_app, main_runs_os, Ht2, app_nil_r. apply main_runs_other.
  - destruct vars as [vars|e]; [|by intros k Hk]. destruct (Hv _ eq_refl) as [path ->].
    intros k. apply ca_env_vars_other.
Qed.

(** The command, with both spellings of the variables leading to the ports. *)
Definition pointed (http_port https_port : Z) (a : RunArgs) (command : Command) : Prop :=
  exec_command a = program command :: args command /\
  (forall k, k ∈ ["HTTP_PROXY"; "http_proxy"] ->
     Command.env_value command k = Some ("http://127.0.0.1:" +:+ dec http_port)) /\
  (forall k, k ∈ ["HTTPS_PROXY"; "https_proxy"] ->
     Command.env_value command k = Some ("http://127.0.0.1:" +:+ dec https_port)).

(** To the ports of a configuration. *)
Abbreviation pointed_by c := (pointed (http_proxy_port c) (https_proxy_port c)).

Lemma is_run_ran (t : list (event OsSig)) (c : Command) : c ∈ omap is_run t -> c ∈ omap ran t.
Proof.
  rewrite !list_elem_of_omap. intros (e & He & Hc). exists e. split; [done|].
  by destruct e as [[] a].
Qed.

Lemma weak_execute_pointed (j : WeakJail) (a : RunArgs) env : other env ->
  wp (execute j (exec_command a) env) (fun t _ => forall x, x ∈ omap is_run t -> pointed_by (weak_config j) a x).
Proof.
  intros He. eapply wp_mono; [|apply weak_child_uses_proxy]. intros t r Hx x Hin%is_run_ran.
  unfold pointed. destruct (exec_command a) as [|p ws]; [destruct Hx as [-> _]; by apply not_elem_of_nil in Hin|].
  destruct Hx as (c & Hc & <- & <- & Hv). rewrite Hc in Hin. apply list_elem_of_singleton in Hin as ->.
  split; [done|]. split; intros k; rewrite !elem_of_cons, elem_of_nil; intros [->|[->|[]]];
    rewrite Hv, He; try done; by unfold PROXY_VARIABLES; set_solver.
Qed.

(** What comes after the setup, which does nothing. *)
Lemma weak_in_jail (c : JailConfig) (a : RunArgs) :
  wp (in_jail (weak_new c) a) (fun t _ => all_run (pointed_by c a) t).
Proof.
  unfold in_jail. wp_step. apply wp_on_os, wp_ret. cbn [fmap list_fmap].
  wp_step. unfold sched. apply wp_lift_r, wp_true. intros t1 handler. destruct handler; cbn [negb].
  - eapply wp_mono; [|exact (ran_all (weak_new c) a (pointed_by c a) other child_env_other
                               (weak_execute_pointed (weak_new c) a) eq_refl)].
    intros t r Ht x. rewrite app_nil_l, main_runs_app. intros [Hx|Hx]%elem_of_app; [|by apply Ht].
    by apply (all_run_none (pointed_by c a) _ (main_runs_other t1)).
  - wp_step. apply wp_on_os, wp_ret, wp_ret. apply all_run_none.
    rewrite app_nil_l, !app_nil_r. apply main_runs_other.
Qed.

Lemma weak_jail_runs (c : JailConfig) (a : RunArgs) :
  wp (run_jail KindWeak c a) (fun t _ => all_run (pointed_by c a) t).
Proof.
  unfold run_jail, run_in_jail. wp_step. apply wp_on_os.
  assert (Hd : wp get_canary_dir (fun t _ => omap is_run t = [])) by (by intros [d|]).
  eapply wp_mono; [|exact Hd]. intros t1 d Ht1. wp_step. apply wp_on_os.
  unfold os, perform. cbn [wp]. intros made. wp_step. apply wp_on_os, wp_ret. cbn [fmap list_fmap].
  eapply wp_mono; [|apply weak_in_jail]. intros t r Ht x.
  rewrite !main_runs_app, main_runs_os, Ht1. exact (Ht x).
Qed.

(** ** The whole *)

(** The two bind variables are not set. *)
Definition bind_unset (e : event ProgSig) : Prop :=
  match e with
  | {| ev_op := inl (inl (EnvVar name)); ev_ans := v |} => name = HTTP_BIND \/ name = HTTPS_BIND -> v = None
  | _ => True
  end.

Ltac unset_variables Hall :=
  repeat (let He := fresh in apply Forall_cons in Hall as [He Hall]; cbn in He;
          first [specialize (He (or_introl eq_refl)) | specialize (He (or_intror eq_refl))]).

Lemma weak_addresses jid :
  wp (bind_addresses Weak jid) (fun t '(http, https) => omap is_run t = [] /\
    (Forall bind_unset (prog_main <$> (os_event <$> t)) -> http = None /\ https = None)).
Proof.
  unfold bind_addresses, parse_bind_config, os, perform. cbn [bind wp]. intros v1 v2.
  unfold or_ip_any_port, parse_ip_from_env, os, perform.
  destruct (v1 ≫= parse_bind_value) as [x|] eqn:E1, (v2 ≫= parse_bind_value) as [y|] eqn:E2;
    cbn [bind wp]; intros; (split; [done|]); intros Hall; unset_variables Hall; subst; by simplify_option_eq.
Qed.

(** The command's way to the proxy: each pair of variables is the URL of the
    port that a socket of the right protocol got. *)
Definition leads_to_proxy (http https : option SocketAddr) (a : RunArgs)
    (pre : list (event ProgSig)) (command : Command) : Prop :=
  exists p q a1 a2 t1 t2,
    occurs (prog_net <$> t1) pre /\ serves a1 "HTTP" p t1 /\ asked_for http a1 /\
    occurs (prog_net <$> t2) pre /\ serves a2 "HTTPS" q t2 /\ asked_for https a2 /\
    pointed p q a command.

Lemma runs_before t0 t1 t2 : omap is_run t0 = [] ->
  omap runs ((prog_main <$> (os_event <$> t0)) ++ (elsewhere <$> t1) ++ (elsewhere <$> t2)) = [].
Proof. intros Ht0. by rewrite !omap_app, runs_os, !runs_elsewhere, Ht0. Qed.

(** C19: in weak mode the command is started only after the proxy listens, and
    its variables, in both spellings, are the loopback URLs of the very ports
    the sockets got: the HTTP one for HTTP, the HTTPS one for HTTPS.  With no
    bind variable set both sockets are on the loopback, where the URLs lead;
    otherwise they are at the address asked for, whatever it is. *)
Theorem weak_command_reaches_proxy (re : RuleEngine AnyEngine) (c : JailConfig) (a : Args)
    (Hmode : arg_server a = false /\ arg_weak a = true) :
  wp (launch re c a) (fun t _ => exists http https,
    (Forall bind_unset t -> http = None /\ https = None) /\
    precedes runs (leads_to_proxy http https (run_args a)) t).
Proof.
  destruct Hmode as [Hs Hw]. unfold launch. rewrite Hs, Hw. cbn [mode_of create_jail_kind].
  wp_step. apply wp_lift_l, wp_lift_l. eapply wp_mono; [|apply weak_addresses].
  intros t0 [http https] [Ht0 Hunset].
  assert (Hpost : forall t, precedes runs (leads_to_proxy http https (run_args a))
      ((prog_main <$> (os_event <$> t0)) ++ t) -> exists http https,
    (Forall bind_unset ((prog_main <$> (os_event <$> t0)) ++ t) -> http = None /\ https = None) /\
    precedes runs (leads_to_proxy http https (run_args a)) ((prog_main <$> (os_event <$> t0)) ++ t)).
  { intros t Ht. exists http, https. split; [|done]. intros [Hu _]%Forall_app. by apply Hunset. }
  wp_step. apply wp_lift_r, wp_lift_r, wp_lift_l.
  eapply wp_mono; [|apply new_keeps]. intros tn [[s cell]|] Hk; cycle 1.
  { apply wp_ret, Hpost, precedes_none. exact (runs_before t0 _ [] Ht0). }
  destruct (Hk _ _ eq_refl) as (Hh & Hsb & _).
  wp_step. do 3 apply wp_lift_r. apply wp_lift_l.
  eapply wp_mono; [|apply start_serves]. rewrite Hh, Hsb. intros tp [[p q]|e] Hl; cycle 1.
  { apply wp_ret, Hpost, precedes_none. rewrite app_nil_r. exact (runs_before t0 _ _ Ht0). }
  destruct (Hl _ _ eq_refl) as (a1 & a2 & l1 & l2 & -> & Hl1 & Hl2 & Ha1 & Ha2). wp_step. apply wp_lift_l.
  eapply wp_mono; [|exact (weak_jail_runs (with_ports p q c) _)]. intros t r Ht. apply wp_ret, Hpost.
  rewrite app_nil_r, app_assoc, app_assoc.
  apply precedes_app; [rewrite <- app_assoc; exact (precedes_none _ _ _ (runs_before t0 _ _ Ht0))|].
  apply precedes_in. intros pre x Hin. change (x ∈ omap runs (prog_main <$> t)) in Hin. rewrite runs_main in Hin.
  exists p, q, a1, a2, l1, l2. rewrite <- !list_fmap_compose, fmap_app.
  split_and!; try done; [| |by apply Ht]; apply occurs_l, occurs_r; [apply occurs_l|apply occurs_r];
    apply occurs_refl.
Qed.

End WeakRun.

(** ** Examples *)

Definition example_weak : Args := {|
  rule_args := {| sh := Some "./rules.sh"; proc := None; js := None; js_file := None; request_log_path := None |};
  run_args := example_args;
  arg_weak := true; arg_cleanup := false; arg_server := false; arg_test := None; arg_docker_run := false;
|}.

Lemma weak_command_reaches_proxy_witness :
  wp (launch (R := toy_rcgen) (Plain (ShellEngine (shell_new "./rules.sh"))) example_config example_weak)
    (fun t _ => exists http https, (Forall bind_unset t -> http = None /\ https = None) /\
      precedes runs (leads_to_proxy http https example_args) t).
Proof.
  exact (weak_command_reaches_proxy (Plain (ShellEngine (shell_new "./rules.sh"))) example_config
           example_weak (conj eq_refl eq_refl)).
Defined.

(** With an address of the host to bind to, the proxy is there and the URLs are
    still those of the loopback. *)
Example bound_elsewhere :
  parse_bind_value "10.0.0.5:8080" = Some (mkSocketAddr (V4 (mkIpv4 10 0 0 5)) 8080) /\
  proxy_url 8080 = "http://127.0.0.1:8080".
Proof. by split. Qed.
