(* ===== verification/Trust.v ===== *)
(** * The trust command of macOS ([src/main.rs], [httpjail trust])

    The one part of [main] that is of macOS only: it tells whether the CA is
    trusted, has it trusted, or takes the trust back, with the keychain of
    [Keychain] and the CA of [Tls]. *)

From S2P Require Import Prelude Effects Paths Process Os Tls Keychain Main.

Section Trust.
Context `{R : Rcgen}.

Definition TrustSig : Sig := sig_sum KcSig TlsSig.

Definition on_kc {A} (p : prog KcSig A) : prog TrustSig A := lift_l p.
Definition on_ca {A} (p : prog TlsSig A) : prog TrustSig A := lift_r p.

Definition ended (printed : list string) (r : Result unit Error) : Outcome :=
  match r with Ok _ => Exit printed 0 | Err e => Failed e end.

Definition trust_status : prog TrustSig Outcome :=
  trusted ⇐ on_kc Keychain.is_ca_trusted;
  Ret (match trusted with
       | None => Panicked
       | Some (Ok true) => Exit ["✓ httpjail CA certificate is trusted in keychain"] 0
       | Some (Ok false) =>
           Exit ["✗ httpjail CA certificate is NOT trusted in keychain";
                 "Run 'httpjail trust --install' to enable HTTPS interception"] 1
       | Some (Err e) => Exit ["Error checking trust status: " +:+ error_to_string e] 1
       end).

(** The CA's file, generated when there is none. *)
Definition ensure_ca : prog TrustSig (Result string Error) :=
  dir ⇐ on_kc (kc KcConfigDir);
  match dir with
  | None => Ret (Err (Msg "Could not find user config directory"))
  | Some dir =>
      let ca_cert_path := path_join (path_join dir "httpjail") "ca-cert.pem" in
      found ⇐ on_kc (kc (KcExists ca_cert_path));
      if negb found then
        _ ⇐? on_ca manager_new;
        Ret (Ok ca_cert_path)
      else Ret (Ok ca_cert_path)
  end.

Definition trust_install : prog TrustSig Outcome :=
  ca_cert_path ⇐ ensure_ca;
  match ca_cert_path with
  | Err e => Ret (Failed e)
  | Ok ca_cert_path =>
      installed ⇐ on_kc (Keychain.install_ca ca_cert_path);
      Ret (ended ["✓ httpjail CA certificate installed successfully"] installed)
  end.

(** [install] and [remove] are refused together; [install] is looked at first. *)
Definition trust_command (install remove : bool) : prog TrustSig Outcome :=
  if negb install && negb remove then trust_status
  else if install then trust_install
  else
    removed ⇐ on_kc Keychain.uninstall_ca;
    Ret (ended [] removed).

(** ** What an installation installs *)

Definition keychain_only (e : event TrustSig) : Prop :=
  match ev_op e with inl _ => True | inr _ => False end.

Lemma keychain_events (t : list (event KcSig)) :
  Forall keychain_only ((fun e => @Ev TrustSig (inl (ev_op e)) (ev_ans e)) <$> t).
Proof. by apply Forall_fmap, Forall_true. Qed.

Definition ca_file (dir : string) : string := path_join (path_join dir "httpjail") "ca-cert.pem".

(** The CA was there, or a certificate manager made it. *)
Definition generated_first (t : list (event TrustSig)) (r : Result string Error) : Prop :=
  exists dir t1 made, possible manager_new t1 made /\
    t = @Ev TrustSig (inl KcConfigDir) (Some dir) :: @Ev TrustSig (inl (KcExists (ca_file dir))) false ::
        ((fun e => @Ev TrustSig (inr (ev_op e)) (ev_ans e)) <$> t1) /\
    r = match made with Ok _ => Ok (ca_file dir) | Err e => Err e end.

Lemma ensure_ca_spec : wp ensure_ca (fun t r => Forall keychain_only t \/ generated_first t r).
Proof.
  unfold ensure_ca, on_kc, kc, perform. cbn [lift_l bind wp]. intros [dir|]; cbn [bind wp];
    [|left; by repeat constructor].
  intros [|]; cbn [negb bind wp]; [left; by repeat constructor|].
  wp_step. apply wp_lift_r.
  assert (Hp : wp manager_new (possible manager_new)) by (by apply wp_possible).
  eapply wp_mono; [|exact Hp]. intros t1 [m|e] Hm.
  - apply wp_ret. right. exists dir, t1, (Ok m). rewrite app_nil_r. by split.
  - right. exists dir, t1, (Err e). by split.
Qed.

(** The CA that is installed is the one on disk: a CA that is there is never
    generated again (no certificate operation is done at all), and when there
    is none, what is installed was made by a certificate manager that
    succeeded; if it failed nothing is installed, and its error is returned. *)
Theorem install_keeps_existing_ca :
  wp (trust_command true false) (fun t r => Forall keychain_only t \/
    exists t1 t2 made, generated_first t1 made /\ t = t1 ++ t2 /\ Forall keychain_only t2 /\
      match made with Err e => t2 = [] /\ r = Failed e | Ok _ => True end).
Proof.
  unfold trust_command, trust_install. cbn [negb andb]. wp_step.
  eapply wp_mono; [|apply ensure_ca_spec]. intros t1 [path|e] Ht1.
  - wp_step. apply wp_lift_l, wp_true. intros t2 r. apply wp_ret. rewrite app_nil_r.
    destruct Ht1 as [Ht1|Ht1]; [left; apply Forall_app; split; [done|apply keychain_events]|right].
    eexists t1, _, (Ok path). split; [done|split; [reflexivity|]]. split; [apply keychain_events|done].
  - apply wp_ret. rewrite app_nil_r. destruct Ht1 as [Ht1|Ht1]; [by left|right].
    exists t1, [], (Err e). rewrite app_nil_r. by repeat constructor.
Qed.

End Trust.
